(** * Opposed-colour highlight reconstruction (darktable, [src/iop/opposed.c])

    A shallow embedding of [_mask_dilated], [_raw_to_cmap],
    [_calc_linear_refavg], [_process_opposed], [_process_linear_opposed] and
    of the host side of [process_opposed_cl], with the properties of the
    reconstruction engine proved over it; and of the computing functions of
    the pixel-aspect scaler, [src/iop/scalepixels.c].

    - [float] values are IEEE-754 binary32 numbers ([spec_float] with 24 bits
      of precision and exponent bound 128), so NaN, infinities and signed
      zeros are all present and comparisons behave as in C;
    - [size_t] arithmetic is written out modulo 2^64;
    - the scratch mask is a block with bounds-checked loads and stores: an
      access outside the block makes the whole call undefined ([None]);
    - the buffers the caller owns ([input], [output], [tmpout], [points]) are
      total maps from indices to floats, and their accesses are not checked;
    - the passes are sequential loops: the OpenMP pragmas distribute the same
      iterations, and the sums are the ones of the sequential order;
    - what the file takes from elsewhere ([FC], [FCxtrans], [_calc_refavg],
      [powf], [HL_POWERF], [_color_magic], [feqf], [dt_image_altered], the
      allocators, [for_each_channel]) is a parameter, class [Externals];
    - a call returns, besides its buffers and the chrominance state it
      leaves, the list of the passes it ran;
    - the OpenCL device is a parameter too, class [Device]: the host
      function is run against the answers of the device, and what it returns
      comes with the log of the calls it made;
    - of [scalepixels.c], the interpolation kernel is a parameter, class
      [ScalePixels.Interpolation]. *)

From Stdlib Require Import ZArith Bool List Lia.
From Stdlib Require Import SpecFloat.
Import ListNotations.

Local Open Scope Z_scope.

(** ** Binary32 floating point *)

Module F32.

Definition prec : Z := 24.
Definition emax : Z := 128.

Definition float : Type := spec_float.

Definition fadd : float -> float -> float := SFadd prec emax.
Definition fsub : float -> float -> float := SFsub prec emax.
Definition fmul : float -> float -> float := SFmul prec emax.
Definition fdiv : float -> float -> float := SFdiv prec emax.

(** C comparison operators: all of them are false on a NaN operand. *)
Definition flt (a b : float) : bool := SFltb a b.
Definition fgt (a b : float) : bool := SFltb b a.
Definition fle (a b : float) : bool := SFleb a b.
Definition fge (a b : float) : bool := SFleb b a.

Definition is_nan (a : float) : bool :=
  match a with S754_nan => true | _ => false end.

(** [fmaxf] of the C library: the larger operand, and the other operand
    when one of them is NaN. *)
Definition fmaxf (x y : float) : float :=
  if fge x y then x
  else if flt x y then y
  else if is_nan y then x else y.

(** The literals of the source, as binary32 values [m * 2^e]. *)
Definition zero : float := S754_zero false.              (* 0.0f   *)
Definition one : float := S754_finite false 8388608 (-23).   (* 1.0f   *)
Definition half : float := S754_finite false 8388608 (-24).  (* 0.5f   *)
Definition c0_987 : float := S754_finite false 16559112 (-24). (* 0.987f *)
Definition c0_03 : float := S754_finite false 16106127 (-29).  (* 0.03f  *)
Definition c0_125 : float := S754_finite false 8388608 (-26).  (* 0.125f *)
Definition c1e_6 : float := S754_finite false 8796093 (-43).   (* 1e-6f  *)

(** The order of two positive finite numbers [m1 * 2^e1] and [m2 * 2^e2]
    in canonical form, as [SFcompare] decides it. *)
Definition lexcmp (e1 : Z) (m1 : positive) (e2 : Z) (m2 : positive) : comparison :=
  match Z.compare e1 e2 with
  | Lt => Lt
  | Gt => Gt
  | Eq => Pos.compare_cont Eq m1 m2
  end.

(** An integer as a binary32 value (round to nearest even). *)
Definition of_Z (z : Z) : float := binary_normalize prec emax z 0 false.

End F32.
Import F32.

(** ** Machine integers and loops *)

(** A value converted to [size_t] (64 bits, unsigned). *)
Definition to_size_t (z : Z) : Z := z mod 2 ^ 64.

(** The value x86 gives for a float-to-int conversion that is out of range. *)
Definition INT_MIN : Z := - 2 ^ 31.

(** The cast [(int)f]: truncation toward zero. *)
Definition to_int (f : float) : Z :=
  match f with
  | S754_zero _ => 0
  | S754_finite s m e =>
      let t := if 0 <=? e then Z.pos m * 2 ^ e else Z.pos m / 2 ^ (- e) in
      let v := if s then - t else t in
      if (INT_MIN <=? v) && (v <? 2 ^ 31) then v else INT_MIN
  | _ => INT_MIN
  end.

(** [n] iterations of a fallible body, the counter starting at [i]. *)
Fixpoint for_range {S : Type} (n : nat) (i : Z)
         (body : Z -> S -> option S) (s : S) : option S :=
  match n with
  | O => Some s
  | Datatypes.S n' =>
      match body i s with
      | Some s' => for_range n' (i + 1) body s'
      | None => None
      end
  end.

(** [for(size_t i = lo; i < hi; i++) body] *)
Definition for_loop {S : Type} (lo hi : Z)
           (body : Z -> S -> option S) (s : S) : option S :=
  for_range (Z.to_nat (hi - lo)) lo body s.

(** The same loop for a body that cannot fail. *)
Fixpoint iter_range {S : Type} (n : nat) (i : Z)
         (body : Z -> S -> S) (s : S) : S :=
  match n with
  | O => s
  | Datatypes.S n' => iter_range n' (i + 1) body (body i s)
  end.

Definition for_each {S : Type} (lo hi : Z) (body : Z -> S -> S) (s : S) : S :=
  iter_range (Z.to_nat (hi - lo)) lo body s.

Definition bind {A B : Type} (o : option A) (k : A -> option B) : option B :=
  match o with Some a => k a | None => None end.

Notation "x <- e ;; k" := (bind e (fun x => k))
  (at level 61, e at next level, right associativity).
Notation "' p <- e ;; k" := (bind e (fun p => k))
  (at level 61, p pattern, e at next level, right associativity).

(** ** Buffers *)

(** A buffer of floats the caller owns ([input], [output], [tmpout]). *)
Definition buffer : Type := Z -> float.

Definition buf_set (b : buffer) (i : Z) (v : float) : buffer :=
  fun j => if j =? i then v else b j.

(** The scratch mask: [blk_size] chars; any access outside it is undefined
    behaviour and yields [None]. *)
Record block : Type := { blk_size : Z; blk_data : Z -> Z }.

Definition load (m : block) (i : Z) : option Z :=
  if (0 <=? i) && (i <? blk_size m) then Some (blk_data m i) else None.

Definition store (m : block) (i : Z) (v : Z) : option block :=
  if (0 <=? i) && (i <? blk_size m)
  then Some {| blk_size := blk_size m;
               blk_data := fun j => if j =? i then v else blk_data m j |}
  else None.

(** A zero-filled block, as [dt_calloc_align] returns on success. *)
Definition zero_block (n : Z) : block :=
  {| blk_size := n; blk_data := fun _ => 0 |}.

(** [dt_aligned_pixel_t]: four floats. *)
Record dt_aligned_pixel_t : Type :=
  mkpixel { ch0 : float; ch1 : float; ch2 : float; ch3 : float }.

Definition pget (p : dt_aligned_pixel_t) (c : Z) : float :=
  match c with 0 => ch0 p | 1 => ch1 p | 2 => ch2 p | _ => ch3 p end.

Definition pset (p : dt_aligned_pixel_t) (c : Z) (v : float) : dt_aligned_pixel_t :=
  match c with
  | 0 => mkpixel v (ch1 p) (ch2 p) (ch3 p)
  | 1 => mkpixel (ch0 p) v (ch2 p) (ch3 p)
  | 2 => mkpixel (ch0 p) (ch1 p) v (ch3 p)
  | _ => mkpixel (ch0 p) (ch1 p) (ch2 p) v
  end.

(** ** The pipeline's data *)

Record dt_iop_roi_t : Type :=
  { roi_x : Z; roi_y : Z; roi_width : Z; roi_height : Z; roi_scale : float }.

(** The three primaries a photosite can carry; [color_index] is the [int]
    the sensor pattern oracle returns for it. *)
Inductive primary : Type := Red | Green | Blue.

Definition color_index (p : primary) : Z :=
  match p with Red => 0 | Green => 1 | Blue => 2 end.

Inductive dt_dev_pixelpipe_type_t : Type :=
| DT_DEV_PIXELPIPE_FULL
| DT_DEV_PIXELPIPE_PREVIEW
| DT_DEV_PIXELPIPE_EXPORT.

Definition is_full (t : dt_dev_pixelpipe_type_t) : bool :=
  match t with DT_DEV_PIXELPIPE_FULL => true | _ => false end.

(** [piece->pipe->dsc] *)
Record dt_iop_buffer_dsc_t : Type :=
  { filters : Z;
    xtrans : list (list Z);
    temperature_enabled : bool;
    temperature_coeffs : dt_aligned_pixel_t }.

(** What the processor reads of [piece] and never writes. *)
Record dt_dev_pixelpipe_iop_t : Type :=
  { dsc : dt_iop_buffer_dsc_t;
    pipe_type : dt_dev_pixelpipe_type_t;
    image_id : Z;
    buf_in_width : Z;
    buf_in_height : Z;
    clip : float }.

(** What a call can write besides its output: [d->chroma_correction] on the
    processor instance, [p->chroma_correction] of the module's parameters
    (the parameter sink) and the history items posted. *)
Record chroma_state : Type :=
  { d_chroma_correction : dt_aligned_pixel_t;
    p_chroma_correction : dt_aligned_pixel_t;
    history_items : nat }.

(** The passes a call went through, in order (a ghost trace). *)
Inductive pass : Type :=
| MaskBuild | Dilate | ChromaAccumulate | Publish | FillTmpout | Reconstruct.

Record outcome : Type :=
  { out_buffer : buffer;
    out_tmpout : option buffer;
    out_chrominance : dt_aligned_pixel_t;
    out_state : chroma_state;
    out_trace : list pass }.

(** ** Collaborators that are not part of the file

    The sensor pattern oracle [FC] / [FCxtrans] (a value in {0, 1, 2}), the
    mosaic reference average [_calc_refavg], the C library's [powf] with the
    exponent [HL_POWERF], the tag [_color_magic] with its comparison [feqf],
    the database query [dt_image_altered], the two allocators (which may
    fail) and the configuration macro behind [for_each_channel]. *)
Class Externals : Type :=
  { FC : Z -> Z -> Z -> primary;
    FCxtrans : Z -> Z -> dt_iop_roi_t -> list (list Z) -> primary;
    _calc_refavg : buffer -> Z -> list (list Z) -> Z -> Z -> Z ->
                   dt_iop_roi_t -> bool -> float;
    powf : float -> float -> float;
    HL_POWERF : float;
    _color_magic : dt_dev_pixelpipe_iop_t -> float;
    feqf : float -> float -> float -> bool;
    dt_image_altered : Z -> bool;
    dt_calloc_align_succeeds : Z -> bool;
    dt_alloc_align_float_succeeds : Z -> bool;
    DT_NO_VECTORIZATION : bool }.

(** ** The code of [opposed.c] *)

Section Code.

Context `{Externals}.

(** [for_each_channel(c)] loops over [DT_PIXEL_SIMD_CHANNELS] channels:
    all four of a pixel unless vectorisation is configured off. *)
Definition DT_PIXEL_SIMD_CHANNELS : Z := if DT_NO_VECTORIZATION then 3 else 4.

(** Modelled from the spec: [dt_round_size] is not in the source files; the
    spec has the storage of one coarse mask "rounded up to the next 64-byte
    aligned element count". *)
Definition dt_round_size (size alignment : Z) : Z :=
  to_size_t (((size + alignment - 1) / alignment) * alignment).

Definition dt_calloc_align (bytes : Z) : option block :=
  if dt_calloc_align_succeeds bytes then Some (zero_block bytes) else None.

(** Memory from [dt_alloc_align_float] is not initialised; every element the
    caller may read is written by the fill loop before it is read. *)
Definition dt_alloc_align_float (n : Z) : option buffer :=
  if dt_alloc_align_float_succeeds n then Some (fun _ => zero) else None.

Definition _calc_linear_refavg (input : buffer) (idx : Z) (color : Z) : float :=
  let inv := fdiv one HL_POWERF in
  let ins := mkpixel (powf (fmaxf zero (input idx)) inv)
                     (powf (fmaxf zero (input (idx + 1))) inv)
                     (powf (fmaxf zero (input (idx + 2))) inv)
                     zero in
  let opp := mkpixel (fmul half (fadd (pget ins 1) (pget ins 2)))
                     (fmul half (fadd (pget ins 0) (pget ins 2)))
                     (fmul half (fadd (pget ins 0) (pget ins 1)))
                     zero in
  powf (pget opp color) HL_POWERF.

Definition _raw_to_cmap (width row col : Z) : Z :=
  to_size_t ((row / 3) * width + (col / 3)).

(** [in[o1] | in[o2] | ...]: every operand is loaded. *)
Fixpoint lor_loads (m : block) (p : Z) (offsets : list Z) : option Z :=
  match offsets with
  | [] => Some 0
  | o :: rest =>
      v <- load m (p + o);;
      r <- lor_loads m p rest;;
      Some (Z.lor v r)
  end.

(** The offsets of the second and of the third test of [_mask_dilated]. *)
Definition ring1 (w1 : Z) : list Z :=
  [- w1 - 1; - w1; - w1 + 1; -1; 1; w1 - 1; w1; w1 + 1].

Definition ring23 (w1 : Z) : list Z :=
  let w2 := 2 * w1 in
  let w3 := 3 * w1 in
  [- w3 - 2; - w3 - 1; - w3; - w3 + 1; - w3 + 2;
   - w2 - 3; - w2 - 2; - w2 - 1; - w2; - w2 + 1; - w2 + 2; - w2 + 3;
   - w1 - 3; - w1 - 2; - w1 + 2; - w1 + 3;
   -3; -2; 2; 3;
   w1 - 3; w1 - 2; w1 + 2; w1 + 3;
   w2 - 3; w2 - 2; w2 - 1; w2; w2 + 1; w2 + 2; w2 + 3;
   w3 - 2; w3 - 1; w3; w3 + 1; w3 + 2].

(** [_mask_dilated(in, w1)], the pointer [in] being the block [m] at
    index [p]. *)
Definition _mask_dilated (m : block) (p : Z) (w1 : Z) : option Z :=
  c <- load m p;;
  if negb (c =? 0) then Some 1
  else
    n <- lor_loads m p (ring1 w1);;
    if negb (n =? 0) then Some 1
    else lor_loads m p (ring23 w1).

(** [mask[i] |= v] *)
Definition or_store (m : block) (i v : Z) : option block :=
  old <- load m i;;
  store m i (Z.lor old v).

(** *** What both variants compute on entry *)

Definition icoeffs_of (piece : dt_dev_pixelpipe_iop_t) : dt_aligned_pixel_t :=
  let wbon := temperature_enabled (dsc piece) in
  let coeffs := temperature_coeffs (dsc piece) in
  mkpixel (if wbon then pget coeffs 0 else one)
          (if wbon then pget coeffs 1 else one)
          (if wbon then pget coeffs 2 else one)
          zero.

Definition clips_of (piece : dt_dev_pixelpipe_iop_t) : dt_aligned_pixel_t :=
  let clipval := fmul c0_987 (clip piece) in
  let icoeffs := icoeffs_of piece in
  mkpixel (fmul clipval (pget icoeffs 0))
          (fmul clipval (pget icoeffs 1))
          (fmul clipval (pget icoeffs 2))
          zero.

Definition clipdark_of (clips : dt_aligned_pixel_t) : dt_aligned_pixel_t :=
  mkpixel (fmul c0_03 (pget clips 0))
          (fmul c0_125 (pget clips 1))
          (fmul c0_03 (pget clips 2))
          zero.

Definition mwidth_of (roi_in : dt_iop_roi_t) : Z :=
  to_size_t (Z.quot (roi_width roi_in) 3).

Definition mheight_of (roi_in : dt_iop_roi_t) : Z :=
  to_size_t (Z.quot (roi_height roi_in) 3).

Definition msize_of (roi_in : dt_iop_roi_t) : Z :=
  dt_round_size (to_size_t ((mwidth_of roi_in + 1) * (mheight_of roi_in + 1))) 64.

Definition stored_chrominance (st : chroma_state) : dt_aligned_pixel_t :=
  let d := d_chroma_correction st in
  mkpixel (pget d 0) (pget d 1) (pget d 2) zero.

(** The dilation loops, the same text in both variants. *)
Definition dilate_body (msize mwidth row col : Z) (mask : block) : option block :=
  let mx := to_size_t (row * mwidth + col) in
  v0 <- _mask_dilated mask mx mwidth;;
  mask <- store mask (to_size_t (3 * msize + mx)) v0;;
  v1 <- _mask_dilated mask (msize + mx) mwidth;;
  mask <- store mask (to_size_t (4 * msize + mx)) v1;;
  v2 <- _mask_dilated mask (2 * msize + mx) mwidth;;
  store mask (to_size_t (5 * msize + mx)) v2.

Definition dilate_pass (msize mwidth mheight : Z) (mask : block) : option block :=
  for_loop 3 (to_size_t (mheight - 3))
    (fun row => for_loop 3 (to_size_t (mwidth - 3)) (dilate_body msize mwidth row))
    mask.

(** [chrominance[c] = cr_sum[c] / fmaxf(1.0f, cr_cnt[c])] over the channels. *)
Definition chrominance_of_sums (chrominance cr_sum cr_cnt : dt_aligned_pixel_t)
  : dt_aligned_pixel_t :=
  for_each 0 DT_PIXEL_SIMD_CHANNELS
    (fun c chrom => pset chrom c (fdiv (pget cr_sum c) (fmaxf one (pget cr_cnt c))))
    chrominance.

(** The body of the publication block. *)
Definition publish (piece : dt_dev_pixelpipe_iop_t) (chrominance : dt_aligned_pixel_t)
           (st : chroma_state) : chroma_state :=
  let '(d, p) :=
    for_each 0 3
      (fun c '(d, p) => (pset d c (pget chrominance c), pset p c (pget chrominance c)))
      (d_chroma_correction st, p_chroma_correction st) in
  {| d_chroma_correction := pset d 3 (_color_magic piece);
     p_chroma_correction := pset p 3 (_color_magic piece);
     history_items := Datatypes.S (history_items st) |}.

(** *** [_process_opposed]: the mosaic variant *)

Definition photosite_color (piece : dt_dev_pixelpipe_iop_t) (roi_in : dt_iop_roi_t)
           (row col : Z) : Z :=
  color_index
    (if filters (dsc piece) =? 9
     then FCxtrans row col roi_in (xtrans (dsc piece))
     else FC row col (filters (dsc piece))).

Definition mosaic_refavg (piece : dt_dev_pixelpipe_iop_t) (input : buffer)
           (roi_in : dt_iop_roi_t) (idx row col : Z) : float :=
  _calc_refavg input idx (xtrans (dsc piece)) (filters (dsc piece)) row col roi_in true.

Definition opposed_mask_body (piece : dt_dev_pixelpipe_iop_t) (input : buffer)
           (roi_in : dt_iop_roi_t) (clips : dt_aligned_pixel_t) (msize mwidth : Z)
           (row col : Z) (acc : block * bool) : option (block * bool) :=
  let '(mask, anyclipped) := acc in
  let idx := to_size_t (row * roi_width roi_in + col) in
  let color := photosite_color piece roi_in row col in
  if fge (fmaxf zero (input idx)) (pget clips color)
  then
    mask <- or_store mask (to_size_t (color * msize + _raw_to_cmap mwidth row col)) 1;;
    Some (mask, true)
  else Some (mask, anyclipped).

Definition opposed_mask_pass (piece : dt_dev_pixelpipe_iop_t) (input : buffer)
           (roi_in : dt_iop_roi_t) (clips : dt_aligned_pixel_t) (msize mwidth : Z)
           (mask : block) : option (block * bool) :=
  for_loop 1 (to_size_t (roi_height roi_in - 1))
    (fun row =>
       for_loop 1 (to_size_t (roi_width roi_in - 1))
         (opposed_mask_body piece input roi_in clips msize mwidth row))
    (mask, false).

Definition opposed_chroma_body (piece : dt_dev_pixelpipe_iop_t) (input : buffer)
           (roi_in : dt_iop_roi_t) (clips clipdark : dt_aligned_pixel_t)
           (msize mwidth : Z) (mask : block) (row col : Z)
           (acc : dt_aligned_pixel_t * dt_aligned_pixel_t)
  : option (dt_aligned_pixel_t * dt_aligned_pixel_t) :=
  let '(cr_sum, cr_cnt) := acc in
  let idx := to_size_t (row * roi_width roi_in + col) in
  let color := photosite_color piece roi_in row col in
  let inval := fmaxf zero (input idx) in
  if flt inval (pget clips color) && fgt inval (pget clipdark color)
  then
    m <- load mask (to_size_t ((color + 3) * msize + _raw_to_cmap mwidth row col));;
    if negb (m =? 0)
    then Some (pset cr_sum color
                    (fadd (pget cr_sum color)
                          (fsub inval (mosaic_refavg piece input roi_in idx row col))),
               pset cr_cnt color (fadd (pget cr_cnt color) one))
    else Some (cr_sum, cr_cnt)
  else Some (cr_sum, cr_cnt).

Definition opposed_chroma_pass (piece : dt_dev_pixelpipe_iop_t) (input : buffer)
           (roi_in : dt_iop_roi_t) (clips clipdark : dt_aligned_pixel_t)
           (msize mwidth : Z) (mask : block)
  : option (dt_aligned_pixel_t * dt_aligned_pixel_t) :=
  for_loop 1 (to_size_t (roi_height roi_in - 1))
    (fun row =>
       for_loop 1 (to_size_t (roi_width roi_in - 1))
         (opposed_chroma_body piece input roi_in clips clipdark msize mwidth mask row))
    (mkpixel zero zero zero zero, mkpixel zero zero zero zero).

(** The block guarded by the tag comparison: the chrominance to use, the
    state it leaves and the passes it ran. *)
Definition opposed_estimate (piece : dt_dev_pixelpipe_iop_t) (input : buffer)
           (roi_in : dt_iop_roi_t) (quality : bool) (st : chroma_state)
  : option (dt_aligned_pixel_t * chroma_state * list pass) :=
  let clips := clips_of piece in
  let clipdark := clipdark_of clips in
  let mwidth := mwidth_of roi_in in
  let mheight := mheight_of roi_in in
  let msize := msize_of roi_in in
  let chrominance := stored_chrominance st in
  if negb (feqf (_color_magic piece) (pget (d_chroma_correction st) 3) c1e_6)
  then
    match (if quality then dt_calloc_align (6 * msize) else None) with
    | Some mask =>
        '(mask, anyclipped) <- opposed_mask_pass piece input roi_in clips msize mwidth mask;;
        '(chrominance, trace) <-
          (if anyclipped
           then
             mask <- dilate_pass msize mwidth mheight mask;;
             '(cr_sum, cr_cnt) <-
               opposed_chroma_pass piece input roi_in clips clipdark msize mwidth mask;;
             Some (chrominance_of_sums chrominance cr_sum cr_cnt,
                   [MaskBuild; Dilate; ChromaAccumulate])
           else Some (chrominance, [MaskBuild]));;
        if is_full (pipe_type piece) && dt_image_altered (image_id piece)
        then Some (chrominance, publish piece chrominance st, trace ++ [Publish])
        else Some (chrominance, st, trace)
    | None => Some (chrominance, st, [])
    end
  else Some (chrominance, st, []).

(** The value the fill loop stores at [tmpout[idx]]. *)
Definition opposed_tmpout_value (piece : dt_dev_pixelpipe_iop_t) (input : buffer)
           (roi_in : dt_iop_roi_t) (clips chrominance : dt_aligned_pixel_t)
           (row col : Z) : float :=
  let idx := to_size_t (row * roi_width roi_in + col) in
  let color := photosite_color piece roi_in row col in
  let inval := fmaxf zero (input idx) in
  if fge inval (pget clips color)
     && (0 <? col) && (col <? to_size_t (roi_width roi_in - 1))
     && (0 <? row) && (row <? to_size_t (roi_height roi_in - 1))
  then
    let ref := mosaic_refavg piece input roi_in idx row col in
    fmaxf inval (fadd ref (pget chrominance color))
  else inval.

Definition opposed_fill_tmpout (piece : dt_dev_pixelpipe_iop_t) (input : buffer)
           (roi_in : dt_iop_roi_t) (clips chrominance : dt_aligned_pixel_t)
           (tmpout : buffer) : buffer :=
  for_each 0 (to_size_t (roi_height roi_in))
    (fun row =>
       for_each 0 (to_size_t (roi_width roi_in))
         (fun col tmpout =>
            buf_set tmpout (to_size_t (row * roi_width roi_in + col))
                    (opposed_tmpout_value piece input roi_in clips chrominance row col)))
    tmpout.

(** The value the last loop stores at [output[odx]]. *)
Definition opposed_output_value (piece : dt_dev_pixelpipe_iop_t) (input : buffer)
           (tmpout : option buffer) (roi_in roi_out : dt_iop_roi_t)
           (clips chrominance : dt_aligned_pixel_t) (row col : Z) : float :=
  let irow := to_size_t (row + roi_y roi_out) in
  let icol := to_size_t (col + roi_x roi_out) in
  let ix := to_size_t (irow * roi_width roi_in + icol) in
  if (irow <? to_size_t (roi_height roi_in)) && (icol <? to_size_t (roi_width roi_in))
  then
    match tmpout with
    | Some t => t ix
    | None =>
        let color := photosite_color piece roi_in irow icol in
        let inrefs := (0 <? irow) && (0 <? icol)
                      && (irow <? to_size_t (roi_height roi_in - 1))
                      && (icol <? to_size_t (roi_width roi_in - 1)) in
        let oval := fmaxf zero (input ix) in
        if inrefs && fge oval (pget clips color)
        then
          let ref := mosaic_refavg piece input roi_in ix irow icol in
          fmaxf oval (fadd ref (pget chrominance color))
        else oval
    end
  else zero.

Definition opposed_reconstruct (piece : dt_dev_pixelpipe_iop_t) (input : buffer)
           (tmpout : option buffer) (roi_in roi_out : dt_iop_roi_t)
           (clips chrominance : dt_aligned_pixel_t) (output : buffer) : buffer :=
  for_each 0 (to_size_t (roi_height roi_out))
    (fun row =>
       for_each 0 (to_size_t (roi_width roi_out))
         (fun col output =>
            buf_set output (to_size_t (row * roi_width roi_out + col))
                    (opposed_output_value piece input tmpout roi_in roi_out
                                          clips chrominance row col)))
    output.

(** [_process_opposed]: [st] is the chrominance state on entry, [output]
    the output buffer on entry; the returned [out_tmpout] is the function's
    return value. *)
Definition _process_opposed (st : chroma_state) (piece : dt_dev_pixelpipe_iop_t)
           (input output : buffer) (roi_in roi_out : dt_iop_roi_t)
           (keep quality : bool) : option outcome :=
  let clips := clips_of piece in
  '(chrominance, st, trace) <- opposed_estimate piece input roi_in quality st;;
  let tmpout :=
    match (if keep
           then dt_alloc_align_float (to_size_t (roi_width roi_in * roi_height roi_in))
           else None) with
    | Some t => Some (opposed_fill_tmpout piece input roi_in clips chrominance t)
    | None => None
    end in
  Some {| out_buffer :=
            opposed_reconstruct piece input tmpout roi_in roi_out clips chrominance output;
          out_tmpout := tmpout;
          out_chrominance := chrominance;
          out_state := st;
          out_trace :=
            trace ++ (match tmpout with Some _ => [FillTmpout] | None => [] end)
                  ++ [Reconstruct] |}.

(** *** [_process_linear_opposed]: the variant for sraws *)

(** The body of [for_each_channel(c)] in the mask loop. *)
Definition linear_mask_channel (input : buffer) (clips : dt_aligned_pixel_t)
           (msize mwidth : Z) (row col idx : Z) (c : Z) (acc : block * bool)
  : option (block * bool) :=
  let '(mask, anyclipped) := acc in
  if fge (input (idx + c)) (pget clips c)
  then
    mask <- or_store mask (to_size_t (c * msize + _raw_to_cmap mwidth row col)) 1;;
    Some (mask, true)
  else Some (mask, anyclipped).

Definition linear_mask_body (input : buffer) (roi_in : dt_iop_roi_t)
           (clips : dt_aligned_pixel_t) (msize mwidth : Z)
           (row col : Z) (acc : block * bool) : option (block * bool) :=
  let idx := to_size_t ((row * roi_width roi_in + col) * 4) in
  for_loop 0 DT_PIXEL_SIMD_CHANNELS
    (linear_mask_channel input clips msize mwidth row col idx) acc.

Definition linear_mask_pass (input : buffer) (roi_in : dt_iop_roi_t)
           (clips : dt_aligned_pixel_t) (msize mwidth : Z) (mask : block)
  : option (block * bool) :=
  for_loop 1 (to_size_t (roi_height roi_in - 1))
    (fun row =>
       for_loop 1 (to_size_t (roi_width roi_in - 1))
         (linear_mask_body input roi_in clips msize mwidth row))
    (mask, false).

(** The body of [for_each_channel(c)] in the accumulation loop. *)
Definition linear_chroma_channel (input : buffer)
           (clips clipdark : dt_aligned_pixel_t) (msize mwidth : Z) (mask : block)
           (row col idx : Z) (c : Z) (acc : dt_aligned_pixel_t * dt_aligned_pixel_t)
  : option (dt_aligned_pixel_t * dt_aligned_pixel_t) :=
  let '(cr_sum, cr_cnt) := acc in
  let inval := fmaxf zero (input (idx + c)) in
  if fgt inval (pget clipdark c) && flt inval (pget clips c)
  then
    m <- load mask (to_size_t ((c + 3) * msize + _raw_to_cmap mwidth row col));;
    if negb (m =? 0)
    then Some (pset cr_sum c
                    (fadd (pget cr_sum c)
                          (fsub inval (_calc_linear_refavg input idx c))),
               pset cr_cnt c (fadd (pget cr_cnt c) one))
    else Some (cr_sum, cr_cnt)
  else Some (cr_sum, cr_cnt).

Definition linear_chroma_body (input : buffer) (roi_in : dt_iop_roi_t)
           (clips clipdark : dt_aligned_pixel_t) (msize mwidth : Z) (mask : block)
           (row col : Z) (acc : dt_aligned_pixel_t * dt_aligned_pixel_t)
  : option (dt_aligned_pixel_t * dt_aligned_pixel_t) :=
  let idx := to_size_t ((row * roi_width roi_in + col) * 4) in
  for_loop 0 DT_PIXEL_SIMD_CHANNELS
    (linear_chroma_channel input clips clipdark msize mwidth mask row col idx) acc.

Definition linear_chroma_pass (input : buffer) (roi_in : dt_iop_roi_t)
           (clips clipdark : dt_aligned_pixel_t) (msize mwidth : Z) (mask : block)
  : option (dt_aligned_pixel_t * dt_aligned_pixel_t) :=
  for_loop 1 (to_size_t (roi_height roi_in - 1))
    (fun row =>
       for_loop 1 (to_size_t (roi_width roi_in - 1))
         (linear_chroma_body input roi_in clips clipdark msize mwidth mask row))
    (mkpixel zero zero zero zero, mkpixel zero zero zero zero).

(** [abs((int)(dim / roi_out->scale) - full) < 10] *)
Definition near_full_size (dim : Z) (scale : float) (full : Z) : bool :=
  Z.abs (to_int (fdiv (of_Z dim) scale) - full) <? 10.

Definition linear_publish_condition (piece : dt_dev_pixelpipe_iop_t)
           (roi_out : dt_iop_roi_t) : bool :=
  is_full (pipe_type piece)
  && near_full_size (roi_width roi_out) (roi_scale roi_out) (buf_in_width piece)
  && near_full_size (roi_height roi_out) (roi_scale roi_out) (buf_in_height piece)
  && dt_image_altered (image_id piece).

Definition linear_estimate (piece : dt_dev_pixelpipe_iop_t) (input : buffer)
           (roi_in roi_out : dt_iop_roi_t) (quality : bool) (st : chroma_state)
  : option (dt_aligned_pixel_t * chroma_state * list pass) :=
  let clips := clips_of piece in
  let clipdark := clipdark_of clips in
  let mwidth := mwidth_of roi_in in
  let mheight := mheight_of roi_in in
  let msize := msize_of roi_in in
  let chrominance := stored_chrominance st in
  if negb (feqf (_color_magic piece) (pget (d_chroma_correction st) 3) c1e_6)
  then
    match (if quality then dt_calloc_align (6 * msize) else None) with
    | Some mask =>
        '(mask, anyclipped) <- linear_mask_pass input roi_in clips msize mwidth mask;;
        '(chrominance, trace) <-
          (if anyclipped
           then
             mask <- dilate_pass msize mwidth mheight mask;;
             '(cr_sum, cr_cnt) <-
               linear_chroma_pass input roi_in clips clipdark msize mwidth mask;;
             Some (chrominance_of_sums chrominance cr_sum cr_cnt,
                   [MaskBuild; Dilate; ChromaAccumulate])
           else Some (chrominance, [MaskBuild]));;
        if linear_publish_condition piece roi_out
        then Some (chrominance, publish piece chrominance st, trace ++ [Publish])
        else Some (chrominance, st, trace)
    | None => Some (chrominance, st, [])
    end
  else Some (chrominance, st, []).

(** The value the last loop stores at [output[odx + c]]; [row], [col] and
    the indices are [ssize_t] there. *)
Definition linear_output_value (input : buffer) (roi_in : dt_iop_roi_t)
           (clips chrominance : dt_aligned_pixel_t) (row col c : Z) : float :=
  let inrow := Z.min row (roi_height roi_in - 1) in
  let incol := Z.min col (roi_width roi_in - 1) in
  let idx := (inrow * roi_width roi_in + incol) * 4 in
  let ref := _calc_linear_refavg input idx c in
  let inval := fmaxf zero (input (idx + c)) in
  if fge inval (pget clips c)
  then fmaxf inval (fadd ref (pget chrominance c))
  else inval.

Definition linear_reconstruct (input : buffer) (roi_in roi_out : dt_iop_roi_t)
           (clips chrominance : dt_aligned_pixel_t) (output : buffer) : buffer :=
  for_each 0 (roi_height roi_out)
    (fun row =>
       for_each 0 (roi_width roi_out)
         (fun col =>
            let odx := (row * roi_width roi_out + col) * 4 in
            for_each 0 DT_PIXEL_SIMD_CHANNELS
              (fun c output =>
                 buf_set output (odx + c)
                         (linear_output_value input roi_in clips chrominance row col c))))
    output.

Definition _process_linear_opposed (st : chroma_state) (piece : dt_dev_pixelpipe_iop_t)
           (input output : buffer) (roi_in roi_out : dt_iop_roi_t)
           (quality : bool) : option outcome :=
  let clips := clips_of piece in
  '(chrominance, st, trace) <- linear_estimate piece input roi_in roi_out quality st;;
  Some {| out_buffer := linear_reconstruct input roi_in roi_out clips chrominance output;
          out_tmpout := None;
          out_chrominance := chrominance;
          out_state := st;
          out_trace := trace ++ [Reconstruct] |}.

End Code.

(** [fills T D v]: the buffer transformer [T] stores [v i] at every index [i]
    of [D] and leaves the other elements alone. *)
Record fills (T : buffer -> buffer) (D : Z -> Prop) (v : Z -> float) : Prop :=
  { fills_hit : forall b i, D i -> T b i = v i;
    fills_miss : forall b i, ~ D i -> T b i = b i;
    fills_dec : forall i, D i \/ ~ D i }.

(** ** Vocabulary of the statements *)

Section Vocabulary.

Context `{Externals}.

(** A region of interest whose fields fit the [int] type they have, with
    non-negative dimensions. *)
Definition roi_ok (r : dt_iop_roi_t) : Prop :=
  0 <= roi_width r < 2 ^ 31 /\ 0 <= roi_height r < 2 ^ 31 /\
  - 2 ^ 31 <= roi_x r < 2 ^ 31 /\ - 2 ^ 31 <= roi_y r < 2 ^ 31.

(** A frame of at least 3 x 3 coarse cells. *)
Definition frame_ok (r : dt_iop_roi_t) : Prop :=
  9 <= roi_width r < 2 ^ 31 /\ 9 <= roi_height r < 2 ^ 31.

(** A frame with at least one photosite. *)
Definition frame_nonempty (r : dt_iop_roi_t) : Prop :=
  1 <= roi_width r < 2 ^ 31 /\ 1 <= roi_height r < 2 ^ 31.

(** The mask block of a call: six planes of [msize] chars, each 0 or 1. *)
Definition mask_block (msize : Z) (m : block) : Prop :=
  blk_size m = 6 * msize /\ forall i, blk_data m i = 0 \/ blk_data m i = 1.

(** Only the three raw planes, the first three, hold marks. *)
Definition raw_only (msize : Z) (m : block) : Prop :=
  forall i, 3 * msize <= i -> blk_data m i = 0.

(** The raw and the dilated mask of primary [k] at the coarse cell
    [(r, c)]. *)
Definition raw_cell (msize mwidth : Z) (m : block) (k r c : Z) : Z :=
  blk_data m (k * msize + r * mwidth + c).

Definition dilated_cell (msize mwidth : Z) (m : block) (k r c : Z) : Z :=
  blk_data m ((k + 3) * msize + r * mwidth + c).

(** A coarse cell at least 3 cells from every border of the coarse grid. *)
Definition interior_cell (mwidth mheight r c : Z) : Prop :=
  3 <= r < mheight - 3 /\ 3 <= c < mwidth - 3.

(** The value [_mask_dilated] computes from the chars [d] around index [p]. *)
Definition lor_values (d : Z -> Z) (p : Z) (offsets : list Z) : Z :=
  fold_right (fun o r => Z.lor (d (p + o)) r) 0 offsets.

Definition dilated_at (d : Z -> Z) (p w : Z) : Z :=
  if negb (d p =? 0) then 1
  else if negb (lor_values d p (ring1 w) =? 0) then 1
       else lor_values d p (ring23 w).

(** The offsets [(drow, dcol)] of the cells [_mask_dilated] reads besides
    the cell itself, in the order of the source. *)
Definition footprint_cells : list (Z * Z) :=
  [(-1, -1); (-1, 0); (-1, 1); (0, -1); (0, 1); (1, -1); (1, 0); (1, 1);
   (-3, -2); (-3, -1); (-3, 0); (-3, 1); (-3, 2);
   (-2, -3); (-2, -2); (-2, -1); (-2, 0); (-2, 1); (-2, 2); (-2, 3);
   (-1, -3); (-1, -2); (-1, 2); (-1, 3);
   (0, -3); (0, -2); (0, 2); (0, 3);
   (1, -3); (1, -2); (1, 2); (1, 3);
   (2, -3); (2, -2); (2, -1); (2, 0); (2, 1); (2, 2); (2, 3);
   (3, -2); (3, -1); (3, 0); (3, 1); (3, 2)].

(** §4.4 of the spec: the 8-neighbourhood, and the ring of radius 2 and 3
    without its four corners. *)
Definition in_footprint (drow dcol : Z) : Prop :=
  (Z.abs drow <= 1 /\ Z.abs dcol <= 1 /\ (drow <> 0 \/ dcol <> 0))
  \/ (Z.abs drow <= 3 /\ Z.abs dcol <= 3
      /\ (Z.max (Z.abs drow) (Z.abs dcol) = 2 \/ Z.max (Z.abs drow) (Z.abs dcol) = 3)
      /\ ~ (Z.abs drow = 3 /\ Z.abs dcol = 3)).

(** The mask block of the mosaic variant once its mask-build pass and, when
    something is clipped, its dilation pass have run. *)
Definition opposed_dilated_mask (piece : dt_dev_pixelpipe_iop_t) (input : buffer)
           (roi_in : dt_iop_roi_t) : option block :=
  let msize := msize_of roi_in in
  '(mask, anyclipped) <-
    opposed_mask_pass piece input roi_in (clips_of piece) msize (mwidth_of roi_in)
                      (zero_block (6 * msize));;
  if anyclipped
  then dilate_pass msize (mwidth_of roi_in) (mheight_of roi_in) mask
  else Some mask.

(** The coarse cells the dilation loops have been through when they reach
    [(row, col)]. *)
Definition cell_done (mwidth row col r c : Z) : Prop :=
  3 <= r /\ 3 <= c < mwidth - 3 /\ (r < row \/ (r = row /\ c < col)).

(** The state of the mask when the dilation loops reach [(row, col)], from
    the mask [m0] they started with: the dilated planes hold the dilation of
    the cells gone through, everything else is as it was. *)
Definition dilate_inv (m0 : block) (msize mwidth row col : Z) (m : block) : Prop :=
  blk_size m = blk_size m0 /\
  (forall k r c, 0 <= k <= 2 -> cell_done mwidth row col r c ->
     blk_data m ((k + 3) * msize + r * mwidth + c)
     = dilated_at (blk_data m0) (k * msize + r * mwidth + c) mwidth) /\
  (forall i, (forall k r c, 0 <= k <= 2 -> cell_done mwidth row col r c ->
                i <> (k + 3) * msize + r * mwidth + c) ->
     blk_data m i = blk_data m0 i) /\
  ((forall i, blk_data m0 i = 0 \/ blk_data m0 i = 1) ->
   forall i, blk_data m i = 0 \/ blk_data m i = 1).

(** The integers from [lo] up to [hi - 1]. *)
Definition zrange (lo hi : Z) : list Z :=
  map (fun k => lo + Z.of_nat k) (seq 0 (Z.to_nat (hi - lo))).

(** The photosites at least one photosite inside the border, row by row. *)
Definition interior_photosites (roi_in : dt_iop_roi_t) : list (Z * Z) :=
  flat_map (fun row => map (fun col => (row, col)) (zrange 1 (roi_width roi_in - 1)))
           (zrange 1 (roi_height roi_in - 1)).

(** §4.5 of the spec for the mosaic variant: the photosite [(row, col)]
    contributes to the accumulator of primary [c] iff it carries [c], its
    clamped value lies strictly between [dark[c]] and [clip[c]], and the
    dilated mask of [c] is 1 at the coarse cell [(row / 3, col / 3)]. *)
Definition opposed_contributes (piece : dt_dev_pixelpipe_iop_t) (input : buffer)
           (roi_in : dt_iop_roi_t) (clips clipdark : dt_aligned_pixel_t)
           (msize mwidth : Z) (mask : block) (c row col : Z) : bool :=
  let value := input (row * roi_width roi_in + col) in
  (photosite_color piece roi_in row col =? c)
  && fgt (fmaxf zero value) (pget clipdark c)
  && flt (fmaxf zero value) (pget clips c)
  && (dilated_cell msize mwidth mask c (row / 3) (col / 3) =? 1).

(** What a contributing photosite adds to [sum[c]]: [value - refavg]. *)
Definition opposed_deviation (piece : dt_dev_pixelpipe_iop_t) (input : buffer)
           (roi_in : dt_iop_roi_t) (row col : Z) : float :=
  let idx := row * roi_width roi_in + col in
  fsub (input idx) (mosaic_refavg piece input roi_in idx row col).



(** One photosite's effect on the two accumulators. *)
Definition opposed_chroma_step (piece : dt_dev_pixelpipe_iop_t) (input : buffer)
           (roi_in : dt_iop_roi_t) (clips clipdark : dt_aligned_pixel_t)
           (msize mwidth : Z) (mask : block) (row col : Z)
           (acc : dt_aligned_pixel_t * dt_aligned_pixel_t)
  : dt_aligned_pixel_t * dt_aligned_pixel_t :=
  let k := photosite_color piece roi_in row col in
  if opposed_contributes piece input roi_in clips clipdark msize mwidth mask k row col
  then (pset (fst acc) k (fadd (pget (fst acc) k)
                               (opposed_deviation piece input roi_in row col)),
        pset (snd acc) k (fadd (pget (snd acc) k) one))
  else acc.

(** The same for the sraw variant, where every photosite carries the three
    primaries. *)
Definition linear_contributes (input : buffer) (roi_in : dt_iop_roi_t)
           (clips clipdark : dt_aligned_pixel_t)
           (msize mwidth : Z) (mask : block) (c row col : Z) : bool :=
  let value := input ((row * roi_width roi_in + col) * 4 + c) in
  fgt (fmaxf zero value) (pget clipdark c)
  && flt (fmaxf zero value) (pget clips c)
  && (dilated_cell msize mwidth mask c (row / 3) (col / 3) =? 1).

(** One channel's effect on the two accumulators, and one photosite's. *)
Definition linear_channel_step (input : buffer) (roi_in : dt_iop_roi_t)
           (clips clipdark : dt_aligned_pixel_t) (msize mwidth : Z) (mask : block)
           (row col : Z) (acc : dt_aligned_pixel_t * dt_aligned_pixel_t) (c : Z)
  : dt_aligned_pixel_t * dt_aligned_pixel_t :=
  let idx := (row * roi_width roi_in + col) * 4 in
  if linear_contributes input roi_in clips clipdark msize mwidth mask c row col
  then (pset (fst acc) c
             (fadd (pget (fst acc) c)
                   (fsub (input (idx + c)) (_calc_linear_refavg input idx c))),
        pset (snd acc) c (fadd (pget (snd acc) c) one))
  else acc.

Definition linear_chroma_step (input : buffer) (roi_in : dt_iop_roi_t)
           (clips clipdark : dt_aligned_pixel_t) (msize mwidth : Z) (mask : block)
           (row col : Z) (acc : dt_aligned_pixel_t * dt_aligned_pixel_t)
  : dt_aligned_pixel_t * dt_aligned_pixel_t :=
  fold_left
    (linear_channel_step input roi_in clips clipdark msize mwidth mask row col)
    [0; 1; 2] acc.




(** Estimation runs: the recomputed tag differs from the stored one, quality
    is requested and the scratch mask could be allocated. *)
Definition estimation_runs (piece : dt_dev_pixelpipe_iop_t) (roi_in : dt_iop_roi_t)
           (quality : bool) (st : chroma_state) : bool :=
  negb (feqf (_color_magic piece) (pget (d_chroma_correction st) 3) c1e_6)
  && quality
  && dt_calloc_align_succeeds (6 * msize_of roi_in).

(** The frame is the full pipeline and the image is flagged as edited. *)
Definition opposed_publish_condition (piece : dt_dev_pixelpipe_iop_t) : bool :=
  is_full (pipe_type piece) && dt_image_altered (image_id piece).

(** The photosite [(irow, icol)] lies in the input region. *)
Definition inside_input (roi_in : dt_iop_roi_t) (irow icol : Z) : Prop :=
  0 <= irow < roi_height roi_in /\ 0 <= icol < roi_width roi_in.

(** The photosite is at least one photosite inside the input border. *)
Definition inside_border (roi_in : dt_iop_roi_t) (irow icol : Z) : Prop :=
  0 < irow < roi_height roi_in - 1 /\ 0 < icol < roi_width roi_in - 1.

(** §4.6 of the spec for the mosaic variant, at the input photosite
    [(irow, icol)]: [max(v, refavg + chrom)] for a clipped photosite inside
    the border, the clamped input [v] otherwise. *)
Definition reconstructed_value (piece : dt_dev_pixelpipe_iop_t) (input : buffer)
           (roi_in : dt_iop_roi_t) (clips chrominance : dt_aligned_pixel_t)
           (irow icol : Z) : float :=
  let ix := irow * roi_width roi_in + icol in
  let color := photosite_color piece roi_in irow icol in
  let v := fmaxf zero (input ix) in
  if fge v (pget clips color)
     && (0 <? irow) && (irow <? roi_height roi_in - 1)
     && (0 <? icol) && (icol <? roi_width roi_in - 1)
  then fmaxf v (fadd (mosaic_refavg piece input roi_in ix irow icol)
                     (pget chrominance color))
  else v.

End Vocabulary.

(** ** A test bench

    One instance of the collaborators and a few small frames, to run the
    code on. *)

(** The RGGB Bayer pattern. *)
Definition bayer_rggb (row col : Z) : primary :=
  if Z.even row
  then (if Z.even col then Red else Green)
  else (if Z.even col then Green else Blue).

(** The reference average is the right-hand neighbour, [powf] is the power
    for exponent 1, the tag is the clip parameter, [feqf] is
    [fabsf(a - b) < eps], every image counts as edited and vectorisation is
    on; the two allocators succeed or fail as [alloc_ok] says. *)
Definition bench (alloc_ok : bool) : Externals :=
  {| FC := fun row col _ => bayer_rggb row col;
     FCxtrans := fun row col _ _ => bayer_rggb row col;
     _calc_refavg := fun input idx _ _ _ _ _ _ => input (idx + 1);
     powf := fun x _ => x;
     HL_POWERF := one;
     _color_magic := fun piece => clip piece;
     feqf := fun a b eps => flt (SFabs (fsub a b)) eps;
     dt_image_altered := fun _ => true;
     dt_calloc_align_succeeds := fun _ => alloc_ok;
     dt_alloc_align_float_succeeds := fun _ => alloc_ok;
     DT_NO_VECTORIZATION := false |}.

Definition quarter : float := S754_finite false 8388608 (-25).  (* 0.25f *)
Definition minus_one : float := S754_finite true 8388608 (-23).  (* -1.0f *)

(** A piece with white balance off and the clip parameter at 0.5, so that
    every clip threshold is [0.987f * 0.5f]. *)
Definition bench_piece (t : dt_dev_pixelpipe_type_t) : dt_dev_pixelpipe_iop_t :=
  {| dsc := {| filters := 2492765332;
               xtrans := [];
               temperature_enabled := false;
               temperature_coeffs := mkpixel one one one zero |};
     pipe_type := t;
     image_id := 1;
     buf_in_width := 9;
     buf_in_height := 9;
     clip := half |}.

(** No correction stored yet: a zero triple with the tag 0. *)
Definition bench_state : chroma_state :=
  {| d_chroma_correction := mkpixel zero zero zero zero;
     p_chroma_correction := mkpixel zero zero zero zero;
     history_items := 0 |}.

Definition roi_at (x y w h : Z) : dt_iop_roi_t :=
  {| roi_x := x; roi_y := y; roi_width := w; roi_height := h; roi_scale := one |}.

(** A mosaic frame of width [w] with every red photosite at 1.0 (clipped)
    and the others at 0.25. *)
Definition red_clipped (w : Z) : buffer :=
  fun i => if Z.even (i / w) && Z.even (i mod w) then one else quarter.

(** A frame holding [v] at index [i] and 0.25 elsewhere. *)
Definition single (i : Z) (v : float) : buffer :=
  fun j => if j =? i then v else quarter.

Definition blank : buffer := fun _ => zero.

(** The same piece with the clip parameter at zero. *)
Definition zero_clip_piece (t : dt_dev_pixelpipe_type_t) : dt_dev_pixelpipe_iop_t :=
  {| dsc := dsc (bench_piece t);
     pipe_type := t;
     image_id := 1;
     buf_in_width := 9;
     buf_in_height := 9;
     clip := zero |}.

(** What a call leaves at index [i] of the output buffer. *)
Definition output_at (o : option outcome) (i : Z) : option float :=
  option_map (fun r => out_buffer r i) o.

Definition two : float := S754_finite false 8388608 (-22).  (* 2.0f *)

(** An sraw frame with 1.0 in the first channel of every pixel and 2.0 in
    the other channels. *)
Definition sraw_bright : buffer :=
  fun i => if i mod 4 =? 0 then one else two.

(** The state a call leaves. *)
Definition state_after (o : option outcome) : option chroma_state :=
  option_map out_state o.



(** ** Vocabulary of the further properties *)

Section Clipping.

Context `{Externals}.

(** The test of the mask-build pass of the mosaic variant at the photosite
    [(row, col)]: its clamped value reaches the clip threshold of its
    primary. *)
Definition opposed_clipped (piece : dt_dev_pixelpipe_iop_t) (input : buffer)
           (roi_in : dt_iop_roi_t) (clips : dt_aligned_pixel_t) (row col : Z) : bool :=
  fge (fmaxf zero (input (row * roi_width roi_in + col)))
      (pget clips (photosite_color piece roi_in row col)).

(** The test of the mask-build pass of the sraw variant for channel [c] of
    the pixel [(row, col)]; the value is not clamped there. *)
Definition linear_clipped (input : buffer) (roi_in : dt_iop_roi_t)
           (clips : dt_aligned_pixel_t) (row col c : Z) : bool :=
  fge (input ((row * roi_width roi_in + col) * 4 + c)) (pget clips c).

(** The channels [for_each_channel] goes through, tested in turn. *)
Definition linear_pixel_clipped (input : buffer) (roi_in : dt_iop_roi_t)
           (clips : dt_aligned_pixel_t) (row col : Z) : bool :=
  linear_clipped input roi_in clips row col 0
  || linear_clipped input roi_in clips row col 1
  || linear_clipped input roi_in clips row col 2
  || (negb DT_NO_VECTORIZATION && linear_clipped input roi_in clips row col 3).

End Clipping.

Section SrawMask.

Context `{Externals}.

(** The mask block of the sraw variant once its mask-build pass and, when
    something is clipped, its dilation pass have run. *)
Definition linear_dilated_mask (piece : dt_dev_pixelpipe_iop_t) (input : buffer)
           (roi_in : dt_iop_roi_t) : option block :=
  let msize := msize_of roi_in in
  '(mask, anyclipped) <-
    linear_mask_pass input roi_in (clips_of piece) msize (mwidth_of roi_in)
                     (zero_block (6 * msize));;
  if anyclipped
  then dilate_pass msize (mwidth_of roi_in) (mheight_of roi_in) mask
  else Some mask.

End SrawMask.

(** The first [n] elements of a buffer, with NaN everywhere else. *)
Definition cropped (n : Z) (b : buffer) : buffer :=
  fun i => if (0 <=? i) && (i <? n) then b i else S754_nan.

(** ** The OpenCL host code of [opposed.c]: [process_opposed_cl]

    The kernels run on the device and are not part of the file; what is
    embedded is the host function: the calls it makes to the device, in
    order and with their arguments, what it does when one of them fails,
    what it releases and what it returns. *)

(** The device buffers: the two the caller passes and the seven the
    function acquires. *)
Inductive cl_mem : Type :=
| dev_in | dev_out
| dev_chrominance | dev_dark | dev_xtrans | dev_clips
| dev_inmask | dev_outmask | dev_accu.

Inductive cl_kernel : Type :=
| kernel_highlights_initmask
| kernel_highlights_dilatemask
| kernel_highlights_chroma
| kernel_highlights_opposed.

(** [CLARG] of a buffer and of an integer. *)
Inductive cl_arg : Type :=
| ArgMem (m : cl_mem)
| ArgInt (z : Z).

(** What a constant buffer is filled from. *)
Inductive cl_host_data : Type :=
| HostXtrans (x : list (list Z))
| HostPixel (p : dt_aligned_pixel_t).

(** A call to the device. The flag of [ReleaseMemObject] tells whether the
    handle released is a buffer that was acquired (it is [NULL]
    otherwise). *)
Inductive cl_call : Type :=
| CopyHostToDeviceConstant (m : cl_mem) (data : cl_host_data)
| AllocDeviceBuffer (m : cl_mem) (bytes : Z)
| EnqueueKernel2D (k : cl_kernel) (sizex sizey : Z) (args : list cl_arg)
| WriteBufferToDevice (m : cl_mem) (data : list float)
| ReadBufferFromDevice (m : cl_mem)
| ReleaseMemObject (m : cl_mem) (held : bool).

(** The device and its runtime: whether the copy or the allocation that
    fills a handle returns a buffer, the status each kernel launch and each
    transfer returns, the eight floats read back from [dev_accu], the
    rounding of the launch sizes and the default error code. *)
Class Device : Type :=
  { DT_OPENCL_DEFAULT_ERROR : Z;
    ROUNDUPDWD : Z -> Z;
    ROUNDUPDHT : Z -> Z;
    acquires : cl_mem -> bool;
    kernel_status : cl_kernel -> Z;
    write_status : Z;
    read_status : Z;
    accu_read : Z -> float }.

Definition CL_SUCCESS : Z := 0.

(** A value converted to [int] (32 bits, two's complement). *)
Definition to_int32 (z : Z) : Z := (z + 2 ^ 31) mod 2 ^ 32 - 2 ^ 31.

Definition cl_mem_eqb (a b : cl_mem) : bool :=
  match a, b with
  | dev_in, dev_in | dev_out, dev_out | dev_chrominance, dev_chrominance
  | dev_dark, dev_dark | dev_xtrans, dev_xtrans | dev_clips, dev_clips
  | dev_inmask, dev_inmask | dev_outmask, dev_outmask | dev_accu, dev_accu => true
  | _, _ => false
  end.

(** The locals of the function that change as it runs ([err], the handles
    that are not [NULL], [chrominance]), the chrominance state it may write
    and the calls made so far. *)
Record cl_machine : Type :=
  { cl_err : Z;
    cl_held : list cl_mem;
    cl_chrominance : dt_aligned_pixel_t;
    cl_chroma : chroma_state;
    cl_log : list cl_call }.

(** Where control is after a statement: at the next one, or at the label
    [error]. *)
Inductive cl_flow : Type :=
| Next (s : cl_machine)
| GotoError (s : cl_machine).

Definition cl_then (f : cl_flow) (k : cl_machine -> cl_flow) : cl_flow :=
  match f with
  | Next s => k s
  | GotoError s => GotoError s
  end.

Notation "f >>> k" := (cl_then f k) (at level 62, left associativity).

Section OpenCL.

Context `{Externals} `{Device}.

(** [dev = <copy or allocation>; if(dev == NULL) goto error;] *)
Definition acquire (call : cl_call) (m : cl_mem) (s : cl_machine) : cl_flow :=
  if acquires m
  then Next {| cl_err := cl_err s;
               cl_held := m :: cl_held s;
               cl_chrominance := cl_chrominance s;
               cl_chroma := cl_chroma s;
               cl_log := cl_log s ++ [call] |}
  else GotoError {| cl_err := cl_err s;
                    cl_held := cl_held s;
                    cl_chrominance := cl_chrominance s;
                    cl_chroma := cl_chroma s;
                    cl_log := cl_log s ++ [call] |}.

(** [err = <launch or transfer>; if(err != CL_SUCCESS) goto error;] *)
Definition attempt (call : cl_call) (status : Z) (s : cl_machine) : cl_flow :=
  let s' := {| cl_err := status;
               cl_held := cl_held s;
               cl_chrominance := cl_chrominance s;
               cl_chroma := cl_chroma s;
               cl_log := cl_log s ++ [call] |} in
  if status =? CL_SUCCESS then Next s' else GotoError s'.

(** [dt_opencl_release_mem_object(dev)] *)
Definition release (m : cl_mem) (s : cl_machine) : cl_machine :=
  {| cl_err := cl_err s;
     cl_held := filter (fun x => negb (cl_mem_eqb x m)) (cl_held s);
     cl_chrominance := cl_chrominance s;
     cl_chroma := cl_chroma s;
     cl_log := cl_log s ++ [ReleaseMemObject m (existsb (cl_mem_eqb m) (cl_held s))] |}.

(** The seven releases both exits of the function make. *)
Definition release_all (s : cl_machine) : cl_machine :=
  release dev_accu
    (release dev_outmask
       (release dev_inmask
          (release dev_dark
             (release dev_chrominance
                (release dev_xtrans
                   (release dev_clips s)))))).

(** The coarse grid as the function computes it, in [int]s. *)
Definition cl_mwidth (roi_in : dt_iop_roi_t) : Z := Z.quot (roi_width roi_in) 3.

Definition cl_mheight (roi_in : dt_iop_roi_t) : Z := Z.quot (roi_height roi_in) 3.

Definition cl_msize (roi_in : dt_iop_roi_t) : Z :=
  to_int32 (dt_round_size
              (to_size_t (to_size_t (cl_mwidth roi_in + 1) * (cl_mheight roi_in + 1)))
              64).

(** The block that recomputes the chrominance on the device. *)
Definition cl_estimate (piece : dt_dev_pixelpipe_iop_t) (roi_in : dt_iop_roi_t)
           (clips clipdark : dt_aligned_pixel_t)
           (iwidth iheight mwidth mheight msize : Z) (s : cl_machine) : cl_flow :=
  let filters := filters (dsc piece) in
  acquire (CopyHostToDeviceConstant dev_dark (HostPixel clipdark)) dev_dark s
  >>> acquire (AllocDeviceBuffer dev_inmask (to_size_t (1 * 3 * msize))) dev_inmask
  >>> acquire (AllocDeviceBuffer dev_outmask (to_size_t (1 * 3 * msize))) dev_outmask
  >>> acquire (AllocDeviceBuffer dev_accu (4 * 8)) dev_accu
  >>> attempt (EnqueueKernel2D kernel_highlights_initmask iwidth iheight
                 [ArgMem dev_in; ArgMem dev_inmask;
                  ArgInt (roi_width roi_in); ArgInt (roi_height roi_in);
                  ArgInt msize; ArgInt mwidth; ArgInt filters;
                  ArgMem dev_xtrans; ArgMem dev_clips])
              (kernel_status kernel_highlights_initmask)
  >>> attempt (EnqueueKernel2D kernel_highlights_dilatemask
                 (to_size_t mwidth) (to_size_t mheight)
                 [ArgMem dev_inmask; ArgMem dev_outmask;
                  ArgInt mwidth; ArgInt mheight; ArgInt msize])
              (kernel_status kernel_highlights_dilatemask)
  >>> attempt (WriteBufferToDevice dev_accu
                 [zero; zero; zero; zero; zero; zero; zero; zero])
              write_status
  >>> attempt (EnqueueKernel2D kernel_highlights_chroma iwidth iheight
                 [ArgMem dev_in; ArgMem dev_outmask; ArgMem dev_accu;
                  ArgInt (roi_width roi_in); ArgInt (roi_height roi_in);
                  ArgInt mwidth; ArgInt mheight; ArgInt msize;
                  ArgInt filters; ArgMem dev_xtrans;
                  ArgMem dev_clips; ArgMem dev_dark])
              (kernel_status kernel_highlights_chroma)
  >>> attempt (ReadBufferFromDevice dev_accu) read_status
  >>> fun s =>
        let chrominance :=
          for_each 0 3
            (fun c chrom =>
               pset chrom c (fdiv (accu_read c) (fmaxf one (accu_read (c + 4)))))
            (cl_chrominance s) in
        Next {| cl_err := cl_err s;
                cl_held := cl_held s;
                cl_chrominance := chrominance;
                cl_chroma :=
                  if is_full (pipe_type piece) && dt_image_altered (image_id piece)
                  then publish piece chrominance (cl_chroma s)
                  else cl_chroma s;
                cl_log := cl_log s |}.

(** [process_opposed_cl]: the value returned and the machine at the
    return. *)
Definition process_opposed_cl (st : chroma_state) (piece : dt_dev_pixelpipe_iop_t)
           (roi_in roi_out : dt_iop_roi_t) : Z * cl_machine :=
  let filters := filters (dsc piece) in
  let clipval := fmul c0_987 (clip piece) in
  let icoeffs := icoeffs_of piece in
  let clips := mkpixel (fmul clipval (pget icoeffs 0))
                       (fmul clipval (pget icoeffs 1))
                       (fmul clipval (pget icoeffs 2))
                       one in
  let chrominance := stored_chrominance st in
  let clipdark := mkpixel (fmul c0_03 (pget clips 0))
                          (fmul c0_125 (pget clips 1))
                          (fmul c0_03 (pget clips 2))
                          zero in
  let iwidth := ROUNDUPDWD (roi_width roi_in) in
  let iheight := ROUNDUPDHT (roi_height roi_in) in
  let mwidth := cl_mwidth roi_in in
  let mheight := cl_mheight roi_in in
  let msize := cl_msize roi_in in
  let flow :=
    acquire (CopyHostToDeviceConstant dev_xtrans (HostXtrans (xtrans (dsc piece))))
            dev_xtrans
            {| cl_err := DT_OPENCL_DEFAULT_ERROR;
               cl_held := [];
               cl_chrominance := chrominance;
               cl_chroma := st;
               cl_log := [] |}
    >>> acquire (CopyHostToDeviceConstant dev_clips (HostPixel clips)) dev_clips
    >>> (fun s =>
           if negb (feqf (_color_magic piece) (pget (d_chroma_correction st) 3) c1e_6)
           then cl_estimate piece roi_in clips clipdark
                            iwidth iheight mwidth mheight msize s
           else Next s)
    >>> (fun s =>
           acquire (CopyHostToDeviceConstant dev_chrominance
                      (HostPixel (cl_chrominance s)))
                   dev_chrominance s)
    >>> attempt (EnqueueKernel2D kernel_highlights_opposed iwidth iheight
                   [ArgMem dev_in; ArgMem dev_out;
                    ArgInt (roi_width roi_out); ArgInt (roi_height roi_out);
                    ArgInt (roi_width roi_in); ArgInt (roi_height roi_in);
                    ArgInt (roi_x roi_out); ArgInt (roi_y roi_out);
                    ArgInt filters; ArgMem dev_xtrans;
                    ArgMem dev_clips; ArgMem dev_chrominance])
                (kernel_status kernel_highlights_opposed) in
  match flow with
  | Next s => (CL_SUCCESS, release_all s)
  | GotoError s =>
      let err := if cl_err s =? CL_SUCCESS then DT_OPENCL_DEFAULT_ERROR else cl_err s in
      (err, release_all s)
  end.

End OpenCL.

Section OpenCLVocabulary.

Context `{Device}.

Definition cl_is_release (c : cl_call) : bool :=
  match c with ReleaseMemObject _ _ => true | _ => false end.

(** Whether the device answered the call with success. *)
Definition cl_call_ok (c : cl_call) : bool :=
  match c with
  | CopyHostToDeviceConstant m _ | AllocDeviceBuffer m _ => acquires m
  | EnqueueKernel2D k _ _ _ => kernel_status k =? CL_SUCCESS
  | WriteBufferToDevice _ _ => write_status =? CL_SUCCESS
  | ReadBufferFromDevice _ => read_status =? CL_SUCCESS
  | ReleaseMemObject _ _ => true
  end.

(** The error code the function reports for a call that failed: the
    status of a launch or a transfer, the default code for a copy or an
    allocation (they return a handle, not a status). *)
Definition cl_call_status (c : cl_call) : Z :=
  match c with
  | EnqueueKernel2D k _ _ _ => kernel_status k
  | WriteBufferToDevice _ _ => write_status
  | ReadBufferFromDevice _ => read_status
  | _ => DT_OPENCL_DEFAULT_ERROR
  end.

(** The buffer [m] was asked for in the log, and obtained. *)
Definition cl_acquired (log : list cl_call) (m : cl_mem) : bool :=
  existsb (fun c => match c with
                    | CopyHostToDeviceConstant m' _ | AllocDeviceBuffer m' _ =>
                        cl_mem_eqb m m' && acquires m
                    | _ => false
                    end) log.

(** The seven buffers of the function, in the order it releases them. *)
Definition cl_owned : list cl_mem :=
  [dev_clips; dev_xtrans; dev_chrominance; dev_dark; dev_inmask; dev_outmask; dev_accu].

(** The calls that serve the recomputation of the chrominance only. *)
Definition cl_is_estimation (c : cl_call) : bool :=
  match c with
  | CopyHostToDeviceConstant dev_dark _ => true
  | AllocDeviceBuffer _ _ => true
  | EnqueueKernel2D kernel_highlights_opposed _ _ _ => false
  | EnqueueKernel2D _ _ _ _ => true
  | WriteBufferToDevice _ _ | ReadBufferFromDevice _ => true
  | _ => false
  end.

(** The triple computed from the eight floats read back. *)
Definition cl_chrominance_read : dt_aligned_pixel_t :=
  mkpixel (fdiv (accu_read 0) (fmaxf one (accu_read 4)))
          (fdiv (accu_read 1) (fmaxf one (accu_read 5)))
          (fdiv (accu_read 2) (fmaxf one (accu_read 6)))
          zero.

(** Every call of the estimation block succeeds. *)
Definition cl_estimation_succeeds : bool :=
  acquires dev_dark && acquires dev_inmask && acquires dev_outmask && acquires dev_accu
  && (kernel_status kernel_highlights_initmask =? CL_SUCCESS)
  && (kernel_status kernel_highlights_dilatemask =? CL_SUCCESS)
  && (write_status =? CL_SUCCESS)
  && (kernel_status kernel_highlights_chroma =? CL_SUCCESS)
  && (read_status =? CL_SUCCESS).

End OpenCLVocabulary.

(** A device on which everything succeeds except the acquisition of the
    buffer [lost] and the launch of the kernel [broken], if any; it reads
    back 1.0 for the four sums and 2.0 for the four counts. *)
Definition bench_device (lost : cl_mem) (broken : option cl_kernel) : Device :=
  {| DT_OPENCL_DEFAULT_ERROR := -999;
     ROUNDUPDWD := fun w => w;
     ROUNDUPDHT := fun h => h;
     acquires := fun m => negb (cl_mem_eqb m lost);
     kernel_status := fun k =>
       match broken, k with
       | Some kernel_highlights_initmask, kernel_highlights_initmask
       | Some kernel_highlights_dilatemask, kernel_highlights_dilatemask
       | Some kernel_highlights_chroma, kernel_highlights_chroma
       | Some kernel_highlights_opposed, kernel_highlights_opposed => -5
       | _, _ => 0
       end;
     write_status := 0;
     read_status := 0;
     accu_read := fun i => if i <? 4 then one else two |}.

(** A state that holds the tag of [bench_piece] and the triple
    (0.25, 0.25, 0.25). *)
Definition tagged_state : chroma_state :=
  {| d_chroma_correction := mkpixel quarter quarter quarter half;
     p_chroma_correction := mkpixel quarter quarter quarter half;
     history_items := 1 |}.

(** No call but releases follows a call that failed. *)
Fixpoint cl_stops_at_failure `{Device} (log : list cl_call) : bool :=
  match log with
  | [] => true
  | c :: post =>
      (cl_call_ok c || forallb cl_is_release post) && cl_stops_at_failure post
  end.

(** The calls of the function as a list, and what a run through them
    leaves. *)
Section OpenCLCalls.

Context `{Externals} `{Device}.

(** The statement of the function that makes the call [c]: an acquisition
    for a copy or an allocation, a checked status for a launch or a
    transfer. *)
Definition cl_do (c : cl_call) (s : cl_machine) : cl_flow :=
  match c with
  | CopyHostToDeviceConstant m _ | AllocDeviceBuffer m _ => acquire c m s
  | EnqueueKernel2D k _ _ _ => attempt c (kernel_status k) s
  | WriteBufferToDevice _ _ => attempt c write_status s
  | ReadBufferFromDevice _ => attempt c read_status s
  | ReleaseMemObject m _ => Next (release m s)
  end.

(** The statements of the calls of [calls], one after the other. *)
Definition cl_issue (calls : list cl_call) (f : cl_flow) : cl_flow :=
  fold_left (fun f c => f >>> cl_do c) calls f.

(** The calls of [calls] up to the first that fails, included. *)
Fixpoint cl_until_failure (calls : list cl_call) : list cl_call :=
  match calls with
  | [] => []
  | c :: rest => c :: (if cl_call_ok c then cl_until_failure rest else [])
  end.

Definition cl_state (f : cl_flow) : cl_machine :=
  match f with Next s | GotoError s => s end.

(** What the function returns from where control is. *)
Definition cl_return (f : cl_flow) : Z :=
  match f with
  | Next _ => CL_SUCCESS
  | GotoError s =>
      if cl_err s =? CL_SUCCESS then DT_OPENCL_DEFAULT_ERROR else cl_err s
  end.

(** [f] is where control is once the calls of [calls] were made in order
    up to the first that failed: the log, the handles held, the value to
    return. *)
Definition cl_after (calls : list cl_call) (f : cl_flow) : Prop :=
  f = (if forallb cl_call_ok calls then Next (cl_state f) else GotoError (cl_state f)) /\
  cl_log (cl_state f) = cl_until_failure calls /\
  (forall m, existsb (cl_mem_eqb m) (cl_held (cl_state f))
             = cl_acquired (cl_until_failure calls) m) /\
  cl_return f = match find (fun c => negb (cl_call_ok c)) calls with
                | None => CL_SUCCESS
                | Some c => cl_call_status c
                end /\
  (forallb cl_call_ok calls = true ->
   cl_err (cl_state f) = DT_OPENCL_DEFAULT_ERROR \/ cl_err (cl_state f) = CL_SUCCESS).

(** The calls of [process_opposed_cl] in the order of the source, as it
    makes them when none fails: the two first copies, the estimation block
    when the stored tag differs from the tag of the piece, the copy of the
    chrominance and the launch of the reconstruction kernel. *)
Definition cl_setup_calls (piece : dt_dev_pixelpipe_iop_t) (clips : dt_aligned_pixel_t)
  : list cl_call :=
  [CopyHostToDeviceConstant dev_xtrans (HostXtrans (xtrans (dsc piece)));
   CopyHostToDeviceConstant dev_clips (HostPixel clips)].

Definition cl_estimation_calls (piece : dt_dev_pixelpipe_iop_t) (roi_in : dt_iop_roi_t)
           (clipdark : dt_aligned_pixel_t)
           (iwidth iheight mwidth mheight msize : Z) : list cl_call :=
  let filters := filters (dsc piece) in
  [CopyHostToDeviceConstant dev_dark (HostPixel clipdark);
   AllocDeviceBuffer dev_inmask (to_size_t (1 * 3 * msize));
   AllocDeviceBuffer dev_outmask (to_size_t (1 * 3 * msize));
   AllocDeviceBuffer dev_accu (4 * 8);
   EnqueueKernel2D kernel_highlights_initmask iwidth iheight
     [ArgMem dev_in; ArgMem dev_inmask;
      ArgInt (roi_width roi_in); ArgInt (roi_height roi_in);
      ArgInt msize; ArgInt mwidth; ArgInt filters;
      ArgMem dev_xtrans; ArgMem dev_clips];
   EnqueueKernel2D kernel_highlights_dilatemask
     (to_size_t mwidth) (to_size_t mheight)
     [ArgMem dev_inmask; ArgMem dev_outmask;
      ArgInt mwidth; ArgInt mheight; ArgInt msize];
   WriteBufferToDevice dev_accu
     [zero; zero; zero; zero; zero; zero; zero; zero];
   EnqueueKernel2D kernel_highlights_chroma iwidth iheight
     [ArgMem dev_in; ArgMem dev_outmask; ArgMem dev_accu;
      ArgInt (roi_width roi_in); ArgInt (roi_height roi_in);
      ArgInt mwidth; ArgInt mheight; ArgInt msize;
      ArgInt filters; ArgMem dev_xtrans;
      ArgMem dev_clips; ArgMem dev_dark];
   ReadBufferFromDevice dev_accu].

Definition cl_opposed_call (piece : dt_dev_pixelpipe_iop_t)
           (roi_in roi_out : dt_iop_roi_t) (iwidth iheight : Z) : cl_call :=
  EnqueueKernel2D kernel_highlights_opposed iwidth iheight
    [ArgMem dev_in; ArgMem dev_out;
     ArgInt (roi_width roi_out); ArgInt (roi_height roi_out);
     ArgInt (roi_width roi_in); ArgInt (roi_height roi_in);
     ArgInt (roi_x roi_out); ArgInt (roi_y roi_out);
     ArgInt (filters (dsc piece)); ArgMem dev_xtrans;
     ArgMem dev_clips; ArgMem dev_chrominance].

Definition cl_planned (st : chroma_state) (piece : dt_dev_pixelpipe_iop_t)
           (roi_in roi_out : dt_iop_roi_t) : list cl_call :=
  let clipval := fmul c0_987 (clip piece) in
  let icoeffs := icoeffs_of piece in
  let clips := mkpixel (fmul clipval (pget icoeffs 0))
                       (fmul clipval (pget icoeffs 1))
                       (fmul clipval (pget icoeffs 2))
                       one in
  let clipdark := mkpixel (fmul c0_03 (pget clips 0))
                          (fmul c0_125 (pget clips 1))
                          (fmul c0_03 (pget clips 2))
                          zero in
  let iwidth := ROUNDUPDWD (roi_width roi_in) in
  let iheight := ROUNDUPDHT (roi_height roi_in) in
  let mismatch :=
    negb (feqf (_color_magic piece) (pget (d_chroma_correction st) 3) c1e_6) in
  cl_setup_calls piece clips
  ++ (if mismatch
      then cl_estimation_calls piece roi_in clipdark iwidth iheight
             (cl_mwidth roi_in) (cl_mheight roi_in) (cl_msize roi_in)
      else [])
  ++ [CopyHostToDeviceConstant dev_chrominance
        (HostPixel (if mismatch then cl_chrominance_read else stored_chrominance st));
      cl_opposed_call piece roi_in roi_out iwidth iheight].

End OpenCLCalls.

(** ** The pixel-aspect scaler, [src/iop/scalepixels.c]

    The functions of the module that compute: the geometry callbacks, the
    point transformations, the sampling of [process] and the handling of the
    parameters. The interpolation kernel belongs to another file and is a
    parameter. *)

Module ScalePixels.

(** [floorf] and [ceilf] of the C library. *)
Definition floorf (x : float) : float :=
  match x with
  | S754_finite s m e =>
      if 0 <=? e then x
      else
        let q := Z.pos m / 2 ^ (- e) in
        if Z.pos m mod 2 ^ (- e) =? 0 then x
        else if s then of_Z (- (q + 1))
             else if q =? 0 then S754_zero false else of_Z q
  | _ => x
  end.

Definition ceilf (x : float) : float :=
  match x with
  | S754_finite s m e =>
      if 0 <=? e then x
      else
        let q := Z.pos m / 2 ^ (- e) in
        if Z.pos m mod 2 ^ (- e) =? 0 then x
        else if s then (if q =? 0 then S754_zero true else of_Z (- q))
             else of_Z (q + 1)
  | _ => x
  end.

(** The macro [MIN] on floats: [(a < b) ? a : b]. *)
Definition MIN (a b : float) : float := if flt a b then a else b.

(** The operator [==] on floats. *)
Definition feq (a b : float) : bool := SFeqb a b.

Record dt_iop_scalepixels_params_t : Type :=
  { params_pixel_aspect_ratio : float }.

Record dt_iop_scalepixels_data_t : Type :=
  { pixel_aspect_ratio : float;
    x_scale : float;
    y_scale : float }.

(** What the functions use of [self]: the parameters, the default
    parameters, the two flags and the pixel aspect ratio of the image of
    [self->dev], if there is a [dev]. *)
Record dt_iop_module_t : Type :=
  { params : dt_iop_scalepixels_params_t;
    default_params : dt_iop_scalepixels_params_t;
    default_enabled : bool;
    hide_enable_button : bool;
    dev_image_pixel_aspect_ratio : option float }.

(** [transform(piece, p)] on the two floats of [p]. *)
Definition transform (d : dt_iop_scalepixels_data_t) (p : float * float)
  : float * float :=
  if flt (pixel_aspect_ratio d) one
  then (fst p, fdiv (snd p) (pixel_aspect_ratio d))
  else (fmul (fst p) (pixel_aspect_ratio d), snd p).

(** The loop [for(size_t i = 0; i < points_count * 2; i += 2)] of the two
    point transformations, iteration [k] having [i = 2 * k]. *)
Definition for_each_point (points_count : Z)
           (body : Z -> buffer -> buffer) (points : buffer) : buffer :=
  for_each 0 ((to_size_t (points_count * 2) + 1) / 2)
           (fun k => body (2 * k)) points.

(** [distort_transform]: the points after the call and the value returned. *)
Definition distort_transform (d : dt_iop_scalepixels_data_t)
           (points : buffer) (points_count : Z) : buffer * Z :=
  (for_each_point points_count
     (fun i points =>
        let points := buf_set points i (fdiv (points i) (x_scale d)) in
        buf_set points (i + 1) (fdiv (points (i + 1)) (y_scale d)))
     points,
   1).

Definition distort_backtransform (d : dt_iop_scalepixels_data_t)
           (points : buffer) (points_count : Z) : buffer * Z :=
  (for_each_point points_count
     (fun i points =>
        let points := buf_set points i (fmul (points i) (x_scale d)) in
        buf_set points (i + 1) (fmul (points (i + 1)) (y_scale d)))
     points,
   1).

(** [modify_roi_out]: the region written to [*roi_out]. The line it prints
    on [stderr] is left out. *)
Definition modify_roi_out (d : dt_iop_scalepixels_data_t) (roi_in : dt_iop_roi_t)
  : dt_iop_roi_t :=
  let xy := transform d (of_Z (roi_x roi_in), of_Z (roi_y roi_in)) in
  let wh := transform d (of_Z (roi_width roi_in), of_Z (roi_height roi_in)) in
  let x := to_int (floorf (fst xy)) in
  let y := to_int (floorf (snd xy)) in
  let width := to_int (ceilf (fst wh)) in
  let height := to_int (ceilf (snd wh)) in
  {| roi_x := if x <? 0 then 0 else x;
     roi_y := if y <? 0 then 0 else y;
     roi_width := if width <? 1 then 1 else width;
     roi_height := if height <? 1 then 1 else height;
     roi_scale := roi_scale roi_in |}.

(** [commit_params]: the data of the piece and its [enabled] flag after the
    call. The function reads [self->params]; its argument [params] is not
    used. *)
Definition commit_params (self : dt_iop_module_t)
           (params_arg : dt_iop_scalepixels_params_t) (enabled : bool)
  : dt_iop_scalepixels_data_t * bool :=
  let p := params self in
  ({| pixel_aspect_ratio := params_pixel_aspect_ratio p;
      x_scale := one;
      y_scale := one |},
   if is_nan (params_pixel_aspect_ratio p)
      || fle (params_pixel_aspect_ratio p) zero
      || feq (params_pixel_aspect_ratio p) one
   then false else enabled).

(** [init_pipe]: the zero-filled data it allocates are overwritten by the
    commit of [self->default_params]. *)
Definition init_pipe (self : dt_iop_module_t) (enabled : bool)
  : dt_iop_scalepixels_data_t * bool :=
  commit_params self (default_params self) enabled.

(** [reload_defaults] for a module that is not [NULL]. *)
Definition reload_defaults (self : dt_iop_module_t) : dt_iop_module_t :=
  match dev_image_pixel_aspect_ratio self with
  | None =>
      let tmp := {| params_pixel_aspect_ratio := one |} in
      {| params := tmp;
         default_params := tmp;
         default_enabled := default_enabled self;
         hide_enable_button := hide_enable_button self;
         dev_image_pixel_aspect_ratio := None |}
  | Some ratio =>
      let tmp := {| params_pixel_aspect_ratio := ratio |} in
      let enabled := negb (is_nan ratio) && fgt ratio zero && negb (feq ratio one) in
      {| params := tmp;
         default_params := tmp;
         default_enabled := enabled;
         hide_enable_button := negb enabled;
         dev_image_pixel_aspect_ratio := Some ratio |}
  end.

(** The interpolation kernel [dt_interpolation_compute_pixel4c], for the
    user's interpolation: the four floats it stores at [out] for the sample
    position [(x, y)] of an input of the given width, height and line
    stride. *)
Class Interpolation : Type :=
  { dt_interpolation_compute_pixel4c :
      buffer -> float -> float -> Z -> Z -> Z -> dt_aligned_pixel_t }.

(** The sample position of the output pixel [(i, j)]. *)
Definition sample_x (d : dt_iop_scalepixels_data_t) (roi_in : dt_iop_roi_t) (i : Z)
  : float :=
  MIN (fmul (of_Z i) (x_scale d)) (of_Z (roi_width roi_in)).

Definition sample_y (d : dt_iop_scalepixels_data_t) (roi_in : dt_iop_roi_t) (j : Z)
  : float :=
  MIN (fmul (of_Z j) (y_scale d)) (of_Z (roi_height roi_in)).

(** [process]: the output buffer after the call. [colors] is
    [piece->colors]; the lines printed on [stderr] are left out. *)
Definition process `{Interpolation} (d : dt_iop_scalepixels_data_t) (colors : Z)
           (ivoid ovoid : buffer) (roi_in roi_out : dt_iop_roi_t) : buffer :=
  let ch_width := colors * roi_width roi_in in
  for_each 0 (roi_height roi_out)
    (fun j =>
       let out := to_size_t (4 * j * roi_width roi_out) in
       for_each 0 (roi_width roi_out)
         (fun i ovoid =>
            let x := sample_x d roi_in i in
            let y := sample_y d roi_in j in
            let px := dt_interpolation_compute_pixel4c
                        ivoid x y (roi_width roi_in) (roi_height roi_in) ch_width in
            for_each 0 4 (fun c ovoid => buf_set ovoid (out + 4 * i + c) (pget px c))
                     ovoid))
    ovoid.

End ScalePixels.

(** An interpolation that returns the sample position itself, with the
    first float of the input in the third place. *)
Definition bench_interpolation : ScalePixels.Interpolation :=
  {| ScalePixels.dt_interpolation_compute_pixel4c :=
       fun input x y _ _ _ => mkpixel x y (input 0) zero |}.

(** The data of a piece that stretches twice horizontally. *)
Definition bench_scaler : ScalePixels.dt_iop_scalepixels_data_t :=
  {| ScalePixels.pixel_aspect_ratio := two;
     ScalePixels.x_scale := half;
     ScalePixels.y_scale := one |}.

(** * Properties *)

(** ** Binary32 order *)

Section FloatOrder.

Lemma lexcmp_spec e1 m1 e2 m2 :
  match lexcmp e1 m1 e2 m2 with
  | Lt => e1 < e2 \/ (e1 = e2 /\ (m1 < m2)%positive)
  | Eq => e1 = e2 /\ m1 = m2
  | Gt => e2 < e1 \/ (e1 = e2 /\ (m2 < m1)%positive)
  end.
Proof.
  unfold lexcmp. destruct (Z.compare_spec e1 e2); try lia.
  change (Pos.compare_cont Eq m1 m2) with (Pos.compare m1 m2).
  destruct (Pos.compare_spec m1 m2); subst; auto; lia.
Qed.

Lemma SFcompare_finite s1 m1 e1 s2 m2 e2 :
  SFcompare (S754_finite s1 m1 e1) (S754_finite s2 m2 e2) =
  Some (match s1, s2 with
        | true, false => Lt
        | false, true => Gt
        | false, false => lexcmp e1 m1 e2 m2
        | true, true => CompOpp (lexcmp e1 m1 e2 m2)
        end).
Proof. unfold lexcmp. destruct s1, s2; simpl; destruct (e1 ?= e2); reflexivity. Qed.

End FloatOrder.

Ltac float_cases :=
  repeat match goal with
         | x : spec_float |- _ => destruct x
         | x : float |- _ => destruct x
         end;
  rewrite ?SFcompare_finite in *;
  repeat match goal with
         | s : bool |- _ => destruct s
         end;
  simpl in *; try discriminate; try reflexivity; try tauto.

Ltac lex_cases :=
  repeat match goal with
         | |- context [lexcmp ?a ?b ?c ?d] =>
             let L := fresh "L" in
             pose proof (lexcmp_spec a b c d) as L;
             destruct (lexcmp a b c d)
         | H : context [lexcmp ?a ?b ?c ?d] |- _ =>
             let L := fresh "L" in
             pose proof (lexcmp_spec a b c d) as L;
             destruct (lexcmp a b c d)
         end;
  simpl in *; try discriminate; try reflexivity; try tauto; try (exfalso; lia).

Section Literals.

(** The literals are the binary32 values nearest to their decimal text. *)
Lemma one_exact : of_Z 1 = one.
Proof. reflexivity. Qed.

Lemma half_exact : fdiv (of_Z 1) (of_Z 2) = half.
Proof. vm_compute. reflexivity. Qed.

Lemma c0_987_rounded : fdiv (of_Z 987) (of_Z 1000) = c0_987.
Proof. vm_compute. reflexivity. Qed.

Lemma c0_03_rounded : fdiv (of_Z 3) (of_Z 100) = c0_03.
Proof. vm_compute. reflexivity. Qed.

Lemma c0_125_exact : fdiv (of_Z 1) (of_Z 8) = c0_125.
Proof. vm_compute. reflexivity. Qed.

Lemma c1e_6_rounded : fdiv (of_Z 1) (of_Z 1000000) = c1e_6.
Proof. vm_compute. reflexivity. Qed.

End Literals.

Section FloatLemmas.

Lemma SFleb_trans a b c : SFleb a b = true -> SFleb b c = true -> SFleb a c = true.
Proof. unfold SFleb. float_cases; lex_cases. Qed.

Lemma SFcompare_antisym a b : SFcompare b a = option_map CompOpp (SFcompare a b).
Proof. float_cases; lex_cases. Qed.

Lemma fge_trans a b c : fge a b = true -> fge b c = true -> fge a c = true.
Proof. unfold fge. intros; eapply SFleb_trans; eauto. Qed.

Lemma fge_refl a : is_nan a = false -> fge a a = true.
Proof. unfold fge, SFleb. float_cases; lex_cases. Qed.

Lemma flt_fge a b : flt a b = true -> fge b a = true.
Proof. unfold flt, fge, SFltb, SFleb. destruct (SFcompare a b) as [[]|]; auto. Qed.

Lemma flt_not_fge a b : flt a b = true -> fge a b = false.
Proof.
  unfold flt, fge, SFltb, SFleb. rewrite (SFcompare_antisym a b).
  destruct (SFcompare a b) as [[]|]; simpl; auto; discriminate.
Qed.

Lemma fge_not_flt a b : fge a b = true -> flt a b = false.
Proof.
  intros G. destruct (flt a b) eqn:L; auto.
  apply flt_not_fge in L. congruence.
Qed.

Lemma flt_nan_r a b : is_nan b = true -> flt a b = false.
Proof. unfold flt, SFltb. destruct b; try discriminate. destruct a; reflexivity. Qed.

Lemma fge_nan_r a b : is_nan b = true -> fge a b = false.
Proof. unfold fge, SFleb. destruct b; try discriminate. reflexivity. Qed.

Lemma fge_nan_l a b : is_nan a = true -> fge a b = false.
Proof. unfold fge, SFleb. destruct a; try discriminate. destruct b; reflexivity. Qed.

Lemma flt_nan_l a b : is_nan a = true -> flt a b = false.
Proof. unfold flt, SFltb. destruct a; try discriminate. reflexivity. Qed.

(** On numbers the order is total. *)
Lemma fge_total a b :
  is_nan a = false -> is_nan b = false -> fge a b = true \/ flt a b = true.
Proof.
  unfold fge, flt, SFleb, SFltb. rewrite (SFcompare_antisym a b).
  intros Ha Hb. destruct a, b; try discriminate;
    match goal with |- context [SFcompare ?x ?y] => destruct (SFcompare x y) as [[]|] eqn:E end;
    simpl; auto; simpl in E; try discriminate;
    repeat match goal with s : bool |- _ => destruct s end; discriminate.
Qed.

Lemma flt_fge_trans a b c : flt a b = true -> fge c b = true -> flt a c = true.
Proof. unfold flt, fge, SFltb, SFleb. float_cases; lex_cases. Qed.

Lemma fmaxf_cases x y : fmaxf x y = x \/ fmaxf x y = y.
Proof. unfold fmaxf. destruct (fge x y), (flt x y), (is_nan y); auto. Qed.

Lemma fmaxf_not_nan_l x y : is_nan x = false -> is_nan (fmaxf x y) = false.
Proof.
  unfold fmaxf. intros Hx.
  destruct (fge x y) eqn:G; auto.
  destruct (flt x y) eqn:L.
  - destruct (is_nan y) eqn:N; auto. rewrite flt_nan_r in L by auto. discriminate.
  - destruct (is_nan y) eqn:N; auto.
Qed.

Lemma fmaxf_ge_l x y : is_nan x = false -> fge (fmaxf x y) x = true.
Proof.
  unfold fmaxf. intros Hx.
  destruct (fge x y) eqn:G; [apply fge_refl; auto|].
  destruct (flt x y) eqn:L; [apply flt_fge; auto|].
  destruct (is_nan y) eqn:N; [apply fge_refl; auto|].
  destruct (fge_total x y Hx N); congruence.
Qed.

Lemma fmaxf_ge_r x y : is_nan y = false -> fge (fmaxf x y) y = true.
Proof.
  unfold fmaxf. intros Hy.
  destruct (fge x y) eqn:G; auto.
  destruct (flt x y) eqn:L; [apply fge_refl; auto|].
  rewrite Hy. apply fge_refl; auto.
Qed.

Lemma fmaxf_nan_r x : fmaxf x S754_nan = x.
Proof. unfold fmaxf. rewrite fge_nan_r, flt_nan_r by reflexivity. reflexivity. Qed.

(** The clamp [fmaxf(0.0f, v)]: either [v] itself, a positive number, or
    [+0] for every [v] that is not positive. *)
Lemma fmaxf_zero_cases v :
  (fmaxf zero v = v /\ flt zero v = true) \/ (fmaxf zero v = zero /\ flt zero v = false).
Proof.
  unfold fmaxf, zero, fge, flt, SFleb, SFltb.
  destruct v as [s|s| |s m e]; simpl; try destruct s; simpl; auto.
Qed.

Lemma fmaxf_zero_not_nan v : is_nan (fmaxf zero v) = false.
Proof. apply fmaxf_not_nan_l. reflexivity. Qed.

Lemma fmaxf_zero_ge v : is_nan v = false -> fge (fmaxf zero v) v = true.
Proof. apply fmaxf_ge_r. Qed.

Lemma fmaxf_zero_not_lt v : flt (fmaxf zero v) v = false.
Proof.
  destruct (is_nan v) eqn:N.
  - apply flt_nan_r; auto.
  - apply fge_not_flt, fmaxf_zero_ge; auto.
Qed.

End FloatLemmas.

(** ** Loops *)

Section LoopLemmas.

Context {S : Type}.

Lemma iter_range_snoc n : forall i (body : Z -> S -> S) s,
  iter_range (Datatypes.S n) i body s =
  body (i + Z.of_nat n) (iter_range n i body s).
Proof.
  induction n as [|n IH]; intros i body s.
  - simpl. f_equal. lia.
  - change (iter_range (Datatypes.S (Datatypes.S n)) i body s)
      with (iter_range (Datatypes.S n) (i + 1) body (body i s)).
    rewrite IH. simpl. f_equal. lia.
Qed.

(** Invariant rule for the pure loop. *)
Lemma for_each_inv (P : Z -> S -> Prop) lo hi (body : Z -> S -> S) s :
  lo <= hi ->
  P lo s ->
  (forall j t, lo <= j < hi -> P j t -> P (j + 1) (body j t)) ->
  P hi (for_each lo hi body s).
Proof.
  intros Hle H0 Hstep. unfold for_each.
  assert (G : forall n, Z.of_nat n <= hi - lo ->
                        P (lo + Z.of_nat n) (iter_range n lo body s)).
  { induction n as [|n IH]; intros Hn.
    - simpl. replace (lo + 0) with lo by lia. exact H0.
    - rewrite iter_range_snoc.
      replace (lo + Z.of_nat (Datatypes.S n)) with (lo + Z.of_nat n + 1) by lia.
      apply Hstep; [lia|]. apply IH. lia. }
  specialize (G (Z.to_nat (hi - lo))).
  replace (lo + Z.of_nat (Z.to_nat (hi - lo))) with hi in G by lia.
  apply G. lia.
Qed.

Lemma for_each_empty lo hi (body : Z -> S -> S) s :
  hi <= lo -> for_each lo hi body s = s.
Proof.
  intros Hle. unfold for_each.
  replace (Z.to_nat (hi - lo)) with O by lia. reflexivity.
Qed.

Lemma for_range_snoc n : forall i (body : Z -> S -> option S) s,
  for_range (Datatypes.S n) i body s =
  bind (for_range n i body s) (body (i + Z.of_nat n)).
Proof.
  induction n as [|n IH]; intros i body s.
  - simpl. replace (i + 0) with i by lia. destruct (body i s); reflexivity.
  - change (for_range (Datatypes.S (Datatypes.S n)) i body s)
      with (match body i s with
            | Some s' => for_range (Datatypes.S n) (i + 1) body s'
            | None => None
            end).
    destruct (body i s) as [s'|] eqn:E.
    + rewrite IH. simpl. rewrite E.
      replace (i + 1 + Z.of_nat n) with (i + Z.pos (Pos.of_succ_nat n)) by lia.
      reflexivity.
    + simpl. rewrite E. reflexivity.
Qed.

(** Invariant rule for the fallible loop: when every iteration succeeds on
    states satisfying the invariant, the loop succeeds. *)
Lemma for_loop_inv (P : Z -> S -> Prop) lo hi (body : Z -> S -> option S) s :
  lo <= hi ->
  P lo s ->
  (forall j t, lo <= j < hi -> P j t -> exists t', body j t = Some t' /\ P (j + 1) t') ->
  exists s', for_loop lo hi body s = Some s' /\ P hi s'.
Proof.
  intros Hle H0 Hstep. unfold for_loop.
  assert (G : forall n, Z.of_nat n <= hi - lo ->
                        exists s', for_range n lo body s = Some s' /\
                                   P (lo + Z.of_nat n) s').
  { induction n as [|n IH]; intros Hn.
    - exists s. simpl. replace (lo + 0) with lo by lia. auto.
    - destruct IH as [t [E Pt]]; [lia|].
      destruct (Hstep (lo + Z.of_nat n) t) as [t' [E' Pt']]; [lia|exact Pt|].
      exists t'. rewrite for_range_snoc, E. cbn [bind]. split; [exact E'|].
      replace (lo + Z.of_nat (Datatypes.S n)) with (lo + Z.of_nat n + 1) by lia.
      exact Pt'. }
  specialize (G (Z.to_nat (hi - lo))).
  replace (lo + Z.of_nat (Z.to_nat (hi - lo))) with hi in G by lia.
  apply G. lia.
Qed.

Lemma for_loop_empty lo hi (body : Z -> S -> option S) s :
  hi <= lo -> for_loop lo hi body s = Some s.
Proof.
  intros Hle. unfold for_loop.
  replace (Z.to_nat (hi - lo)) with O by lia. reflexivity.
Qed.

(** A loop fails as soon as one of its iterations fails. *)
Lemma for_range_fails (k n : nat) i (body : Z -> S -> option S) s :
  (k < n)%nat ->
  bind (for_range k i body s) (body (i + Z.of_nat k)) = None ->
  for_range n i body s = None.
Proof.
  revert i s k. induction n as [|n IH]; intros i s k Hk Hf; [lia|].
  destruct k as [|k].
  - simpl in Hf. replace (i + 0) with i in Hf by lia. simpl. rewrite Hf. reflexivity.
  - simpl in Hf. simpl. destruct (body i s) as [s'|]; [|reflexivity].
    apply (IH (i + 1) s' k); [lia|].
    replace (i + 1 + Z.of_nat k) with (i + Z.pos (Pos.of_succ_nat k)) by lia.
    exact Hf.
Qed.

Lemma for_loop_fails (k : nat) lo hi (body : Z -> S -> option S) s :
  lo + Z.of_nat k < hi ->
  bind (for_range k lo body s) (body (lo + Z.of_nat k)) = None ->
  for_loop lo hi body s = None.
Proof.
  intros Hk Hf. unfold for_loop. apply (for_range_fails k); [lia|exact Hf].
Qed.

End LoopLemmas.

(** ** Loops that fill a buffer *)

Section FillLemmas.

Lemma fills_set i x (v : Z -> float) :
  v i = x -> fills (fun b => buf_set b i x) (fun k => k = i) v.
Proof.
  intros Hv. split.
  - intros b k ->. unfold buf_set. rewrite Z.eqb_refl. auto.
  - intros b k Hk. unfold buf_set. destruct (Z.eqb_spec k i); [contradiction|reflexivity].
  - intros k. lia.
Qed.

Lemma bounded_exists_dec (P : Z -> Prop) lo hi :
  (forall j, lo <= j < hi -> P j \/ ~ P j) ->
  (exists j, lo <= j < hi /\ P j) \/ ~ (exists j, lo <= j < hi /\ P j).
Proof.
  intros Hdec.
  destruct (Z_le_gt_dec hi lo) as [Hle|Hgt].
  { right. intros [j [Hj _]]. lia. }
  assert (G : forall n, Z.of_nat n <= hi - lo ->
              (exists j, lo <= j < lo + Z.of_nat n /\ P j) \/
              ~ (exists j, lo <= j < lo + Z.of_nat n /\ P j)).
  { induction n as [|n IH]; intros Hn.
    - right. intros [j [Hj _]]. lia.
    - destruct IH as [[j [Hj Pj]]|No]; [lia| |].
      + left. exists j. split; [lia|exact Pj].
      + destruct (Hdec (lo + Z.of_nat n)) as [Pn|Nn]; [lia| |].
        * left. exists (lo + Z.of_nat n). split; [lia|exact Pn].
        * right. intros [j [Hj Pj]].
          destruct (Z.eq_dec j (lo + Z.of_nat n)) as [->|Hne]; [contradiction|].
          apply No. exists j. split; [lia|exact Pj]. }
  specialize (G (Z.to_nat (hi - lo))).
  replace (lo + Z.of_nat (Z.to_nat (hi - lo))) with hi in G by lia.
  apply G. lia.
Qed.

Lemma fills_loop lo hi (T : Z -> buffer -> buffer) (D : Z -> Z -> Prop) v :
  (forall j, lo <= j < hi -> fills (T j) (D j) v) ->
  fills (for_each lo hi T) (fun i => exists j, lo <= j < hi /\ D j i) v.
Proof.
  intros HT.
  assert (Hdec : forall i, (exists j, lo <= j < hi /\ D j i) \/
                           ~ (exists j, lo <= j < hi /\ D j i)).
  { intros i. apply bounded_exists_dec. intros j Hj. apply (fills_dec _ _ _ (HT j Hj)). }
  destruct (Z_le_gt_dec hi lo) as [Hle|Hgt].
  { split; auto.
    - intros b i [j [Hj _]]. lia.
    - intros b i _. rewrite for_each_empty by lia. reflexivity. }
  split; auto.
  - intros b i.
    apply (for_each_inv
             (fun k t => (exists j, lo <= j < k /\ D j i) -> t i = v i)); [lia| |].
    + intros [j [Hj _]]. lia.
    + intros j t Hj IH [j' [Hj' Dj']].
      destruct (fills_dec _ _ _ (HT j Hj) i) as [Din|Dout].
      * apply (fills_hit _ _ _ (HT j Hj)). exact Din.
      * rewrite (fills_miss _ _ _ (HT j Hj)) by exact Dout.
        apply IH. exists j'. split; [|exact Dj'].
        destruct (Z.eq_dec j' j) as [->|Hne]; [contradiction|lia].
  - intros b i Hno.
    apply (for_each_inv (fun k t => t i = b i)); [lia|reflexivity|].
    intros j t Hj IH.
    rewrite (fills_miss _ _ _ (HT j Hj)).
    + exact IH.
    + intros Dj. apply Hno. exists j. auto.
Qed.

End FillLemmas.

(** ** The reconstruction pass *)

Lemma to_size_t_small z : 0 <= z < 2 ^ 64 -> to_size_t z = z.
Proof. intros Hz. unfold to_size_t. apply Z.mod_small. exact Hz. Qed.

Lemma to_size_t_neg z : - 2 ^ 63 <= z < 0 -> to_size_t z = z + 2 ^ 64.
Proof.
  intros Hz. unfold to_size_t.
  symmetry. apply (Z.mod_unique_pos z (2 ^ 64) (-1) (z + 2 ^ 64)); lia.
Qed.

Lemma index_div row col w : 0 <= col < w -> (row * w + col) / w = row.
Proof.
  intros Hc. rewrite Z.add_comm, Z.div_add by lia.
  rewrite Z.div_small by lia. reflexivity.
Qed.

Lemma index_mod row col w : 0 <= col < w -> (row * w + col) mod w = col.
Proof.
  intros Hc. rewrite Z.add_comm, Z.mod_add by lia.
  apply Z.mod_small. lia.
Qed.

Section Reconstruction.

Context `{Externals}.

Variables (piece : dt_dev_pixelpipe_iop_t) (input : buffer).
Variables (roi_in roi_out : dt_iop_roi_t).
Variables (clips chrominance : dt_aligned_pixel_t).

Hypothesis Hin : roi_ok roi_in.
Hypothesis Hout : roi_ok roi_out.

(** The fill loop stores the value of every photosite of the input region. *)
Lemma opposed_fill_tmpout_at t row col :
  inside_input roi_in row col ->
  opposed_fill_tmpout piece input roi_in clips chrominance t
                      (row * roi_width roi_in + col)
  = opposed_tmpout_value piece input roi_in clips chrominance row col.
Proof.
  intros [Hr Hc]. destruct Hin as (Hw & Hh & _).
  unfold opposed_fill_tmpout.
  rewrite (to_size_t_small (roi_height roi_in)) by lia.
  rewrite (to_size_t_small (roi_width roi_in)) by lia.
  set (w := roi_width roi_in) in *.
  set (v := fun i => opposed_tmpout_value piece input roi_in clips chrominance
                                         (i / w) (i mod w)).
  assert (F : fills
                (for_each 0 (roi_height roi_in)
                   (fun r => for_each 0 w
                      (fun c b => buf_set b (to_size_t (r * w + c))
                         (opposed_tmpout_value piece input roi_in clips chrominance r c))))
                (fun i => exists r, 0 <= r < roi_height roi_in /\
                                    exists c, 0 <= c < w /\ i = r * w + c) v).
  { apply fills_loop. intros r Hr'. apply fills_loop. intros c Hc'.
    rewrite to_size_t_small by nia.
    apply fills_set. unfold v. rewrite index_div, index_mod by lia. reflexivity. }
  rewrite (fills_hit _ _ _ F).
  - unfold v. rewrite index_div, index_mod by lia. reflexivity.
  - exists row. split; [lia|]. exists col. split; [lia|reflexivity].
Qed.

(** The last loop stores the value of every photosite of the output
    region. *)
Lemma opposed_reconstruct_at tmpout output row col :
  0 <= row < roi_height roi_out -> 0 <= col < roi_width roi_out ->
  opposed_reconstruct piece input tmpout roi_in roi_out clips chrominance output
                      (row * roi_width roi_out + col)
  = opposed_output_value piece input tmpout roi_in roi_out clips chrominance row col.
Proof.
  intros Hr Hc. destruct Hout as (Hw & Hh & _).
  unfold opposed_reconstruct.
  rewrite (to_size_t_small (roi_height roi_out)) by lia.
  rewrite (to_size_t_small (roi_width roi_out)) by lia.
  set (w := roi_width roi_out) in *.
  set (v := fun i => opposed_output_value piece input tmpout roi_in roi_out
                                         clips chrominance (i / w) (i mod w)).
  assert (F : fills
                (for_each 0 (roi_height roi_out)
                   (fun r => for_each 0 w
                      (fun c b => buf_set b (to_size_t (r * w + c))
                         (opposed_output_value piece input tmpout roi_in roi_out
                                               clips chrominance r c))))
                (fun i => exists r, 0 <= r < roi_height roi_out /\
                                    exists c, 0 <= c < w /\ i = r * w + c) v).
  { apply fills_loop. intros r Hr'. apply fills_loop. intros c Hc'.
    rewrite to_size_t_small by nia.
    apply fills_set. unfold v. rewrite index_div, index_mod by lia. reflexivity. }
  rewrite (fills_hit _ _ _ F).
  - unfold v. rewrite index_div, index_mod by lia. reflexivity.
  - exists row. split; [lia|]. exists col. split; [lia|reflexivity].
Qed.

Lemma opposed_tmpout_value_spec row col :
  inside_input roi_in row col ->
  opposed_tmpout_value piece input roi_in clips chrominance row col
  = reconstructed_value piece input roi_in clips chrominance row col.
Proof.
  intros [Hr Hc]. destruct Hin as (Hw & Hh & _).
  unfold opposed_tmpout_value, reconstructed_value.
  rewrite (to_size_t_small (row * roi_width roi_in + col)) by nia.
  destruct (Z.eq_dec (roi_width roi_in) 0) as [W0|W0]; [lia|].
  destruct (Z.eq_dec (roi_height roi_in) 0) as [H0'|H0']; [lia|].
  rewrite (to_size_t_small (roi_width roi_in - 1)) by lia.
  rewrite (to_size_t_small (roi_height roi_in - 1)) by lia.
  destruct (fge _ _), (0 <? col), (col <? _), (0 <? row), (row <? _); reflexivity.
Qed.

(** What the last loop stores, by the position the output photosite is
    mapped to. *)
Lemma opposed_output_value_inside tmpout0 row col :
  0 <= row -> 0 <= col ->
  inside_input roi_in (row + roi_y roi_out) (col + roi_x roi_out) ->
  opposed_output_value piece input
    (option_map (opposed_fill_tmpout piece input roi_in clips chrominance) tmpout0)
    roi_in roi_out clips chrominance row col
  = reconstructed_value piece input roi_in clips chrominance
                        (row + roi_y roi_out) (col + roi_x roi_out).
Proof.
  intros Hr0 Hc0 [Hr Hc]. destruct Hin as (Hw & Hh & _).
  unfold opposed_output_value.
  rewrite (to_size_t_small (row + roi_y roi_out)) by lia.
  rewrite (to_size_t_small (col + roi_x roi_out)) by lia.
  rewrite (to_size_t_small (roi_height roi_in)) by lia.
  rewrite (to_size_t_small (roi_width roi_in)) by lia.
  rewrite to_size_t_small by nia.
  replace (row + roi_y roi_out <? roi_height roi_in) with true
    by (symmetry; apply Z.ltb_lt; lia).
  replace (col + roi_x roi_out <? roi_width roi_in) with true
    by (symmetry; apply Z.ltb_lt; lia).
  cbn [andb].
  destruct tmpout0 as [t|]; cbn [option_map].
  - rewrite opposed_fill_tmpout_at by (split; lia).
    apply opposed_tmpout_value_spec. split; lia.
  - unfold reconstructed_value.
    rewrite (to_size_t_small (roi_width roi_in - 1)) by lia.
    rewrite (to_size_t_small (roi_height roi_in - 1)) by lia.
    match goal with |- context [fge ?a ?b] => destruct (fge a b) end;
      destruct (0 <? row + roi_y roi_out), (0 <? col + roi_x roi_out),
               (row + roi_y roi_out <? roi_height roi_in - 1),
               (col + roi_x roi_out <? roi_width roi_in - 1); reflexivity.
Qed.

Lemma opposed_output_value_outside tmpout row col :
  0 <= row < 2 ^ 31 -> 0 <= col < 2 ^ 31 ->
  ~ inside_input roi_in (row + roi_y roi_out) (col + roi_x roi_out) ->
  opposed_output_value piece input tmpout roi_in roi_out clips chrominance row col = zero.
Proof.
  intros Hr0 Hc0 Hno. destruct Hin as (Hw & Hh & _). destruct Hout as (_ & _ & Hx & Hy).
  unfold opposed_output_value, inside_input in *.
  rewrite (to_size_t_small (roi_height roi_in)) by lia.
  rewrite (to_size_t_small (roi_width roi_in)) by lia.
  assert (C : (to_size_t (row + roi_y roi_out) <? roi_height roi_in)
              && (to_size_t (col + roi_x roi_out) <? roi_width roi_in) = false).
  { apply andb_false_iff.
    destruct (Z_lt_dec (row + roi_y roi_out) 0).
    { left. rewrite to_size_t_neg by lia. apply Z.ltb_ge. lia. }
    destruct (Z_lt_dec (col + roi_x roi_out) 0).
    { right. rewrite to_size_t_neg by lia. apply Z.ltb_ge. lia. }
    rewrite !to_size_t_small by lia.
    destruct (Z_lt_dec (row + roi_y roi_out) (roi_height roi_in)).
    - right. apply Z.ltb_ge. lia.
    - left. apply Z.ltb_ge. lia. }
  rewrite C. reflexivity.
Qed.

End Reconstruction.

Section LinearReconstruction.

Context `{Externals}.

Variables (input : buffer) (roi_in roi_out : dt_iop_roi_t).
Variables (clips chrominance : dt_aligned_pixel_t).

Hypothesis Hout : roi_ok roi_out.

Lemma channels_range : 3 <= DT_PIXEL_SIMD_CHANNELS <= 4.
Proof. unfold DT_PIXEL_SIMD_CHANNELS. destruct DT_NO_VECTORIZATION; lia. Qed.

Lemma linear_reconstruct_at output row col c :
  0 <= row < roi_height roi_out -> 0 <= col < roi_width roi_out ->
  0 <= c < DT_PIXEL_SIMD_CHANNELS ->
  linear_reconstruct input roi_in roi_out clips chrominance output
                     ((row * roi_width roi_out + col) * 4 + c)
  = linear_output_value input roi_in clips chrominance row col c.
Proof.
  intros Hr Hc Hch. pose proof channels_range as Hn.
  unfold linear_reconstruct.
  set (w := roi_width roi_out) in *.
  set (v := fun i => linear_output_value input roi_in clips chrominance
                                        (i / 4 / w) ((i / 4) mod w) (i mod 4)).
  assert (E : forall r k ch, 0 <= k < w -> 0 <= ch < 4 ->
                v ((r * w + k) * 4 + ch)
                = linear_output_value input roi_in clips chrominance r k ch).
  { intros r k ch Hk Hch'. unfold v.
    rewrite (index_div (r * w + k) ch 4) by lia.
    rewrite (index_mod (r * w + k) ch 4) by lia.
    rewrite index_div, index_mod by lia. reflexivity. }
  assert (F : fills
                (for_each 0 (roi_height roi_out)
                   (fun r => for_each 0 w
                      (fun k => for_each 0 DT_PIXEL_SIMD_CHANNELS
                         (fun ch b => buf_set b ((r * w + k) * 4 + ch)
                            (linear_output_value input roi_in clips chrominance r k ch)))))
                (fun i => exists r, 0 <= r < roi_height roi_out /\
                          exists k, 0 <= k < w /\
                          exists ch, 0 <= ch < DT_PIXEL_SIMD_CHANNELS /\
                                     i = (r * w + k) * 4 + ch) v).
  { apply fills_loop. intros r Hr'. apply fills_loop. intros k Hk.
    apply fills_loop. intros ch Hch'.
    apply fills_set. apply E; lia. }
  rewrite (fills_hit _ _ _ F).
  - apply E; lia.
  - exists row. split; [lia|]. exists col. split; [lia|]. exists c. split; [lia|reflexivity].
Qed.

End LinearReconstruction.

(** ** What a reconstructed value is, compared with its input *)

Section Values.

(** Both variants emit [b ? fmaxf(v, s) : v] with [v = fmaxf(0.0f, x)]. *)
Lemma emitted_not_less (x s : float) (b : bool) :
  flt (if b then fmaxf (fmaxf zero x) s else fmaxf zero x) x = false.
Proof.
  destruct (is_nan x) eqn:N; [apply flt_nan_r; exact N|].
  apply fge_not_flt.
  destruct b; [|apply fmaxf_zero_ge; exact N].
  apply (fge_trans _ (fmaxf zero x)).
  - apply fmaxf_ge_l, fmaxf_zero_not_nan.
  - apply fmaxf_zero_ge; exact N.
Qed.

Lemma emitted_ge (x s : float) (b : bool) :
  is_nan x = false ->
  fge (if b then fmaxf (fmaxf zero x) s else fmaxf zero x) x = true.
Proof.
  intros N.
  destruct b; [|apply fmaxf_zero_ge; exact N].
  apply (fge_trans _ (fmaxf zero x)).
  - apply fmaxf_ge_l, fmaxf_zero_not_nan.
  - apply fmaxf_zero_ge; exact N.
Qed.

Lemma fge_not_nan_l (x y : float) : fge x y = true -> is_nan x = false.
Proof.
  intros G. destruct (is_nan x) eqn:N; [|reflexivity].
  rewrite fge_nan_l in G by exact N. discriminate.
Qed.

Lemma flt_not_nan_l (x y : float) : flt x y = true -> is_nan x = false.
Proof.
  intros G. destruct (is_nan x) eqn:N; [|reflexivity].
  rewrite flt_nan_l in G by exact N. discriminate.
Qed.

(** Below a positive threshold the clamped value is below it too. *)
Lemma clamp_below (x c : float) :
  flt x c = true -> flt zero c = true -> flt (fmaxf zero x) c = true.
Proof.
  intros Hx Hc. destruct (fmaxf_zero_cases x) as [[-> _]|[-> _]]; assumption.
Qed.

(** The clamp returns its argument bit for bit exactly on positive numbers
    and on [+0]. *)
Lemma clamp_identity (x : float) :
  flt zero x = true \/ x = zero -> fmaxf zero x = x.
Proof.
  intros [P | ->]; [|reflexivity].
  destruct (fmaxf_zero_cases x) as [[E _]|[_ E]]; [exact E|congruence].
Qed.

Lemma clamp_changes (x : float) :
  flt zero x = false -> x <> zero -> fmaxf zero x <> x.
Proof.
  intros P N. destruct (fmaxf_zero_cases x) as [[_ E]|[E _]]; congruence.
Qed.

End Values.

(** ** The coarse grid *)

Lemma div3_range z : 0 <= z < 2 ^ 31 -> 0 <= z / 3 < 2 ^ 30.
Proof.
  intros Hz. split; [apply Z.div_pos; lia|].
  apply Z.div_lt_upper_bound; lia.
Qed.

Section Geometry.

Context `{Externals}.

Variable roi_in : dt_iop_roi_t.
Hypothesis Hne : frame_nonempty roi_in.

Lemma mwidth_of_eq : mwidth_of roi_in = roi_width roi_in / 3.
Proof.
  destruct Hne as (Hw & Hh). unfold mwidth_of.
  rewrite Z.quot_div_nonneg by lia.
  apply to_size_t_small.
  pose proof (div3_range (roi_width roi_in)). lia.
Qed.

Lemma mheight_of_eq : mheight_of roi_in = roi_height roi_in / 3.
Proof.
  destruct Hne as (Hw & Hh). unfold mheight_of.
  rewrite Z.quot_div_nonneg by lia.
  apply to_size_t_small.
  pose proof (div3_range (roi_height roi_in)). lia.
Qed.

Lemma mwidth_of_range : 0 <= mwidth_of roi_in < 2 ^ 30.
Proof. rewrite mwidth_of_eq. apply div3_range. destruct Hne. lia. Qed.

Lemma mheight_of_range : 0 <= mheight_of roi_in < 2 ^ 30.
Proof. rewrite mheight_of_eq. apply div3_range. destruct Hne. lia. Qed.

(** A plane holds the whole coarse grid with one more row and column. *)
Lemma msize_of_bounds :
  (mwidth_of roi_in + 1) * (mheight_of roi_in + 1) <= msize_of roi_in < 2 ^ 61.
Proof.
  pose proof mwidth_of_range as Hw. pose proof mheight_of_range as Hh.
  unfold msize_of, dt_round_size.
  set (s := (mwidth_of roi_in + 1) * (mheight_of roi_in + 1)).
  assert (Hs : 1 <= s <= 2 ^ 60) by (unfold s; nia).
  rewrite (to_size_t_small s) by lia.
  pose proof (Z.div_mod (s + 64 - 1) 64 ltac:(lia)) as D.
  pose proof (Z.mod_pos_bound (s + 64 - 1) 64 ltac:(lia)) as M.
  rewrite to_size_t_small by lia. lia.
Qed.

(** The coarse cell of an interior photosite lies inside a plane. *)
Lemma cmap_range row col :
  0 < row < roi_height roi_in - 1 -> 0 < col < roi_width roi_in - 1 ->
  _raw_to_cmap (mwidth_of roi_in) row col = row / 3 * mwidth_of roi_in + col / 3 /\
  0 <= row / 3 * mwidth_of roi_in + col / 3 < msize_of roi_in.
Proof.
  intros Hr Hc. pose proof msize_of_bounds as Hm.
  pose proof mwidth_of_range as Hw. pose proof mheight_of_range as Hh.
  assert (Ha : 0 <= row / 3 <= mheight_of roi_in).
  { rewrite mheight_of_eq. split; [apply Z.div_pos; lia|].
    apply Z.div_le_mono; lia. }
  assert (Hb : 0 <= col / 3 <= mwidth_of roi_in).
  { rewrite mwidth_of_eq. split; [apply Z.div_pos; lia|].
    apply Z.div_le_mono; lia. }
  assert (R : 0 <= row / 3 * mwidth_of roi_in + col / 3 < msize_of roi_in) by nia.
  split; [|exact R].
  unfold _raw_to_cmap. apply to_size_t_small. lia.
Qed.

End Geometry.

(** ** The mask block *)

Section Blocks.

Lemma load_ok m i : 0 <= i < blk_size m -> load m i = Some (blk_data m i).
Proof.
  intros Hi. unfold load.
  replace (0 <=? i) with true by (symmetry; apply Z.leb_le; lia).
  replace (i <? blk_size m) with true by (symmetry; apply Z.ltb_lt; lia).
  reflexivity.
Qed.

Lemma store_ok m i v :
  0 <= i < blk_size m ->
  store m i v = Some {| blk_size := blk_size m;
                        blk_data := fun j => if j =? i then v else blk_data m j |}.
Proof.
  intros Hi. unfold store.
  replace (0 <=? i) with true by (symmetry; apply Z.leb_le; lia).
  replace (i <? blk_size m) with true by (symmetry; apply Z.ltb_lt; lia).
  reflexivity.
Qed.

Lemma load_outside m i : blk_size m <= i -> load m i = None.
Proof.
  intros Hi. unfold load.
  replace (i <? blk_size m) with false by (symmetry; apply Z.ltb_ge; lia).
  rewrite andb_false_r. reflexivity.
Qed.

Lemma store_outside m i v : blk_size m <= i -> store m i v = None.
Proof.
  intros Hi. unfold store.
  replace (i <? blk_size m) with false by (symmetry; apply Z.ltb_ge; lia).
  rewrite andb_false_r. reflexivity.
Qed.

Lemma or_store_ok m i :
  0 <= i < blk_size m ->
  or_store m i 1 = Some {| blk_size := blk_size m;
                           blk_data := fun j => if j =? i then Z.lor (blk_data m i) 1
                                                else blk_data m j |}.
Proof.
  intros Hi. unfold or_store. rewrite load_ok by exact Hi. cbn [bind].
  apply store_ok. exact Hi.
Qed.

Lemma zero_block_mask msize : mask_block msize (zero_block (6 * msize)).
Proof. split; [reflexivity|]. intros i. left. reflexivity. Qed.

(** Setting the low bit of a cell keeps the block a mask. *)
Lemma or_store_mask msize m i :
  mask_block msize m -> 0 <= i < 6 * msize ->
  exists m', or_store m i 1 = Some m' /\ mask_block msize m' /\
             blk_data m' i = 1 /\
             (forall j, j <> i -> blk_data m' j = blk_data m j).
Proof.
  intros [Hs Hb] Hi. rewrite or_store_ok by lia.
  eexists. split; [reflexivity|]. unfold mask_block. cbn [blk_size blk_data].
  assert (L : Z.lor (blk_data m i) 1 = 1) by (destruct (Hb i) as [-> | ->]; reflexivity).
  repeat split.
  - exact Hs.
  - intros j. destruct (j =? i); [right; exact L|apply Hb].
  - rewrite Z.eqb_refl. exact L.
  - intros j Hj. destruct (Z.eqb_spec j i); [contradiction|reflexivity].
Qed.

End Blocks.

Section LoopPreservation.

Context {S : Type}.

(** A loop keeps what each of its iterations keeps. *)
Lemma for_loop_preserves (Q : S -> Prop) lo hi (body : Z -> S -> option S) s :
  Q s ->
  (forall j t, lo <= j < hi -> Q t -> exists t', body j t = Some t' /\ Q t') ->
  exists s', for_loop lo hi body s = Some s' /\ Q s'.
Proof.
  intros H0 Hstep.
  destruct (Z_le_gt_dec lo hi) as [Hle|Hgt].
  - apply (for_loop_inv (fun _ => Q)); auto.
  - exists s. rewrite for_loop_empty by lia. auto.
Qed.

(** The channel loop, written out. *)
Lemma for_loop_3 (body : Z -> S -> option S) s :
  for_loop 0 3 body s = (s1 <- body 0 s;; s2 <- body 1 s1;; body 2 s2).
Proof.
unfold for_loop. change (Z.to_nat (3 - 0)) with 3%nat. cbn [for_range].
change (0 + 1) with 1. change (1 + 1) with 2.
destruct (body 0 s) as [s1|]; [|reflexivity]. cbn [bind].
destruct (body 1 s1) as [s2|]; [|reflexivity]. cbn [bind].
destruct (body 2 s2); reflexivity.
Qed.

Lemma for_loop_4 (body : Z -> S -> option S) s :
  for_loop 0 4 body s
  = (s1 <- body 0 s;; s2 <- body 1 s1;; s3 <- body 2 s2;; body 3 s3).
Proof.
unfold for_loop. change (Z.to_nat (4 - 0)) with 4%nat. cbn [for_range].
change (0 + 1) with 1. change (1 + 1) with 2. change (2 + 1) with 3.
destruct (body 0 s) as [s1|]; [|reflexivity]. cbn [bind].
destruct (body 1 s1) as [s2|]; [|reflexivity]. cbn [bind].
destruct (body 2 s2) as [s3|]; [|reflexivity]. cbn [bind].
destruct (body 3 s3); reflexivity.
Qed.

End LoopPreservation.

(** ** The mask-build pass *)

Section MaskPass.

Context `{Externals}.

Variables (piece : dt_dev_pixelpipe_iop_t) (input : buffer) (roi_in : dt_iop_roi_t).
Variable clips : dt_aligned_pixel_t.
Hypothesis Hne : frame_nonempty roi_in.

Local Abbreviation msize := (msize_of roi_in).
Local Abbreviation mwidth := (mwidth_of roi_in).

Lemma photosite_color_range row col : 0 <= photosite_color piece roi_in row col <= 2.
Proof.
  unfold photosite_color.
  destruct (filters (dsc piece) =? 9);
    match goal with |- context [color_index ?p] => destruct p end; simpl; lia.
Qed.

Lemma interior_bounds row col :
  1 <= row < to_size_t (roi_height roi_in - 1) ->
  1 <= col < to_size_t (roi_width roi_in - 1) ->
  0 < row < roi_height roi_in - 1 /\ 0 < col < roi_width roi_in - 1.
Proof.
  destruct Hne as (Hw & Hh).
  rewrite !to_size_t_small by lia. lia.
Qed.

Lemma opposed_mask_pass_ok mask :
  mask_block msize mask -> raw_only msize mask ->
  exists m' any,
    opposed_mask_pass piece input roi_in clips msize mwidth mask = Some (m', any) /\
    mask_block msize m' /\ raw_only msize m' /\
    (any = false -> forall i, blk_data m' i = blk_data mask i).
Proof.
intros Hm Hz. unfold opposed_mask_pass.
destruct (for_loop_preserves
            (fun st : block * bool =>
               mask_block msize (fst st) /\ raw_only msize (fst st) /\
               (snd st = false -> forall i, blk_data (fst st) i = blk_data mask i))
            1 (to_size_t (roi_height roi_in - 1))
            (fun row => for_loop 1 (to_size_t (roi_width roi_in - 1))
                          (opposed_mask_body piece input roi_in clips msize mwidth row))
            (mask, false)) as [[m' any] [E [Q1 [Q2 Q3]]]].
- split; [assumption|]. split; [assumption|]. intros _ i. reflexivity.
- intros row st Hrow Hst.
  apply for_loop_preserves; [exact Hst|].
  intros col [m a] Hcol [Qm [Qz Qa]]. cbn [fst snd] in *.
  destruct (interior_bounds row col Hrow Hcol) as [Hr Hc].
  destruct (cmap_range roi_in Hne row col Hr Hc) as [Ecm Rcm].
  pose proof (photosite_color_range row col) as Hk.
  pose proof (msize_of_bounds roi_in Hne) as Hms.
  unfold opposed_mask_body.
  destruct (fge _ _);
    [|eexists; split; [reflexivity|cbn [fst snd]; split; [|split]; assumption]].
  rewrite Ecm.
  set (k := photosite_color piece roi_in row col) in *.
  set (cm := row / 3 * mwidth_of roi_in + col / 3) in *.
  rewrite to_size_t_small by nia.
  destruct (or_store_mask msize m (k * msize + cm) Qm) as [m2 [E2 [Q2 [_ Hother]]]];
    [nia|].
  rewrite E2. cbn [bind]. eexists. split; [reflexivity|]. cbn [fst snd].
  split; [exact Q2|]. split; [|discriminate].
  intros i Hi. rewrite Hother by nia. apply Qz. exact Hi.
- exists m', any. cbn [fst snd] in *. auto.
Qed.

(** A frame with no photosite inside its border has nothing to mark. *)
Lemma opposed_mask_pass_tiny mask :
  roi_width roi_in < 3 \/ roi_height roi_in < 3 ->
  opposed_mask_pass piece input roi_in clips msize mwidth mask = Some (mask, false).
Proof.
  intros Htiny. destruct Hne as (Hw & Hh). unfold opposed_mask_pass.
  rewrite !to_size_t_small by lia.
  destruct (Z_lt_dec (roi_height roi_in) 3) as [Hh3|Hh3].
  - apply for_loop_empty. lia.
  - destruct (for_loop_preserves (fun st : block * bool => st = (mask, false))
                1 (roi_height roi_in - 1)
                (fun row => for_loop 1 (roi_width roi_in - 1)
                   (opposed_mask_body piece input roi_in clips msize mwidth row))
                (mask, false)) as [s' [E ->]]; [reflexivity| |exact E].
    intros row t _ ->. exists (mask, false). split; [|reflexivity].
    apply for_loop_empty. lia.
Qed.

End MaskPass.


(** ** The dilation pass *)

Section Dilation.

Context `{Externals}.

Lemma ring1_bounds w o : 0 <= w -> In o (ring1 w) -> - (3 * w + 3) <= o <= 3 * w + 3.
Proof.
intros Hw Hin. unfold ring1 in Hin. cbn [In] in Hin.
repeat (destruct Hin as [<- | Hin]; [lia|]). contradiction.
Qed.

Lemma ring23_bounds w o : 0 <= w -> In o (ring23 w) -> - (3 * w + 3) <= o <= 3 * w + 3.
Proof.
intros Hw Hin. unfold ring23 in Hin. cbv zeta in Hin. cbn [In] in Hin.
repeat (destruct Hin as [<- | Hin]; [lia|]). contradiction.
Qed.

Lemma lor_loads_ok m p offsets :
  (forall o, In o offsets -> 0 <= p + o < blk_size m) ->
  lor_loads m p offsets = Some (lor_values (blk_data m) p offsets).
Proof.
induction offsets as [|o rest IH]; intros Hb; [reflexivity|].
cbn [lor_loads lor_values fold_right].
rewrite load_ok by (apply Hb; left; reflexivity). cbn [bind].
rewrite IH by (intros o' Ho'; apply Hb; right; exact Ho'). reflexivity.
Qed.

Lemma lor_values_ext d d' p offsets :
  (forall o, In o offsets -> d (p + o) = d' (p + o)) ->
  lor_values d p offsets = lor_values d' p offsets.
Proof.
induction offsets as [|o rest IH]; intros He; [reflexivity|].
cbn [lor_values fold_right].
rewrite (He o) by (left; reflexivity).
f_equal. apply IH. intros o' Ho'. apply He. right. exact Ho'.
Qed.

(** [_mask_dilated] is defined as soon as the cells up to three rows and
    three columns away are inside the block. *)
Lemma mask_dilated_ok m p w :
  0 <= w -> 3 * w + 3 <= p -> p + 3 * w + 3 < blk_size m ->
  _mask_dilated m p w = Some (dilated_at (blk_data m) p w).
Proof.
intros Hw Hlo Hhi. unfold _mask_dilated, dilated_at.
rewrite load_ok by lia. cbn [bind].
destruct (negb (blk_data m p =? 0)); [reflexivity|].
rewrite lor_loads_ok by (intros o Ho; apply ring1_bounds in Ho; lia). cbn [bind].
destruct (negb (lor_values (blk_data m) p (ring1 w) =? 0)); [reflexivity|].
apply lor_loads_ok. intros o Ho. apply ring23_bounds in Ho; lia.
Qed.

Lemma dilated_at_ext d d' p w :
  0 <= w ->
  (forall i, p - (3 * w + 3) <= i <= p + 3 * w + 3 -> d i = d' i) ->
  dilated_at d p w = dilated_at d' p w.
Proof.
intros Hw He. unfold dilated_at.
rewrite (He p) by lia.
rewrite (lor_values_ext d d' p (ring1 w))
  by (intros o Ho; apply ring1_bounds in Ho; [apply He|]; lia).
rewrite (lor_values_ext d d' p (ring23 w))
  by (intros o Ho; apply ring23_bounds in Ho; [apply He|]; lia).
reflexivity.
Qed.

Lemma lor_values_binary d p offsets :
  (forall i, d i = 0 \/ d i = 1) ->
  lor_values d p offsets = 0 \/ lor_values d p offsets = 1.
Proof.
intros Hb. induction offsets as [|o rest IH]; [left; reflexivity|].
cbn [lor_values fold_right]. fold (lor_values d p rest).
destruct (Hb (p + o)) as [-> | ->], IH as [-> | ->]; auto.
Qed.

Lemma dilated_at_binary d p w :
  (forall i, d i = 0 \/ d i = 1) -> dilated_at d p w = 0 \/ dilated_at d p w = 1.
Proof.
intros Hb. unfold dilated_at.
destruct (negb (d p =? 0)); [right; reflexivity|].
destruct (negb (lor_values d p (ring1 w) =? 0)); [right; reflexivity|].
apply lor_values_binary. exact Hb.
Qed.

Variables (msize mwidth mheight : Z).
Hypothesis Hmw : 0 <= mwidth.
Hypothesis Hgrid : mwidth * mheight <= msize.
Hypothesis Hms : msize < 2 ^ 61.

Variable m0 : block.
Hypothesis Hsize : blk_size m0 = 6 * msize.

(** Two cells of the dilated planes with the same index are the same cell. *)
Lemma plane_index_inj k a k' a' :
  0 <= k <= 2 -> 0 <= k' <= 2 -> 0 <= a < msize -> 0 <= a' < msize ->
  (k + 3) * msize + a = (k' + 3) * msize + a' -> k = k' /\ a = a'.
Proof.
intros Hk Hk' Ha Ha' E.
assert (Kc : k = 0 \/ k = 1 \/ k = 2) by lia.
assert (Kc' : k' = 0 \/ k' = 1 \/ k' = 2) by lia.
destruct Kc as [-> | [-> | ->]], Kc' as [-> | [-> | ->]]; lia.
Qed.

(** One of the three statements of the loop body: dilate plane [k] at the
    cell of index [mx] into plane [k + 3]. *)
Lemma plane_step m k mx :
  blk_size m = blk_size m0 ->
  (forall i, 0 <= i < 3 * msize -> blk_data m i = blk_data m0 i) ->
  0 <= k <= 2 -> 3 * mwidth + 3 <= mx -> mx + 3 * mwidth + 3 < msize ->
  bind (_mask_dilated m (k * msize + mx) mwidth)
       (store m (to_size_t ((k + 3) * msize + mx)))
  = Some {| blk_size := blk_size m;
            blk_data := fun j => if j =? (k + 3) * msize + mx
                                 then dilated_at (blk_data m0) (k * msize + mx) mwidth
                                 else blk_data m j |}.
Proof.
intros Hs Hraw Hk Hlo Hhi.
rewrite mask_dilated_ok by nia. cbn [bind].
rewrite to_size_t_small by nia.
rewrite store_ok by nia.
rewrite (dilated_at_ext (blk_data m) (blk_data m0)); [reflexivity|exact Hmw|].
intros i Hi. apply Hraw. nia.
Qed.

Lemma dilate_body_ok row col m :
  3 <= row < mheight - 3 -> 3 <= col < mwidth - 3 ->
  dilate_inv m0 msize mwidth row col m ->
  exists m', dilate_body msize mwidth row col m = Some m' /\
             dilate_inv m0 msize mwidth row (col + 1) m'.
Proof.
intros Hrow Hcol (Hs & Hhit & Hmiss & Hbin).
set (mx := row * mwidth + col).
assert (Hlo : 3 * mwidth + 3 <= mx) by (unfold mx; nia).
assert (Hhi : mx + 3 * mwidth + 3 < msize) by (unfold mx; nia).
assert (Hraw : forall m1, (forall i, i < 3 * msize -> blk_data m1 i = blk_data m i) ->
                          forall i, 0 <= i < 3 * msize -> blk_data m1 i = blk_data m0 i).
{ intros m1 H1 i Hi. rewrite H1 by lia. apply Hmiss.
  intros k r c Hk (Hr & Hc & _). nia. }
unfold dilate_body. fold mx.
rewrite (to_size_t_small mx) by nia.
pose proof (plane_step m 0 mx Hs (Hraw m (fun i _ => eq_refl)) ltac:(lia) Hlo Hhi) as S0.
replace (0 * msize + mx) with mx in S0 by lia.
replace ((0 + 3) * msize + mx) with (3 * msize + mx) in S0 by lia.
destruct (_mask_dilated m mx mwidth) as [v0|]; [|discriminate]. cbn [bind] in *.
rewrite S0. cbn [bind]. clear S0 v0.
set (m1 := {| blk_size := blk_size m; blk_data := _ |}).
assert (R1 : forall i, i < 3 * msize -> blk_data m1 i = blk_data m i).
{ intros i Hi. unfold m1. cbn [blk_data].
  destruct (Z.eqb_spec i (3 * msize + mx)); [lia|reflexivity]. }
pose proof (plane_step m1 1 mx Hs (Hraw m1 R1) ltac:(lia) Hlo Hhi) as S1.
replace (1 * msize + mx) with (msize + mx) in S1 by lia.
replace ((1 + 3) * msize + mx) with (4 * msize + mx) in S1 by lia.
destruct (_mask_dilated m1 (msize + mx) mwidth) as [v1|]; [|discriminate]. cbn [bind] in *.
rewrite S1. cbn [bind]. clear S1 v1.
set (m2 := {| blk_size := blk_size m1; blk_data := _ |}).
assert (R2 : forall i, i < 3 * msize -> blk_data m2 i = blk_data m i).
{ intros i Hi. unfold m2. cbn [blk_data].
  destruct (Z.eqb_spec i (4 * msize + mx)); [lia|apply R1; exact Hi]. }
pose proof (plane_step m2 2 mx Hs (Hraw m2 R2) ltac:(lia) Hlo Hhi) as S2.
replace ((2 + 3) * msize + mx) with (5 * msize + mx) in S2 by lia.
destruct (_mask_dilated m2 (2 * msize + mx) mwidth) as [v2|]; [|discriminate]. cbn [bind] in *.
rewrite S2. clear S2 v2.
eexists. split; [reflexivity|].
unfold dilate_inv, m2, m1. cbn [blk_size blk_data].
split; [exact Hs|]. split; [|split].
- intros k r c Hk (Hr & Hc & Hd).
  destruct (Z.eq_dec r row) as [Er|Nr];
    [destruct (Z.eq_dec c col) as [Ec|Nc]|].
  + subst r c. fold mx.
    replace ((k + 3) * msize + row * mwidth + col) with ((k + 3) * msize + mx) by (unfold mx; lia).
    replace (k * msize + row * mwidth + col) with (k * msize + mx) by (unfold mx; lia).
    assert (Kc : k = 0 \/ k = 1 \/ k = 2) by lia.
    destruct Kc as [-> | [-> | ->]].
    * destruct (Z.eqb_spec ((0 + 3) * msize + mx) (5 * msize + mx)); [nia|].
      destruct (Z.eqb_spec ((0 + 3) * msize + mx) (4 * msize + mx)); [nia|].
      destruct (Z.eqb_spec ((0 + 3) * msize + mx) (3 * msize + mx)); [|lia].
      f_equal; lia.
    * destruct (Z.eqb_spec ((1 + 3) * msize + mx) (5 * msize + mx)); [nia|].
      destruct (Z.eqb_spec ((1 + 3) * msize + mx) (4 * msize + mx)); [|lia].
      f_equal; lia.
    * destruct (Z.eqb_spec ((2 + 3) * msize + mx) (5 * msize + mx)); [|lia].
      reflexivity.
  + subst r.
    assert (Hd' : cell_done mwidth row col row c) by (unfold cell_done; lia).
    rewrite <- (Hhit k row c Hk Hd').
    assert (Ne : row * mwidth + c <> mx) by (unfold mx; lia).
    assert (Rg : 0 <= row * mwidth + c < msize) by nia.
    assert (Rx : 0 <= mx < msize) by nia.
    destruct (Z.eqb_spec ((k + 3) * msize + row * mwidth + c) (5 * msize + mx)) as [e|_];
      [exfalso; apply Ne; apply (plane_index_inj k (row * mwidth + c) 2 mx); lia|].
    destruct (Z.eqb_spec ((k + 3) * msize + row * mwidth + c) (4 * msize + mx)) as [e|_];
      [exfalso; apply Ne; apply (plane_index_inj k (row * mwidth + c) 1 mx); lia|].
    destruct (Z.eqb_spec ((k + 3) * msize + row * mwidth + c) (3 * msize + mx)) as [e|_];
      [exfalso; apply Ne; apply (plane_index_inj k (row * mwidth + c) 0 mx); lia|].
    reflexivity.
  + assert (Hd' : cell_done mwidth row col r c) by (unfold cell_done; lia).
    rewrite <- (Hhit k r c Hk Hd').
    assert (Ne : r * mwidth + c <> mx) by (unfold mx; nia).
    assert (Rg : 0 <= r * mwidth + c < msize) by nia.
    assert (Rx : 0 <= mx < msize) by nia.
    destruct (Z.eqb_spec ((k + 3) * msize + r * mwidth + c) (5 * msize + mx)) as [e|_];
      [exfalso; apply Ne; apply (plane_index_inj k (r * mwidth + c) 2 mx); lia|].
    destruct (Z.eqb_spec ((k + 3) * msize + r * mwidth + c) (4 * msize + mx)) as [e|_];
      [exfalso; apply Ne; apply (plane_index_inj k (r * mwidth + c) 1 mx); lia|].
    destruct (Z.eqb_spec ((k + 3) * msize + r * mwidth + c) (3 * msize + mx)) as [e|_];
      [exfalso; apply Ne; apply (plane_index_inj k (r * mwidth + c) 0 mx); lia|].
    reflexivity.
- intros i Hi.
  assert (Hnow : cell_done mwidth row (col + 1) row col) by (unfold cell_done; lia).
  pose proof (Hi 0 row col ltac:(lia) Hnow) as N0.
  pose proof (Hi 1 row col ltac:(lia) Hnow) as N1.
  pose proof (Hi 2 row col ltac:(lia) Hnow) as N2.
  fold mx in N0, N1, N2.
  destruct (Z.eqb_spec i (5 * msize + mx)); [unfold mx in *; lia|].
  destruct (Z.eqb_spec i (4 * msize + mx)); [unfold mx in *; lia|].
  destruct (Z.eqb_spec i (3 * msize + mx)); [unfold mx in *; lia|].
  apply Hmiss. intros k r c Hk (Hr & Hc & Hd).
  apply Hi; [exact Hk|]. unfold cell_done. lia.
- intros Hb0 i.
  destruct (i =? 5 * msize + mx); [apply dilated_at_binary; exact Hb0|].
  destruct (i =? 4 * msize + mx); [apply dilated_at_binary; exact Hb0|].
  destruct (i =? 3 * msize + mx); [apply dilated_at_binary; exact Hb0|].
  apply Hbin. exact Hb0.
Qed.

End Dilation.

Section DilationPass.

Context `{Externals}.

Variables (msize mwidth mheight : Z).
Hypothesis Hmw : 3 <= mwidth.
Hypothesis Hmh : 3 <= mheight < 2 ^ 30.
Hypothesis Hmw' : mwidth < 2 ^ 30.
Hypothesis Hgrid : mwidth * mheight <= msize.
Hypothesis Hms : msize < 2 ^ 61.

Variable m0 : block.
Hypothesis Hsize : blk_size m0 = 6 * msize.

Lemma dilate_inv_equiv row col row' col' m :
  (forall r c, cell_done mwidth row' col' r c -> cell_done mwidth row col r c) ->
  (forall r c, cell_done mwidth row col r c -> cell_done mwidth row' col' r c) ->
  dilate_inv m0 msize mwidth row col m -> dilate_inv m0 msize mwidth row' col' m.
Proof.
intros H1 H2 (Hs & Hhit & Hmiss & Hbin). split; [exact Hs|]. split; [|split].
- intros k r c Hk Hd. apply Hhit; auto.
- intros i Hi. apply Hmiss. intros k r c Hk Hd. apply Hi; auto.
- exact Hbin.
Qed.

Lemma dilate_inv_start : dilate_inv m0 msize mwidth 3 3 m0.
Proof.
split; [reflexivity|]. split; [|split].
- intros k r c _ (Hr & Hc & Hd). lia.
- intros i _. reflexivity.
- intros Hb. exact Hb.
Qed.

(** The inner loop takes the invariant from the start of a row to the start
    of the next row. *)
Lemma dilate_row_ok row m :
  3 <= row < mheight - 3 ->
  dilate_inv m0 msize mwidth row 3 m ->
  exists m', for_loop 3 (to_size_t (mwidth - 3)) (dilate_body msize mwidth row) m = Some m' /\
             dilate_inv m0 msize mwidth (row + 1) 3 m'.
Proof.
intros Hrow Hinv. rewrite to_size_t_small by lia.
destruct (Z_le_gt_dec 3 (mwidth - 3)) as [Hle|Hgt].
- destruct (for_loop_inv (fun col m => dilate_inv m0 msize mwidth row col m)
              3 (mwidth - 3) (dilate_body msize mwidth row) m Hle Hinv)
    as [m' [E Hinv']].
  + intros col t Hcol Ht.
    apply (dilate_body_ok msize mwidth mheight); auto; lia.
  + exists m'. split; [exact E|].
    apply (dilate_inv_equiv row (mwidth - 3)); [| |exact Hinv'];
      intros r c; unfold cell_done; lia.
- exists m. rewrite for_loop_empty by lia. split; [reflexivity|].
  apply (dilate_inv_equiv row 3); [| |exact Hinv];
    intros r c; unfold cell_done; lia.
Qed.

(** The dilation pass on a grid of at least 3 x 3 cells: it is defined, it
    writes the dilation of every interior cell into the dilated planes and
    nothing else. *)
Lemma dilate_pass_ok :
  exists m', dilate_pass msize mwidth mheight m0 = Some m' /\
    blk_size m' = blk_size m0 /\
    (forall k r c, 0 <= k <= 2 -> interior_cell mwidth mheight r c ->
       dilated_cell msize mwidth m' k r c
       = dilated_at (blk_data m0) (k * msize + r * mwidth + c) mwidth) /\
    (forall i, (forall k r c, 0 <= k <= 2 -> interior_cell mwidth mheight r c ->
                  i <> (k + 3) * msize + r * mwidth + c) ->
       blk_data m' i = blk_data m0 i) /\
    (mask_block msize m0 -> mask_block msize m').
Proof.
unfold dilate_pass. rewrite to_size_t_small by lia.
assert (G : exists m', for_loop 3 (mheight - 3)
                 (fun row => for_loop 3 (to_size_t (mwidth - 3))
                               (dilate_body msize mwidth row)) m0 = Some m' /\
               dilate_inv m0 msize mwidth (Z.max 3 (mheight - 3)) 3 m').
{ destruct (Z_le_gt_dec 3 (mheight - 3)) as [Hle|Hgt].
  - rewrite Z.max_r by lia.
    apply (for_loop_inv (fun row m => dilate_inv m0 msize mwidth row 3 m)); auto.
    + apply dilate_inv_start.
    + intros row t Hrow Ht. apply dilate_row_ok; auto.
  - rewrite Z.max_l by lia. exists m0. rewrite for_loop_empty by lia.
    split; [reflexivity|apply dilate_inv_start]. }
destruct G as [m' [E (Hs & Hhit & Hmiss & Hbin)]].
exists m'. split; [exact E|]. split; [exact Hs|]. split; [|split].
- intros k r c Hk [Hr Hc]. unfold dilated_cell. apply Hhit; [exact Hk|].
  unfold cell_done. lia.
- intros i Hi. apply Hmiss. intros k r c Hk (Hr & Hc & Hd).
  apply Hi; [exact Hk|]. unfold interior_cell. lia.
- intros [Hs0 Hb0]. split; [lia|apply Hbin; exact Hb0].
Qed.

End DilationPass.


(** ** Loops as folds *)

Section LoopFolds.

Context {S : Type}.

Lemma for_range_fold (f : Z -> S -> S) (body : Z -> S -> option S) n :
  forall i s,
    (forall j t, i <= j < i + Z.of_nat n -> body j t = Some (f j t)) ->
    for_range n i body s
    = Some (fold_left (fun t j => f j t) (map (fun k => i + Z.of_nat k) (seq 0 n)) s).
Proof.
induction n as [|n IH]; intros i s Hb; [reflexivity|].
cbn [for_range seq map fold_left].
rewrite Hb by lia. replace (i + Z.of_nat 0) with i by lia.
rewrite IH by (intros j t Hj; apply Hb; lia).
rewrite <- seq_shift, map_map. do 2 f_equal.
apply map_ext. intros k. lia.
Qed.

Lemma for_loop_fold (f : Z -> S -> S) lo hi (body : Z -> S -> option S) s :
  (forall j t, lo <= j < hi -> body j t = Some (f j t)) ->
  for_loop lo hi body s = Some (fold_left (fun t j => f j t) (zrange lo hi) s).
Proof.
intros Hb. unfold for_loop, zrange. apply for_range_fold.
intros j t Hj. apply Hb. lia.
Qed.

Lemma fold_left_flat_map {A B : Type} (g : S -> B -> S) (h : A -> list B) l :
  forall s,
    fold_left (fun t a => fold_left g (h a) t) l s = fold_left g (flat_map h l) s.
Proof.
induction l as [|a l IH]; intros s; [reflexivity|].
cbn [fold_left flat_map]. rewrite fold_left_app. apply IH.
Qed.

Lemma fold_left_map {A B : Type} (g : S -> B -> S) (h : A -> B) l :
  forall s, fold_left g (map h l) s = fold_left (fun t a => g t (h a)) l s.
Proof.
induction l as [|a l IH]; intros s; [reflexivity|].
cbn [fold_left map]. apply IH.
Qed.

Lemma fold_left_ext_in {A : Type} (g g' : S -> A -> S) l :
  (forall t a, In a l -> g t a = g' t a) ->
  forall s, fold_left g l s = fold_left g' l s.
Proof.
induction l as [|a l IH]; intros He s; [reflexivity|].
cbn [fold_left]. rewrite He by (left; reflexivity).
apply IH. intros t b Hb. apply He. right. exact Hb.
Qed.

Lemma in_zrange lo hi j : In j (zrange lo hi) <-> lo <= j < hi.
Proof.
unfold zrange. rewrite in_map_iff. split.
- intros [k [<- Hk]]. apply in_seq in Hk. lia.
- intros Hj. exists (Z.to_nat (j - lo)). split; [lia|]. apply in_seq. lia.
Qed.

(** A doubly nested loop of bodies that cannot fail is a fold over the
    pairs of its counters, row by row. *)
Lemma nested_loop_fold (f : Z -> Z -> S -> S) rlo rhi clo chi
      (body : Z -> Z -> S -> option S) s :
  (forall r c t, rlo <= r < rhi -> clo <= c < chi -> body r c t = Some (f r c t)) ->
  for_loop rlo rhi (fun r => for_loop clo chi (body r)) s
  = Some (fold_left (fun t '(r, c) => f r c t)
                    (flat_map (fun r => map (fun c => (r, c)) (zrange clo chi))
                              (zrange rlo rhi)) s).
Proof.
intros Hb.
rewrite (for_loop_fold
           (fun r t => fold_left (fun t c => f r c t) (zrange clo chi) t)).
- f_equal. rewrite <- fold_left_flat_map.
  apply fold_left_ext_in. intros t r _. rewrite fold_left_map. reflexivity.
- intros r t Hr. apply for_loop_fold. intros c t' Hc. apply Hb; assumption.
Qed.

End LoopFolds.

Lemma in_interior_photosites roi_in row col :
  In (row, col) (interior_photosites roi_in) <->
  1 <= row < roi_height roi_in - 1 /\ 1 <= col < roi_width roi_in - 1.
Proof.
unfold interior_photosites. rewrite in_flat_map. split.
- intros [r [Hr Hin]]. apply in_map_iff in Hin. destruct Hin as [c [E Hc]].
  inversion E; subst. apply in_zrange in Hr. apply in_zrange in Hc. lia.
- intros [Hr Hc]. exists row. split; [apply in_zrange; lia|].
  apply in_map_iff. exists col. split; [reflexivity|apply in_zrange; lia].
Qed.


(** ** The chrominance pass *)

Section DarkThreshold.

Lemma binary_round_aux_sign m e l :
  SFltb (binary_round_aux prec emax false m e l) (S754_zero false) = false.
Proof.
unfold binary_round_aux.
destruct (shr_fexp prec emax m e l) as [mrs e'].
destruct (shr_fexp prec emax _ e' loc_Exact) as [mrs' e''].
destruct (shr_m mrs'); [reflexivity| |reflexivity].
destruct (e'' <=? emax - prec); reflexivity.
Qed.

(** A dark threshold [k * clip] of a positive [clip] is not negative. *)
Lemma dark_not_negative k x :
  k = c0_03 \/ k = c0_125 -> flt zero x = true -> fgt zero (fmul k x) = false.
Proof.
intros Hk Hx. unfold fgt, flt, fmul, zero in *.
destruct x as [s|s| |s m e]; try discriminate.
- destruct s; [discriminate|]. destruct Hk as [-> | ->]; reflexivity.
- destruct s; [discriminate|].
  destruct Hk as [-> | ->]; apply binary_round_aux_sign.
Qed.

Lemma clamp_not_negative v : flt (fmaxf zero v) zero = false.
Proof.
destruct (fmaxf_zero_cases v) as [[-> P]|[-> _]]; [|reflexivity].
apply fge_not_flt. apply flt_fge. exact P.
Qed.

(** A photosite between the two thresholds of its primary has a positive
    value, which the clamp returns bit for bit. *)
Lemma clamp_of_contributing clips v c :
  0 <= c <= 2 ->
  fgt (fmaxf zero v) (pget (clipdark_of clips) c) = true ->
  flt (fmaxf zero v) (pget clips c) = true ->
  fmaxf zero v = v.
Proof.
intros Hc Hd Hl.
destruct (fmaxf_zero_cases v) as [[E _]|[E _]]; [exact E|].
rewrite E in Hd, Hl. exfalso.
assert (Kc : c = 0 \/ c = 1 \/ c = 2) by lia.
destruct Kc as [-> | [-> | ->]]; cbn [clipdark_of pget ch0 ch1 ch2] in Hd;
  rewrite dark_not_negative in Hd; auto; discriminate.
Qed.

Lemma pget_pset p k c x :
  0 <= k <= 3 -> 0 <= c <= 3 -> pget (pset p k x) c = if c =? k then x else pget p c.
Proof.
intros Hk Hc.
assert (Kk : k = 0 \/ k = 1 \/ k = 2 \/ k = 3) by lia.
assert (Kc : c = 0 \/ c = 1 \/ c = 2 \/ c = 3) by lia.
destruct Kk as [-> | [-> | [-> | ->]]], Kc as [-> | [-> | [-> | ->]]]; reflexivity.
Qed.

End DarkThreshold.

Section ChromaPass.

Context `{Externals}.

Variables (piece : dt_dev_pixelpipe_iop_t) (input : buffer) (roi_in : dt_iop_roi_t).
Variables (clips : dt_aligned_pixel_t) (mask : block).
Hypothesis Hne : frame_nonempty roi_in.
Hypothesis Hmask : mask_block (msize_of roi_in) mask.

Local Abbreviation msize := (msize_of roi_in).
Local Abbreviation mwidth := (mwidth_of roi_in).
Local Abbreviation clipdark := (clipdark_of clips).

Lemma mask_nonzero_is_one i : negb (blk_data mask i =? 0) = (blk_data mask i =? 1).
Proof. destruct Hmask as [_ Hb]. destruct (Hb i) as [-> | ->]; reflexivity. Qed.

Lemma opposed_chroma_body_eq row col acc :
  1 <= row < roi_height roi_in - 1 -> 1 <= col < roi_width roi_in - 1 ->
  opposed_chroma_body piece input roi_in clips clipdark msize mwidth mask row col acc
  = Some (opposed_chroma_step piece input roi_in clips clipdark msize mwidth mask
                              row col acc).
Proof.
intros Hr Hc. destruct Hne as (Hw & Hh). destruct Hmask as [Hs Hb].
destruct (cmap_range roi_in Hne row col ltac:(lia) ltac:(lia)) as [Ecm Rcm].
pose proof (photosite_color_range piece roi_in row col) as Hk.
pose proof (msize_of_bounds roi_in Hne) as Hms.
unfold opposed_chroma_body, opposed_chroma_step, opposed_contributes, opposed_deviation.
destruct acc as [cr_sum cr_cnt]. cbn [fst snd].
rewrite (to_size_t_small (row * roi_width roi_in + col)) by nia.
rewrite Ecm, Z.eqb_refl. cbn [andb].
set (k := photosite_color piece roi_in row col) in *.
set (v := input (row * roi_width roi_in + col)).
rewrite to_size_t_small by nia.
unfold dilated_cell.
replace ((k + 3) * msize + row / 3 * mwidth + col / 3)
  with ((k + 3) * msize + (row / 3 * mwidth + col / 3)) by lia.
destruct (flt (fmaxf zero v) (pget clips k)) eqn:L;
  destruct (fgt (fmaxf zero v) (pget clipdark k)) eqn:G; cbn [andb]; try reflexivity.
rewrite load_ok by nia. cbn [bind].
rewrite mask_nonzero_is_one.
rewrite (clamp_of_contributing clips v k Hk G L).
destruct (blk_data mask _ =? 1); reflexivity.
Qed.

Lemma opposed_chroma_pass_fold :
  opposed_chroma_pass piece input roi_in clips clipdark msize mwidth mask
  = Some (fold_left
            (fun t '(r, c) =>
               opposed_chroma_step piece input roi_in clips clipdark msize mwidth mask r c t)
            (interior_photosites roi_in)
            (mkpixel zero zero zero zero, mkpixel zero zero zero zero)).
Proof.
destruct Hne as (Hw & Hh).
unfold opposed_chroma_pass, interior_photosites.
rewrite !to_size_t_small by lia.
apply nested_loop_fold. intros r c t Hr Hc.
apply opposed_chroma_body_eq; assumption.
Qed.

(** Channel [c] of the accumulators sees the photosites of primary [c] only. *)
Lemma opposed_fold_channel c l :
  0 <= c <= 2 ->
  forall acc,
    let r := fold_left
               (fun t '(r, c) =>
                  opposed_chroma_step piece input roi_in clips clipdark msize mwidth mask r c t)
               l acc in
    pget (fst r) c
    = fold_left
        (fun a '(row, col) =>
           if opposed_contributes piece input roi_in clips clipdark msize mwidth mask c row col
           then fadd a (opposed_deviation piece input roi_in row col) else a)
        l (pget (fst acc) c)
    /\ pget (snd r) c
       = fold_left
           (fun a '(row, col) =>
              if opposed_contributes piece input roi_in clips clipdark msize mwidth mask c row col
              then fadd a one else a)
           l (pget (snd acc) c).
Proof.
intros Hc. induction l as [|[row col] l IH]; intros acc; [split; reflexivity|].
cbn [fold_left]. cbv zeta in IH.
destruct (IH (opposed_chroma_step piece input roi_in clips clipdark msize mwidth mask
                                  row col acc)) as [IH1 IH2].
rewrite IH1, IH2. clear IH IH1 IH2.
pose proof (photosite_color_range piece roi_in row col) as Hk.
unfold opposed_chroma_step.
set (k := photosite_color piece roi_in row col) in *.
destruct (Z.eqb_spec k c) as [->|Hne'].
- destruct (opposed_contributes _ _ _ _ _ _ _ _ c row col); cbn [fst snd];
    [rewrite !pget_pset, Z.eqb_refl by lia|]; split; reflexivity.
- assert (N : opposed_contributes piece input roi_in clips clipdark msize mwidth mask
                                  c row col = false).
  { unfold opposed_contributes. fold k.
    destruct (Z.eqb_spec k c); [contradiction|reflexivity]. }
  rewrite N.
  destruct (opposed_contributes _ _ _ _ _ _ _ _ k row col); cbn [fst snd];
    [rewrite !pget_pset by lia; destruct (Z.eqb_spec c k); [congruence|]|];
    split; reflexivity.
Qed.

End ChromaPass.


Section LinearChromaPass.

Context `{Externals}.

Variables (input : buffer) (roi_in : dt_iop_roi_t).
Variables (clips : dt_aligned_pixel_t) (mask : block).
Hypothesis Hne : frame_nonempty roi_in.
Hypothesis Hmask : mask_block (msize_of roi_in) mask.
Hypothesis Hc3 : ch3 clips = zero.

Local Abbreviation msize := (msize_of roi_in).
Local Abbreviation mwidth := (mwidth_of roi_in).
Local Abbreviation clipdark := (clipdark_of clips).

Lemma linear_chroma_channel_eq row col c acc :
  1 <= row < roi_height roi_in - 1 -> 1 <= col < roi_width roi_in - 1 ->
  0 <= c <= 2 ->
  linear_chroma_channel input clips clipdark msize mwidth mask row col
                        ((row * roi_width roi_in + col) * 4) c acc
  = Some (linear_channel_step input roi_in clips clipdark msize mwidth mask row col acc c).
Proof.
intros Hr Hc Hk. destruct Hne as (Hw & Hh). destruct Hmask as [Hs Hb].
destruct (cmap_range roi_in Hne row col ltac:(lia) ltac:(lia)) as [Ecm Rcm].
pose proof (msize_of_bounds roi_in Hne) as Hms.
unfold linear_chroma_channel, linear_channel_step, linear_contributes.
destruct acc as [cr_sum cr_cnt]. cbn [fst snd].
rewrite Ecm.
set (v := input ((row * roi_width roi_in + col) * 4 + c)).
rewrite to_size_t_small by nia.
unfold dilated_cell.
replace ((c + 3) * msize + row / 3 * mwidth + col / 3)
  with ((c + 3) * msize + (row / 3 * mwidth + col / 3)) by lia.
destruct (fgt (fmaxf zero v) (pget clipdark c)) eqn:G;
  destruct (flt (fmaxf zero v) (pget clips c)) eqn:L; cbn [andb]; try reflexivity.
rewrite load_ok by nia. cbn [bind].
rewrite (mask_nonzero_is_one roi_in mask Hmask).
rewrite (clamp_of_contributing clips v c Hk G L).
destruct (blk_data mask _ =? 1); reflexivity.
Qed.

(** The fourth channel never contributes: its threshold is zero. *)
Lemma linear_chroma_channel_pad row col idx acc :
  linear_chroma_channel input clips clipdark msize mwidth mask row col idx 3 acc = Some acc.
Proof.
unfold linear_chroma_channel. destruct acc as [cr_sum cr_cnt].
cbn [pget]. rewrite Hc3, clamp_not_negative, andb_false_r. reflexivity.
Qed.

Lemma linear_chroma_body_eq row col acc :
  1 <= row < roi_height roi_in - 1 -> 1 <= col < roi_width roi_in - 1 ->
  linear_chroma_body input roi_in clips clipdark msize mwidth mask row col acc
  = Some (linear_chroma_step input roi_in clips clipdark msize mwidth mask row col acc).
Proof.
intros Hr Hc. destruct Hne as (Hw & Hh).
unfold linear_chroma_body, linear_chroma_step.
rewrite to_size_t_small by nia.
unfold DT_PIXEL_SIMD_CHANNELS.
destruct DT_NO_VECTORIZATION; [rewrite for_loop_3|rewrite for_loop_4];
  rewrite (linear_chroma_channel_eq row col 0) by lia; cbn [bind];
  rewrite (linear_chroma_channel_eq row col 1) by lia; cbn [bind];
  rewrite (linear_chroma_channel_eq row col 2) by lia; cbn [bind fold_left];
  [reflexivity|].
apply linear_chroma_channel_pad.
Qed.

Lemma linear_chroma_pass_fold :
  linear_chroma_pass input roi_in clips clipdark msize mwidth mask
  = Some (fold_left
            (fun t '(r, c) =>
               linear_chroma_step input roi_in clips clipdark msize mwidth mask r c t)
            (interior_photosites roi_in)
            (mkpixel zero zero zero zero, mkpixel zero zero zero zero)).
Proof.
destruct Hne as (Hw & Hh).
unfold linear_chroma_pass, interior_photosites.
rewrite !to_size_t_small by lia.
apply nested_loop_fold. intros r c t Hr Hc.
apply linear_chroma_body_eq; assumption.
Qed.



End LinearChromaPass.

(** ** The mask-build pass of the sraw variant *)

Section LinearMaskPass.

Context `{Externals}.

Variables (input : buffer) (roi_in : dt_iop_roi_t) (clips : dt_aligned_pixel_t).
Hypothesis Hne : frame_nonempty roi_in.

Local Abbreviation msize := (msize_of roi_in).
Local Abbreviation mwidth := (mwidth_of roi_in).

Lemma linear_mask_channel_ok row col idx c m a :
  0 < row < roi_height roi_in - 1 -> 0 < col < roi_width roi_in - 1 ->
  0 <= c <= 3 -> mask_block msize m ->
  exists t', linear_mask_channel input clips msize mwidth row col idx c (m, a) = Some t' /\
             mask_block msize (fst t').
Proof.
intros Hr Hc Hk Qm.
destruct (cmap_range roi_in Hne row col Hr Hc) as [Ecm Rcm].
pose proof (msize_of_bounds roi_in Hne) as Hms.
unfold linear_mask_channel.
destruct (fge _ _); [|eexists; split; [reflexivity|exact Qm]].
rewrite Ecm. rewrite to_size_t_small by nia.
destruct (or_store_mask msize m (c * msize + (row / 3 * mwidth + col / 3)) Qm)
  as [m2 [E2 [Q2 _]]]; [nia|].
rewrite E2. cbn [bind]. eexists. split; [reflexivity|exact Q2].
Qed.

Lemma linear_mask_pass_ok mask :
  mask_block msize mask ->
  exists m' any,
    linear_mask_pass input roi_in clips msize mwidth mask = Some (m', any) /\
    mask_block msize m'.
Proof.
intros Hm. unfold linear_mask_pass.
pose proof channels_range as Hn.
destruct (for_loop_preserves
            (fun st : block * bool => mask_block msize (fst st))
            1 (to_size_t (roi_height roi_in - 1))
            (fun row => for_loop 1 (to_size_t (roi_width roi_in - 1))
                          (linear_mask_body input roi_in clips msize mwidth row))
            (mask, false)) as [[m' any] [E Q]].
- exact Hm.
- intros row st Hrow Hst.
  apply for_loop_preserves; [exact Hst|].
  intros col t Hcol Qt.
  destruct (interior_bounds roi_in Hne row col Hrow Hcol) as [Hr Hc].
  unfold linear_mask_body.
  apply for_loop_preserves; [exact Qt|].
  intros c [m a] Hc' Qm. cbn [fst] in Qm.
  apply linear_mask_channel_ok; auto; lia.
- exists m', any. auto.
Qed.

Lemma linear_mask_pass_tiny mask :
  roi_width roi_in < 3 \/ roi_height roi_in < 3 ->
  linear_mask_pass input roi_in clips msize mwidth mask = Some (mask, false).
Proof.
intros Htiny. destruct Hne as (Hw & Hh). unfold linear_mask_pass.
rewrite !to_size_t_small by lia.
destruct (Z_lt_dec (roi_height roi_in) 3) as [Hh3|Hh3].
- apply for_loop_empty. lia.
- destruct (for_loop_preserves (fun st : block * bool => st = (mask, false))
              1 (roi_height roi_in - 1)
              (fun row => for_loop 1 (roi_width roi_in - 1)
                 (linear_mask_body input roi_in clips msize mwidth row))
              (mask, false)) as [s' [E ->]]; [reflexivity| |exact E].
  intros row t _ ->. exists (mask, false). split; [|reflexivity].
  apply for_loop_empty. lia.
Qed.

End LinearMaskPass.


(** ** The estimation block *)

Section Estimation.

Context `{Externals}.

Variables (piece : dt_dev_pixelpipe_iop_t) (input : buffer) (roi_in : dt_iop_roi_t).
Variables (quality : bool) (st : chroma_state).

Lemma clips_of_pad : ch3 (clips_of piece) = zero.
Proof. reflexivity. Qed.

(** Without estimation the stored triple is used and the state is kept. *)
Lemma opposed_estimate_skip :
  estimation_runs piece roi_in quality st = false ->
  opposed_estimate piece input roi_in quality st = Some (stored_chrominance st, st, []).
Proof.
unfold estimation_runs, opposed_estimate, dt_calloc_align. intros Hrun.
destruct (feqf _ _ _); cbn [negb andb] in *; [reflexivity|].
destruct quality; cbn [andb] in *; [|reflexivity].
rewrite Hrun. reflexivity.
Qed.

Lemma opposed_estimate_run chrominance st' trace :
  estimation_runs piece roi_in quality st = true ->
  opposed_estimate piece input roi_in quality st = Some (chrominance, st', trace) ->
  In MaskBuild trace /\
  (opposed_publish_condition piece = true ->
   st' = publish piece chrominance st /\ In Publish trace) /\
  (opposed_publish_condition piece = false -> st' = st /\ ~ In Publish trace).
Proof.
unfold estimation_runs, opposed_estimate, opposed_publish_condition, dt_calloc_align.
intros Hrun He.
destruct (feqf _ _ _); cbn [negb andb] in *; [discriminate|].
destruct quality; cbn [andb] in *; [|discriminate].
rewrite Hrun in He.
destruct (opposed_mask_pass _ _ _ _ _ _ _) as [[m any]|]; [|discriminate].
cbn [bind] in He.
destruct any.
- destruct (dilate_pass _ _ _ _) as [m2|]; [|discriminate]. cbn [bind] in He.
  destruct (opposed_chroma_pass _ _ _ _ _ _ _ _) as [[cs cc]|]; [|discriminate].
  cbn [bind] in He.
  destruct (is_full (pipe_type piece) && dt_image_altered (image_id piece));
    inversion He; subst; cbn [app In];
    (split; [tauto|]); split; intros C; try discriminate C;
    (split; [reflexivity|]); try tauto; intuition discriminate.
- cbn [bind] in He.
  destruct (is_full (pipe_type piece) && dt_image_altered (image_id piece));
    inversion He; subst; cbn [app In];
    (split; [tauto|]); split; intros C; try discriminate C;
    (split; [reflexivity|]); try tauto; intuition discriminate.
Qed.

(** On a frame of at least 3 x 3 coarse cells the block is defined. *)
Lemma opposed_estimate_returns :
  frame_ok roi_in -> exists r, opposed_estimate piece input roi_in quality st = Some r.
Proof.
intros [Hw Hh].
assert (Hne : frame_nonempty roi_in) by (unfold frame_nonempty; lia).
destruct (estimation_runs piece roi_in quality st) eqn:Hrun;
  [|rewrite opposed_estimate_skip by exact Hrun; eauto].
unfold estimation_runs in Hrun. unfold opposed_estimate, dt_calloc_align.
destruct (feqf _ _ _); cbn [negb andb] in *; [discriminate|].
destruct quality; cbn [andb] in *; [|discriminate].
rewrite Hrun.
pose proof (msize_of_bounds roi_in Hne) as Hms.
pose proof (mwidth_of_range roi_in Hne) as Rw.
pose proof (mheight_of_range roi_in Hne) as Rh.
assert (Mw : 3 <= mwidth_of roi_in)
  by (rewrite (mwidth_of_eq roi_in Hne); apply Z.div_le_lower_bound; lia).
assert (Mh : 3 <= mheight_of roi_in)
  by (rewrite (mheight_of_eq roi_in Hne); apply Z.div_le_lower_bound; lia).
destruct (opposed_mask_pass_ok piece input roi_in (clips_of piece) Hne
            (zero_block (6 * msize_of roi_in)))
  as [m1 [any [E1 [Q1 [Z1 _]]]]];
  [apply zero_block_mask|intros i _; reflexivity|].
rewrite E1. cbn [bind].
destruct any.
- destruct (dilate_pass_ok (msize_of roi_in) (mwidth_of roi_in) (mheight_of roi_in)
              ltac:(lia) ltac:(lia) ltac:(lia) ltac:(nia) ltac:(lia) m1 (proj1 Q1))
    as [m2 [E2 (_ & _ & _ & Q2)]].
  rewrite E2. cbn [bind].
  rewrite (opposed_chroma_pass_fold piece input roi_in (clips_of piece) m2 Hne (Q2 Q1)).
  cbn [bind].
  destruct (fold_left _ _ _) as [cs cc]. cbn [bind].
  destruct (is_full (pipe_type piece) && dt_image_altered (image_id piece)); eauto.
- cbn [bind].
  destruct (is_full (pipe_type piece) && dt_image_altered (image_id piece)); eauto.
Qed.

(** A frame with no photosite inside its border has nothing clipped: the
    triple in use stays the stored one. *)
Lemma opposed_estimate_tiny :
  frame_nonempty roi_in ->
  roi_width roi_in < 3 \/ roi_height roi_in < 3 ->
  opposed_estimate piece input roi_in quality st
  = Some (stored_chrominance st,
          (if estimation_runs piece roi_in quality st && opposed_publish_condition piece
           then publish piece (stored_chrominance st) st else st),
          (if estimation_runs piece roi_in quality st
           then if opposed_publish_condition piece then [MaskBuild; Publish] else [MaskBuild]
           else [])).
Proof.
intros Hne Htiny.
destruct (estimation_runs piece roi_in quality st) eqn:Hrun;
  [|rewrite opposed_estimate_skip by exact Hrun; reflexivity].
unfold estimation_runs in Hrun.
unfold opposed_estimate, opposed_publish_condition, dt_calloc_align.
destruct (feqf _ _ _); cbn [negb andb] in *; [discriminate|].
destruct quality; cbn [andb] in *; [|discriminate].
rewrite Hrun.
rewrite (opposed_mask_pass_tiny piece input roi_in (clips_of piece) Hne _ Htiny).
cbn [bind].
destruct (is_full (pipe_type piece) && dt_image_altered (image_id piece)); reflexivity.
Qed.

End Estimation.

Section LinearEstimation.

Context `{Externals}.

Variables (piece : dt_dev_pixelpipe_iop_t) (input : buffer).
Variables (roi_in roi_out : dt_iop_roi_t) (quality : bool) (st : chroma_state).

Lemma linear_estimate_skip :
  estimation_runs piece roi_in quality st = false ->
  linear_estimate piece input roi_in roi_out quality st
  = Some (stored_chrominance st, st, []).
Proof.
unfold estimation_runs, linear_estimate, dt_calloc_align. intros Hrun.
destruct (feqf _ _ _); cbn [negb andb] in *; [reflexivity|].
destruct quality; cbn [andb] in *; [|reflexivity].
rewrite Hrun. reflexivity.
Qed.

Lemma linear_estimate_run chrominance st' trace :
  estimation_runs piece roi_in quality st = true ->
  linear_estimate piece input roi_in roi_out quality st = Some (chrominance, st', trace) ->
  In MaskBuild trace /\
  (linear_publish_condition piece roi_out = true ->
   st' = publish piece chrominance st /\ In Publish trace) /\
  (linear_publish_condition piece roi_out = false -> st' = st /\ ~ In Publish trace).
Proof.
unfold estimation_runs, linear_estimate, dt_calloc_align.
intros Hrun He.
destruct (feqf _ _ _); cbn [negb andb] in *; [discriminate|].
destruct quality; cbn [andb] in *; [|discriminate].
rewrite Hrun in He.
destruct (linear_mask_pass _ _ _ _ _ _) as [[m any]|]; [|discriminate].
cbn [bind] in He.
destruct any.
- destruct (dilate_pass _ _ _ _) as [m2|]; [|discriminate]. cbn [bind] in He.
  destruct (linear_chroma_pass _ _ _ _ _ _ _) as [[cs cc]|]; [|discriminate].
  cbn [bind] in He.
  destruct (linear_publish_condition piece roi_out);
    inversion He; subst; cbn [app In];
    (split; [tauto|]); split; intros C; try discriminate C;
    (split; [reflexivity|]); try tauto; intuition discriminate.
- cbn [bind] in He.
  destruct (linear_publish_condition piece roi_out);
    inversion He; subst; cbn [app In];
    (split; [tauto|]); split; intros C; try discriminate C;
    (split; [reflexivity|]); try tauto; intuition discriminate.
Qed.

Lemma linear_estimate_returns :
  frame_ok roi_in ->
  exists r, linear_estimate piece input roi_in roi_out quality st = Some r.
Proof.
intros [Hw Hh].
assert (Hne : frame_nonempty roi_in) by (unfold frame_nonempty; lia).
destruct (estimation_runs piece roi_in quality st) eqn:Hrun;
  [|rewrite linear_estimate_skip by exact Hrun; eauto].
unfold estimation_runs in Hrun. unfold linear_estimate, dt_calloc_align.
destruct (feqf _ _ _); cbn [negb andb] in *; [discriminate|].
destruct quality; cbn [andb] in *; [|discriminate].
rewrite Hrun.
pose proof (msize_of_bounds roi_in Hne) as Hms.
pose proof (mwidth_of_range roi_in Hne) as Rw.
pose proof (mheight_of_range roi_in Hne) as Rh.
assert (Mw : 3 <= mwidth_of roi_in)
  by (rewrite (mwidth_of_eq roi_in Hne); apply Z.div_le_lower_bound; lia).
assert (Mh : 3 <= mheight_of roi_in)
  by (rewrite (mheight_of_eq roi_in Hne); apply Z.div_le_lower_bound; lia).
destruct (linear_mask_pass_ok input roi_in (clips_of piece) Hne
            (zero_block (6 * msize_of roi_in)))
  as [m1 [any [E1 Q1]]]; [apply zero_block_mask|].
rewrite E1. cbn [bind].
destruct any.
- destruct (dilate_pass_ok (msize_of roi_in) (mwidth_of roi_in) (mheight_of roi_in)
              ltac:(lia) ltac:(lia) ltac:(lia) ltac:(nia) ltac:(lia) m1 (proj1 Q1))
    as [m2 [E2 (_ & _ & _ & Q2)]].
  rewrite E2. cbn [bind].
  rewrite (linear_chroma_pass_fold input roi_in (clips_of piece) m2 Hne (Q2 Q1)
                                   (clips_of_pad piece)).
  cbn [bind].
  destruct (fold_left _ _ _) as [cs cc]. cbn [bind].
  destruct (linear_publish_condition piece roi_out); eauto.
- cbn [bind].
  destruct (linear_publish_condition piece roi_out); eauto.
Qed.

Lemma linear_estimate_tiny :
  frame_nonempty roi_in ->
  roi_width roi_in < 3 \/ roi_height roi_in < 3 ->
  linear_estimate piece input roi_in roi_out quality st
  = Some (stored_chrominance st,
          (if estimation_runs piece roi_in quality st
              && linear_publish_condition piece roi_out
           then publish piece (stored_chrominance st) st else st),
          (if estimation_runs piece roi_in quality st
           then if linear_publish_condition piece roi_out
                then [MaskBuild; Publish] else [MaskBuild]
           else [])).
Proof.
intros Hne Htiny.
destruct (estimation_runs piece roi_in quality st) eqn:Hrun;
  [|rewrite linear_estimate_skip by exact Hrun; reflexivity].
unfold estimation_runs in Hrun.
unfold linear_estimate, dt_calloc_align.
destruct (feqf _ _ _); cbn [negb andb] in *; [discriminate|].
destruct quality; cbn [andb] in *; [|discriminate].
rewrite Hrun.
rewrite (linear_mask_pass_tiny input roi_in (clips_of piece) Hne _ Htiny).
cbn [bind].
destruct (linear_publish_condition piece roi_out); reflexivity.
Qed.

End LinearEstimation.

(** ** The two entry points *)

Section EntryPoints.

Context `{Externals}.

Variables (st : chroma_state) (piece : dt_dev_pixelpipe_iop_t).
Variables (input output : buffer) (roi_in roi_out : dt_iop_roi_t).

(** What a defined call of [_process_opposed] returns, from what its
    estimation block returned. *)
Lemma process_opposed_inv keep quality r :
  _process_opposed st piece input output roi_in roi_out keep quality = Some r ->
  exists trace tmp0,
    opposed_estimate piece input roi_in quality st
    = Some (out_chrominance r, out_state r, trace) /\
    (keep = false -> tmp0 = None) /\
    out_tmpout r
    = option_map (opposed_fill_tmpout piece input roi_in (clips_of piece)
                                      (out_chrominance r)) tmp0 /\
    out_buffer r
    = opposed_reconstruct piece input (out_tmpout r) roi_in roi_out
                          (clips_of piece) (out_chrominance r) output /\
    out_trace r
    = trace ++ (match tmp0 with Some _ => [FillTmpout] | None => [] end) ++ [Reconstruct].
Proof.
unfold _process_opposed. intros Hp.
destruct (opposed_estimate piece input roi_in quality st) as [[[chrom st'] trace]|];
  [|discriminate].
cbn [bind] in Hp. inversion Hp; subst; clear Hp. cbn [out_chrominance out_state
  out_tmpout out_buffer out_trace].
exists trace.
exists (if keep
        then dt_alloc_align_float (to_size_t (roi_width roi_in * roi_height roi_in))
        else None).
split; [reflexivity|]. split; [intros ->; reflexivity|].
destruct keep; [destruct (dt_alloc_align_float _)|]; cbn [option_map];
  repeat split; reflexivity.
Qed.

Lemma process_opposed_returns keep quality :
  frame_ok roi_in ->
  exists r, _process_opposed st piece input output roi_in roi_out keep quality = Some r.
Proof.
intros Hf. unfold _process_opposed.
destruct (opposed_estimate_returns piece input roi_in quality st Hf)
  as [[[chrom st'] trace] E].
rewrite E. cbn [bind]. eauto.
Qed.

Lemma process_linear_inv quality r :
  _process_linear_opposed st piece input output roi_in roi_out quality = Some r ->
  exists trace,
    linear_estimate piece input roi_in roi_out quality st
    = Some (out_chrominance r, out_state r, trace) /\
    out_buffer r
    = linear_reconstruct input roi_in roi_out (clips_of piece) (out_chrominance r) output /\
    out_trace r = trace ++ [Reconstruct].
Proof.
unfold _process_linear_opposed. intros Hp.
destruct (linear_estimate piece input roi_in roi_out quality st)
  as [[[chrom st'] trace]|]; [|discriminate].
cbn [bind] in Hp. inversion Hp; subst; clear Hp.
exists trace. repeat split; reflexivity.
Qed.

Lemma process_linear_returns quality :
  frame_ok roi_in ->
  exists r, _process_linear_opposed st piece input output roi_in roi_out quality = Some r.
Proof.
intros Hf. unfold _process_linear_opposed.
destruct (linear_estimate_returns piece input roi_in roi_out quality st Hf)
  as [[[chrom st'] trace] E].
rewrite E. cbn [bind]. eauto.
Qed.

End EntryPoints.

(** ** What the reconstructor emits *)

Section Emitted.

Context `{Externals}.

Variables (st : chroma_state) (piece : dt_dev_pixelpipe_iop_t).
Variables (input output : buffer) (roi_in roi_out : dt_iop_roi_t).
Hypothesis Hin : roi_ok roi_in.
Hypothesis Hout : roi_ok roi_out.

(** The mosaic variant, in keep and in non-keep mode, emits the
    reconstructed value of the photosite an output photosite is mapped to. *)
Lemma process_opposed_inside keep quality r row col :
  _process_opposed st piece input output roi_in roi_out keep quality = Some r ->
  0 <= row < roi_height roi_out -> 0 <= col < roi_width roi_out ->
  inside_input roi_in (row + roi_y roi_out) (col + roi_x roi_out) ->
  out_buffer r (row * roi_width roi_out + col)
  = reconstructed_value piece input roi_in (clips_of piece) (out_chrominance r)
                        (row + roi_y roi_out) (col + roi_x roi_out).
Proof.
intros Hp Hr Hc Hi.
destruct (process_opposed_inv st piece input output roi_in roi_out keep quality r Hp)
  as (trace & tmp0 & _ & _ & Et & Eb & _).
rewrite Eb, Et.
rewrite opposed_reconstruct_at by assumption.
apply opposed_output_value_inside; auto; lia.
Qed.

(** Outside the input region it emits zero. *)
Lemma process_opposed_outside keep quality r row col :
  _process_opposed st piece input output roi_in roi_out keep quality = Some r ->
  0 <= row < roi_height roi_out -> 0 <= col < roi_width roi_out ->
  ~ inside_input roi_in (row + roi_y roi_out) (col + roi_x roi_out) ->
  out_buffer r (row * roi_width roi_out + col) = zero.
Proof.
intros Hp Hr Hc Hi. destruct Hout as (Hw & Hh & _).
destruct (process_opposed_inv st piece input output roi_in roi_out keep quality r Hp)
  as (trace & tmp0 & _ & _ & Et & Eb & _).
rewrite Eb.
rewrite opposed_reconstruct_at by assumption.
apply opposed_output_value_outside; auto; lia.
Qed.

(** The sraw variant emits the value of the clamped position. *)
Lemma process_linear_at quality r row col c :
  _process_linear_opposed st piece input output roi_in roi_out quality = Some r ->
  0 <= row < roi_height roi_out -> 0 <= col < roi_width roi_out ->
  0 <= c < DT_PIXEL_SIMD_CHANNELS ->
  out_buffer r ((row * roi_width roi_out + col) * 4 + c)
  = linear_output_value input roi_in (clips_of piece) (out_chrominance r) row col c.
Proof.
intros Hp Hr Hc Hk.
destruct (process_linear_inv st piece input output roi_in roi_out quality r Hp)
  as (trace & _ & Eb & _).
rewrite Eb. apply linear_reconstruct_at; assumption.
Qed.

End Emitted.

(** C1 (as amended). Every value either variant emits for an output
    photosite whose mapped position lies in the input region, in keep and in
    non-keep mode, is never less than the input value at that position; it is
    greater than or equal to it whenever that input is a number (not NaN),
    in particular whenever the input reaches the clip threshold; and both
    variants are defined on every frame of at least 3 x 3 coarse cells. *)
Theorem reconstruction_not_below_input `{Externals}
        (st : chroma_state) (piece : dt_dev_pixelpipe_iop_t) (input output : buffer)
        (roi_in roi_out : dt_iop_roi_t) (quality : bool) :
  roi_ok roi_in -> roi_ok roi_out ->
  (forall keep r row col,
      _process_opposed st piece input output roi_in roi_out keep quality = Some r ->
      0 <= row < roi_height roi_out -> 0 <= col < roi_width roi_out ->
      inside_input roi_in (row + roi_y roi_out) (col + roi_x roi_out) ->
      let irow := row + roi_y roi_out in
      let icol := col + roi_x roi_out in
      let o := out_buffer r (row * roi_width roi_out + col) in
      let i := input (irow * roi_width roi_in + icol) in
      flt o i = false /\
      (is_nan i = false -> fge o i = true) /\
      (fge i (pget (clips_of piece) (photosite_color piece roi_in irow icol)) = true ->
       fge o i = true)) /\
  (forall r row col c,
      _process_linear_opposed st piece input output roi_in roi_out quality = Some r ->
      0 <= row < roi_height roi_out -> 0 <= col < roi_width roi_out ->
      0 <= c < DT_PIXEL_SIMD_CHANNELS ->
      let irow := Z.min row (roi_height roi_in - 1) in
      let icol := Z.min col (roi_width roi_in - 1) in
      let o := out_buffer r ((row * roi_width roi_out + col) * 4 + c) in
      let i := input ((irow * roi_width roi_in + icol) * 4 + c) in
      flt o i = false /\
      (is_nan i = false -> fge o i = true) /\
      (fge i (pget (clips_of piece) c) = true -> fge o i = true)) /\
  (frame_ok roi_in ->
   (forall keep,
       _process_opposed st piece input output roi_in roi_out keep quality <> None) /\
   _process_linear_opposed st piece input output roi_in roi_out quality <> None).
Proof.
intros Hin Hout. split; [|split].
- intros keep r row col Hp Hr Hc Hi. cbv zeta.
  rewrite (process_opposed_inside st piece input output roi_in roi_out Hin Hout
                                  keep quality r row col Hp Hr Hc Hi).
  unfold reconstructed_value.
  set (x := input ((row + roi_y roi_out) * roi_width roi_in + (col + roi_x roi_out))).
  match goal with
  | |- context [if ?b then _ else _] => set (cond := b)
  end.
  split; [apply emitted_not_less|].
  split; [apply emitted_ge|].
  intros G. apply emitted_ge. exact (fge_not_nan_l _ _ G).
- intros r row col c Hp Hr Hc Hk. cbv zeta.
  rewrite (process_linear_at st piece input output roi_in roi_out
                             quality r row col c Hp Hr Hc Hk).
  unfold linear_output_value.
  set (x := input ((Z.min row (roi_height roi_in - 1) * roi_width roi_in
                    + Z.min col (roi_width roi_in - 1)) * 4 + c)).
  match goal with
  | |- context [if ?b then _ else _] => set (cond := b)
  end.
  split; [apply emitted_not_less|].
  split; [apply emitted_ge|].
  intros G. apply emitted_ge. exact (fge_not_nan_l _ _ G).
- intros Hf. split.
  + intros keep.
    destruct (process_opposed_returns st piece input output roi_in roi_out keep quality Hf)
      as [r ->]. discriminate.
  + destruct (process_linear_returns st piece input output roi_in roi_out quality Hf)
      as [r ->]. discriminate.
Qed.

(** C1, counterexample to the claim as stated: on a 3 x 3 mosaic frame whose
    centre photosite holds NaN the mapped position (1, 1) lies in the input
    region, the value emitted there is [+0], and [+0 >= NaN] is false. *)
Lemma reconstruction_below_nan_input :
  inside_input (roi_at 0 0 3 3) 1 1 /\
  is_nan (single 4 S754_nan (1 * 3 + 1)) = true /\
  output_at (@_process_opposed (bench true) bench_state
               (bench_piece DT_DEV_PIXELPIPE_FULL) (single 4 S754_nan) blank
               (roi_at 0 0 3 3) (roi_at 0 0 3 3) false true) (1 * 3 + 1) = Some zero /\
  fge zero (single 4 S754_nan (1 * 3 + 1)) = false.
Proof.
split; [unfold inside_input; cbn; lia|].
split; [reflexivity|].
split; [vm_compute; reflexivity|reflexivity].
Qed.

Lemma reconstruction_not_below_input_witness :
  roi_ok (roi_at 0 0 9 9) /\ roi_ok (roi_at 1 1 7 7) /\
  (forall keep r,
      @_process_opposed (bench true) bench_state (bench_piece DT_DEV_PIXELPIPE_FULL)
                        (red_clipped 9) blank (roi_at 0 0 9 9) (roi_at 1 1 7 7)
                        keep true = Some r ->
      fge (out_buffer r (1 * 7 + 1)) (red_clipped 9 ((1 + 1) * 9 + (1 + 1))) = true).
Proof.
assert (A : roi_ok (roi_at 0 0 9 9)) by (unfold roi_ok; cbn; lia).
assert (B : roi_ok (roi_at 1 1 7 7)) by (unfold roi_ok; cbn; lia).
split; [exact A|]. split; [exact B|].
intros keep r Hp.
destruct (@reconstruction_not_below_input (bench true) bench_state
            (bench_piece DT_DEV_PIXELPIPE_FULL) (red_clipped 9) blank
            (roi_at 0 0 9 9) (roi_at 1 1 7 7) true A B) as [M _].
destruct (M keep r 1 1 Hp) as (_ & G & _);
  [cbn; lia|cbn; lia|unfold inside_input; cbn; lia|].
apply G. reflexivity.
Defined.

(** C2 (as amended). For every photosite strictly inside the input border
    whose clamped value [max(0, in)] is below its primary's clip threshold
    (which is the case whenever [in] is below a positive threshold), both
    variants emit exactly [max(0, in)]; the emitted value is bit-equal to
    the input when the input is positive or [+0]; and both variants are
    defined on every frame of at least 3 x 3 coarse cells. *)
Theorem unclipped_emits_clamped_input `{Externals}
        (st : chroma_state) (piece : dt_dev_pixelpipe_iop_t) (input output : buffer)
        (roi_in roi_out : dt_iop_roi_t) (quality : bool) :
  roi_ok roi_in -> roi_ok roi_out ->
  (forall keep r row col,
      _process_opposed st piece input output roi_in roi_out keep quality = Some r ->
      0 <= row < roi_height roi_out -> 0 <= col < roi_width roi_out ->
      inside_border roi_in (row + roi_y roi_out) (col + roi_x roi_out) ->
      let irow := row + roi_y roi_out in
      let icol := col + roi_x roi_out in
      let o := out_buffer r (row * roi_width roi_out + col) in
      let i := input (irow * roi_width roi_in + icol) in
      let t := pget (clips_of piece) (photosite_color piece roi_in irow icol) in
      (flt (fmaxf zero i) t = true -> o = fmaxf zero i) /\
      (flt i t = true -> flt zero t = true -> o = fmaxf zero i) /\
      (flt (fmaxf zero i) t = true -> flt zero i = true \/ i = zero -> o = i)) /\
  (forall r row col c,
      _process_linear_opposed st piece input output roi_in roi_out quality = Some r ->
      0 <= row < roi_height roi_out -> 0 <= col < roi_width roi_out ->
      0 <= c < DT_PIXEL_SIMD_CHANNELS ->
      let irow := Z.min row (roi_height roi_in - 1) in
      let icol := Z.min col (roi_width roi_in - 1) in
      let o := out_buffer r ((row * roi_width roi_out + col) * 4 + c) in
      let i := input ((irow * roi_width roi_in + icol) * 4 + c) in
      let t := pget (clips_of piece) c in
      (flt (fmaxf zero i) t = true -> o = fmaxf zero i) /\
      (flt i t = true -> flt zero t = true -> o = fmaxf zero i) /\
      (flt (fmaxf zero i) t = true -> flt zero i = true \/ i = zero -> o = i)) /\
  (frame_ok roi_in ->
   (forall keep,
       _process_opposed st piece input output roi_in roi_out keep quality <> None) /\
   _process_linear_opposed st piece input output roi_in roi_out quality <> None).
Proof.
intros Hin Hout. split; [|split].
- intros keep r row col Hp Hr Hc [Hbr Hbc]. cbv zeta.
  rewrite (process_opposed_inside st piece input output roi_in roi_out Hin Hout
                                  keep quality r row col Hp Hr Hc)
    by (unfold inside_input; lia).
  unfold reconstructed_value.
  set (x := input ((row + roi_y roi_out) * roi_width roi_in + (col + roi_x roi_out))).
  set (t := pget (clips_of piece)
                 (photosite_color piece roi_in (row + roi_y roi_out) (col + roi_x roi_out))).
  assert (K : flt (fmaxf zero x) t = true ->
              (if fge (fmaxf zero x) t
                  && (0 <? row + roi_y roi_out)
                  && (row + roi_y roi_out <? roi_height roi_in - 1)
                  && (0 <? col + roi_x roi_out)
                  && (col + roi_x roi_out <? roi_width roi_in - 1)
               then fmaxf (fmaxf zero x)
                          (fadd (mosaic_refavg piece input roi_in
                                   ((row + roi_y roi_out) * roi_width roi_in
                                    + (col + roi_x roi_out))
                                   (row + roi_y roi_out) (col + roi_x roi_out))
                                (pget (out_chrominance r)
                                      (photosite_color piece roi_in (row + roi_y roi_out)
                                                       (col + roi_x roi_out))))
               else fmaxf zero x) = fmaxf zero x).
  { intros L. rewrite (flt_not_fge _ _ L). reflexivity. }
  split; [exact K|]. split.
  + intros L P. apply K. apply clamp_below; assumption.
  + intros L P. rewrite K by exact L. apply clamp_identity. exact P.
- intros r row col c Hp Hr Hc Hk. cbv zeta.
  rewrite (process_linear_at st piece input output roi_in roi_out
                             quality r row col c Hp Hr Hc Hk).
  unfold linear_output_value.
  set (x := input ((Z.min row (roi_height roi_in - 1) * roi_width roi_in
                    + Z.min col (roi_width roi_in - 1)) * 4 + c)).
  set (t := pget (clips_of piece) c).
  assert (K : flt (fmaxf zero x) t = true ->
              (if fge (fmaxf zero x) t
               then fmaxf (fmaxf zero x)
                          (fadd (_calc_linear_refavg input
                                   ((Z.min row (roi_height roi_in - 1) * roi_width roi_in
                                     + Z.min col (roi_width roi_in - 1)) * 4) c)
                                (pget (out_chrominance r) c))
               else fmaxf zero x) = fmaxf zero x).
  { intros L. rewrite (flt_not_fge _ _ L). reflexivity. }
  split; [exact K|]. split.
  + intros L P. apply K. apply clamp_below; assumption.
  + intros L P. rewrite K by exact L. apply clamp_identity. exact P.
- intros Hf. split.
  + intros keep.
    destruct (process_opposed_returns st piece input output roi_in roi_out keep quality Hf)
      as [r ->]. discriminate.
  + destruct (process_linear_returns st piece input output roi_in roi_out quality Hf)
      as [r ->]. discriminate.
Qed.

(** C2, counterexample to the claim as stated, on a 3 x 3 mosaic frame whose
    centre photosite holds -1.0: that photosite is strictly inside the border
    and below its clip threshold, the value emitted is [+0], which is not
    bit-equal to the input; and with the clip parameter at zero (so that the
    threshold is 0 and -1.0 is still below it) the value emitted is 0.25,
    which is not [max(0, in) = 0] either. *)
Lemma unclipped_negative_input_changed :
  inside_border (roi_at 0 0 3 3) 1 1 /\
  (flt (single 4 minus_one (1 * 3 + 1))
       (pget (clips_of (bench_piece DT_DEV_PIXELPIPE_FULL))
             (@photosite_color (bench true) (bench_piece DT_DEV_PIXELPIPE_FULL)
                               (roi_at 0 0 3 3) 1 1)) = true /\
   output_at (@_process_opposed (bench true) bench_state
                (bench_piece DT_DEV_PIXELPIPE_FULL) (single 4 minus_one) blank
                (roi_at 0 0 3 3) (roi_at 0 0 3 3) false true) (1 * 3 + 1) = Some zero /\
   zero <> single 4 minus_one (1 * 3 + 1)) /\
  (flt (single 4 minus_one (1 * 3 + 1))
       (pget (clips_of (zero_clip_piece DT_DEV_PIXELPIPE_FULL))
             (@photosite_color (bench true) (zero_clip_piece DT_DEV_PIXELPIPE_FULL)
                               (roi_at 0 0 3 3) 1 1)) = true /\
   output_at (@_process_opposed (bench true) bench_state
                (zero_clip_piece DT_DEV_PIXELPIPE_FULL) (single 4 minus_one) blank
                (roi_at 0 0 3 3) (roi_at 0 0 3 3) false true) (1 * 3 + 1) = Some quarter /\
   fmaxf zero (single 4 minus_one (1 * 3 + 1)) = zero /\
   quarter <> zero).
Proof.
split; [unfold inside_border; cbn; lia|]. split.
- split; [vm_compute; reflexivity|].
  split; [vm_compute; reflexivity|].
  vm_compute. discriminate.
- split; [vm_compute; reflexivity|].
  split; [vm_compute; reflexivity|].
  split; [vm_compute; reflexivity|discriminate].
Qed.

Lemma unclipped_emits_clamped_input_witness :
  roi_ok (roi_at 0 0 9 9) /\ roi_ok (roi_at 1 1 7 7) /\
  (forall keep r,
      @_process_opposed (bench true) bench_state (bench_piece DT_DEV_PIXELPIPE_FULL)
                        (red_clipped 9) blank (roi_at 0 0 9 9) (roi_at 1 1 7 7)
                        keep true = Some r ->
      out_buffer r (1 * 7 + 2) = red_clipped 9 ((1 + 1) * 9 + (2 + 1))).
Proof.
assert (A : roi_ok (roi_at 0 0 9 9)) by (unfold roi_ok; cbn; lia).
assert (B : roi_ok (roi_at 1 1 7 7)) by (unfold roi_ok; cbn; lia).
split; [exact A|]. split; [exact B|].
intros keep r Hp.
destruct (@unclipped_emits_clamped_input (bench true) bench_state
            (bench_piece DT_DEV_PIXELPIPE_FULL) (red_clipped 9) blank
            (roi_at 0 0 9 9) (roi_at 1 1 7 7) true A B) as [M _].
destruct (M keep r 1 2 Hp) as (_ & _ & G);
  [cbn; lia|cbn; lia|unfold inside_border; cbn; lia|].
apply G; [vm_compute; reflexivity|left; vm_compute; reflexivity].
Defined.

(** C4 (as amended). In the mosaic variant every output photosite (r, c)
    is mapped to the input photosite (r + roi_out.y, c + roi_out.x): it
    receives the reconstructed value of that photosite, or zero when the
    position lies outside the input region, so that a cropped output equals
    the uncropped reconstruction at the offset position. The sraw variant
    does not use the offset: its output (r, c) is computed from the input
    pixel (min(r, H - 1), min(c, W - 1)) and is never forced to zero. Both
    variants are defined on every frame of at least 3 x 3 coarse cells. *)
Theorem output_position_mapping `{Externals}
        (st : chroma_state) (piece : dt_dev_pixelpipe_iop_t) (input output : buffer)
        (roi_in roi_out : dt_iop_roi_t) (quality : bool) :
  roi_ok roi_in -> roi_ok roi_out ->
  (forall keep r row col,
      _process_opposed st piece input output roi_in roi_out keep quality = Some r ->
      0 <= row < roi_height roi_out -> 0 <= col < roi_width roi_out ->
      (inside_input roi_in (row + roi_y roi_out) (col + roi_x roi_out) ->
       out_buffer r (row * roi_width roi_out + col)
       = reconstructed_value piece input roi_in (clips_of piece) (out_chrominance r)
                             (row + roi_y roi_out) (col + roi_x roi_out)) /\
      (~ inside_input roi_in (row + roi_y roi_out) (col + roi_x roi_out) ->
       out_buffer r (row * roi_width roi_out + col) = zero)) /\
  (forall keep keep' output' roi_full r r' row col,
      roi_ok roi_full -> roi_x roi_full = 0 -> roi_y roi_full = 0 ->
      _process_opposed st piece input output roi_in roi_out keep quality = Some r ->
      _process_opposed st piece input output' roi_in roi_full keep' quality = Some r' ->
      0 <= row < roi_height roi_out -> 0 <= col < roi_width roi_out ->
      0 <= row + roi_y roi_out < roi_height roi_full ->
      0 <= col + roi_x roi_out < roi_width roi_full ->
      inside_input roi_in (row + roi_y roi_out) (col + roi_x roi_out) ->
      out_buffer r (row * roi_width roi_out + col)
      = out_buffer r' ((row + roi_y roi_out) * roi_width roi_full
                       + (col + roi_x roi_out))) /\
  (forall r row col c,
      _process_linear_opposed st piece input output roi_in roi_out quality = Some r ->
      0 <= row < roi_height roi_out -> 0 <= col < roi_width roi_out ->
      0 <= c < DT_PIXEL_SIMD_CHANNELS ->
      let idx := (Z.min row (roi_height roi_in - 1) * roi_width roi_in
                  + Z.min col (roi_width roi_in - 1)) * 4 in
      let v := fmaxf zero (input (idx + c)) in
      out_buffer r ((row * roi_width roi_out + col) * 4 + c)
      = if fge v (pget (clips_of piece) c)
        then fmaxf v (fadd (_calc_linear_refavg input idx c)
                           (pget (out_chrominance r) c))
        else v) /\
  (frame_ok roi_in ->
   (forall keep,
       _process_opposed st piece input output roi_in roi_out keep quality <> None) /\
   _process_linear_opposed st piece input output roi_in roi_out quality <> None).
Proof.
intros Hin Hout. split; [|split; [|split]].
- intros keep r row col Hp Hr Hc. split; intros Hi.
  + apply (process_opposed_inside st piece input output roi_in roi_out Hin Hout
                                  keep quality); assumption.
  + apply (process_opposed_outside st piece input output roi_in roi_out Hin Hout
                                   keep quality); assumption.
- intros keep keep' output' roi_full r r' row col Hfull Hx Hy Hp Hp' Hr Hc Hr' Hc' Hi.
  rewrite (process_opposed_inside st piece input output roi_in roi_out Hin Hout
                                  keep quality r row col Hp Hr Hc Hi).
  assert (Hi' : inside_input roi_in
                  (row + roi_y roi_out + roi_y roi_full)
                  (col + roi_x roi_out + roi_x roi_full))
    by (rewrite Hx, Hy, !Z.add_0_r; exact Hi).
  rewrite (process_opposed_inside st piece input output' roi_in roi_full Hin Hfull
                                  keep' quality r'
                                  (row + roi_y roi_out) (col + roi_x roi_out)
                                  Hp' Hr' Hc' Hi').
  rewrite Hx, Hy, !Z.add_0_r.
  destruct (process_opposed_inv st piece input output roi_in roi_out keep quality r Hp)
    as (trace & tmp0 & E & _).
  destruct (process_opposed_inv st piece input output' roi_in roi_full keep' quality r' Hp')
    as (trace' & tmp0' & E' & _).
  rewrite E in E'. inversion E'. reflexivity.
- intros r row col c Hp Hr Hc Hk. cbv zeta.
  apply (process_linear_at st piece input output roi_in roi_out quality); assumption.
- intros Hf. split.
  + intros keep.
    destruct (process_opposed_returns st piece input output roi_in roi_out keep quality Hf)
      as [r ->]. discriminate.
  + destruct (process_linear_returns st piece input output roi_in roi_out quality Hf)
      as [r ->]. discriminate.
Qed.

(** C4, counterexample to the claim as stated, in the sraw variant on a
    9 x 9 frame whose pixel (4, 4) holds 0 in its first channel while every
    other value is 0.25. With the output region offset by (1, 1) the output
    pixel (3, 3) would be the value of the input pixel (4, 4), which is 0; the
    code emits 0.25, the value of the input pixel (3, 3). With an output region
    of 9 x 9 at that offset the output pixel (8, 8) is mapped to (9, 9), outside
    the input region, and would be zero; the code emits 0.25. *)
Lemma linear_output_ignores_offset :
  fmaxf zero (single ((4 * 9 + 4) * 4) zero (((3 + 1) * 9 + (3 + 1)) * 4 + 0)) = zero /\
  output_at (@_process_linear_opposed (bench true) bench_state
               (bench_piece DT_DEV_PIXELPIPE_FULL) (single ((4 * 9 + 4) * 4) zero) blank
               (roi_at 0 0 9 9) (roi_at 1 1 7 7) true) ((3 * 7 + 3) * 4 + 0)
  = Some quarter /\
  ~ inside_input (roi_at 0 0 9 9) (8 + 1) (8 + 1) /\
  output_at (@_process_linear_opposed (bench true) bench_state
               (bench_piece DT_DEV_PIXELPIPE_FULL) (single ((4 * 9 + 4) * 4) zero) blank
               (roi_at 0 0 9 9) (roi_at 1 1 9 9) true) ((8 * 9 + 8) * 4 + 0)
  = Some quarter /\
  quarter <> zero.
Proof.
split; [vm_compute; reflexivity|].
split; [vm_compute; reflexivity|].
split; [unfold inside_input; cbn; lia|].
split; [vm_compute; reflexivity|discriminate].
Qed.

Lemma output_position_mapping_witness :
  roi_ok (roi_at 0 0 9 9) /\ roi_ok (roi_at 1 1 7 7) /\
  (forall r r',
      @_process_opposed (bench true) bench_state (bench_piece DT_DEV_PIXELPIPE_FULL)
                        (red_clipped 9) blank (roi_at 0 0 9 9) (roi_at 1 1 7 7)
                        false true = Some r ->
      @_process_opposed (bench true) bench_state (bench_piece DT_DEV_PIXELPIPE_FULL)
                        (red_clipped 9) blank (roi_at 0 0 9 9) (roi_at 0 0 9 9)
                        true true = Some r' ->
      out_buffer r (3 * 7 + 2) = out_buffer r' ((3 + 1) * 9 + (2 + 1))).
Proof.
assert (A : roi_ok (roi_at 0 0 9 9)) by (unfold roi_ok; cbn; lia).
assert (B : roi_ok (roi_at 1 1 7 7)) by (unfold roi_ok; cbn; lia).
split; [exact A|]. split; [exact B|].
intros r r' Hp Hp'.
destruct (@output_position_mapping (bench true) bench_state
            (bench_piece DT_DEV_PIXELPIPE_FULL) (red_clipped 9) blank
            (roi_at 0 0 9 9) (roi_at 1 1 7 7) true A B) as (_ & M & _).
apply (M false true blank (roi_at 0 0 9 9) r r' 3 2 A eq_refl eq_refl Hp Hp');
  try (cbn; lia).
unfold inside_input; cbn; lia.
Defined.

(** ** The correction cache *)

Lemma publish_eq `{Externals} (piece : dt_dev_pixelpipe_iop_t)
      (chrominance : dt_aligned_pixel_t) (st : chroma_state) :
  publish piece chrominance st
  = {| d_chroma_correction :=
         mkpixel (pget chrominance 0) (pget chrominance 1) (pget chrominance 2)
                 (_color_magic piece);
       p_chroma_correction :=
         mkpixel (pget chrominance 0) (pget chrominance 1) (pget chrominance 2)
                 (_color_magic piece);
       history_items := Datatypes.S (history_items st) |}.
Proof.
unfold publish, for_each. change (Z.to_nat (3 - 0)) with 3%nat. cbn [iter_range].
destruct (d_chroma_correction st), (p_chroma_correction st). reflexivity.
Qed.

Lemma publish_changes `{Externals} (piece : dt_dev_pixelpipe_iop_t)
      (chrominance : dt_aligned_pixel_t) (st : chroma_state) :
  publish piece chrominance st <> st.
Proof.
rewrite publish_eq. intros E.
apply (f_equal history_items) in E. cbn [history_items] in E. lia.
Qed.

(** C6. Whenever estimation does not run (the recomputed tag equals the
    stored tag within 1e-6, or quality is false, or the scratch mask cannot be
    allocated) both variants are defined, none of the mask-build, dilation
    and accumulation passes runs, nothing is published, the reconstruction
    uses the stored triple verbatim and the chrominance state is left as it
    was. *)
Theorem estimation_skipped_keeps_stored `{Externals}
        (st : chroma_state) (piece : dt_dev_pixelpipe_iop_t) (input output : buffer)
        (roi_in roi_out : dt_iop_roi_t) (keep quality : bool) :
  feqf (_color_magic piece) (pget (d_chroma_correction st) 3) c1e_6 = true
  \/ quality = false
  \/ dt_calloc_align_succeeds (6 * msize_of roi_in) = false ->
  (exists r,
      _process_opposed st piece input output roi_in roi_out keep quality = Some r /\
      ~ In MaskBuild (out_trace r) /\ ~ In Dilate (out_trace r) /\
      ~ In ChromaAccumulate (out_trace r) /\ ~ In Publish (out_trace r) /\
      out_chrominance r
      = mkpixel (pget (d_chroma_correction st) 0) (pget (d_chroma_correction st) 1)
                (pget (d_chroma_correction st) 2) zero /\
      out_buffer r
      = opposed_reconstruct piece input (out_tmpout r) roi_in roi_out (clips_of piece)
                            (stored_chrominance st) output /\
      out_state r = st) /\
  (exists r,
      _process_linear_opposed st piece input output roi_in roi_out quality = Some r /\
      ~ In MaskBuild (out_trace r) /\ ~ In Dilate (out_trace r) /\
      ~ In ChromaAccumulate (out_trace r) /\ ~ In Publish (out_trace r) /\
      out_chrominance r
      = mkpixel (pget (d_chroma_correction st) 0) (pget (d_chroma_correction st) 1)
                (pget (d_chroma_correction st) 2) zero /\
      out_buffer r
      = linear_reconstruct input roi_in roi_out (clips_of piece)
                           (stored_chrominance st) output /\
      out_state r = st).
Proof.
intros Hskip.
assert (Hrun : estimation_runs piece roi_in quality st = false).
{ unfold estimation_runs. destruct Hskip as [-> | [-> | ->]].
  - reflexivity.
  - apply andb_false_iff. left. apply andb_false_r.
  - apply andb_false_r. }
split.
- unfold _process_opposed.
  rewrite (opposed_estimate_skip piece input roi_in quality st Hrun). cbn [bind].
  eexists. split; [reflexivity|].
  cbn [out_trace out_chrominance out_buffer out_state out_tmpout].
  destruct keep; [destruct (dt_alloc_align_float _)|]; cbn [app In];
    repeat split; try reflexivity; intuition (try discriminate).
- unfold _process_linear_opposed.
  rewrite (linear_estimate_skip piece input roi_in roi_out quality st Hrun). cbn [bind].
  eexists. split; [reflexivity|].
  cbn [out_trace out_chrominance out_buffer out_state out_tmpout app In].
  repeat split; try reflexivity; intuition (try discriminate).
Qed.

Lemma estimation_skipped_keeps_stored_witness :
  @dt_calloc_align_succeeds (bench false) (6 * msize_of (roi_at 0 0 9 9)) = false /\
  state_after (@_process_opposed (bench false) bench_state
                 (bench_piece DT_DEV_PIXELPIPE_FULL) (red_clipped 9) blank
                 (roi_at 0 0 9 9) (roi_at 0 0 9 9) false true) = Some bench_state.
Proof.
split; [reflexivity|].
destruct (@estimation_skipped_keeps_stored (bench false) bench_state
            (bench_piece DT_DEV_PIXELPIPE_FULL) (red_clipped 9) blank
            (roi_at 0 0 9 9) (roi_at 0 0 9 9) false true
            (or_intror (or_intror eq_refl)))
  as [[r (E & _ & _ & _ & _ & _ & _ & Es)] _].
rewrite E. cbn [state_after option_map]. rewrite Es. reflexivity.
Defined.

(** C8. The chrominance state on the processor instance and the parameter
    sink are written exactly when estimation ran, the frame is the full
    pipeline, the image is flagged as edited and, in the sraw variant only,
    the output dimensions after inverse scaling are within 10 photosites of
    the source image in each axis: both then hold the triple just computed
    and the new tag, and a history item is posted. When one of the conditions
    fails the state is the one the call started with. Both variants are
    defined on every frame of at least 3 x 3 coarse cells. *)
Theorem chroma_state_written_iff_published `{Externals}
        (st : chroma_state) (piece : dt_dev_pixelpipe_iop_t) (input output : buffer)
        (roi_in roi_out : dt_iop_roi_t) (quality : bool) :
  (forall keep r,
      _process_opposed st piece input output roi_in roi_out keep quality = Some r ->
      let written :=
        estimation_runs piece roi_in quality st
        && (is_full (pipe_type piece) && dt_image_altered (image_id piece)) in
      let fresh :=
        mkpixel (pget (out_chrominance r) 0) (pget (out_chrominance r) 1)
                (pget (out_chrominance r) 2) (_color_magic piece) in
      (written = true ->
       out_state r = {| d_chroma_correction := fresh;
                        p_chroma_correction := fresh;
                        history_items := Datatypes.S (history_items st) |} /\
       In Publish (out_trace r)) /\
      (written = false -> out_state r = st /\ ~ In Publish (out_trace r)) /\
      (out_state r <> st <-> written = true)) /\
  (forall r,
      _process_linear_opposed st piece input output roi_in roi_out quality = Some r ->
      let written :=
        estimation_runs piece roi_in quality st
        && (is_full (pipe_type piece)
            && (Z.abs (to_int (fdiv (of_Z (roi_width roi_out)) (roi_scale roi_out))
                       - buf_in_width piece) <? 10)
            && (Z.abs (to_int (fdiv (of_Z (roi_height roi_out)) (roi_scale roi_out))
                       - buf_in_height piece) <? 10)
            && dt_image_altered (image_id piece)) in
      let fresh :=
        mkpixel (pget (out_chrominance r) 0) (pget (out_chrominance r) 1)
                (pget (out_chrominance r) 2) (_color_magic piece) in
      (written = true ->
       out_state r = {| d_chroma_correction := fresh;
                        p_chroma_correction := fresh;
                        history_items := Datatypes.S (history_items st) |} /\
       In Publish (out_trace r)) /\
      (written = false -> out_state r = st /\ ~ In Publish (out_trace r)) /\
      (out_state r <> st <-> written = true)) /\
  (frame_ok roi_in ->
   (forall keep,
       _process_opposed st piece input output roi_in roi_out keep quality <> None) /\
   _process_linear_opposed st piece input output roi_in roi_out quality <> None).
Proof.
assert (G : forall (o : outcome) (trace extra : list pass) (cond run : bool),
           ~ In Publish extra -> out_trace o = trace ++ extra ->
           (run = false -> out_state o = st /\ trace = []) ->
           (run = true ->
            (cond = true -> out_state o = publish piece (out_chrominance o) st
                            /\ In Publish trace) /\
            (cond = false -> out_state o = st /\ ~ In Publish trace)) ->
           let written := run && cond in
           let fresh :=
             mkpixel (pget (out_chrominance o) 0) (pget (out_chrominance o) 1)
                     (pget (out_chrominance o) 2) (_color_magic piece) in
           (written = true ->
            out_state o = {| d_chroma_correction := fresh;
                             p_chroma_correction := fresh;
                             history_items := Datatypes.S (history_items st) |} /\
            In Publish (out_trace o)) /\
           (written = false -> out_state o = st /\ ~ In Publish (out_trace o)) /\
           (out_state o <> st <-> written = true)).
{ intros o trace extra cond run Hextra Etr Hoff Hon. cbv zeta.
  assert (Hno : ~ In Publish trace -> ~ In Publish (out_trace o)).
  { intros N. rewrite Etr. intros I. apply in_app_or in I. tauto. }
  destruct run; cbn [andb].
  - destruct (Hon eq_refl) as [Ht Hf]. destruct cond.
    + destruct (Ht eq_refl) as [Es Ip].
      split; [intros _; split; [rewrite Es; apply publish_eq|
                                rewrite Etr; apply in_or_app; left; exact Ip]|].
      split; [discriminate|].
      split; [reflexivity|]. intros _. rewrite Es. apply publish_changes.
    + destruct (Hf eq_refl) as [Es Np].
      split; [discriminate|].
      split; [intros _; split; [exact Es|apply Hno; exact Np]|].
      split; [congruence|discriminate].
  - destruct (Hoff eq_refl) as [Es Et].
    split; [discriminate|].
    split; [intros _; split; [exact Es|apply Hno; rewrite Et; intros []]|].
    split; [congruence|discriminate]. }
split; [|split].
- intros keep r Hp.
  destruct (process_opposed_inv st piece input output roi_in roi_out keep quality r Hp)
    as (trace & tmp0 & E & _ & _ & _ & Etr).
  assert (Nx : ~ In Publish ((match tmp0 with Some _ => [FillTmpout] | None => [] end)
                             ++ [Reconstruct]))
    by (destruct tmp0; cbn [app In]; intuition (try discriminate)).
  apply (G r trace _ (opposed_publish_condition piece)
           (estimation_runs piece roi_in quality st) Nx Etr).
  + intros Hrun. rewrite (opposed_estimate_skip piece input roi_in quality st Hrun) in E.
    inversion E. auto.
  + intros Hrun.
    destruct (opposed_estimate_run piece input roi_in quality st _ _ _ Hrun E)
      as (_ & Ht & Hf). auto.
- intros r Hp.
  destruct (process_linear_inv st piece input output roi_in roi_out quality r Hp)
    as (trace & E & _ & Etr).
  assert (Nx : ~ In Publish [Reconstruct])
    by (cbn [In]; intuition (try discriminate)).
  apply (G r trace _ (linear_publish_condition piece roi_out)
           (estimation_runs piece roi_in quality st) Nx Etr).
  + intros Hrun.
    rewrite (linear_estimate_skip piece input roi_in roi_out quality st Hrun) in E.
    inversion E. auto.
  + intros Hrun.
    destruct (linear_estimate_run piece input roi_in roi_out quality st _ _ _ Hrun E)
      as (_ & Ht & Hf). auto.
- intros Hf. split.
  + intros keep.
    destruct (process_opposed_returns st piece input output roi_in roi_out keep quality Hf)
      as [r ->]. discriminate.
  + destruct (process_linear_returns st piece input output roi_in roi_out quality Hf)
      as [r ->]. discriminate.
Qed.

Lemma chroma_state_written_iff_published_witness :
  exists r,
    @_process_opposed (bench true) bench_state (bench_piece DT_DEV_PIXELPIPE_FULL)
                      (red_clipped 9) blank (roi_at 0 0 9 9) (roi_at 0 0 9 9)
                      false true = Some r /\
    out_state r <> bench_state /\ In Publish (out_trace r).
Proof.
destruct (@chroma_state_written_iff_published (bench true) bench_state
            (bench_piece DT_DEV_PIXELPIPE_FULL) (red_clipped 9) blank
            (roi_at 0 0 9 9) (roi_at 0 0 9 9) true) as (M & _ & R).
assert (F : frame_ok (roi_at 0 0 9 9)) by (unfold frame_ok; cbn; lia).
destruct (@_process_opposed (bench true) bench_state (bench_piece DT_DEV_PIXELPIPE_FULL)
            (red_clipped 9) blank (roi_at 0 0 9 9) (roi_at 0 0 9 9) false true)
  as [r|] eqn:E; [|exfalso; exact (proj1 (R F) false E)].
exists r. split; [reflexivity|].
destruct (M false r E) as (W & _ & C).
split; [apply C; reflexivity|apply W; reflexivity].
Defined.

(** ** Frames under one coarse cell *)

Lemma reconstructed_value_tiny `{Externals} (piece : dt_dev_pixelpipe_iop_t)
      (input : buffer) (roi_in : dt_iop_roi_t) (clips chrominance : dt_aligned_pixel_t)
      (irow icol : Z) :
  roi_width roi_in < 3 \/ roi_height roi_in < 3 ->
  reconstructed_value piece input roi_in clips chrominance irow icol
  = fmaxf zero (input (irow * roi_width roi_in + icol)).
Proof.
intros Htiny. unfold reconstructed_value.
assert (B : (0 <? irow) && (irow <? roi_height roi_in - 1)
            && (0 <? icol) && (icol <? roi_width roi_in - 1) = false).
{ destruct (Z.ltb_spec 0 irow), (Z.ltb_spec irow (roi_height roi_in - 1)),
           (Z.ltb_spec 0 icol), (Z.ltb_spec icol (roi_width roi_in - 1));
    cbn [andb]; try reflexivity; lia. }
rewrite <- !andb_assoc. rewrite <- !andb_assoc in B.
rewrite B, andb_false_r. reflexivity.
Qed.

(** C9 (as amended). On every non-empty frame with W < 3 or H < 3 the
    mosaic variant is defined and emits a pass-through copy: each output
    photosite mapped into the input region equals its clamped input, the
    others are zero. The triple used is the stored one and the values of the
    stored triple are kept, in both variants. The chrominance state is not
    left untouched, though: when estimation runs, the frame is the full
    pipeline and the image is edited (and, in the sraw variant, the
    dimensions match), the stored tag is overwritten with the current tag,
    the parameter sink receives the triple and the tag, and a history item is
    posted; otherwise the state is the one the call started with. *)
Theorem tiny_frame_passes_through `{Externals}
        (st : chroma_state) (piece : dt_dev_pixelpipe_iop_t) (input output : buffer)
        (roi_in roi_out : dt_iop_roi_t) (quality : bool) :
  roi_ok roi_in -> roi_ok roi_out -> frame_nonempty roi_in ->
  roi_width roi_in < 3 \/ roi_height roi_in < 3 ->
  (forall keep,
      exists r,
        _process_opposed st piece input output roi_in roi_out keep quality = Some r /\
        (forall row col,
            0 <= row < roi_height roi_out -> 0 <= col < roi_width roi_out ->
            (inside_input roi_in (row + roi_y roi_out) (col + roi_x roi_out) ->
             out_buffer r (row * roi_width roi_out + col)
             = fmaxf zero (input ((row + roi_y roi_out) * roi_width roi_in
                                  + (col + roi_x roi_out)))) /\
            (~ inside_input roi_in (row + roi_y roi_out) (col + roi_x roi_out) ->
             out_buffer r (row * roi_width roi_out + col) = zero)) /\
        out_chrominance r = stored_chrominance st /\
        (forall c, 0 <= c <= 2 ->
                   pget (d_chroma_correction (out_state r)) c
                   = pget (d_chroma_correction st) c) /\
        let written :=
          estimation_runs piece roi_in quality st
          && (is_full (pipe_type piece) && dt_image_altered (image_id piece)) in
        (written = true ->
         pget (d_chroma_correction (out_state r)) 3 = _color_magic piece /\
         p_chroma_correction (out_state r)
         = mkpixel (pget (d_chroma_correction st) 0) (pget (d_chroma_correction st) 1)
                   (pget (d_chroma_correction st) 2) (_color_magic piece) /\
         history_items (out_state r) = Datatypes.S (history_items st)) /\
        (written = false -> out_state r = st)) /\
  (exists r,
      _process_linear_opposed st piece input output roi_in roi_out quality = Some r /\
      out_chrominance r = stored_chrominance st /\
      (forall c, 0 <= c <= 2 ->
                 pget (d_chroma_correction (out_state r)) c
                 = pget (d_chroma_correction st) c) /\
      let written :=
        estimation_runs piece roi_in quality st
        && linear_publish_condition piece roi_out in
      (written = true ->
       pget (d_chroma_correction (out_state r)) 3 = _color_magic piece /\
       p_chroma_correction (out_state r)
       = mkpixel (pget (d_chroma_correction st) 0) (pget (d_chroma_correction st) 1)
                 (pget (d_chroma_correction st) 2) (_color_magic piece) /\
       history_items (out_state r) = Datatypes.S (history_items st)) /\
      (written = false -> out_state r = st)).
Proof.
intros Hin Hout Hne Htiny.
assert (S1 : forall (cond : bool) c, 0 <= c <= 2 ->
           pget (d_chroma_correction
                   (if cond then publish piece (stored_chrominance st) st else st)) c
           = pget (d_chroma_correction st) c).
{ intros cond c Hc. destruct cond; [|reflexivity].
  rewrite publish_eq. cbn [d_chroma_correction].
  assert (Kc : c = 0 \/ c = 1 \/ c = 2) by lia.
  destruct Kc as [-> | [-> | ->]]; reflexivity. }
assert (S2 : forall (cond : bool),
           (cond = true ->
            pget (d_chroma_correction
                    (if cond then publish piece (stored_chrominance st) st else st)) 3
            = _color_magic piece /\
            p_chroma_correction
              (if cond then publish piece (stored_chrominance st) st else st)
            = mkpixel (pget (d_chroma_correction st) 0) (pget (d_chroma_correction st) 1)
                      (pget (d_chroma_correction st) 2) (_color_magic piece) /\
            history_items (if cond then publish piece (stored_chrominance st) st else st)
            = Datatypes.S (history_items st)) /\
           (cond = false ->
            (if cond then publish piece (stored_chrominance st) st else st) = st)).
{ intros cond. split; intros ->; [|reflexivity].
  rewrite publish_eq. repeat split; reflexivity. }
split.
- intros keep.
  destruct (_process_opposed st piece input output roi_in roi_out keep quality)
    as [r|] eqn:Hp.
  + exists r. split; [reflexivity|].
    destruct (process_opposed_inv st piece input output roi_in roi_out keep quality r Hp)
      as (trace & tmp0 & E & _).
    rewrite (opposed_estimate_tiny piece input roi_in quality st Hne Htiny) in E.
    inversion E as [[Ec Es Et]]. clear E.
    split; [|split; [reflexivity|split; [apply S1|apply S2]]].
    intros row col Hr Hc. split; intros Hi.
    * rewrite (process_opposed_inside st piece input output roi_in roi_out Hin Hout
                                      keep quality r row col Hp Hr Hc Hi).
      apply reconstructed_value_tiny. exact Htiny.
    * apply (process_opposed_outside st piece input output roi_in roi_out Hin Hout
                                     keep quality); assumption.
  + exfalso. unfold _process_opposed in Hp.
    rewrite (opposed_estimate_tiny piece input roi_in quality st Hne Htiny) in Hp.
    discriminate.
- unfold _process_linear_opposed.
  rewrite (linear_estimate_tiny piece input roi_in roi_out quality st Hne Htiny).
  cbn [bind]. eexists. split; [reflexivity|].
  cbn [out_chrominance out_state].
  split; [reflexivity|split; [apply S1|apply S2]].
Qed.

(** C9, counterexample to the claim as stated: on a 2 x 2 mosaic frame of
    the full pipeline, with an edited image and a stored tag (0) that differs
    from the current one (0.5), the call overwrites the stored tag, writes
    the parameter sink and posts a history item. In the sraw variant a 2 x 2
    frame is not even passed through: the first channel of its first pixel
    holds 1.0 and comes out as 2.0. *)
Lemma tiny_frame_writes_tag :
  state_after (@_process_opposed (bench true) bench_state
                 (bench_piece DT_DEV_PIXELPIPE_FULL) (red_clipped 2) blank
                 (roi_at 0 0 2 2) (roi_at 0 0 2 2) false true)
  = Some {| d_chroma_correction := mkpixel zero zero zero half;
            p_chroma_correction := mkpixel zero zero zero half;
            history_items := 1 |} /\
  pget (d_chroma_correction bench_state) 3 = zero /\
  half <> zero /\
  output_at (@_process_linear_opposed (bench true) bench_state
               (bench_piece DT_DEV_PIXELPIPE_FULL) sraw_bright blank
               (roi_at 0 0 2 2) (roi_at 0 0 2 2) true) 0 = Some two /\
  fmaxf zero (sraw_bright 0) = one /\
  two <> one.
Proof.
split; [vm_compute; reflexivity|].
split; [reflexivity|].
split; [discriminate|].
split; [vm_compute; reflexivity|].
split; [vm_compute; reflexivity|discriminate].
Qed.

Lemma tiny_frame_passes_through_witness :
  roi_ok (roi_at 0 0 2 2) /\ frame_nonempty (roi_at 0 0 2 2) /\
  (roi_width (roi_at 0 0 2 2) < 3 \/ roi_height (roi_at 0 0 2 2) < 3) /\
  exists r,
    @_process_opposed (bench true) bench_state (bench_piece DT_DEV_PIXELPIPE_FULL)
                      (red_clipped 2) blank (roi_at 0 0 2 2) (roi_at 0 0 2 2)
                      false true = Some r /\
    out_buffer r (1 * 2 + 1) = quarter /\
    pget (d_chroma_correction (out_state r)) 3 = half.
Proof.
assert (A : roi_ok (roi_at 0 0 2 2)) by (unfold roi_ok; cbn; lia).
assert (B : frame_nonempty (roi_at 0 0 2 2)) by (unfold frame_nonempty; cbn; lia).
assert (C : roi_width (roi_at 0 0 2 2) < 3 \/ roi_height (roi_at 0 0 2 2) < 3)
  by (left; cbn; lia).
split; [exact A|]. split; [exact B|]. split; [exact C|].
destruct (@tiny_frame_passes_through (bench true) bench_state
            (bench_piece DT_DEV_PIXELPIPE_FULL) (red_clipped 2) blank
            (roi_at 0 0 2 2) (roi_at 0 0 2 2) true A A B C) as [M _].
destruct (M false) as [r (E & O & _ & _ & W & _)].
exists r. split; [exact E|]. split.
- destruct (O 1 1) as [I _]; [cbn; lia|cbn; lia|].
  assert (J : inside_input (roi_at 0 0 2 2) (1 + roi_y (roi_at 0 0 2 2))
                           (1 + roi_x (roi_at 0 0 2 2)))
    by (unfold inside_input; cbn; lia).
  exact (I J).
- apply W. reflexivity.
Defined.

(** ** The footprint of the dilation *)

Section Footprint.

Lemma ring_offsets w :
  ring1 w ++ ring23 w = map (fun '(dr, dc) => dr * w + dc) footprint_cells.
Proof.
unfold ring1, ring23, footprint_cells. cbv zeta. cbn [app map].
repeat (apply f_equal2; [lia|]). reflexivity.
Qed.

Lemma in_footprint_cells dr dc : In (dr, dc) footprint_cells <-> in_footprint dr dc.
Proof.
split.
- unfold footprint_cells. cbn [In]. intros Hin.
  repeat (destruct Hin as [Hin|Hin];
          [inversion Hin; subst; unfold in_footprint; lia|]).
  contradiction.
- intros Hf.
  assert (Hr : dr = -3 \/ dr = -2 \/ dr = -1 \/ dr = 0 \/ dr = 1 \/ dr = 2 \/ dr = 3)
    by (unfold in_footprint in Hf; lia).
  assert (Hc : dc = -3 \/ dc = -2 \/ dc = -1 \/ dc = 0 \/ dc = 1 \/ dc = 2 \/ dc = 3)
    by (unfold in_footprint in Hf; lia).
  destruct Hr as [-> | [-> | [-> | [-> | [-> | [-> | ->]]]]]];
    destruct Hc as [-> | [-> | [-> | [-> | [-> | [-> | ->]]]]]];
    first [ solve [unfold footprint_cells; cbn [In];
                   repeat (first [left; reflexivity | right])]
          | exfalso; unfold in_footprint in Hf; lia ].
Qed.

(** The cells [_mask_dilated] reads around a cell are those of the
    footprint. *)
Lemma ring_offsets_footprint w o :
  In o (ring1 w ++ ring23 w) <->
  exists dr dc, in_footprint dr dc /\ o = dr * w + dc.
Proof.
rewrite ring_offsets, in_map_iff. split.
- intros [[dr dc] [E Hin]]. exists dr, dc. split; [|auto].
  apply in_footprint_cells. exact Hin.
- intros [dr [dc [Hf ->]]]. exists (dr, dc). split; [reflexivity|].
  apply in_footprint_cells. exact Hf.
Qed.

Lemma lor_values_one d p offsets :
  (forall i, d i = 0 \/ d i = 1) ->
  (lor_values d p offsets = 1 <-> exists o, In o offsets /\ d (p + o) = 1).
Proof.
intros Hb. induction offsets as [|o rest IH].
- cbn. split; [discriminate|intros [o [[] _]]].
- cbn [lor_values fold_right]. fold (lor_values d p rest).
  pose proof (lor_values_binary d p rest Hb) as Hl.
  split.
  + intros E. destruct (Hb (p + o)) as [E0|E1].
    * rewrite E0 in E. destruct Hl as [L|L]; rewrite L in E; [discriminate|].
      destruct (proj1 IH L) as [o' [Ho' Eo']]. exists o'. split; [right|]; assumption.
    * exists o. split; [left; reflexivity|exact E1].
  + intros [o' [[<-|Ho'] Eo']].
    * rewrite Eo'. destruct Hl as [-> | ->]; reflexivity.
    * assert (L : lor_values d p rest = 1) by (apply IH; exists o'; auto).
      rewrite L. destruct (Hb (p + o)) as [-> | ->]; reflexivity.
Qed.

(** On a mask, [_mask_dilated] returns 1 exactly when the cell or a cell of
    its footprint holds 1. *)
Lemma dilated_at_one d p w :
  (forall i, d i = 0 \/ d i = 1) ->
  (dilated_at d p w = 1 <->
   d p = 1 \/ exists o, In o (ring1 w ++ ring23 w) /\ d (p + o) = 1).
Proof.
intros Hb. unfold dilated_at.
pose proof (lor_values_one d p (ring1 w) Hb) as L1.
pose proof (lor_values_one d p (ring23 w) Hb) as L2.
destruct (Hb p) as [E0|E1].
- rewrite E0. cbn [Z.eqb negb].
  destruct (lor_values_binary d p (ring1 w) Hb) as [R0|R1].
  + rewrite R0. cbn [Z.eqb negb]. rewrite L2. split.
    * intros [o [Ho Eo]]. right. exists o. split; [apply in_or_app; right|]; assumption.
    * intros [C|[o [Ho Eo]]]; [discriminate|].
      apply in_app_or in Ho. destruct Ho as [Ho|Ho]; [|exists o; auto].
      assert (X : lor_values d p (ring1 w) = 1) by (apply L1; exists o; auto).
      congruence.
  + rewrite R1. cbn [Z.eqb negb]. split; [|reflexivity].
    intros _. right. destruct (proj1 L1 R1) as [o [Ho Eo]].
    exists o. split; [apply in_or_app; left|]; assumption.
- rewrite E1. cbn [Z.eqb negb]. split; [left|]; reflexivity.
Qed.

End Footprint.

(** ** The masks of a call *)

Section Masks.

Context `{Externals}.

Variables (piece : dt_dev_pixelpipe_iop_t) (input : buffer) (roi_in : dt_iop_roi_t).
Hypothesis Hframe : frame_ok roi_in.

Local Abbreviation msize := (msize_of roi_in).
Local Abbreviation mwidth := (mwidth_of roi_in).
Local Abbreviation mheight := (mheight_of roi_in).

Lemma grid_index_inj r c r' c' :
  0 <= c < mwidth -> 0 <= c' < mwidth ->
  r * mwidth + c = r' * mwidth + c' -> r = r' /\ c = c'.
Proof.
intros Hc Hc' E.
assert (Er : r = r').
{ rewrite <- (index_div r c mwidth Hc), <- (index_div r' c' mwidth Hc'), E. reflexivity. }
subst r'. split; [reflexivity|lia].
Qed.

(** What the mask block holds once the mask-build pass and the dilation
    pass of the mosaic variant are through. *)
Lemma opposed_dilated_mask_spec :
  exists m,
    opposed_dilated_mask piece input roi_in = Some m /\
    mask_block msize m /\
    (forall k r c,
        0 <= k <= 2 -> interior_cell mwidth mheight r c ->
        (dilated_cell msize mwidth m k r c = 1 <->
         raw_cell msize mwidth m k r c = 1 \/
         exists dr dc, in_footprint dr dc /\
                       raw_cell msize mwidth m k (r + dr) (c + dc) = 1)) /\
    (forall k r c,
        0 <= k <= 2 -> 0 <= r < mheight -> 0 <= c < mwidth ->
        ~ interior_cell mwidth mheight r c ->
        dilated_cell msize mwidth m k r c = 0).
Proof.
destruct Hframe as [Hw Hh].
assert (Hne : frame_nonempty roi_in) by (unfold frame_nonempty; lia).
pose proof (msize_of_bounds roi_in Hne) as Hms.
pose proof (mwidth_of_range roi_in Hne) as Rw.
pose proof (mheight_of_range roi_in Hne) as Rh.
assert (Mw : 3 <= mwidth)
  by (rewrite (mwidth_of_eq roi_in Hne); apply Z.div_le_lower_bound; lia).
assert (Mh : 3 <= mheight)
  by (rewrite (mheight_of_eq roi_in Hne); apply Z.div_le_lower_bound; lia).
assert (Hgrid : mwidth * mheight <= msize) by nia.
unfold opposed_dilated_mask. cbv zeta.
destruct (opposed_mask_pass_ok piece input roi_in (clips_of piece) Hne
            (zero_block (6 * msize)))
  as [m1 [any [E1 [Q1 [Z1 A1]]]]];
  [apply zero_block_mask|intros i _; reflexivity|].
rewrite E1. cbn [bind].
destruct any.
- destruct (dilate_pass_ok msize mwidth mheight
              ltac:(lia) ltac:(lia) ltac:(lia) Hgrid ltac:(lia) m1 (proj1 Q1))
    as [m2 [E2 (Hs & Hhit & Hmiss & Q2)]].
  exists m2. split; [exact E2|]. split; [exact (Q2 Q1)|].
  assert (Raw : forall i, i < 3 * msize -> blk_data m2 i = blk_data m1 i).
  { intros i Hi. apply Hmiss. intros k r c Hk [Hr Hc]. nia. }
  split.
  + intros k r c Hk [Hr Hc].
    rewrite (Hhit k r c Hk (conj Hr Hc)).
    rewrite (dilated_at_one _ _ _ (proj2 Q1)).
    unfold raw_cell.
    rewrite (Raw (k * msize + r * mwidth + c)) by nia.
    apply or_iff_compat_l. split.
    * intros [o [Ho Eo]].
      apply ring_offsets_footprint in Ho. destruct Ho as [dr [dc [Hf ->]]].
      exists dr, dc. split; [exact Hf|].
      assert (Bd : -3 <= dr <= 3 /\ -3 <= dc <= 3) by (unfold in_footprint in Hf; lia).
      rewrite Raw by nia.
      replace (k * msize + (r + dr) * mwidth + (c + dc))
        with (k * msize + r * mwidth + c + (dr * mwidth + dc)) by lia.
      exact Eo.
    * intros [dr [dc [Hf Eo]]].
      assert (Bd : -3 <= dr <= 3 /\ -3 <= dc <= 3) by (unfold in_footprint in Hf; lia).
      exists (dr * mwidth + dc). split.
      { apply ring_offsets_footprint. exists dr, dc. auto. }
      rewrite Raw in Eo by nia.
      replace (k * msize + r * mwidth + c + (dr * mwidth + dc))
        with (k * msize + (r + dr) * mwidth + (c + dc)) by lia.
      exact Eo.
  + intros k r c Hk Hr Hc Hno. unfold dilated_cell.
    rewrite Hmiss.
    * apply Z1. nia.
    * intros k' r' c' Hk' [Hr' Hc'] E. apply Hno.
      destruct (plane_index_inj msize k (r * mwidth + c) k' (r' * mwidth + c'))
        as [_ Ea]; [lia|lia|nia|nia|lia|].
      destruct (grid_index_inj r c r' c') as [-> ->]; [lia|lia|exact Ea|].
      split; assumption.
- exists m1. split; [reflexivity|]. split; [exact Q1|].
  assert (Zero : forall i, blk_data m1 i = 0) by (intros i; rewrite A1; reflexivity).
  split.
  + intros k r c _ _. unfold dilated_cell, raw_cell. rewrite !Zero.
    split; [discriminate|].
    intros [C|[dr [dc [_ C]]]]; [discriminate|]. rewrite Zero in C. discriminate.
  + intros k r c _ _ _ _. apply Zero.
Qed.

End Masks.

(** C3 (as amended). Once the mask-build pass and the dilation pass have
    run on a frame of at least 3 x 3 coarse cells, for every primary and every
    coarse cell at least 3 cells from every border of the coarse grid, a raw
    mask of 1 at the cell gives a dilated mask of 1 at the cell. The cells
    within 3 cells of the border are never written by the dilation: their
    dilated mask is 0, whatever their raw mask. *)
Theorem dilated_mask_superset_inside `{Externals}
        (piece : dt_dev_pixelpipe_iop_t) (input : buffer) (roi_in : dt_iop_roi_t) :
  frame_ok roi_in ->
  exists m,
    opposed_dilated_mask piece input roi_in = Some m /\
    (forall k r c,
        0 <= k <= 2 ->
        interior_cell (mwidth_of roi_in) (mheight_of roi_in) r c ->
        raw_cell (msize_of roi_in) (mwidth_of roi_in) m k r c = 1 ->
        dilated_cell (msize_of roi_in) (mwidth_of roi_in) m k r c = 1) /\
    (forall k r c,
        0 <= k <= 2 ->
        0 <= r < mheight_of roi_in -> 0 <= c < mwidth_of roi_in ->
        ~ interior_cell (mwidth_of roi_in) (mheight_of roi_in) r c ->
        dilated_cell (msize_of roi_in) (mwidth_of roi_in) m k r c = 0).
Proof.
intros Hf.
destruct (opposed_dilated_mask_spec piece input roi_in Hf) as [m (E & _ & Hin & Hout)].
exists m. split; [exact E|]. split; [|exact Hout].
intros k r c Hk Hi Hraw. apply (Hin k r c Hk Hi). left. exact Hraw.
Qed.

(** C3, counterexample to the claim as stated: on a 9 x 9 frame with every
    red photosite clipped, the raw mask of red is 1 at the coarse cell (0, 0),
    a cell of the 3 x 3 coarse grid, and the dilated mask of red is 0 there. *)
Lemma dilated_mask_misses_border_cell :
  option_map
    (fun m => (raw_cell (msize_of (roi_at 0 0 9 9)) (mwidth_of (roi_at 0 0 9 9)) m 0 0 0,
               dilated_cell (msize_of (roi_at 0 0 9 9)) (mwidth_of (roi_at 0 0 9 9)) m 0 0 0))
    (@opposed_dilated_mask (bench true) (bench_piece DT_DEV_PIXELPIPE_FULL)
                           (red_clipped 9) (roi_at 0 0 9 9))
  = Some (1, 0) /\
  0 <= 0 < mheight_of (roi_at 0 0 9 9) /\ 0 <= 0 < mwidth_of (roi_at 0 0 9 9).
Proof.
split; [vm_compute; reflexivity|]. split; cbn; lia.
Qed.

Lemma dilated_mask_superset_inside_witness :
  frame_ok (roi_at 0 0 21 21) /\
  option_map
    (fun m => (raw_cell (msize_of (roi_at 0 0 21 21)) (mwidth_of (roi_at 0 0 21 21)) m 0 3 3,
               dilated_cell (msize_of (roi_at 0 0 21 21)) (mwidth_of (roi_at 0 0 21 21))
                            m 0 3 3))
    (@opposed_dilated_mask (bench true) (bench_piece DT_DEV_PIXELPIPE_FULL)
                           (red_clipped 21) (roi_at 0 0 21 21))
  = Some (1, 1).
Proof.
assert (F : frame_ok (roi_at 0 0 21 21)) by (unfold frame_ok; cbn; lia).
split; [exact F|].
destruct (@dilated_mask_superset_inside (bench true) (bench_piece DT_DEV_PIXELPIPE_FULL)
            (red_clipped 21) (roi_at 0 0 21 21) F) as [m (E & Hin & _)].
assert (R : option_map
              (fun m => raw_cell (msize_of (roi_at 0 0 21 21))
                                 (mwidth_of (roi_at 0 0 21 21)) m 0 3 3)
              (@opposed_dilated_mask (bench true) (bench_piece DT_DEV_PIXELPIPE_FULL)
                                     (red_clipped 21) (roi_at 0 0 21 21)) = Some 1)
  by (vm_compute; reflexivity).
rewrite E in *. cbn [option_map] in *. inversion R as [R'].
rewrite R'. rewrite (Hin 0 3 3); [reflexivity|lia| |exact R'].
unfold interior_cell. cbn. lia.
Defined.

(** C7 (as amended). Once the mask-build pass and the dilation pass have
    run on a frame of at least 3 x 3 coarse cells, a dilated-mask cell at
    least 3 cells from every border of the coarse grid is 1 if and only if
    the raw mask of the same primary is 1 at that cell or at an offset of the
    footprint: the 8-neighbourhood plus every offset with |drow| <= 3,
    |dcol| <= 3 and max(|drow|, |dcol|) in {2, 3} except the four corners
    (+-3, +-3). A cell within 3 cells of the border does not retain its raw
    value in the dilated mask: it is 0 there. *)
Theorem dilated_mask_footprint `{Externals}
        (piece : dt_dev_pixelpipe_iop_t) (input : buffer) (roi_in : dt_iop_roi_t) :
  frame_ok roi_in ->
  exists m,
    opposed_dilated_mask piece input roi_in = Some m /\
    (forall k r c,
        0 <= k <= 2 ->
        interior_cell (mwidth_of roi_in) (mheight_of roi_in) r c ->
        (dilated_cell (msize_of roi_in) (mwidth_of roi_in) m k r c = 1 <->
         raw_cell (msize_of roi_in) (mwidth_of roi_in) m k r c = 1 \/
         exists dr dc,
           in_footprint dr dc /\
           raw_cell (msize_of roi_in) (mwidth_of roi_in) m k (r + dr) (c + dc) = 1)) /\
    (forall k r c,
        0 <= k <= 2 -> interior_cell (mwidth_of roi_in) (mheight_of roi_in) r c ->
        dilated_cell (msize_of roi_in) (mwidth_of roi_in) m k r c = 0 \/
        dilated_cell (msize_of roi_in) (mwidth_of roi_in) m k r c = 1) /\
    (forall k r c,
        0 <= k <= 2 ->
        0 <= r < mheight_of roi_in -> 0 <= c < mwidth_of roi_in ->
        ~ interior_cell (mwidth_of roi_in) (mheight_of roi_in) r c ->
        dilated_cell (msize_of roi_in) (mwidth_of roi_in) m k r c = 0).
Proof.
intros Hf.
destruct (opposed_dilated_mask_spec piece input roi_in Hf) as [m (E & Q & Hin & Hout)].
exists m. split; [exact E|]. split; [exact Hin|]. split; [|exact Hout].
intros k r c _ _. apply (proj2 Q).
Qed.

(** C7, counterexample to the claim as stated: on a 12 x 12 frame with every
    red photosite clipped, the coarse cell (1, 2) of the 4 x 4 coarse grid is
    within 3 cells of the border; its raw mask of red is 1 and its dilated
    mask of red is 0, not the raw value. *)
Lemma border_cell_loses_raw_value :
  option_map
    (fun m => (raw_cell (msize_of (roi_at 0 0 12 12)) (mwidth_of (roi_at 0 0 12 12)) m 0 1 2,
               dilated_cell (msize_of (roi_at 0 0 12 12)) (mwidth_of (roi_at 0 0 12 12))
                            m 0 1 2))
    (@opposed_dilated_mask (bench true) (bench_piece DT_DEV_PIXELPIPE_FULL)
                           (red_clipped 12) (roi_at 0 0 12 12))
  = Some (1, 0) /\
  ~ interior_cell (mwidth_of (roi_at 0 0 12 12)) (mheight_of (roi_at 0 0 12 12)) 1 2.
Proof.
split; [vm_compute; reflexivity|]. unfold interior_cell. cbn. lia.
Qed.

Lemma dilated_mask_footprint_witness :
  frame_ok (roi_at 0 0 21 21) /\
  exists m,
    @opposed_dilated_mask (bench true) (bench_piece DT_DEV_PIXELPIPE_FULL)
                          (single (10 * 21 + 6) one) (roi_at 0 0 21 21) = Some m /\
    dilated_cell (msize_of (roi_at 0 0 21 21)) (mwidth_of (roi_at 0 0 21 21)) m 0 3 3 = 1.
Proof.
assert (F : frame_ok (roi_at 0 0 21 21)) by (unfold frame_ok; cbn; lia).
split; [exact F|].
destruct (@dilated_mask_footprint (bench true) (bench_piece DT_DEV_PIXELPIPE_FULL)
            (single (10 * 21 + 6) one) (roi_at 0 0 21 21) F) as [m (E & Hin & _)].
exists m. split; [exact E|].
assert (R : option_map
              (fun m => raw_cell (msize_of (roi_at 0 0 21 21))
                                 (mwidth_of (roi_at 0 0 21 21)) m 0 (3 + 0) (3 + -1))
              (@opposed_dilated_mask (bench true) (bench_piece DT_DEV_PIXELPIPE_FULL)
                                     (single (10 * 21 + 6) one) (roi_at 0 0 21 21)) = Some 1)
  by (vm_compute; reflexivity).
rewrite E in R. cbn [option_map] in R. injection R as R'.
assert (I3 : interior_cell (mwidth_of (roi_at 0 0 21 21))
                           (mheight_of (roi_at 0 0 21 21)) 3 3)
  by (unfold interior_cell; cbn; lia).
apply (proj2 (Hin 0 3 3 ltac:(lia) I3)).
right. exists 0, (-1). split; [unfold in_footprint; lia|exact R'].
Defined.




(** ** The dilation loops on a coarse grid under 3 columns *)

Section FailingLoops.

Context {S : Type}.

(** A loop over states that keep [Q] fails when one of its iterations fails
    on every state with [Q]. *)
Lemma for_range_fails_at (Q : S -> Prop) (body : Z -> S -> option S) (k : nat) :
  forall n i s,
    Q s -> (k < n)%nat ->
    (forall j t t', Q t -> body j t = Some t' -> Q t') ->
    (forall t, Q t -> body (i + Z.of_nat k) t = None) ->
    for_range n i body s = None.
Proof.
induction k as [|k IH]; intros n i s Hq Hk Hpres Hfail.
- destruct n as [|n]; [lia|]. cbn [for_range].
  replace (i + Z.of_nat 0) with i in Hfail by lia.
  rewrite (Hfail s Hq). reflexivity.
- destruct n as [|n]; [lia|]. cbn [for_range].
  destruct (body i s) as [s'|] eqn:E; [|reflexivity].
  apply IH; [exact (Hpres i s s' Hq E)|lia|exact Hpres|].
  intros t Ht. replace (i + 1 + Z.of_nat k) with (i + Z.of_nat (Datatypes.S k)) by lia.
  apply Hfail. exact Ht.
Qed.

Lemma for_loop_fails_at (Q : S -> Prop) lo hi j (body : Z -> S -> option S) s :
  Q s -> lo <= j < hi ->
  (forall i t t', Q t -> body i t = Some t' -> Q t') ->
  (forall t, Q t -> body j t = None) ->
  for_loop lo hi body s = None.
Proof.
intros Hq Hj Hpres Hfail. unfold for_loop.
apply (for_range_fails_at Q body (Z.to_nat (j - lo))); auto; [lia|].
intros t Ht. replace (lo + Z.of_nat (Z.to_nat (j - lo))) with j by lia.
apply Hfail. exact Ht.
Qed.

End FailingLoops.

Section Wrap.

Context `{Externals}.

Lemma store_size m i v m' : store m i v = Some m' -> blk_size m' = blk_size m.
Proof.
unfold store. destruct ((0 <=? i) && (i <? blk_size m)); [|discriminate].
intros E. inversion E. reflexivity.
Qed.

Lemma dilate_body_size msize mwidth row col m m' :
  dilate_body msize mwidth row col m = Some m' -> blk_size m' = blk_size m.
Proof.
unfold dilate_body. intros E.
destruct (_mask_dilated m _ mwidth) as [v0|]; [|discriminate]. cbn [bind] in E.
destruct (store m _ v0) as [m1|] eqn:S1; [|discriminate]. cbn [bind] in E.
destruct (_mask_dilated m1 _ mwidth) as [v1|]; [|discriminate]. cbn [bind] in E.
destruct (store m1 _ v1) as [m2|] eqn:S2; [|discriminate]. cbn [bind] in E.
destruct (_mask_dilated m2 _ mwidth) as [v2|]; [|discriminate]. cbn [bind] in E.
apply store_size in S1, S2, E. congruence.
Qed.

(** With fewer than 3 coarse columns [mwidth - 3] wraps around: the column
    loop runs on up to 2^64 and leaves the block. *)
Lemma dilate_row_wraps msize mwidth row m :
  0 <= msize < 2 ^ 61 -> 0 <= mwidth < 3 -> 0 <= row < 2 ^ 30 ->
  blk_size m = 6 * msize ->
  for_loop 3 (to_size_t (mwidth - 3)) (dilate_body msize mwidth row) m = None.
Proof.
intros Hms Hmw Hrow Hs.
rewrite to_size_t_neg by lia.
apply (for_loop_fails_at (fun t => blk_size t = 6 * msize) _ _ (6 * msize + 3)).
- exact Hs.
- lia.
- intros i t t' Ht E. rewrite (dilate_body_size _ _ _ _ _ _ E). exact Ht.
- intros t Ht. unfold dilate_body.
  rewrite to_size_t_small by nia.
  unfold _mask_dilated. rewrite load_outside by nia. reflexivity.
Qed.

Lemma dilate_pass_wraps msize mwidth mheight m :
  0 <= msize < 2 ^ 61 -> 0 <= mwidth < 3 ->
  0 <= mheight < 3 \/ 7 <= mheight < 2 ^ 30 ->
  blk_size m = 6 * msize ->
  dilate_pass msize mwidth mheight m = None.
Proof.
intros Hms Hmw Hmh Hs. unfold dilate_pass.
apply (for_loop_fails 0).
- destruct Hmh as [Hlo|Hhi];
    [rewrite to_size_t_neg by lia|rewrite to_size_t_small by lia]; lia.
- cbn [for_range bind]. replace (3 + Z.of_nat 0) with 3 by lia.
  apply dilate_row_wraps; auto. lia.
Qed.

End Wrap.

(** C10, what the code does instead. Whenever estimation runs on a frame
    with fewer than 3 coarse columns (W < 9) and fewer than 3 or at least 7
    coarse rows, and the mask-build pass has found a clipped photosite, the
    size_t subtraction [mwidth - 3] wraps around, the dilation loops run past
    the six mask planes, and the call of either variant is undefined. *)
Theorem dilation_wraps_on_narrow_frame `{Externals}
        (st : chroma_state) (piece : dt_dev_pixelpipe_iop_t) (input output : buffer)
        (roi_in roi_out : dt_iop_roi_t) (keep : bool) :
  frame_nonempty roi_in ->
  roi_width roi_in < 9 ->
  roi_height roi_in < 9 \/ 21 <= roi_height roi_in ->
  estimation_runs piece roi_in true st = true ->
  to_size_t (mwidth_of roi_in - 3) = 2 ^ 64 + roi_width roi_in / 3 - 3 /\
  (option_map snd
     (opposed_mask_pass piece input roi_in (clips_of piece) (msize_of roi_in)
                        (mwidth_of roi_in) (zero_block (6 * msize_of roi_in)))
   = Some true ->
   _process_opposed st piece input output roi_in roi_out keep true = None) /\
  (option_map snd
     (linear_mask_pass input roi_in (clips_of piece) (msize_of roi_in)
                       (mwidth_of roi_in) (zero_block (6 * msize_of roi_in)))
   = Some true ->
   _process_linear_opposed st piece input output roi_in roi_out true = None).
Proof.
intros Hne Hw Hh Hrun.
pose proof (msize_of_bounds roi_in Hne) as Hms.
pose proof (mwidth_of_range roi_in Hne) as Rw.
pose proof (mheight_of_range roi_in Hne) as Rh.
pose proof (mwidth_of_eq roi_in Hne) as Ew.
pose proof (mheight_of_eq roi_in Hne) as Eh.
destruct Hne as [Hw1 Hh1].
assert (Mw : 0 <= mwidth_of roi_in < 3)
  by (split; [lia|rewrite Ew; apply Z.div_lt_upper_bound; lia]).
assert (Mh : 0 <= mheight_of roi_in < 3 \/ 7 <= mheight_of roi_in < 2 ^ 30).
{ destruct Hh as [Hh|Hh].
  - left. split; [lia|rewrite Eh; apply Z.div_lt_upper_bound; lia].
  - right. split; [rewrite Eh; apply Z.div_le_lower_bound; lia|lia]. }
assert (Ms : 0 <= msize_of roi_in < 2 ^ 61) by nia.
split; [rewrite to_size_t_neg by lia; lia|].
unfold estimation_runs in Hrun.
split; intros Hany.
- unfold _process_opposed, opposed_estimate, dt_calloc_align.
  destruct (feqf _ _ _); cbn [negb andb] in Hrun; [discriminate|].
  cbn [negb]. rewrite Hrun.
  destruct (opposed_mask_pass_ok piece input roi_in (clips_of piece)
              (conj Hw1 Hh1) (zero_block (6 * msize_of roi_in)))
    as [m [any [E1 [Q1 _]]]];
    [apply zero_block_mask|intros i _; reflexivity|].
  rewrite E1 in Hany |- *. cbn [option_map snd] in Hany.
  injection Hany as Ea. subst any. cbn [bind].
  rewrite (dilate_pass_wraps _ _ _ m Ms Mw Mh (proj1 Q1)). reflexivity.
- unfold _process_linear_opposed, linear_estimate, dt_calloc_align.
  destruct (feqf _ _ _); cbn [negb andb] in Hrun; [discriminate|].
  cbn [negb]. rewrite Hrun.
  destruct (linear_mask_pass_ok input roi_in (clips_of piece)
              (conj Hw1 Hh1) (zero_block (6 * msize_of roi_in)))
    as [m [any [E1 Q1]]]; [apply zero_block_mask|].
  rewrite E1 in Hany |- *. cbn [option_map snd] in Hany.
  injection Hany as Ea. subst any. cbn [bind].
  rewrite (dilate_pass_wraps _ _ _ m Ms Mw Mh (proj1 Q1)). reflexivity.
Qed.

(** The failing input of C10: a 6 x 6 frame (W >= 3, H >= 3, a coarse grid
    of 2 x 2 cells) with its red photosites clipped. *)
Lemma dilation_wraps_on_narrow_frame_witness :
  3 <= roi_width (roi_at 0 0 6 6) /\ 3 <= roi_height (roi_at 0 0 6 6) /\
  mheight_of (roi_at 0 0 6 6) <= 6 /\
  to_size_t (mheight_of (roi_at 0 0 6 6) - 3) = 2 ^ 64 - 1 /\
  @_process_opposed (bench true) bench_state (bench_piece DT_DEV_PIXELPIPE_FULL)
                    (red_clipped 6) blank (roi_at 0 0 6 6) (roi_at 0 0 6 6)
                    false true = None /\
  @_process_linear_opposed (bench true) bench_state (bench_piece DT_DEV_PIXELPIPE_FULL)
                           sraw_bright blank (roi_at 0 0 6 6) (roi_at 0 0 6 6)
                           true = None.
Proof.
split; [cbn; lia|]. split; [cbn; lia|].
split; [vm_compute; discriminate|]. split; [vm_compute; reflexivity|].
assert (N : frame_nonempty (roi_at 0 0 6 6)) by (unfold frame_nonempty; cbn; lia).
assert (W : roi_width (roi_at 0 0 6 6) < 9) by (cbn; lia).
assert (Hh : roi_height (roi_at 0 0 6 6) < 9 \/ 21 <= roi_height (roi_at 0 0 6 6))
  by (left; cbn; lia).
split.
- destruct (@dilation_wraps_on_narrow_frame (bench true) bench_state
              (bench_piece DT_DEV_PIXELPIPE_FULL) (red_clipped 6) blank
              (roi_at 0 0 6 6) (roi_at 0 0 6 6) false N W Hh eq_refl) as (_ & M & _).
  apply M. vm_compute. reflexivity.
- destruct (@dilation_wraps_on_narrow_frame (bench true) bench_state
              (bench_piece DT_DEV_PIXELPIPE_FULL) sraw_bright blank
              (roi_at 0 0 6 6) (roi_at 0 0 6 6) false N W Hh eq_refl) as (_ & _ & M).
  apply M. vm_compute. reflexivity.
Defined.

(** On that frame the column loop gets through 55 iterations inside the
    block; the next one, at row 3 and column 58, stores at index
    [5 * msize + 64 = 384], one past the 384 chars of the block. *)
Lemma narrow_frame_first_store_outside :
  option_map
    (fun '(m, _) =>
       (blk_size m,
        option_map blk_size (for_range 55 3 (dilate_body 64 2 3) m),
        option_map blk_size
                   (bind (for_range 55 3 (dilate_body 64 2 3) m) (dilate_body 64 2 3 58)),
        to_size_t (5 * 64 + to_size_t (3 * 2 + 58))))
    (@opposed_mask_pass (bench true) (bench_piece DT_DEV_PIXELPIPE_FULL) (red_clipped 6)
                        (roi_at 0 0 6 6) (clips_of (bench_piece DT_DEV_PIXELPIPE_FULL))
                        (msize_of (roi_at 0 0 6 6)) (mwidth_of (roi_at 0 0 6 6))
                        (zero_block (6 * msize_of (roi_at 0 0 6 6))))
  = Some (384, Some 384, None, 384).
Proof. vm_compute. reflexivity. Qed.

(** The dimension test of the sraw variant on an unscaled 9 x 9 output and on
    one scaled by one half. *)
Lemma near_full_size_examples :
  to_int (fdiv (of_Z 9) one) = 9 /\
  near_full_size 9 one 9 = true /\
  to_int (fdiv (of_Z 9) half) = 18 /\
  near_full_size 9 half 40 = false.
Proof. repeat split; vm_compute; reflexivity. Qed.

(** * Further properties of the two entry points *)

(** ** The cells the last loop writes *)

Section Regions.

Lemma fills_iff T (D D' : Z -> Prop) v :
  (forall i, D i <-> D' i) -> fills T D v -> fills T D' v.
Proof.
intros HD F. split.
- intros b i Hi. apply (fills_hit _ _ _ F). apply HD. exact Hi.
- intros b i Hi. apply (fills_miss _ _ _ F). intros Di. apply Hi, HD, Di.
- intros i. destruct (fills_dec _ _ _ F i) as [Di|Di].
  + left. apply HD, Di.
  + right. intros Di'. apply Di, HD, Di'.
Qed.

(** The indices [r * w + c] of a [w] x [h] region are those below [w * h]. *)
Lemma region_index w h i :
  0 <= w -> 0 <= h ->
  (exists r, 0 <= r < h /\ exists c, 0 <= c < w /\ i = r * w + c) <-> 0 <= i < w * h.
Proof.
intros Hw Hh. split.
- intros (r & Hr & c & Hc & ->). nia.
- intros Hi. assert (W : 0 < w) by nia.
  exists (i / w). split.
  + split; [apply Z.div_pos; lia|]. apply Z.div_lt_upper_bound; lia.
  + exists (i mod w). split; [apply Z.mod_pos_bound; lia|].
    pose proof (Z.div_mod i w ltac:(lia)). lia.
Qed.

Context `{Externals}.

Variables (piece : dt_dev_pixelpipe_iop_t) (input : buffer).
Variables (roi_in roi_out : dt_iop_roi_t).
Variables (clips chrominance : dt_aligned_pixel_t).
Hypothesis Hout : roi_ok roi_out.

Lemma opposed_reconstruct_fills tmpout :
  fills (opposed_reconstruct piece input tmpout roi_in roi_out clips chrominance)
        (fun i => 0 <= i < roi_width roi_out * roi_height roi_out)
        (fun i => opposed_output_value piece input tmpout roi_in roi_out clips chrominance
                                       (i / roi_width roi_out) (i mod roi_width roi_out)).
Proof.
destruct Hout as (Hw & Hh & _).
unfold opposed_reconstruct.
rewrite (to_size_t_small (roi_height roi_out)) by lia.
rewrite (to_size_t_small (roi_width roi_out)) by lia.
set (w := roi_width roi_out) in *.
apply (fills_iff _ (fun i => exists r, 0 <= r < roi_height roi_out /\
                              exists c, 0 <= c < w /\ i = r * w + c)).
{ intros i. apply region_index; lia. }
apply fills_loop. intros r Hr'. apply fills_loop. intros c Hc'.
rewrite to_size_t_small by nia.
apply fills_set. rewrite index_div, index_mod by lia. reflexivity.
Qed.

Lemma channel_index w h n i :
  0 <= w -> 0 <= h -> 3 <= n <= 4 ->
  (exists r, 0 <= r < h /\ exists k, 0 <= k < w /\
   exists ch, 0 <= ch < n /\ i = (r * w + k) * 4 + ch)
  <-> 0 <= i < 4 * (w * h) /\ i mod 4 < n.
Proof.
intros Hw Hh Hn. split.
- intros (r & Hr & k & Hk & ch & Hch & ->).
  rewrite (index_mod (r * w + k) ch 4) by lia. nia.
- intros [Hi Hm].
  pose proof (Z.div_mod i 4 ltac:(lia)) as D.
  pose proof (Z.mod_pos_bound i 4 ltac:(lia)) as M.
  assert (Q : 0 <= i / 4 < w * h) by lia.
  destruct (proj2 (region_index w h (i / 4) Hw Hh) Q) as (r & Hr & k & Hk & E).
  exists r. split; [exact Hr|]. exists k. split; [exact Hk|].
  exists (i mod 4). split; [lia|]. rewrite <- E. lia.
Qed.

Lemma linear_reconstruct_fills :
  fills (linear_reconstruct input roi_in roi_out clips chrominance)
        (fun i => 0 <= i < 4 * (roi_width roi_out * roi_height roi_out)
                  /\ i mod 4 < DT_PIXEL_SIMD_CHANNELS)
        (fun i => linear_output_value input roi_in clips chrominance
                    (i / 4 / roi_width roi_out) ((i / 4) mod roi_width roi_out)
                    (i mod 4)).
Proof.
destruct Hout as (Hw & Hh & _). pose proof channels_range as Hn.
unfold linear_reconstruct.
set (w := roi_width roi_out) in *.
apply (fills_iff _ (fun i => exists r, 0 <= r < roi_height roi_out /\
                              exists k, 0 <= k < w /\
                              exists ch, 0 <= ch < DT_PIXEL_SIMD_CHANNELS /\
                                         i = (r * w + k) * 4 + ch)).
{ intros i. apply channel_index; lia. }
apply fills_loop. intros r Hr'. apply fills_loop. intros k Hk.
apply fills_loop. intros ch Hch'.
apply fills_set.
rewrite (index_div (r * w + k) ch 4) by lia.
rewrite (index_mod (r * w + k) ch 4) by lia.
rewrite index_div, index_mod by lia. reflexivity.
Qed.

End Regions.

(** What the mosaic variant estimates and publishes depends on the input
    region only: two calls that differ in the output region, the output
    buffer and [keep] are defined together and leave the same chrominance
    and the same chrominance state. And [keep] makes no difference to the
    output: with the same output region and buffer, the call with [keep]
    and the call without leave the same output buffer, every element of
    it. *)
Theorem keep_changes_nothing_else `{Externals}
        (st : chroma_state) (piece : dt_dev_pixelpipe_iop_t) (input output : buffer)
        (roi_in roi_out : dt_iop_roi_t) (quality : bool) :
  roi_ok roi_in -> roi_ok roi_out ->
  (forall keep keep' output' roi_out',
      (_process_opposed st piece input output roi_in roi_out keep quality = None
       <-> _process_opposed st piece input output' roi_in roi_out' keep' quality = None) /\
      forall r r',
        _process_opposed st piece input output roi_in roi_out keep quality = Some r ->
        _process_opposed st piece input output' roi_in roi_out' keep' quality = Some r' ->
        out_chrominance r = out_chrominance r' /\ out_state r = out_state r') /\
  (forall r1 r2,
      _process_opposed st piece input output roi_in roi_out true quality = Some r1 ->
      _process_opposed st piece input output roi_in roi_out false quality = Some r2 ->
      (forall i, out_buffer r1 i = out_buffer r2 i) /\ out_tmpout r2 = None).
Proof.
intros Hin Hout. split.
- intros keep keep' output' roi_out'. split.
  + unfold _process_opposed.
    destruct (opposed_estimate piece input roi_in quality st) as [[[chrom st'] trace]|];
      cbn [bind]; split; intros C; try discriminate C; reflexivity.
  + intros r r' H1 H2.
    destruct (process_opposed_inv st piece input output roi_in roi_out keep quality
                r H1) as (t1 & tmp1 & E1 & _).
    destruct (process_opposed_inv st piece input output' roi_in roi_out' keep' quality
                r' H2) as (t2 & tmp2 & E2 & _).
    rewrite E1 in E2. injection E2 as Ec Es Et. auto.
- intros r1 r2 H1 H2.
  destruct (process_opposed_inv st piece input output roi_in roi_out true quality r1 H1)
    as (t1 & tmp1 & E1 & _ & T1 & B1 & _).
  destruct (process_opposed_inv st piece input output roi_in roi_out false quality r2 H2)
    as (t2 & tmp2 & E2 & K2 & T2 & B2 & _).
  rewrite E1 in E2. injection E2 as Ec Es Et.
  rewrite (K2 eq_refl) in T2. cbn [option_map] in T2.
  split; [|exact T2].
  intros i. rewrite B1, B2, T1, T2, <- Ec.
  pose proof (opposed_reconstruct_fills piece input roi_in roi_out (clips_of piece)
                (out_chrominance r1) Hout) as F.
  destruct (fills_dec _ _ _ (F None) i) as [Di|Di].
  + rewrite (fills_hit _ _ _ (F _) output i Di).
    rewrite (fills_hit _ _ _ (F _) output i Di).
    pose proof Hout as (Hw & Hh & _).
    assert (W : 0 < roi_width roi_out) by nia.
    assert (R : 0 <= i / roi_width roi_out < roi_height roi_out).
    { split; [apply Z.div_pos; lia|]. apply Z.div_lt_upper_bound; lia. }
    pose proof (Z.mod_pos_bound i (roi_width roi_out) W) as C.
    set (row := i / roi_width roi_out) in *. set (col := i mod roi_width roi_out) in *.
    assert (Dec : inside_input roi_in (row + roi_y roi_out) (col + roi_x roi_out)
                  \/ ~ inside_input roi_in (row + roi_y roi_out) (col + roi_x roi_out))
      by (unfold inside_input; lia).
    destruct Dec as [I|O].
    * rewrite (opposed_output_value_inside piece input roi_in roi_out (clips_of piece)
                 (out_chrominance r1) Hin tmp1 row col) by (assumption || lia).
      change (@None buffer)
        with (option_map (opposed_fill_tmpout piece input roi_in (clips_of piece)
                                              (out_chrominance r1)) None).
      rewrite (opposed_output_value_inside piece input roi_in roi_out (clips_of piece)
                 (out_chrominance r1) Hin None row col) by (assumption || lia).
      reflexivity.
    * rewrite !(opposed_output_value_outside piece input roi_in roi_out (clips_of piece)
                  (out_chrominance r1) Hin Hout) by (assumption || lia).
      reflexivity.
  + rewrite (fills_miss _ _ _ (F _) output i Di).
    rewrite (fills_miss _ _ _ (F _) output i Di). reflexivity.
Qed.

Lemma keep_changes_nothing_else_witness :
  roi_ok (roi_at 0 0 9 9) /\ roi_ok (roi_at 1 1 7 7) /\
  (forall r1 r2 i,
      @_process_opposed (bench true) bench_state (bench_piece DT_DEV_PIXELPIPE_FULL)
                        (red_clipped 9) blank (roi_at 0 0 9 9) (roi_at 1 1 7 7)
                        true true = Some r1 ->
      @_process_opposed (bench true) bench_state (bench_piece DT_DEV_PIXELPIPE_FULL)
                        (red_clipped 9) blank (roi_at 0 0 9 9) (roi_at 1 1 7 7)
                        false true = Some r2 ->
      out_buffer r1 i = out_buffer r2 i).
Proof.
assert (A : roi_ok (roi_at 0 0 9 9)) by (unfold roi_ok; cbn; lia).
assert (B : roi_ok (roi_at 1 1 7 7)) by (unfold roi_ok; cbn; lia).
split; [exact A|]. split; [exact B|].
intros r1 r2 i H1 H2.
destruct (@keep_changes_nothing_else (bench true) bench_state
            (bench_piece DT_DEV_PIXELPIPE_FULL) (red_clipped 9) blank
            (roi_at 0 0 9 9) (roi_at 1 1 7 7) true A B) as [_ M].
destruct (M r1 r2 H1 H2) as [G _]. apply G.
Defined.

(** The buffer the mosaic variant returns holds the reconstructed value of
    every photosite of the input region. *)
Lemma process_opposed_kept `{Externals}
      (st : chroma_state) (piece : dt_dev_pixelpipe_iop_t) (input output : buffer)
      (roi_in roi_out : dt_iop_roi_t) (keep quality : bool) (r : outcome)
      (t : buffer) (row col : Z) :
  roi_ok roi_in ->
  _process_opposed st piece input output roi_in roi_out keep quality = Some r ->
  out_tmpout r = Some t -> inside_input roi_in row col ->
  t (row * roi_width roi_in + col)
  = reconstructed_value piece input roi_in (clips_of piece) (out_chrominance r) row col.
Proof.
intros Hin Hp Et Hi.
destruct (process_opposed_inv st piece input output roi_in roi_out keep quality r Hp)
  as (_ & tmp0 & _ & _ & T & _).
rewrite T in Et. destruct tmp0 as [t0|]; [|discriminate Et].
cbn [option_map] in Et. injection Et as <-.
rewrite (opposed_fill_tmpout_at piece input roi_in (clips_of piece)
           (out_chrominance r) Hin) by exact Hi.
apply opposed_tmpout_value_spec; assumption.
Qed.

(** The buffer the mosaic variant returns: none exactly when [keep] is off
    or its allocation fails; otherwise it holds, at every photosite of the
    input region (whatever the output region is), the reconstructed value of
    that photosite. *)
Theorem kept_buffer_covers_input_region `{Externals}
        (st : chroma_state) (piece : dt_dev_pixelpipe_iop_t) (input output : buffer)
        (roi_in roi_out : dt_iop_roi_t) (keep quality : bool) (r : outcome) :
  roi_ok roi_in ->
  _process_opposed st piece input output roi_in roi_out keep quality = Some r ->
  (out_tmpout r = None
   <-> keep = false
       \/ dt_alloc_align_float_succeeds
            (to_size_t (roi_width roi_in * roi_height roi_in)) = false) /\
  (forall t row col,
      out_tmpout r = Some t -> inside_input roi_in row col ->
      t (row * roi_width roi_in + col)
      = reconstructed_value piece input roi_in (clips_of piece) (out_chrominance r)
                            row col).
Proof.
intros Hin Hp. split.
- unfold _process_opposed in Hp.
  destruct (opposed_estimate piece input roi_in quality st) as [[[chrom st'] trace]|];
    [|discriminate].
  cbn [bind] in Hp. injection Hp as <-. cbn [out_tmpout].
  unfold dt_alloc_align_float.
  destruct keep; [|split; auto].
  destruct (dt_alloc_align_float_succeeds _); split; intros C.
  + discriminate C.
  + destruct C as [C|C]; discriminate C.
  + right. reflexivity.
  + reflexivity.
- intros t row col Et Hi.
  apply (process_opposed_kept st piece input output roi_in roi_out keep quality r
           t row col Hin Hp Et Hi).
Qed.

Lemma kept_buffer_covers_input_region_witness :
  roi_ok (roi_at 0 0 9 9) /\
  (forall r t,
      @_process_opposed (bench true) bench_state (bench_piece DT_DEV_PIXELPIPE_FULL)
                        (red_clipped 9) blank (roi_at 0 0 9 9) (roi_at 4 4 2 2)
                        true true = Some r ->
      out_tmpout r = Some t ->
      t (8 * 9 + 8)
      = @reconstructed_value (bench true) (bench_piece DT_DEV_PIXELPIPE_FULL)
          (red_clipped 9) (roi_at 0 0 9 9)
          (clips_of (bench_piece DT_DEV_PIXELPIPE_FULL))
          (out_chrominance r) 8 8).
Proof.
assert (A : roi_ok (roi_at 0 0 9 9)) by (unfold roi_ok; cbn; lia).
split; [exact A|].
intros r t Hp Et.
destruct (@kept_buffer_covers_input_region (bench true) bench_state
            (bench_piece DT_DEV_PIXELPIPE_FULL) (red_clipped 9) blank
            (roi_at 0 0 9 9) (roi_at 4 4 2 2) true true r A Hp) as [_ M].
apply (M t 8 8 Et). unfold inside_input; cbn; lia.
Defined.

(** Neither variant writes an element of the output buffer outside the
    output region: the mosaic variant leaves every element from
    [width * height] on as it was, and the sraw variant every element from
    [4 * width * height] on and, when [for_each_channel] covers three
    channels only, the fourth float of every pixel. *)
Theorem output_untouched_outside_region `{Externals}
        (st : chroma_state) (piece : dt_dev_pixelpipe_iop_t) (input output : buffer)
        (roi_in roi_out : dt_iop_roi_t) (quality : bool) :
  roi_ok roi_out ->
  (forall keep r i,
      _process_opposed st piece input output roi_in roi_out keep quality = Some r ->
      ~ 0 <= i < roi_width roi_out * roi_height roi_out ->
      out_buffer r i = output i) /\
  (forall r i,
      _process_linear_opposed st piece input output roi_in roi_out quality = Some r ->
      ~ (0 <= i < 4 * (roi_width roi_out * roi_height roi_out)
         /\ i mod 4 < DT_PIXEL_SIMD_CHANNELS) ->
      out_buffer r i = output i).
Proof.
intros Hout. split.
- intros keep r i Hp Hi.
  destruct (process_opposed_inv st piece input output roi_in roi_out keep quality r Hp)
    as (_ & _ & _ & _ & _ & B & _).
  rewrite B.
  apply (fills_miss _ _ _ (opposed_reconstruct_fills piece input roi_in roi_out
                             (clips_of piece) (out_chrominance r) Hout (out_tmpout r))).
  exact Hi.
- intros r i Hp Hi.
  destruct (process_linear_inv st piece input output roi_in roi_out quality r Hp)
    as (_ & _ & B & _).
  rewrite B.
  apply (fills_miss _ _ _ (linear_reconstruct_fills input roi_in roi_out
                             (clips_of piece) (out_chrominance r) Hout)).
  exact Hi.
Qed.

Lemma output_untouched_outside_region_witness :
  roi_ok (roi_at 1 1 7 7) /\
  (forall r,
      @_process_linear_opposed (bench true) bench_state
        (bench_piece DT_DEV_PIXELPIPE_FULL) sraw_bright (single 196 two)
        (roi_at 0 0 9 9) (roi_at 1 1 7 7) true = Some r ->
      out_buffer r 196 = two).
Proof.
assert (B : roi_ok (roi_at 1 1 7 7)) by (unfold roi_ok; cbn; lia).
split; [exact B|].
intros r Hp.
destruct (@output_untouched_outside_region (bench true) bench_state
            (bench_piece DT_DEV_PIXELPIPE_FULL) sraw_bright (single 196 two)
            (roi_at 0 0 9 9) (roi_at 1 1 7 7) true B) as [_ M].
rewrite (M r 196 Hp); [reflexivity|cbn; lia].
Defined.

(** ** When the estimation passes run *)

Section ScanFlag.

Context {S : Type}.

(** A scan of a rectangle that raises a flag at the cells [hit] selects:
    the flag is up at the end iff the rectangle holds such a cell. *)
Lemma scan_flag (Q : S -> Prop) (hit : Z -> Z -> bool) rlo rhi clo chi
      (body : Z -> Z -> S * bool -> option (S * bool)) s :
  Q s ->
  (forall r c t a, rlo <= r < rhi -> clo <= c < chi -> Q t ->
     exists t', body r c (t, a) = Some (t', a || hit r c) /\ Q t') ->
  exists t' b,
    for_loop rlo rhi (fun r => for_loop clo chi (body r)) (s, false) = Some (t', b) /\
    Q t' /\
    (b = true <-> exists r c, rlo <= r < rhi /\ clo <= c < chi /\ hit r c = true).
Proof.
intros Q0 Hbody.
destruct (Z_le_gt_dec rlo rhi) as [Hr|Hr];
  [|exists s, false; rewrite for_loop_empty by lia; split; [reflexivity|];
    split; [exact Q0|]; split; [discriminate|]; intros (r & c & R & _); lia].
destruct (for_loop_inv
            (fun j (st : S * bool) =>
               Q (fst st) /\
               (snd st = true <->
                exists r c, rlo <= r < j /\ clo <= c < chi /\ hit r c = true))
            rlo rhi (fun r => for_loop clo chi (body r)) (s, false) Hr)
  as [[t' b] [E [Qt Hb]]].
- cbn [fst snd]. split; [exact Q0|]. split; [discriminate|].
  intros (r & c & R & _); lia.
- intros j [t a] Hj [Qt Ha]. cbn [fst snd] in *.
  destruct (Z_le_gt_dec clo chi) as [Hc|Hc].
  + destruct (for_loop_inv
                (fun k (st : S * bool) =>
                   Q (fst st) /\
                   (snd st = true <->
                    (exists r c, rlo <= r < j /\ clo <= c < chi /\ hit r c = true)
                    \/ (exists c, clo <= c < k /\ hit j c = true)))
                clo chi (body j) (t, a) Hc) as [[t2 a2] [E2 [Q2 H2]]].
    * cbn [fst snd]. split; [exact Qt|]. rewrite Ha. split; [auto|].
      intros [P|(c & C & _)]; [exact P|lia].
    * intros k [u a'] Hk [Qu Hu]. cbn [fst snd] in *.
      destruct (Hbody j k u a' Hj Hk Qu) as [u' [Eu Qu']].
      exists (u', a' || hit j k). split; [exact Eu|]. cbn [fst snd].
      split; [exact Qu'|]. rewrite orb_true_iff, Hu. split.
      -- intros [[P|(c & C & Hc')]|Hh]; auto.
         ++ right. exists c. split; [lia|exact Hc'].
         ++ right. exists k. split; [lia|exact Hh].
      -- intros [P|(c & C & Hc')]; [auto|].
         destruct (Z.eq_dec c k) as [->|Hne]; [auto|].
         left. right. exists c. split; [lia|exact Hc'].
    * exists (t2, a2). split; [exact E2|]. cbn [fst snd] in *.
      split; [exact Q2|]. rewrite H2. split.
      -- intros [(r & c & R & C & Hh)|(c & C & Hh)].
         ++ exists r, c. split; [lia|auto].
         ++ exists j, c. split; [lia|auto].
      -- intros (r & c & R & C & Hh).
         destruct (Z.eq_dec r j) as [->|Hne].
         ++ right. exists c. auto.
         ++ left. exists r, c. split; [lia|auto].
  + exists (t, a). rewrite for_loop_empty by lia. split; [reflexivity|].
    cbn [fst snd]. split; [exact Qt|]. rewrite Ha. split.
    * intros (r & c & R & C & Hh). lia.
    * intros (r & c & R & C & Hh). lia.
- exists t', b. cbn [fst snd] in *. auto.
Qed.

End ScanFlag.

Section ClippingFlag.

Context `{Externals}.

Variables (piece : dt_dev_pixelpipe_iop_t) (input : buffer) (roi_in : dt_iop_roi_t).
Variable clips : dt_aligned_pixel_t.
Hypothesis Hne : frame_nonempty roi_in.

(** The mask-build pass of the mosaic variant raises its flag iff a
    photosite inside the border is clipped. *)
Lemma opposed_mask_pass_any mask :
  mask_block (msize_of roi_in) mask ->
  exists m' any,
    opposed_mask_pass piece input roi_in clips (msize_of roi_in) (mwidth_of roi_in) mask
    = Some (m', any) /\
    mask_block (msize_of roi_in) m' /\
    (any = true <->
     exists row col, inside_border roi_in row col /\
                     opposed_clipped piece input roi_in clips row col = true).
Proof.
intros Hm. unfold opposed_mask_pass.
destruct (scan_flag (mask_block (msize_of roi_in))
            (opposed_clipped piece input roi_in clips)
            1 (to_size_t (roi_height roi_in - 1)) 1 (to_size_t (roi_width roi_in - 1))
            (opposed_mask_body piece input roi_in clips (msize_of roi_in)
                               (mwidth_of roi_in)) mask Hm)
  as (m' & any & E & Qm & Hany).
- intros row col m a Hrow Hcol Qm.
  destruct (interior_bounds roi_in Hne row col Hrow Hcol) as [Hr Hc].
  destruct (cmap_range roi_in Hne row col Hr Hc) as [Ecm Rcm].
  pose proof (photosite_color_range piece roi_in row col) as Hk.
  pose proof (msize_of_bounds roi_in Hne) as Hms.
  destruct Hne as (Hw & Hh).
  unfold opposed_mask_body, opposed_clipped.
  rewrite (to_size_t_small (row * roi_width roi_in + col)) by nia.
  destruct (fge _ _).
  + rewrite Ecm.
    set (k := photosite_color piece roi_in row col) in *.
    rewrite to_size_t_small by nia.
    destruct (or_store_mask (msize_of roi_in) m
                (k * msize_of roi_in + (row / 3 * mwidth_of roi_in + col / 3)) Qm)
      as [m2 [E2 [Q2 _]]]; [nia|].
    rewrite E2. cbn [bind]. exists m2. rewrite orb_true_r. auto.
  + exists m. rewrite orb_false_r. auto.
- exists m', any. split; [exact E|]. split; [exact Qm|].
  rewrite Hany. destruct Hne as (Hw & Hh).
  rewrite !to_size_t_small by lia. unfold inside_border.
  split; intros (row & col & A); exists row, col.
  + destruct A as (R & C & Hh'). split; [lia|exact Hh'].
  + destruct A as ((R & C) & Hh'). split; [lia|]. split; [lia|exact Hh'].
Qed.

Lemma linear_mask_channel_flag row col c m a :
  0 < row < roi_height roi_in - 1 -> 0 < col < roi_width roi_in - 1 ->
  0 <= c <= 3 -> mask_block (msize_of roi_in) m ->
  exists m',
    linear_mask_channel input clips (msize_of roi_in) (mwidth_of roi_in) row col
                        ((row * roi_width roi_in + col) * 4) c (m, a)
    = Some (m', a || linear_clipped input roi_in clips row col c) /\
    mask_block (msize_of roi_in) m'.
Proof.
intros Hr Hc Hk Qm.
destruct (cmap_range roi_in Hne row col Hr Hc) as [Ecm Rcm].
pose proof (msize_of_bounds roi_in Hne) as Hms.
unfold linear_mask_channel, linear_clipped.
destruct (fge _ _).
- rewrite Ecm. rewrite to_size_t_small by nia.
  destruct (or_store_mask (msize_of roi_in) m
              (c * msize_of roi_in + (row / 3 * mwidth_of roi_in + col / 3)) Qm)
    as [m2 [E2 [Q2 _]]]; [nia|].
  rewrite E2. cbn [bind]. exists m2. rewrite orb_true_r. auto.
- exists m. rewrite orb_false_r. auto.
Qed.

(** The same for the sraw variant, over the channels of
    [for_each_channel]. *)
Lemma linear_mask_pass_any mask :
  mask_block (msize_of roi_in) mask ->
  exists m' any,
    linear_mask_pass input roi_in clips (msize_of roi_in) (mwidth_of roi_in) mask
    = Some (m', any) /\
    mask_block (msize_of roi_in) m' /\
    (any = true <->
     exists row col, inside_border roi_in row col /\
                     linear_pixel_clipped input roi_in clips row col = true).
Proof.
intros Hm. unfold linear_mask_pass.
destruct (scan_flag (mask_block (msize_of roi_in))
            (linear_pixel_clipped input roi_in clips)
            1 (to_size_t (roi_height roi_in - 1)) 1 (to_size_t (roi_width roi_in - 1))
            (linear_mask_body input roi_in clips (msize_of roi_in) (mwidth_of roi_in))
            mask Hm)
  as (m' & any & E & Qm & Hany).
- intros row col m a Hrow Hcol Qm.
  destruct (interior_bounds roi_in Hne row col Hrow Hcol) as [Hr Hc].
  unfold linear_mask_body, linear_pixel_clipped.
  assert (Ei : to_size_t ((row * roi_width roi_in + col) * 4)
               = (row * roi_width roi_in + col) * 4)
    by (destruct Hne; apply to_size_t_small; nia).
  rewrite Ei.
  destruct (linear_mask_channel_flag row col 0 m a Hr Hc ltac:(lia) Qm) as [m0 [E0 Q0]].
  destruct (linear_mask_channel_flag row col 1 m0
              (a || linear_clipped input roi_in clips row col 0) Hr Hc ltac:(lia) Q0)
    as [m1 [E1 Q1]].
  destruct (linear_mask_channel_flag row col 2 m1
              (a || linear_clipped input roi_in clips row col 0
                 || linear_clipped input roi_in clips row col 1) Hr Hc ltac:(lia) Q1)
    as [m2 [E2 Q2]].
  destruct (linear_mask_channel_flag row col 3 m2
              (a || linear_clipped input roi_in clips row col 0
                 || linear_clipped input roi_in clips row col 1
                 || linear_clipped input roi_in clips row col 2) Hr Hc ltac:(lia) Q2)
    as [m3 [E3 Q3]].
  unfold DT_PIXEL_SIMD_CHANNELS. destruct DT_NO_VECTORIZATION; cbn [negb andb].
  + rewrite for_loop_3, E0. cbn [bind]. rewrite E1. cbn [bind]. rewrite E2.
    exists m2. split; [|exact Q2]. rewrite orb_false_r, !orb_assoc. reflexivity.
  + rewrite for_loop_4, E0. cbn [bind]. rewrite E1. cbn [bind]. rewrite E2.
    cbn [bind]. rewrite E3.
    exists m3. split; [|exact Q3]. rewrite !orb_assoc. reflexivity.
- exists m', any. split; [exact E|]. split; [exact Qm|].
  rewrite Hany. destruct Hne as (Hw & Hh).
  rewrite !to_size_t_small by lia. unfold inside_border.
  split; intros (row & col & A); exists row, col.
  + destruct A as (R & C & Hh'). split; [lia|exact Hh'].
  + destruct A as ((R & C) & Hh'). split; [lia|]. split; [lia|exact Hh'].
Qed.

End ClippingFlag.

(** In the mosaic variant, when estimation runs, the dilation and the
    accumulation passes run exactly when some photosite inside the border is
    clipped. When none is, the call is defined on every frame, only the
    mask-build pass runs and the triple in use is the stored one. *)
Theorem mosaic_passes_follow_clipping `{Externals}
        (st : chroma_state) (piece : dt_dev_pixelpipe_iop_t) (input output : buffer)
        (roi_in roi_out : dt_iop_roi_t) (keep quality : bool) :
  frame_nonempty roi_in ->
  estimation_runs piece roi_in quality st = true ->
  let clipped :=
    exists row col, inside_border roi_in row col /\
                    opposed_clipped piece input roi_in (clips_of piece) row col = true in
  (~ clipped ->
   exists r,
     _process_opposed st piece input output roi_in roi_out keep quality = Some r /\
     In MaskBuild (out_trace r) /\ ~ In Dilate (out_trace r) /\
     ~ In ChromaAccumulate (out_trace r) /\
     out_chrominance r = stored_chrominance st) /\
  (clipped ->
   forall r,
     _process_opposed st piece input output roi_in roi_out keep quality = Some r ->
     In Dilate (out_trace r) /\ In ChromaAccumulate (out_trace r)).
Proof.
intros Hne Hrun clipped.
destruct (opposed_mask_pass_any piece input roi_in (clips_of piece) Hne
            (zero_block (6 * msize_of roi_in)) (zero_block_mask _))
  as (m & any & Em & Qm & Hany).
fold clipped in Hany.
unfold estimation_runs in Hrun.
unfold _process_opposed, opposed_estimate, dt_calloc_align.
destruct (feqf _ _ _); cbn [negb andb] in Hrun; [discriminate|].
destruct quality; cbn [andb] in Hrun; [|discriminate].
cbn [negb]. rewrite Hrun, Em. cbn [bind].
split.
- intros Hno. destruct any; [exfalso; apply Hno, Hany; reflexivity|].
  cbn [bind].
  destruct (is_full (pipe_type piece) && dt_image_altered (image_id piece));
    cbn [bind]; eexists; (split; [reflexivity|]);
    cbn [out_trace out_chrominance app In];
    (split; [tauto|]); (split; [|split; [|reflexivity]]);
    destruct (match (if keep then _ else _) with Some _ => _ | None => _ end);
    cbn [app In]; intuition discriminate.
- intros Hc r. rewrite (proj2 Hany Hc).
  destruct (dilate_pass _ _ _ _) as [m2|]; [|discriminate]. cbn [bind].
  destruct (opposed_chroma_pass _ _ _ _ _ _ _ _) as [[cs cc]|]; [|discriminate].
  cbn [bind].
  destruct (is_full (pipe_type piece) && dt_image_altered (image_id piece));
    cbn [bind]; intros E; injection E as <-; cbn [out_trace app In]; tauto.
Qed.

Lemma mosaic_passes_follow_clipping_witness :
  frame_nonempty (roi_at 0 0 9 9) /\
  @estimation_runs (bench true) (bench_piece DT_DEV_PIXELPIPE_FULL) (roi_at 0 0 9 9)
                   true bench_state = true /\
  (forall r,
      @_process_opposed (bench true) bench_state (bench_piece DT_DEV_PIXELPIPE_FULL)
                        (red_clipped 9) blank (roi_at 0 0 9 9) (roi_at 0 0 9 9)
                        false true = Some r ->
      In Dilate (out_trace r)).
Proof.
assert (A : frame_nonempty (roi_at 0 0 9 9)) by (unfold frame_nonempty; cbn; lia).
assert (B : @estimation_runs (bench true) (bench_piece DT_DEV_PIXELPIPE_FULL)
              (roi_at 0 0 9 9) true bench_state = true) by (vm_compute; reflexivity).
split; [exact A|]. split; [exact B|].
intros r Hp.
destruct (@mosaic_passes_follow_clipping (bench true) bench_state
            (bench_piece DT_DEV_PIXELPIPE_FULL) (red_clipped 9) blank
            (roi_at 0 0 9 9) (roi_at 0 0 9 9) false true A B) as [_ M].
apply (M (ex_intro _ 2 (ex_intro _ 2
            (conj (conj (conj eq_refl eq_refl) (conj eq_refl eq_refl)) eq_refl))) r Hp).
Defined.

(** In the sraw variant, when estimation runs, the dilation and the
    accumulation passes run exactly when, at some pixel inside the border,
    one of the channels [for_each_channel] goes through holds a value (not
    clamped here) that reaches its threshold. The threshold of the fourth
    channel is zero: when [for_each_channel] covers four channels, one pixel
    inside the border whose fourth float is not negative makes the two
    passes run, whatever the three primaries hold. *)
Theorem sraw_passes_follow_clipping `{Externals}
        (st : chroma_state) (piece : dt_dev_pixelpipe_iop_t) (input output : buffer)
        (roi_in roi_out : dt_iop_roi_t) (quality : bool) :
  frame_nonempty roi_in ->
  estimation_runs piece roi_in quality st = true ->
  let clipped :=
    exists row col, inside_border roi_in row col /\
                    linear_pixel_clipped input roi_in (clips_of piece) row col = true in
  (~ clipped ->
   exists r,
     _process_linear_opposed st piece input output roi_in roi_out quality = Some r /\
     In MaskBuild (out_trace r) /\ ~ In Dilate (out_trace r) /\
     ~ In ChromaAccumulate (out_trace r) /\
     out_chrominance r = stored_chrominance st) /\
  (clipped ->
   forall r,
     _process_linear_opposed st piece input output roi_in roi_out quality = Some r ->
     In Dilate (out_trace r) /\ In ChromaAccumulate (out_trace r)) /\
  (DT_NO_VECTORIZATION = false ->
   forall row col,
     inside_border roi_in row col ->
     fge (input ((row * roi_width roi_in + col) * 4 + 3)) zero = true ->
     clipped).
Proof.
intros Hne Hrun clipped.
destruct (linear_mask_pass_any input roi_in (clips_of piece) Hne
            (zero_block (6 * msize_of roi_in)) (zero_block_mask _))
  as (m & any & Em & Qm & Hany).
fold clipped in Hany.
unfold estimation_runs in Hrun.
unfold _process_linear_opposed, linear_estimate, dt_calloc_align.
destruct (feqf _ _ _); cbn [negb andb] in Hrun; [discriminate|].
destruct quality; cbn [andb] in Hrun; [|discriminate].
cbn [negb]. rewrite Hrun, Em. cbn [bind].
split; [|split].
- intros Hno. destruct any; [exfalso; apply Hno, Hany; reflexivity|].
  cbn [bind].
  destruct (linear_publish_condition piece roi_out);
    cbn [bind]; eexists; (split; [reflexivity|]);
    cbn [out_trace out_chrominance app In];
    (split; [tauto|]); (split; [|split; [|reflexivity]]); intuition discriminate.
- intros Hc r. rewrite (proj2 Hany Hc).
  destruct (dilate_pass _ _ _ _) as [m2|]; [|discriminate]. cbn [bind].
  destruct (linear_chroma_pass _ _ _ _ _ _ _) as [[cs cc]|]; [|discriminate].
  cbn [bind].
  destruct (linear_publish_condition piece roi_out);
    cbn [bind]; intros E; injection E as <-; cbn [out_trace app In]; tauto.
- intros Hv row col Hi Hp. exists row, col. split; [exact Hi|].
  unfold linear_pixel_clipped. rewrite Hv. cbn [negb andb].
  unfold linear_clipped at 4.
  change (pget (clips_of piece) 3) with zero.
  rewrite Hp. apply orb_true_r.
Qed.

Lemma sraw_passes_follow_clipping_witness :
  frame_nonempty (roi_at 0 0 9 9) /\
  @estimation_runs (bench true) (bench_piece DT_DEV_PIXELPIPE_FULL) (roi_at 0 0 9 9)
                   true bench_state = true /\
  @DT_NO_VECTORIZATION (bench true) = false /\
  inside_border (roi_at 0 0 9 9) 4 4 /\
  fge (blank ((4 * 9 + 4) * 4 + 3)) zero = true /\
  (forall r,
      @_process_linear_opposed (bench true) bench_state
        (bench_piece DT_DEV_PIXELPIPE_FULL) blank blank
        (roi_at 0 0 9 9) (roi_at 0 0 9 9) true = Some r ->
      In Dilate (out_trace r)).
Proof.
assert (A : frame_nonempty (roi_at 0 0 9 9)) by (unfold frame_nonempty; cbn; lia).
assert (B : @estimation_runs (bench true) (bench_piece DT_DEV_PIXELPIPE_FULL)
              (roi_at 0 0 9 9) true bench_state = true) by (vm_compute; reflexivity).
assert (C : inside_border (roi_at 0 0 9 9) 4 4) by (unfold inside_border; cbn; lia).
split; [exact A|]. split; [exact B|]. split; [reflexivity|]. split; [exact C|].
split; [reflexivity|].
intros r Hp.
destruct (@sraw_passes_follow_clipping (bench true) bench_state
            (bench_piece DT_DEV_PIXELPIPE_FULL) blank blank
            (roi_at 0 0 9 9) (roi_at 0 0 9 9) true A B) as (_ & M & P).
apply (M (P eq_refl 4 4 C eq_refl) r Hp).
Defined.

(** ** The published correction *)

Lemma reconstructed_value_primaries `{Externals}
      (piece : dt_dev_pixelpipe_iop_t) (input : buffer) (roi_in : dt_iop_roi_t)
      (clips ch ch' : dt_aligned_pixel_t) (irow icol : Z) :
  (forall c, 0 <= c <= 2 -> pget ch c = pget ch' c) ->
  reconstructed_value piece input roi_in clips ch irow icol
  = reconstructed_value piece input roi_in clips ch' irow icol.
Proof.
intros E. unfold reconstructed_value.
rewrite (E _ (photosite_color_range piece roi_in irow icol)). reflexivity.
Qed.

Lemma trace_tail_no_publish (t : list pass) (tmp : option buffer) :
  In Publish (t ++ (match tmp with Some _ => [FillTmpout] | None => [] end)
                ++ [Reconstruct]) ->
  In Publish t.
Proof.
intros Hi. apply in_app_or in Hi. destruct Hi as [Hi|Hi]; [exact Hi|].
destruct tmp; cbn [app In] in Hi; intuition discriminate.
Qed.

(** A correction the mosaic variant has published is found by the next call
    on the same piece, provided the tag compares equal to itself: started
    from the state the publishing call left, a call (whatever its [keep],
    [quality] and output buffer) runs no estimation pass, leaves the state
    as it is, uses the published triple and writes the same output region. *)
Theorem published_correction_is_reused `{Externals}
        (st : chroma_state) (piece : dt_dev_pixelpipe_iop_t)
        (input output output' : buffer) (roi_in roi_out : dt_iop_roi_t)
        (keep keep' quality quality' : bool) (r1 : outcome) :
  roi_ok roi_in -> roi_ok roi_out ->
  feqf (_color_magic piece) (_color_magic piece) c1e_6 = true ->
  _process_opposed st piece input output roi_in roi_out keep quality = Some r1 ->
  In Publish (out_trace r1) ->
  exists r2,
    _process_opposed (out_state r1) piece input output' roi_in roi_out keep' quality'
    = Some r2 /\
    out_state r2 = out_state r1 /\
    (forall p, In p (out_trace r2) -> p = FillTmpout \/ p = Reconstruct) /\
    (forall c, 0 <= c <= 2 -> pget (out_chrominance r2) c = pget (out_chrominance r1) c) /\
    (forall row col,
        0 <= row < roi_height roi_out -> 0 <= col < roi_width roi_out ->
        out_buffer r2 (row * roi_width roi_out + col)
        = out_buffer r1 (row * roi_width roi_out + col)).
Proof.
intros Hin Hout Hself H1 Hpub.
destruct (process_opposed_inv st piece input output roi_in roi_out keep quality r1 H1)
  as (t1 & tmp1 & E1 & _ & _ & _ & Etr).
rewrite Etr in Hpub. apply trace_tail_no_publish in Hpub.
assert (Hrun : estimation_runs piece roi_in quality st = true).
{ destruct (estimation_runs piece roi_in quality st) eqn:Hrun; [reflexivity|].
  rewrite (opposed_estimate_skip piece input roi_in quality st Hrun) in E1.
  injection E1 as _ _ <-. destruct Hpub. }
destruct (opposed_estimate_run piece input roi_in quality st _ _ _ Hrun E1)
  as (_ & Yes & No).
assert (Est : out_state r1 = publish piece (out_chrominance r1) st).
{ destruct (opposed_publish_condition piece).
  - apply Yes. reflexivity.
  - destruct (No eq_refl) as [_ C]. contradiction. }
assert (Hskip : estimation_runs piece roi_in quality' (out_state r1) = false).
{ unfold estimation_runs. rewrite Est, publish_eq.
  cbn [d_chroma_correction pget ch3]. rewrite Hself. reflexivity. }
assert (Ech : forall c, 0 <= c <= 2 ->
                pget (stored_chrominance (out_state r1)) c = pget (out_chrominance r1) c).
{ intros c Hc. rewrite Est, publish_eq. unfold stored_chrominance.
  cbn [d_chroma_correction].
  assert (K : c = 0 \/ c = 1 \/ c = 2) by lia.
  destruct K as [-> | [-> | ->]]; reflexivity. }
assert (E2 := opposed_estimate_skip piece input roi_in quality' (out_state r1) Hskip).
destruct (_process_opposed (out_state r1) piece input output' roi_in roi_out
                           keep' quality') as [r2|] eqn:H2;
  [|unfold _process_opposed in H2; rewrite E2 in H2; discriminate H2].
exists r2. split; [reflexivity|].
destruct (process_opposed_inv _ piece input output' roi_in roi_out keep' quality' r2 H2)
  as (t2 & tmp2 & E2' & _ & _ & _ & Etr2).
rewrite E2 in E2'. injection E2' as Ec Es Et.
split; [symmetry; exact Es|].
split.
{ intros p Hp. rewrite Etr2, <- Et in Hp. cbn [app] in Hp.
  destruct tmp2; cbn [app In] in Hp; intuition auto. }
split; [intros c Hc; rewrite <- Ec; apply Ech; exact Hc|].
intros row col Hr Hc.
assert (Dec : inside_input roi_in (row + roi_y roi_out) (col + roi_x roi_out)
              \/ ~ inside_input roi_in (row + roi_y roi_out) (col + roi_x roi_out))
  by (unfold inside_input; lia).
destruct Dec as [I|O].
- rewrite (process_opposed_inside _ piece input output' roi_in roi_out Hin Hout
             keep' quality' r2 row col H2 Hr Hc I).
  rewrite (process_opposed_inside _ piece input output roi_in roi_out Hin Hout
             keep quality r1 row col H1 Hr Hc I).
  apply reconstructed_value_primaries. intros c Hk. rewrite <- Ec. apply Ech, Hk.
- rewrite (process_opposed_outside _ piece input output' roi_in roi_out Hin Hout
             keep' quality' r2 row col H2 Hr Hc O).
  rewrite (process_opposed_outside _ piece input output roi_in roi_out Hin Hout
             keep quality r1 row col H1 Hr Hc O).
  reflexivity.
Qed.

Lemma published_correction_is_reused_witness :
  roi_ok (roi_at 0 0 9 9) /\
  @feqf (bench true) (@_color_magic (bench true) (bench_piece DT_DEV_PIXELPIPE_FULL))
        (@_color_magic (bench true) (bench_piece DT_DEV_PIXELPIPE_FULL)) c1e_6 = true /\
  (forall r1,
      @_process_opposed (bench true) bench_state (bench_piece DT_DEV_PIXELPIPE_FULL)
                        (red_clipped 9) blank (roi_at 0 0 9 9) (roi_at 0 0 9 9)
                        false true = Some r1 ->
      In Publish (out_trace r1) ->
      exists r2,
        @_process_opposed (bench true) (out_state r1) (bench_piece DT_DEV_PIXELPIPE_FULL)
                          (red_clipped 9) blank (roi_at 0 0 9 9) (roi_at 0 0 9 9)
                          false true = Some r2 /\
        out_state r2 = out_state r1).
Proof.
assert (A : roi_ok (roi_at 0 0 9 9)) by (unfold roi_ok; cbn; lia).
split; [exact A|]. split; [vm_compute; reflexivity|].
intros r1 H1 Hp.
destruct (@published_correction_is_reused (bench true) bench_state
            (bench_piece DT_DEV_PIXELPIPE_FULL) (red_clipped 9) blank blank
            (roi_at 0 0 9 9) (roi_at 0 0 9 9) false false true true r1 A A
            eq_refl H1 Hp) as (r2 & E & Es & _).
exists r2. split; [exact E|exact Es].
Defined.

(** ** The coarse grid *)

(** Photosites inside the border share a mask cell exactly when they lie in
    the same 3 x 3 block, as long as their column block is one of the
    [mwidth] blocks a row of the grid has room for. A frame whose width is 2
    modulo 3 has one more column block inside its border, and the row stride
    is still [mwidth]: the photosites of column [width - 2] share their cell
    with the first column block three rows further down. *)
Theorem coarse_cells_of_photosites
        (roi_in : dt_iop_roi_t) :
  frame_nonempty roi_in ->
  (forall row col row' col',
      inside_border roi_in row col -> inside_border roi_in row' col' ->
      col / 3 < mwidth_of roi_in -> col' / 3 < mwidth_of roi_in ->
      (_raw_to_cmap (mwidth_of roi_in) row col = _raw_to_cmap (mwidth_of roi_in) row' col'
       <-> row / 3 = row' / 3 /\ col / 3 = col' / 3)) /\
  (roi_width roi_in mod 3 = 2 -> 3 <= roi_width roi_in ->
   forall row,
     0 < row -> row + 3 < roi_height roi_in - 1 ->
     inside_border roi_in row (roi_width roi_in - 2) /\
     inside_border roi_in (row + 3) 1 /\
     _raw_to_cmap (mwidth_of roi_in) row (roi_width roi_in - 2)
     = _raw_to_cmap (mwidth_of roi_in) (row + 3) 1).
Proof.
intros Hne.
pose proof (mwidth_of_eq roi_in Hne) as Ew.
pose proof (mwidth_of_range roi_in Hne) as Rw.
split.
- intros row col row' col' [Hr Hc] [Hr' Hc'] Hb Hb'.
  destruct (cmap_range roi_in Hne row col Hr Hc) as [E _].
  destruct (cmap_range roi_in Hne row' col' Hr' Hc') as [E' _].
  rewrite E, E'.
  assert (A : 0 <= col / 3) by (apply Z.div_pos; lia).
  assert (A' : 0 <= col' / 3) by (apply Z.div_pos; lia).
  split.
  + intros Q.
    assert (R : row / 3 = row' / 3).
    { rewrite <- (index_div (row / 3) (col / 3) (mwidth_of roi_in)) by lia.
      rewrite <- (index_div (row' / 3) (col' / 3) (mwidth_of roi_in)) by lia.
      rewrite Q. reflexivity. }
    split; [exact R|]. rewrite R in Q. lia.
  + intros [-> ->]. reflexivity.
- intros Hm Hw3 row Hr Hr'.
  pose proof (Z.div_mod (roi_width roi_in) 3 ltac:(lia)) as D.
  destruct Hne as (Hw & Hh).
  assert (I1 : inside_border roi_in row (roi_width roi_in - 2))
    by (unfold inside_border; lia).
  assert (I2 : inside_border roi_in (row + 3) 1) by (unfold inside_border; lia).
  split; [exact I1|]. split; [exact I2|].
  destruct (cmap_range roi_in (conj Hw Hh) row (roi_width roi_in - 2)
              (proj1 I1) (proj2 I1)) as [E _].
  destruct (cmap_range roi_in (conj Hw Hh) (row + 3) 1 (proj1 I2) (proj2 I2)) as [E' _].
  rewrite E, E'.
  replace (roi_width roi_in - 2) with (mwidth_of roi_in * 3) by lia.
  rewrite Z.div_mul by lia.
  replace (row + 3) with (row + 1 * 3) by lia.
  rewrite Z.div_add by lia.
  change (1 / 3) with 0. lia.
Qed.

Lemma coarse_cells_of_photosites_witness :
  frame_nonempty (roi_at 0 0 11 9) /\
  roi_width (roi_at 0 0 11 9) mod 3 = 2 /\ 3 <= roi_width (roi_at 0 0 11 9) /\
  _raw_to_cmap (mwidth_of (roi_at 0 0 11 9)) 1 9
  = _raw_to_cmap (mwidth_of (roi_at 0 0 11 9)) 4 1.
Proof.
assert (A : frame_nonempty (roi_at 0 0 11 9)) by (unfold frame_nonempty; cbn; lia).
split; [exact A|]. split; [reflexivity|]. split; [cbn; lia|].
destruct (coarse_cells_of_photosites (roi_at 0 0 11 9) A) as [_ M].
destruct (M eq_refl ltac:(cbn; lia) 1 ltac:(lia) ltac:(cbn; lia)) as (_ & _ & E).
exact E.
Defined.

(** ** What the sraw variant reads *)

Section LoopExt.

Context {S : Type}.

Lemma for_range_ext n : forall i (body body' : Z -> S -> option S) s,
  (forall j t, i <= j < i + Z.of_nat n -> body j t = body' j t) ->
  for_range n i body s = for_range n i body' s.
Proof.
induction n as [|n IH]; intros i body body' s Hb; [reflexivity|].
cbn [for_range]. rewrite <- (Hb i s) by lia.
destruct (body i s) as [s'|]; [|reflexivity].
apply IH. intros j t Hj. apply Hb. lia.
Qed.

Lemma for_loop_ext lo hi (body body' : Z -> S -> option S) s :
  (forall j t, lo <= j < hi -> body j t = body' j t) ->
  for_loop lo hi body s = for_loop lo hi body' s.
Proof.
intros Hb. unfold for_loop. apply for_range_ext.
intros j t Hj. apply Hb. lia.
Qed.

Lemma iter_range_ext n : forall i (body body' : Z -> S -> S) s,
  (forall j t, i <= j < i + Z.of_nat n -> body j t = body' j t) ->
  iter_range n i body s = iter_range n i body' s.
Proof.
induction n as [|n IH]; intros i body body' s Hb; [reflexivity|].
cbn [iter_range]. rewrite <- (Hb i s) by lia.
apply IH. intros j t Hj. apply Hb. lia.
Qed.

Lemma for_each_ext lo hi (body body' : Z -> S -> S) s :
  (forall j t, lo <= j < hi -> body j t = body' j t) ->
  for_each lo hi body s = for_each lo hi body' s.
Proof.
intros Hb. unfold for_each. apply iter_range_ext.
intros j t Hj. apply Hb. lia.
Qed.

End LoopExt.

Section LinearReads.

Context `{Externals}.

Variables (input input' : buffer) (roi_in : dt_iop_roi_t).
Hypothesis Hne : frame_nonempty roi_in.
Hypothesis Hsame :
  forall i, 0 <= i < 4 * (roi_width roi_in * roi_height roi_in) -> input i = input' i.

Lemma pixel_in_buffer row col c :
  0 <= row < roi_height roi_in -> 0 <= col < roi_width roi_in -> 0 <= c < 4 ->
  0 <= (row * roi_width roi_in + col) * 4 + c
  < 4 * (roi_width roi_in * roi_height roi_in).
Proof. intros Hr Hc Hk. nia. Qed.

Lemma linear_refavg_same row col c :
  0 <= row < roi_height roi_in -> 0 <= col < roi_width roi_in ->
  _calc_linear_refavg input ((row * roi_width roi_in + col) * 4) c
  = _calc_linear_refavg input' ((row * roi_width roi_in + col) * 4) c.
Proof.
intros Hr Hc. unfold _calc_linear_refavg.
pose proof (pixel_in_buffer row col 0 Hr Hc ltac:(lia)) as P0.
pose proof (pixel_in_buffer row col 1 Hr Hc ltac:(lia)) as P1.
pose proof (pixel_in_buffer row col 2 Hr Hc ltac:(lia)) as P2.
rewrite Z.add_0_r in P0.
rewrite (Hsame _ P0), (Hsame _ P1), (Hsame _ P2). reflexivity.
Qed.

Lemma linear_mask_pass_same clips msize mwidth mask :
  linear_mask_pass input roi_in clips msize mwidth mask
  = linear_mask_pass input' roi_in clips msize mwidth mask.
Proof.
unfold linear_mask_pass. pose proof channels_range as Hn.
apply for_loop_ext. intros row t Hrow.
apply for_loop_ext. intros col u Hcol.
destruct (interior_bounds roi_in Hne row col Hrow Hcol) as [Hr Hc].
unfold linear_mask_body.
rewrite to_size_t_small by (destruct Hne; nia).
apply for_loop_ext. intros c [m a] Hk.
unfold linear_mask_channel.
rewrite (Hsame _ (pixel_in_buffer row col c ltac:(lia) ltac:(lia) ltac:(lia))).
reflexivity.
Qed.

Lemma linear_chroma_pass_same clips clipdark msize mwidth mask :
  linear_chroma_pass input roi_in clips clipdark msize mwidth mask
  = linear_chroma_pass input' roi_in clips clipdark msize mwidth mask.
Proof.
unfold linear_chroma_pass. pose proof channels_range as Hn.
apply for_loop_ext. intros row t Hrow.
apply for_loop_ext. intros col u Hcol.
destruct (interior_bounds roi_in Hne row col Hrow Hcol) as [Hr Hc].
unfold linear_chroma_body.
rewrite to_size_t_small by (destruct Hne; nia).
apply for_loop_ext. intros c [cs cc] Hk.
unfold linear_chroma_channel.
rewrite (Hsame _ (pixel_in_buffer row col c ltac:(lia) ltac:(lia) ltac:(lia))).
rewrite (linear_refavg_same row col c) by lia.
reflexivity.
Qed.

Lemma linear_reconstruct_same roi_out clips chrominance output :
  roi_ok roi_out ->
  linear_reconstruct input roi_in roi_out clips chrominance output
  = linear_reconstruct input' roi_in roi_out clips chrominance output.
Proof.
intros Hout. unfold linear_reconstruct. pose proof channels_range as Hn.
destruct Hne as (Hw & Hh).
apply for_each_ext. intros row t Hrow.
apply for_each_ext. intros col u Hcol.
apply for_each_ext. intros c b Hk.
f_equal. unfold linear_output_value.
assert (Hr : 0 <= Z.min row (roi_height roi_in - 1) < roi_height roi_in) by lia.
assert (Hc : 0 <= Z.min col (roi_width roi_in - 1) < roi_width roi_in) by lia.
rewrite (Hsame _ (pixel_in_buffer _ _ c Hr Hc ltac:(lia))).
rewrite (linear_refavg_same _ _ c Hr Hc).
reflexivity.
Qed.

End LinearReads.

(** The sraw variant reads its input inside the input region only: two
    input buffers that agree on the [4 * width * height] floats of the
    region give the same call, whatever they hold elsewhere. This includes
    an output region that extends past the input region. *)
Theorem sraw_reads_input_region_only `{Externals}
        (st : chroma_state) (piece : dt_dev_pixelpipe_iop_t)
        (input input' output : buffer) (roi_in roi_out : dt_iop_roi_t)
        (quality : bool) :
  frame_nonempty roi_in -> roi_ok roi_out ->
  (forall i, 0 <= i < 4 * (roi_width roi_in * roi_height roi_in) ->
             input i = input' i) ->
  _process_linear_opposed st piece input output roi_in roi_out quality
  = _process_linear_opposed st piece input' output roi_in roi_out quality.
Proof.
intros Hne Hout Hsame.
unfold _process_linear_opposed, linear_estimate.
destruct (negb _); [|cbn [bind];
  rewrite (linear_reconstruct_same input input' roi_in Hne Hsame) by exact Hout;
  reflexivity].
destruct (if quality then _ else _) as [mask|];
  [|cbn [bind];
    rewrite (linear_reconstruct_same input input' roi_in Hne Hsame) by exact Hout;
    reflexivity].
rewrite (linear_mask_pass_same input input' roi_in Hne Hsame).
destruct (linear_mask_pass input' _ _ _ _ _) as [[m any]|]; [|reflexivity].
cbn [bind]. destruct any.
- destruct (dilate_pass _ _ _ _) as [m2|]; [|reflexivity]. cbn [bind].
  rewrite (linear_chroma_pass_same input input' roi_in Hne Hsame).
  destruct (linear_chroma_pass input' _ _ _ _ _ _) as [[cs cc]|]; [|reflexivity].
  cbn [bind].
  destruct (linear_publish_condition piece roi_out); cbn [bind];
    rewrite (linear_reconstruct_same input input' roi_in Hne Hsame) by exact Hout;
    reflexivity.
- cbn [bind].
  destruct (linear_publish_condition piece roi_out); cbn [bind];
    rewrite (linear_reconstruct_same input input' roi_in Hne Hsame) by exact Hout;
    reflexivity.
Qed.

Lemma sraw_reads_input_region_only_witness :
  frame_nonempty (roi_at 0 0 9 9) /\ roi_ok (roi_at 0 0 12 12) /\
  (forall i, 0 <= i < 4 * (9 * 9) -> sraw_bright i = cropped 324 sraw_bright i) /\
  @_process_linear_opposed (bench true) bench_state (bench_piece DT_DEV_PIXELPIPE_FULL)
    sraw_bright blank (roi_at 0 0 9 9) (roi_at 0 0 12 12) true
  = @_process_linear_opposed (bench true) bench_state (bench_piece DT_DEV_PIXELPIPE_FULL)
      (cropped 324 sraw_bright) blank (roi_at 0 0 9 9) (roi_at 0 0 12 12) true.
Proof.
assert (A : frame_nonempty (roi_at 0 0 9 9)) by (unfold frame_nonempty; cbn; lia).
assert (B : roi_ok (roi_at 0 0 12 12)) by (unfold roi_ok; cbn; lia).
assert (C : forall i, 0 <= i < 4 * (9 * 9) -> sraw_bright i = cropped 324 sraw_bright i).
{ intros i Hi. unfold cropped.
  destruct (Z.leb_spec 0 i); [|lia]. destruct (Z.ltb_spec i 324); [|lia]. reflexivity. }
split; [exact A|]. split; [exact B|]. split; [exact C|].
apply (@sraw_reads_input_region_only (bench true) bench_state
         (bench_piece DT_DEV_PIXELPIPE_FULL) sraw_bright (cropped 324 sraw_bright)
         blank (roi_at 0 0 9 9) (roi_at 0 0 12 12) true A B C).
Defined.

(** ** A primary nothing contributes to *)

Lemma chrominance_of_sums_primary `{Externals}
      (chrominance s n : dt_aligned_pixel_t) (c : Z) :
  0 <= c <= 2 ->
  pget (chrominance_of_sums chrominance s n) c
  = fdiv (pget s c) (fmaxf one (pget n c)).
Proof.
intros Hc. unfold chrominance_of_sums, DT_PIXEL_SIMD_CHANNELS, for_each.
assert (Kc : c = 0 \/ c = 1 \/ c = 2) by lia.
destruct DT_NO_VECTORIZATION;
  [change (Z.to_nat (3 - 0)) with 3%nat|change (Z.to_nat (4 - 0)) with 4%nat];
  cbn [iter_range]; destruct chrominance;
  destruct Kc as [-> | [-> | ->]]; reflexivity.
Qed.

Lemma fold_left_skip {A B : Type} (f : A -> B -> A) (l : list B) (a : A) :
  (forall x b, In x l -> f b x = b) -> fold_left f l a = a.
Proof.
revert a. induction l as [|x l IH]; intros a Hf; [reflexivity|].
cbn [fold_left]. rewrite (Hf x a) by (left; reflexivity).
apply IH. intros y b Hy. apply Hf. right. exact Hy.
Qed.

(** When the accumulation pass of the mosaic variant has run and no
    photosite of primary [c] inside the border holds a value strictly
    between the dark threshold and the clip threshold of [c], the
    chrominance of [c] is [0 / max(1, 0)], that is +0: the value that was
    stored for [c] is not kept. *)
Theorem primary_without_contributor_gets_zero `{Externals}
        (st : chroma_state) (piece : dt_dev_pixelpipe_iop_t) (input output : buffer)
        (roi_in roi_out : dt_iop_roi_t) (keep quality : bool) (r : outcome) (c : Z) :
  frame_ok roi_in -> 0 <= c <= 2 ->
  _process_opposed st piece input output roi_in roi_out keep quality = Some r ->
  In ChromaAccumulate (out_trace r) ->
  (forall row col,
      inside_border roi_in row col ->
      photosite_color piece roi_in row col = c ->
      let v := fmaxf zero (input (row * roi_width roi_in + col)) in
      fgt v (pget (clipdark_of (clips_of piece)) c) && flt v (pget (clips_of piece) c)
      = false) ->
  pget (out_chrominance r) c = zero.
Proof.
intros [Hw Hh] Hc Hp Htr Hnone.
assert (Hne : frame_nonempty roi_in) by (unfold frame_nonempty; lia).
destruct (process_opposed_inv st piece input output roi_in roi_out keep quality r Hp)
  as (trace & tmp0 & Ee & _ & _ & _ & Etr).
assert (Ht : In ChromaAccumulate trace).
{ rewrite Etr in Htr. apply in_app_or in Htr. destruct Htr as [Hi|Hi]; [exact Hi|].
  destruct tmp0; cbn [app In] in Hi; intuition discriminate. }
clear Hp Htr Etr.
unfold opposed_estimate, dt_calloc_align in Ee.
destruct (negb _); [|injection Ee as _ _ <-; destruct Ht].
destruct (if quality then _ else _) as [mask|] eqn:Ea;
  [|injection Ee as _ _ <-; destruct Ht].
assert (Em : mask = zero_block (6 * msize_of roi_in)).
{ destruct quality; [|discriminate Ea].
  destruct (dt_calloc_align_succeeds _); [|discriminate Ea].
  injection Ea as <-. reflexivity. }
subst mask. clear Ea.
pose proof (msize_of_bounds roi_in Hne) as Hms.
pose proof (mwidth_of_range roi_in Hne) as Rw.
pose proof (mheight_of_range roi_in Hne) as Rh.
assert (Mw : 3 <= mwidth_of roi_in)
  by (rewrite (mwidth_of_eq roi_in Hne); apply Z.div_le_lower_bound; lia).
assert (Mh : 3 <= mheight_of roi_in)
  by (rewrite (mheight_of_eq roi_in Hne); apply Z.div_le_lower_bound; lia).
destruct (opposed_mask_pass_ok piece input roi_in (clips_of piece) Hne
            (zero_block (6 * msize_of roi_in)))
  as [m1 [any [E1 [Q1 [Z1 _]]]]];
  [apply zero_block_mask|intros i _; reflexivity|].
rewrite E1 in Ee. cbn [bind] in Ee.
destruct any;
  [|cbn [bind] in Ee;
    destruct (is_full (pipe_type piece) && dt_image_altered (image_id piece));
    injection Ee as _ _ <-; cbn [app In] in Ht; intuition discriminate].
destruct (dilate_pass_ok (msize_of roi_in) (mwidth_of roi_in) (mheight_of roi_in)
            ltac:(lia) ltac:(lia) ltac:(lia) ltac:(nia) ltac:(lia) m1 (proj1 Q1))
  as [m2 [E2 (_ & _ & _ & Q2)]].
rewrite E2 in Ee. cbn [bind] in Ee.
rewrite (opposed_chroma_pass_fold piece input roi_in (clips_of piece) m2 Hne (Q2 Q1))
  in Ee.
cbn [bind] in Ee.
destruct (opposed_fold_channel piece input roi_in (clips_of piece) m2 c
            (interior_photosites roi_in) Hc
            (mkpixel zero zero zero zero, mkpixel zero zero zero zero)) as [S1 S2].
cbv zeta in S1, S2.
destruct (fold_left _ _ _) as [cs cc]. cbn [bind fst snd] in *.
assert (Z0 : pget (mkpixel zero zero zero zero) c = zero)
  by (assert (Kc : c = 0 \/ c = 1 \/ c = 2) by lia;
      destruct Kc as [-> | [-> | ->]]; reflexivity).
assert (Hno : forall row col, In (row, col) (interior_photosites roi_in) ->
                opposed_contributes piece input roi_in (clips_of piece)
                  (clipdark_of (clips_of piece)) (msize_of roi_in) (mwidth_of roi_in)
                  m2 c row col = false).
{ intros row col Hi. apply in_interior_photosites in Hi.
  unfold opposed_contributes.
  destruct (Z.eqb_spec (photosite_color piece roi_in row col) c) as [Ek|Ek];
    [|reflexivity].
  cbn [andb]. rewrite (Hnone row col) by (unfold inside_border; lia || exact Ek).
  reflexivity. }
rewrite fold_left_skip in S1
  by (intros [row col] b Hi; rewrite (Hno row col Hi); reflexivity).
rewrite fold_left_skip in S2
  by (intros [row col] b Hi; rewrite (Hno row col Hi); reflexivity).
rewrite Z0 in S1, S2.
assert (Ech : out_chrominance r
              = chrominance_of_sums (stored_chrominance st) cs cc)
  by (destruct (is_full (pipe_type piece) && dt_image_altered (image_id piece));
      injection Ee as <- _ _; reflexivity).
rewrite Ech, chrominance_of_sums_primary by exact Hc.
rewrite S1, S2. reflexivity.
Qed.

Lemma primary_without_contributor_gets_zero_witness :
  frame_ok (roi_at 0 0 9 9) /\
  (forall row col,
      inside_border (roi_at 0 0 9 9) row col ->
      @photosite_color (bench true) (bench_piece DT_DEV_PIXELPIPE_FULL)
                       (roi_at 0 0 9 9) row col = 0 ->
      let v := fmaxf zero (red_clipped 9 (row * roi_width (roi_at 0 0 9 9) + col)) in
      fgt v (pget (clipdark_of (clips_of (bench_piece DT_DEV_PIXELPIPE_FULL))) 0)
      && flt v (pget (clips_of (bench_piece DT_DEV_PIXELPIPE_FULL)) 0) = false) /\
  (forall r,
      @_process_opposed (bench true) bench_state (bench_piece DT_DEV_PIXELPIPE_FULL)
                        (red_clipped 9) blank (roi_at 0 0 9 9) (roi_at 0 0 9 9)
                        false true = Some r ->
      In ChromaAccumulate (out_trace r) ->
      pget (out_chrominance r) 0 = zero).
Proof.
assert (A : frame_ok (roi_at 0 0 9 9)) by (unfold frame_ok; cbn; lia).
assert (B : forall row col,
      inside_border (roi_at 0 0 9 9) row col ->
      @photosite_color (bench true) (bench_piece DT_DEV_PIXELPIPE_FULL)
                       (roi_at 0 0 9 9) row col = 0 ->
      let v := fmaxf zero (red_clipped 9 (row * roi_width (roi_at 0 0 9 9) + col)) in
      fgt v (pget (clipdark_of (clips_of (bench_piece DT_DEV_PIXELPIPE_FULL))) 0)
      && flt v (pget (clips_of (bench_piece DT_DEV_PIXELPIPE_FULL)) 0) = false).
{ intros row col [Hr Hc] Hk. cbn in Hr, Hc.
  assert (Kr : row = 1 \/ row = 2 \/ row = 3 \/ row = 4 \/ row = 5 \/ row = 6 \/ row = 7)
    by lia.
  assert (Kc : col = 1 \/ col = 2 \/ col = 3 \/ col = 4 \/ col = 5 \/ col = 6 \/ col = 7)
    by lia.
  destruct Kr as [-> | [-> | [-> | [-> | [-> | [-> | ->]]]]]];
    destruct Kc as [-> | [-> | [-> | [-> | [-> | [-> | ->]]]]]];
    try (vm_compute in Hk; discriminate Hk); vm_compute; reflexivity. }
split; [exact A|]. split; [exact B|].
intros r Hp Ht.
apply (@primary_without_contributor_gets_zero (bench true) bench_state
         (bench_piece DT_DEV_PIXELPIPE_FULL) (red_clipped 9) blank
         (roi_at 0 0 9 9) (roi_at 0 0 9 9) false true r 0 A ltac:(lia) Hp Ht B).
Defined.

(** ** The marks of the fourth channel *)

Section ScanInv.

Context {S : Type}.

(** A scan of a rectangle, with an invariant that speaks of the cells gone
    through. *)
Lemma scan_inv (I : (Z -> Z -> Prop) -> S -> Prop) rlo rhi clo chi
      (body : Z -> Z -> S -> option S) s :
  (forall (D D' : Z -> Z -> Prop) t, (forall r c, D r c <-> D' r c) -> I D t -> I D' t) ->
  I (fun _ _ => False) s ->
  (forall (D : Z -> Z -> Prop) r c t, rlo <= r < rhi -> clo <= c < chi -> I D t ->
     exists t', body r c t = Some t' /\
                I (fun r' c' => D r' c' \/ (r' = r /\ c' = c)) t') ->
  exists t',
    for_loop rlo rhi (fun r => for_loop clo chi (body r)) s = Some t' /\
    I (fun r c => rlo <= r < rhi /\ clo <= c < chi) t'.
Proof.
intros Iext I0 Hbody.
destruct (Z_le_gt_dec rlo rhi) as [Hr|Hr];
  [|exists s; rewrite for_loop_empty by lia; split; [reflexivity|];
    apply (Iext (fun _ _ => False)); [intros r c; lia|exact I0]].
apply (for_loop_inv (fun j t => I (fun r c => rlo <= r < j /\ clo <= c < chi) t));
  [exact Hr|apply (Iext (fun _ _ => False)); [intros r c; lia|exact I0]|].
intros j t Hj It.
destruct (Z_le_gt_dec clo chi) as [Hc|Hc];
  [|exists t; rewrite for_loop_empty by lia; split; [reflexivity|];
    apply (Iext (fun r c => rlo <= r < j /\ clo <= c < chi)); [intros r c; lia|exact It]].
destruct (for_loop_inv
            (fun k t => I (fun r c => (rlo <= r < j /\ clo <= c < chi)
                                      \/ (r = j /\ clo <= c < k)) t)
            clo chi (body j) t Hc) as [t' [E It']].
- apply (Iext (fun r c => rlo <= r < j /\ clo <= c < chi)); [intros r c; lia|exact It].
- intros k u Hk Iu.
  destruct (Hbody _ j k u Hj Hk Iu) as [u' [Eu Iu']].
  exists u'. split; [exact Eu|].
  refine (Iext _ _ u' _ Iu'). intros r c. cbv beta. lia.
- exists t'. split; [exact E|].
  refine (Iext _ _ t' _ It'). intros r c. cbv beta. lia.
Qed.

End ScanInv.

Section FourthChannel.

Context `{Externals}.

Variables (input : buffer) (roi_in : dt_iop_roi_t) (clips : dt_aligned_pixel_t).
Hypothesis Hne : frame_nonempty roi_in.

(** One channel of the mask-build pass: no mark is lost, and the channel
    is marked when it is clipped. *)
Lemma linear_mask_channel_marks row col c m a :
  0 < row < roi_height roi_in - 1 -> 0 < col < roi_width roi_in - 1 ->
  0 <= c <= 3 -> mask_block (msize_of roi_in) m ->
  exists m' a',
    linear_mask_channel input clips (msize_of roi_in) (mwidth_of roi_in) row col
                        ((row * roi_width roi_in + col) * 4) c (m, a)
    = Some (m', a') /\
    mask_block (msize_of roi_in) m' /\
    (forall i, blk_data m i = 1 -> blk_data m' i = 1) /\
    (linear_clipped input roi_in clips row col c = true ->
     blk_data m' (c * msize_of roi_in + (row / 3 * mwidth_of roi_in + col / 3)) = 1).
Proof.
intros Hr Hc Hk Qm.
destruct (cmap_range roi_in Hne row col Hr Hc) as [Ecm Rcm].
pose proof (msize_of_bounds roi_in Hne) as Hms.
unfold linear_mask_channel, linear_clipped.
destruct (fge _ _).
- rewrite Ecm. rewrite to_size_t_small by nia.
  destruct (or_store_mask (msize_of roi_in) m
              (c * msize_of roi_in + (row / 3 * mwidth_of roi_in + col / 3)) Qm)
    as [m2 [E2 [Q2 [Hset Hother]]]]; [nia|].
  rewrite E2. cbn [bind]. exists m2, true. split; [reflexivity|].
  split; [exact Q2|]. split; [|intros _; exact Hset].
  intros i Hi.
  destruct (Z.eq_dec i (c * msize_of roi_in + (row / 3 * mwidth_of roi_in + col / 3)))
    as [->|Hd]; [exact Hset|].
  rewrite Hother by exact Hd. exact Hi.
- exists m, a. split; [reflexivity|]. split; [exact Qm|]. split; [auto|discriminate].
Qed.

(** The mask-build pass of the sraw variant marks, in plane [c], the cell of
    every pixel inside the border whose channel [c] is clipped. *)
Lemma linear_mask_pass_marks :
  exists m' any,
    linear_mask_pass input roi_in clips (msize_of roi_in) (mwidth_of roi_in)
                     (zero_block (6 * msize_of roi_in)) = Some (m', any) /\
    mask_block (msize_of roi_in) m' /\
    forall row col c,
      inside_border roi_in row col -> 0 <= c < DT_PIXEL_SIMD_CHANNELS ->
      linear_clipped input roi_in clips row col c = true ->
      blk_data m' (c * msize_of roi_in + (row / 3 * mwidth_of roi_in + col / 3)) = 1.
Proof.
unfold linear_mask_pass.
pose proof channels_range as Hn.
destruct (scan_inv
            (fun (D : Z -> Z -> Prop) (t : block * bool) =>
               mask_block (msize_of roi_in) (fst t) /\
               forall row col c, D row col -> 0 <= c < DT_PIXEL_SIMD_CHANNELS ->
                 linear_clipped input roi_in clips row col c = true ->
                 blk_data (fst t)
                   (c * msize_of roi_in + (row / 3 * mwidth_of roi_in + col / 3)) = 1)
            1 (to_size_t (roi_height roi_in - 1)) 1 (to_size_t (roi_width roi_in - 1))
            (linear_mask_body input roi_in clips (msize_of roi_in) (mwidth_of roi_in))
            (zero_block (6 * msize_of roi_in), false))
  as [[m' any] [E [Qm Hmarks]]].
- intros D D' t HD [Q M]. split; [exact Q|].
  intros row col c Hd. apply M, HD, Hd.
- cbn [fst]. split; [apply zero_block_mask|]. intros row col c [].
- intros D row col [m a] Hrow Hcol [Qm M]. cbn [fst] in *.
  destruct (interior_bounds roi_in Hne row col Hrow Hcol) as [Hr Hc].
  unfold linear_mask_body.
  assert (Ei : to_size_t ((row * roi_width roi_in + col) * 4)
               = (row * roi_width roi_in + col) * 4)
    by (destruct Hne; apply to_size_t_small; nia).
  rewrite Ei.
  destruct (linear_mask_channel_marks row col 0 m a Hr Hc ltac:(lia) Qm)
    as (m0 & a0 & E0 & Q0 & K0 & S0).
  destruct (linear_mask_channel_marks row col 1 m0 a0 Hr Hc ltac:(lia) Q0)
    as (m1 & a1 & E1 & Q1 & K1 & S1).
  destruct (linear_mask_channel_marks row col 2 m1 a1 Hr Hc ltac:(lia) Q1)
    as (m2 & a2 & E2 & Q2 & K2 & S2).
  destruct (linear_mask_channel_marks row col 3 m2 a2 Hr Hc ltac:(lia) Q2)
    as (m3 & a3 & E3 & Q3 & K3 & S3).
  unfold DT_PIXEL_SIMD_CHANNELS in *. destruct DT_NO_VECTORIZATION.
  + rewrite for_loop_3, E0. cbn [bind]. rewrite E1. cbn [bind]. rewrite E2.
    exists (m2, a2). split; [reflexivity|]. cbn [fst]. split; [exact Q2|].
    intros row' col' c [Hd|[-> ->]] Hc' Hcl.
    * apply K2, K1, K0, (M row' col' c Hd Hc' Hcl).
    * assert (Kc : c = 0 \/ c = 1 \/ c = 2) by lia.
      destruct Kc as [-> | [-> | ->]]; auto.
  + rewrite for_loop_4, E0. cbn [bind]. rewrite E1. cbn [bind]. rewrite E2.
    cbn [bind]. rewrite E3.
    exists (m3, a3). split; [reflexivity|]. cbn [fst]. split; [exact Q3|].
    intros row' col' c [Hd|[-> ->]] Hc' Hcl.
    * apply K3, K2, K1, K0, (M row' col' c Hd Hc' Hcl).
    * assert (Kc : c = 0 \/ c = 1 \/ c = 2 \/ c = 3) by lia.
      destruct Kc as [-> | [-> | [-> | ->]]]; auto.
- exists m', any. cbn [fst] in *. split; [exact E|]. split; [exact Qm|].
  intros row col c [Hr Hc] Hk Hcl. apply (Hmarks row col c); [|exact Hk|exact Hcl].
  destruct Hne as (Hw & Hh). rewrite !to_size_t_small by lia. lia.
Qed.

End FourthChannel.

(** In the sraw variant, when [for_each_channel] covers four channels, the
    mask-build pass marks the fourth channel in the plane at [3 * msize],
    which is the dilated plane of the first primary, and the dilation pass
    rewrites that plane only at the cells at least 3 cells from the coarse
    border. So at every other cell the dilated mask of the first primary is
    1 as soon as one pixel of the cell inside the border holds a fourth
    float that is not negative, whatever the first primary holds around
    it. *)
Theorem sraw_fourth_channel_marks_first_primary `{Externals}
        (piece : dt_dev_pixelpipe_iop_t) (input : buffer) (roi_in : dt_iop_roi_t) :
  frame_ok roi_in -> DT_NO_VECTORIZATION = false ->
  exists m,
    linear_dilated_mask piece input roi_in = Some m /\
    forall row col,
      inside_border roi_in row col ->
      fge (input ((row * roi_width roi_in + col) * 4 + 3)) zero = true ->
      ~ interior_cell (mwidth_of roi_in) (mheight_of roi_in) (row / 3) (col / 3) ->
      dilated_cell (msize_of roi_in) (mwidth_of roi_in) m 0 (row / 3) (col / 3) = 1.
Proof.
intros [Hw Hh] Hv.
assert (Hne : frame_nonempty roi_in) by (unfold frame_nonempty; lia).
pose proof (msize_of_bounds roi_in Hne) as Hms.
pose proof (mwidth_of_range roi_in Hne) as Rw.
pose proof (mheight_of_range roi_in Hne) as Rh.
assert (Mw : 3 <= mwidth_of roi_in)
  by (rewrite (mwidth_of_eq roi_in Hne); apply Z.div_le_lower_bound; lia).
assert (Mh : 3 <= mheight_of roi_in)
  by (rewrite (mheight_of_eq roi_in Hne); apply Z.div_le_lower_bound; lia).
destruct (linear_mask_pass_marks input roi_in (clips_of piece) Hne)
  as (m1 & any & E1 & Q1 & Marks).
assert (M3 : forall row col,
           inside_border roi_in row col ->
           fge (input ((row * roi_width roi_in + col) * 4 + 3)) zero = true ->
           blk_data m1 (3 * msize_of roi_in
                        + (row / 3 * mwidth_of roi_in + col / 3)) = 1).
{ intros row col Hi Hp. apply (Marks row col 3 Hi).
  - unfold DT_PIXEL_SIMD_CHANNELS. rewrite Hv. lia.
  - unfold linear_clipped. exact Hp. }
unfold linear_dilated_mask. rewrite E1. cbn [bind].
destruct any.
- destruct (dilate_pass_ok (msize_of roi_in) (mwidth_of roi_in) (mheight_of roi_in)
              ltac:(lia) ltac:(lia) ltac:(lia) ltac:(nia) ltac:(lia) m1 (proj1 Q1))
    as [m2 [E2 (_ & _ & Keep & _)]].
  exists m2. split; [exact E2|].
  intros row col Hi Hp Hb. unfold dilated_cell.
  replace ((0 + 3) * msize_of roi_in + row / 3 * mwidth_of roi_in + col / 3)
    with (3 * msize_of roi_in + (row / 3 * mwidth_of roi_in + col / 3)) by lia.
  rewrite Keep; [apply M3; assumption|].
  intros k r c Hk [Hr Hc] Heq.
  destruct (cmap_range roi_in Hne row col (proj1 Hi) (proj2 Hi)) as [_ Rcm].
  assert (Hb0 : 0 <= col / 3 <= mwidth_of roi_in).
  { rewrite (mwidth_of_eq roi_in Hne). destruct Hi as [_ Hc'].
    split; [apply Z.div_pos; lia|apply Z.div_le_mono; lia]. }
  assert (Rrc : 0 <= r * mwidth_of roi_in + c < msize_of roi_in) by nia.
  assert (K0 : k = 0) by nia. subst k.
  assert (Eq : row / 3 * mwidth_of roi_in + col / 3 = r * mwidth_of roi_in + c) by lia.
  destruct (Z.eq_dec (col / 3) (mwidth_of roi_in)) as [Eb|Nb].
  + rewrite Eb in Eq.
    assert (Ec : c = (row / 3 + 1 - r) * mwidth_of roi_in) by lia.
    exfalso.
    destruct (Z_le_gt_dec (row / 3 + 1 - r) 0) as [Q|Q].
    * assert (Q' : (row / 3 + 1 - r) * mwidth_of roi_in <= 0)
        by (apply Z.mul_nonpos_nonneg; lia).
      lia.
    * assert (Q' : 1 * mwidth_of roi_in <= (row / 3 + 1 - r) * mwidth_of roi_in)
        by (apply Z.mul_le_mono_nonneg_r; lia).
      lia.
  + assert (Er : row / 3 = r).
    { rewrite <- (index_div (row / 3) (col / 3) (mwidth_of roi_in)) by lia.
      rewrite <- (index_div r c (mwidth_of roi_in)) by lia.
      rewrite Eq. reflexivity. }
    apply Hb. unfold interior_cell. rewrite Er. split; [exact Hr|]. lia.
- exists m1. split; [reflexivity|].
  intros row col Hi Hp _. unfold dilated_cell.
  replace ((0 + 3) * msize_of roi_in + row / 3 * mwidth_of roi_in + col / 3)
    with (3 * msize_of roi_in + (row / 3 * mwidth_of roi_in + col / 3)) by lia.
  apply M3; assumption.
Qed.

Lemma sraw_fourth_channel_marks_first_primary_witness :
  frame_ok (roi_at 0 0 9 9) /\ @DT_NO_VECTORIZATION (bench true) = false /\
  inside_border (roi_at 0 0 9 9) 4 4 /\
  fge (blank ((4 * 9 + 4) * 4 + 3)) zero = true /\
  ~ interior_cell (mwidth_of (roi_at 0 0 9 9)) (mheight_of (roi_at 0 0 9 9))
                  (4 / 3) (4 / 3) /\
  exists m,
    @linear_dilated_mask (bench true) (bench_piece DT_DEV_PIXELPIPE_FULL) blank
                         (roi_at 0 0 9 9) = Some m /\
    dilated_cell (msize_of (roi_at 0 0 9 9)) (mwidth_of (roi_at 0 0 9 9)) m 0
                 (4 / 3) (4 / 3) = 1.
Proof.
assert (A : frame_ok (roi_at 0 0 9 9)) by (unfold frame_ok; cbn; lia).
assert (C : inside_border (roi_at 0 0 9 9) 4 4) by (unfold inside_border; cbn; lia).
assert (D : ~ interior_cell (mwidth_of (roi_at 0 0 9 9)) (mheight_of (roi_at 0 0 9 9))
                            (4 / 3) (4 / 3))
  by (unfold interior_cell; vm_compute; intros [[_ F] _]; discriminate F).
split; [exact A|]. split; [reflexivity|]. split; [exact C|]. split; [reflexivity|].
split; [exact D|].
destruct (@sraw_fourth_channel_marks_first_primary (bench true)
            (bench_piece DT_DEV_PIXELPIPE_FULL) blank (roi_at 0 0 9 9) A eq_refl)
  as [m [E M]].
exists m. split; [exact E|]. apply (M 4 4 C eq_refl D).
Defined.

(** ** The values written *)

Lemma emitted_is_number (x s : float) (b : bool) :
  let o := if b then fmaxf (fmaxf zero x) s else fmaxf zero x in
  is_nan o = false /\ flt o zero = false.
Proof.
cbv zeta. pose proof (fmaxf_zero_not_nan x) as Hn.
destruct b.
- split; [apply fmaxf_not_nan_l; exact Hn|].
  apply fge_not_flt.
  apply (fge_trans _ (fmaxf zero x)); [apply fmaxf_ge_l; exact Hn|].
  apply fmaxf_ge_l. reflexivity.
- split; [exact Hn|apply clamp_not_negative].
Qed.

Lemma reconstructed_value_is_number `{Externals}
      (piece : dt_dev_pixelpipe_iop_t) (input : buffer) (roi_in : dt_iop_roi_t)
      (clips chrominance : dt_aligned_pixel_t) (irow icol : Z) :
  is_nan (reconstructed_value piece input roi_in clips chrominance irow icol) = false /\
  flt (reconstructed_value piece input roi_in clips chrominance irow icol) zero = false.
Proof. unfold reconstructed_value. apply emitted_is_number. Qed.

(** Whatever the input holds (NaN, infinities, negative values) and
    whatever the reference average and the chrominance are, no value either
    variant writes to the output region, and no value of the buffer the mosaic
    variant returns, is NaN or negative. *)
Theorem emitted_values_are_not_nan_nor_negative `{Externals}
        (st : chroma_state) (piece : dt_dev_pixelpipe_iop_t) (input output : buffer)
        (roi_in roi_out : dt_iop_roi_t) (quality : bool) :
  roi_ok roi_in -> roi_ok roi_out ->
  (forall keep r row col,
      _process_opposed st piece input output roi_in roi_out keep quality = Some r ->
      0 <= row < roi_height roi_out -> 0 <= col < roi_width roi_out ->
      is_nan (out_buffer r (row * roi_width roi_out + col)) = false /\
      flt (out_buffer r (row * roi_width roi_out + col)) zero = false) /\
  (forall keep r t row col,
      _process_opposed st piece input output roi_in roi_out keep quality = Some r ->
      out_tmpout r = Some t -> inside_input roi_in row col ->
      is_nan (t (row * roi_width roi_in + col)) = false /\
      flt (t (row * roi_width roi_in + col)) zero = false) /\
  (forall r row col c,
      _process_linear_opposed st piece input output roi_in roi_out quality = Some r ->
      0 <= row < roi_height roi_out -> 0 <= col < roi_width roi_out ->
      0 <= c < DT_PIXEL_SIMD_CHANNELS ->
      is_nan (out_buffer r ((row * roi_width roi_out + col) * 4 + c)) = false /\
      flt (out_buffer r ((row * roi_width roi_out + col) * 4 + c)) zero = false).
Proof.
intros Hin Hout. split; [|split].
- intros keep r row col Hp Hr Hc.
  assert (Dec : inside_input roi_in (row + roi_y roi_out) (col + roi_x roi_out)
                \/ ~ inside_input roi_in (row + roi_y roi_out) (col + roi_x roi_out))
    by (unfold inside_input; lia).
  destruct Dec as [I|O].
  + rewrite (process_opposed_inside st piece input output roi_in roi_out Hin Hout
               keep quality r row col Hp Hr Hc I).
    apply reconstructed_value_is_number.
  + rewrite (process_opposed_outside st piece input output roi_in roi_out Hin Hout
               keep quality r row col Hp Hr Hc O).
    split; reflexivity.
- intros keep r t row col Hp Et Hi.
  rewrite (process_opposed_kept st piece input output roi_in roi_out keep quality r
             t row col Hin Hp Et Hi).
  apply reconstructed_value_is_number.
- intros r row col c Hp Hr Hc Hk.
  rewrite (process_linear_at st piece input output roi_in roi_out quality r row col c
             Hp Hr Hc Hk).
  unfold linear_output_value. apply emitted_is_number.
Qed.

Lemma emitted_values_are_not_nan_nor_negative_witness :
  roi_ok (roi_at 0 0 3 3) /\
  (forall r,
      @_process_opposed (bench true) bench_state (bench_piece DT_DEV_PIXELPIPE_FULL)
                        (single 4 S754_nan) blank (roi_at 0 0 3 3) (roi_at 0 0 3 3)
                        false true = Some r ->
      is_nan (out_buffer r (1 * 3 + 1)) = false).
Proof.
assert (A : roi_ok (roi_at 0 0 3 3)) by (unfold roi_ok; cbn; lia).
split; [exact A|].
intros r Hp.
destruct (@emitted_values_are_not_nan_nor_negative (bench true) bench_state
            (bench_piece DT_DEV_PIXELPIPE_FULL) (single 4 S754_nan) blank
            (roi_at 0 0 3 3) (roi_at 0 0 3 3) true A A) as [M _].
apply (M false r 1 1 Hp); cbn; lia.
Defined.

(** * Properties of the OpenCL host code *)

Lemma cl_stops_at_failure_spec `{Device} (log : list cl_call) :
  cl_stops_at_failure log = true ->
  forall pre c post,
    log = pre ++ c :: post -> cl_call_ok c = false ->
    forallb cl_is_release post = true.
Proof.
intros Hs pre. revert log Hs.
induction pre as [|x pre IH]; intros log Hs c post E Hc; subst log.
- cbn [app cl_stops_at_failure] in Hs. rewrite Hc in Hs.
  apply andb_true_iff in Hs. destruct Hs as [Hs _]. exact Hs.
- cbn [app cl_stops_at_failure] in Hs.
  apply andb_true_iff in Hs. destruct Hs as [_ Hs].
  apply (IH _ Hs c post eq_refl Hc).
Qed.

(** ** The calls made, one statement at a time *)

Section OpenCLRun.

Context `{Externals} `{Device}.

Local Abbreviation failing := (fun c : cl_call => negb (cl_call_ok c)).

Local Abbreviation not_release := (fun c : cl_call => negb (cl_is_release c)).

Lemma cl_issue_error (calls : list cl_call) (s : cl_machine) :
  cl_issue calls (GotoError s) = GotoError s.
Proof.
induction calls as [|c calls IH]; [reflexivity|exact IH].
Qed.

Lemma cl_then_next (f : cl_flow) : f >>> (fun s => Next s) = f.
Proof.
destruct f; reflexivity.
Qed.

Lemma cl_block (f : cl_flow) (calls : list cl_call) (k : cl_machine -> cl_flow) :
  f >>> (fun s => cl_issue calls (Next s) >>> k) = cl_issue calls f >>> k.
Proof.
destruct f as [s|s]; [reflexivity|].
rewrite cl_issue_error. reflexivity.
Qed.

Lemma cl_until_failure_app (a b : list cl_call) :
  cl_until_failure (a ++ b)
  = if forallb cl_call_ok a then a ++ cl_until_failure b else cl_until_failure a.
Proof.
induction a as [|c a IH]; [reflexivity|].
cbn [app cl_until_failure forallb].
destruct (cl_call_ok c); cbn [andb]; [|reflexivity].
rewrite IH. destruct (forallb cl_call_ok a); reflexivity.
Qed.

Lemma cl_until_failure_ok (a : list cl_call) :
  forallb cl_call_ok a = true -> cl_until_failure a = a.
Proof.
induction a as [|c a IH]; [reflexivity|].
cbn [cl_until_failure forallb]. intros Ha.
apply andb_true_iff in Ha. destruct Ha as [Hc Ha].
rewrite Hc, (IH Ha). reflexivity.
Qed.

Lemma cl_until_failure_prefix (a : list cl_call) :
  exists rest, a = cl_until_failure a ++ rest.
Proof.
induction a as [|c a [rest IH]]; [exists []; reflexivity|].
cbn [cl_until_failure]. destruct (cl_call_ok c).
- exists rest. cbn [app]. rewrite <- IH. reflexivity.
- exists a. reflexivity.
Qed.

Lemma cl_until_failure_in (a : list cl_call) (c : cl_call) :
  In c (cl_until_failure a) -> In c a.
Proof.
intros Hi. destruct (cl_until_failure_prefix a) as [rest E].
rewrite E. apply in_or_app. left. exact Hi.
Qed.

Lemma cl_until_failure_forallb (p : cl_call -> bool) (a : list cl_call) :
  forallb p a = true -> forallb p (cl_until_failure a) = true.
Proof.
intros Ha. destruct (cl_until_failure_prefix a) as [rest E].
rewrite E, forallb_app in Ha. apply andb_true_iff in Ha. apply Ha.
Qed.

Lemma cl_until_failure_acquired (a : list cl_call) (m : cl_mem) :
  cl_acquired a m = false -> cl_acquired (cl_until_failure a) m = false.
Proof.
intros Ha. destruct (cl_until_failure_prefix a) as [rest E].
unfold cl_acquired in *. rewrite E, existsb_app in Ha.
apply orb_false_iff in Ha. apply Ha.
Qed.

Lemma find_app_first {A : Type} (p : A -> bool) (a b : list A) :
  find p (a ++ b) = match find p a with Some x => Some x | None => find p b end.
Proof.
induction a as [|x a IH]; [reflexivity|].
cbn [app find]. destruct (p x); [reflexivity|exact IH].
Qed.

Lemma find_failing (a : list cl_call) :
  match find failing a with
  | None => forallb cl_call_ok a = true
  | Some c => forallb cl_call_ok a = false /\ cl_call_ok c = false
  end.
Proof.
induction a as [|c a IH]; [reflexivity|].
cbn [find forallb]. destruct (cl_call_ok c) eqn:Hc; cbn [negb andb].
- exact IH.
- split; [reflexivity|exact Hc].
Qed.

Lemma find_failing_until (a : list cl_call) :
  find failing (cl_until_failure a) = find failing a.
Proof.
induction a as [|c a IH]; [reflexivity|].
cbn [cl_until_failure find]. destruct (cl_call_ok c); cbn [negb]; [exact IH|reflexivity].
Qed.

Lemma cl_failed_status (c : cl_call) :
  DT_OPENCL_DEFAULT_ERROR <> CL_SUCCESS ->
  cl_call_ok c = false -> cl_call_status c <> CL_SUCCESS.
Proof.
intros Hd. destruct c; cbn [cl_call_ok cl_call_status]; intros Hc;
  try exact Hd; try (apply Z.eqb_neq; exact Hc); discriminate Hc.
Qed.

Lemma cl_mem_eqb_eq (a b : cl_mem) : cl_mem_eqb a b = true -> a = b.
Proof.
destruct a, b; intros E; try reflexivity; discriminate E.
Qed.

Lemma cl_acquired_step (calls : list cl_call) (c : cl_call) (m' : cl_mem) :
  cl_acquired (calls ++ [c]) m'
  = cl_acquired calls m'
    || match c with
       | CopyHostToDeviceConstant m _ | AllocDeviceBuffer m _ =>
           cl_mem_eqb m' m && acquires m
       | _ => false
       end.
Proof.
unfold cl_acquired. rewrite existsb_app. cbn [existsb]. rewrite orb_false_r.
destruct c; try reflexivity;
  destruct (cl_mem_eqb m' m) eqn:Q; try reflexivity;
  apply cl_mem_eqb_eq in Q; subst; reflexivity.
Qed.

(** One statement more. *)
Lemma cl_after_step (calls : list cl_call) (f : cl_flow)
      (cfun : cl_machine -> cl_call) (c : cl_call) :
  cl_after calls f -> cl_is_release c = false ->
  (forall s, f = Next s -> cfun s = c) ->
  cl_after (calls ++ [c]) (f >>> (fun s => cl_do (cfun s) s)).
Proof.
intros (Ef & El & Eh & Er & Ee) Hc Hf.
pose proof (find_failing calls) as Ff.
unfold cl_after.
rewrite forallb_app, cl_until_failure_app, find_app_first.
destruct f as [s|s]; cbn [cl_state cl_then cl_return] in *;
  destruct (forallb cl_call_ok calls) eqn:A; try discriminate Ef.
- rewrite (Hf s eq_refl).
  rewrite (cl_until_failure_ok calls A) in El, Eh.
  destruct (find failing calls); [destruct Ff as [Ff _]; discriminate Ff|].
  specialize (Ee eq_refl).
  destruct c; try discriminate Hc;
    cbn [cl_do cl_call_ok cl_call_status forallb find cl_until_failure andb negb];
    unfold acquire, attempt; cbv zeta;
    match goal with
    | |- context [acquires ?m] => destruct (acquires m) eqn:K
    | |- context [?x =? CL_SUCCESS] => destruct (x =? CL_SUCCESS) eqn:K
    end;
    cbn [cl_state cl_return cl_log cl_held cl_err cl_call_status negb andb];
    (split; [reflexivity|]);
    (split; [rewrite El; reflexivity|]);
    (split; [intros m'; rewrite cl_acquired_step; cbn [existsb];
             rewrite Eh, ?K, ?andb_true_r, ?andb_false_r, ?orb_false_r;
             try reflexivity; apply orb_comm|]);
    (split; [try reflexivity; try rewrite K; try reflexivity;
             destruct Ee as [Ee|Ee]; rewrite Ee;
             try destruct (DT_OPENCL_DEFAULT_ERROR =? CL_SUCCESS);
             reflexivity|]);
    intros T; try discriminate T; try exact Ee;
    right; apply Z.eqb_eq; exact K.
- cbn [andb].
  destruct (find failing calls) as [x|]; [|discriminate Ff].
  repeat split; try assumption; intros T; discriminate T.
Qed.

Lemma cl_after_issue (cs calls : list cl_call) (f : cl_flow) :
  cl_after calls f -> forallb not_release cs = true ->
  cl_after (calls ++ cs) (cl_issue cs f).
Proof.
revert calls f.
induction cs as [|c cs IH]; intros calls f Hf Hcs.
- rewrite app_nil_r. exact Hf.
- cbn [forallb] in Hcs. apply andb_true_iff in Hcs. destruct Hcs as [Hc Hcs].
  apply negb_true_iff in Hc.
  pose proof (cl_after_step calls f (fun _ => c) c Hf Hc (fun _ _ => eq_refl)) as S.
  specialize (IH _ _ S Hcs).
  rewrite <- app_assoc in IH. exact IH.
Qed.

Lemma cl_after_update (calls : list cl_call) (f : cl_flow)
      (g : cl_machine -> cl_machine) :
  cl_after calls f ->
  (forall s, cl_err (g s) = cl_err s) ->
  (forall s, cl_held (g s) = cl_held s) ->
  (forall s, cl_log (g s) = cl_log s) ->
  cl_after calls (f >>> (fun s => Next (g s))).
Proof.
intros (Ef & El & Eh & Er & Ee) Ge Gh Gl.
unfold cl_after.
destruct f as [s|s]; cbn [cl_state cl_then cl_return] in *.
- rewrite Ge, Gh, Gl.
  destruct (forallb cl_call_ok calls); [|discriminate Ef].
  repeat split; assumption.
- repeat split; assumption.
Qed.

(** No call changes the chrominance or the chrominance state. *)
Lemma cl_do_keeps (c : cl_call) (s : cl_machine) :
  cl_chrominance (cl_state (cl_do c s)) = cl_chrominance s /\
  cl_chroma (cl_state (cl_do c s)) = cl_chroma s.
Proof.
destruct c; cbn [cl_do]; unfold acquire, attempt, release; cbv zeta;
  try match goal with
      | |- context [acquires ?m] => destruct (acquires m)
      | |- context [?x =? CL_SUCCESS] => destruct (x =? CL_SUCCESS)
      end;
  split; reflexivity.
Qed.

Lemma cl_step_keeps (f : cl_flow) (cfun : cl_machine -> cl_call) :
  cl_chrominance (cl_state (f >>> (fun s => cl_do (cfun s) s)))
  = cl_chrominance (cl_state f) /\
  cl_chroma (cl_state (f >>> (fun s => cl_do (cfun s) s))) = cl_chroma (cl_state f).
Proof.
destruct f as [s|s]; cbn [cl_then cl_state]; [apply cl_do_keeps|split; reflexivity].
Qed.

Lemma cl_issue_keeps (cs : list cl_call) (f : cl_flow) :
  cl_chrominance (cl_state (cl_issue cs f)) = cl_chrominance (cl_state f) /\
  cl_chroma (cl_state (cl_issue cs f)) = cl_chroma (cl_state f).
Proof.
revert f. induction cs as [|c cs IH]; intros f; [split; reflexivity|].
destruct (IH (f >>> cl_do c)) as [I1 I2].
destruct (cl_step_keeps f (fun _ => c)) as [S1 S2].
split; [exact (eq_trans I1 S1)|exact (eq_trans I2 S2)].
Qed.

(** The shape of the function: the first calls, the estimation block under
    its test with the update that ends it, the copy of the chrominance and
    the last launch. *)
Lemma cl_skeleton (setup est : list cl_call) (chrom : dt_aligned_pixel_t -> cl_call)
      (opp : cl_call) (mm : bool)
      (gc : dt_aligned_pixel_t -> dt_aligned_pixel_t)
      (hc : dt_aligned_pixel_t -> chroma_state -> chroma_state)
      (s0 : cl_machine) :
  forallb not_release setup = true -> forallb not_release est = true ->
  (forall p, cl_is_release (chrom p) = false) -> cl_is_release opp = false ->
  cl_after [] (Next s0) ->
  let upd := fun s => {| cl_err := cl_err s;
                         cl_held := cl_held s;
                         cl_chrominance := gc (cl_chrominance s);
                         cl_chroma := hc (gc (cl_chrominance s)) (cl_chroma s);
                         cl_log := cl_log s |} in
  let f := cl_issue setup (Next s0)
           >>> (fun s => if mm
                         then cl_issue est (Next s) >>> (fun s => Next (upd s))
                         else Next s)
           >>> (fun s => cl_do (chrom (cl_chrominance s)) s)
           >>> cl_do opp in
  cl_after (setup ++ (if mm then est else [])
            ++ [chrom (if mm then gc (cl_chrominance s0) else cl_chrominance s0); opp]) f /\
  cl_chroma (cl_state f)
  = (if mm && (forallb cl_call_ok setup && forallb cl_call_ok est)
     then hc (gc (cl_chrominance s0)) (cl_chroma s0)
     else cl_chroma s0).
Proof.
intros Ns Ne Nc No I0 upd f. subst f.
pose proof (cl_after_issue setup [] (Next s0) I0 Ns) as A1. cbn [app] in A1.
destruct (cl_issue_keeps setup (Next s0)) as [K1 K1']. cbn [cl_state] in K1, K1'.
set (F1 := cl_issue setup (Next s0)) in *.
destruct mm; cbv beta iota.
- rewrite (cl_block F1 est).
  pose proof (cl_after_issue est setup F1 A1 Ne) as A2.
  destruct (cl_issue_keeps est F1) as [K2 K2'].
  set (F2 := cl_issue est F1) in *.
  pose proof (cl_after_update _ F2 upd A2 (fun _ => eq_refl) (fun _ => eq_refl)
                (fun _ => eq_refl)) as A3.
  assert (C3 : forall s, F2 >>> (fun s => Next (upd s)) = Next s ->
                         chrom (cl_chrominance s) = chrom (gc (cl_chrominance s0))).
  { intros s E. destruct F2 as [s2|s2]; cbn [cl_then cl_state] in *; [|discriminate E].
    injection E as <-. cbn [upd cl_chrominance]. rewrite K2, K1. reflexivity. }
  pose proof (cl_after_step _ _ (fun s => chrom (cl_chrominance s)) _ A3
                (Nc _) C3) as A4.
  pose proof (cl_after_step _ _ (fun _ => opp) opp A4 No (fun _ _ => eq_refl)) as A5.
  rewrite <- !app_assoc in A5. cbn [app] in A5.
  split; [exact A5|].
  destruct (cl_step_keeps (F2 >>> (fun s => Next (upd s))
                           >>> (fun s => cl_do (chrom (cl_chrominance s)) s))
              (fun _ => opp)) as [_ S5].
  destruct (cl_step_keeps (F2 >>> (fun s => Next (upd s)))
              (fun s => chrom (cl_chrominance s))) as [_ S4].
  refine (eq_trans S5 (eq_trans S4 _)). cbn [andb].
  destruct A2 as (E2 & _). rewrite forallb_app in E2.
  destruct F2 as [s2|s2]; cbn [cl_then cl_state] in *;
    destruct (forallb cl_call_ok setup && forallb cl_call_ok est);
    try discriminate E2.
  + cbn [upd cl_chroma]. rewrite K2, K2', K1, K1'. reflexivity.
  + rewrite K2', K1'. reflexivity.
- rewrite cl_then_next.
  assert (C3 : forall s, F1 = Next s ->
                         chrom (cl_chrominance s) = chrom (cl_chrominance s0)).
  { intros s E. rewrite E in K1. cbn [cl_state] in K1. rewrite K1. reflexivity. }
  pose proof (cl_after_step _ _ (fun s => chrom (cl_chrominance s)) _ A1
                (Nc _) C3) as A4.
  pose proof (cl_after_step _ _ (fun _ => opp) opp A4 No (fun _ _ => eq_refl)) as A5.
  rewrite <- !app_assoc in A5. cbn [app] in A5.
  split; [exact A5|].
  destruct (cl_step_keeps (F1 >>> (fun s => cl_do (chrom (cl_chrominance s)) s))
              (fun _ => opp)) as [_ S5].
  destruct (cl_step_keeps F1 (fun s => chrom (cl_chrominance s))) as [_ S4].
  exact (eq_trans S5 (eq_trans S4 K1')).
Qed.

End OpenCLRun.

(** ** The two exits and their releases *)

Section OpenCLExit.

Context `{Externals} `{Device}.

Local Abbreviation failing := (fun c : cl_call => negb (cl_call_ok c)).

Local Abbreviation not_release := (fun c : cl_call => negb (cl_is_release c)).

Lemma existsb_filter_other (m m' : cl_mem) (h : list cl_mem) :
  cl_mem_eqb m m' = false ->
  existsb (cl_mem_eqb m) (filter (fun x => negb (cl_mem_eqb x m')) h)
  = existsb (cl_mem_eqb m) h.
Proof.
intros Hm. induction h as [|x h IH]; [reflexivity|].
cbn [filter existsb]. destruct (cl_mem_eqb x m') eqn:Q; cbn [negb existsb].
- apply cl_mem_eqb_eq in Q. subst x. rewrite Hm. exact IH.
- rewrite IH. reflexivity.
Qed.

Lemma release_log (m : cl_mem) (s : cl_machine) :
  cl_log (release m s)
  = cl_log s ++ [ReleaseMemObject m (existsb (cl_mem_eqb m) (cl_held s))].
Proof.
reflexivity.
Qed.

Lemma release_held (m : cl_mem) (s : cl_machine) :
  cl_held (release m s) = filter (fun x => negb (cl_mem_eqb x m)) (cl_held s).
Proof.
reflexivity.
Qed.

Lemma release_all_log (s : cl_machine) :
  cl_log (release_all s)
  = cl_log s ++ map (fun m => ReleaseMemObject m (existsb (cl_mem_eqb m) (cl_held s)))
                    cl_owned.
Proof.
unfold release_all.
rewrite !release_log, !release_held.
rewrite !existsb_filter_other by reflexivity.
rewrite <- !app_assoc. reflexivity.
Qed.

Lemma release_all_held (s : cl_machine) :
  existsb (cl_mem_eqb dev_in) (cl_held s) = false ->
  existsb (cl_mem_eqb dev_out) (cl_held s) = false ->
  cl_held (release_all s) = [].
Proof.
unfold release_all. rewrite !release_held.
induction (cl_held s) as [|x h IH]; [reflexivity|].
cbn [existsb]. intros Hi Ho.
apply orb_false_iff in Hi. destruct Hi as [Hi Hi'].
apply orb_false_iff in Ho. destruct Ho as [Ho Ho'].
destruct x; try discriminate Hi; try discriminate Ho;
  cbn [filter cl_mem_eqb negb]; exact (IH Hi' Ho').
Qed.

Lemma release_all_keeps (s : cl_machine) :
  cl_chroma (release_all s) = cl_chroma s.
Proof.
reflexivity.
Qed.

Lemma releases_ok (f : cl_mem -> bool) (l : list cl_mem) :
  find failing (map (fun m => ReleaseMemObject m (f m)) l) = None /\
  forallb cl_is_release (map (fun m => ReleaseMemObject m (f m)) l) = true /\
  cl_stops_at_failure (map (fun m => ReleaseMemObject m (f m)) l) = true.
Proof.
induction l as [|m l (I1 & I2 & I3)]; [repeat split|].
cbn [map find forallb cl_stops_at_failure cl_call_ok cl_is_release negb andb orb].
repeat split; assumption.
Qed.

Lemma until_failure_stops (a : list cl_call) (f : cl_mem -> bool) (l : list cl_mem) :
  cl_stops_at_failure
    (cl_until_failure a ++ map (fun m => ReleaseMemObject m (f m)) l) = true.
Proof.
destruct (releases_ok f l) as (_ & R2 & R3).
induction a as [|c a IH]; [exact R3|].
cbn [cl_until_failure app cl_stops_at_failure].
destruct (cl_call_ok c); cbn [orb andb app]; [exact IH|].
rewrite R2, R3. reflexivity.
Qed.

Lemma estimated_chrominance (st : chroma_state) :
  for_each 0 3
    (fun c chrom => pset chrom c (fdiv (accu_read c) (fmaxf one (accu_read (c + 4)))))
    (stored_chrominance st)
  = cl_chrominance_read.
Proof.
reflexivity.
Qed.

Lemma cl_exit (f : cl_flow) :
  match f with
  | Next s => (CL_SUCCESS, release_all s)
  | GotoError s =>
      (if cl_err s =? CL_SUCCESS then DT_OPENCL_DEFAULT_ERROR else cl_err s,
       release_all s)
  end = (cl_return f, release_all (cl_state f)).
Proof.
destruct f; reflexivity.
Qed.

Lemma estimation_succeeds_calls (piece : dt_dev_pixelpipe_iop_t) (roi_in : dt_iop_roi_t)
      (clips clipdark : dt_aligned_pixel_t) (iw ih mw mh ms : Z) (mm : bool) :
  mm && (forallb cl_call_ok (cl_setup_calls piece clips)
         && forallb cl_call_ok (cl_estimation_calls piece roi_in clipdark iw ih mw mh ms))
  = mm && acquires dev_xtrans && acquires dev_clips && cl_estimation_succeeds.
Proof.
unfold cl_estimation_succeeds.
cbn [cl_setup_calls cl_estimation_calls forallb cl_call_ok].
rewrite !andb_true_r, !andb_assoc. reflexivity.
Qed.

(** What the run of [process_opposed_cl] comes to: the log is the calls of
    the source up to the first that fails, then the seven releases; no
    buffer is held; the value returned is the status of the call that
    failed; the chrominance state is written when the estimation block ran
    to its end. *)
Lemma process_opposed_cl_summary (st : chroma_state) (piece : dt_dev_pixelpipe_iop_t)
      (roi_in roi_out : dt_iop_roi_t) :
  let done := cl_until_failure (cl_planned st piece roi_in roi_out) in
  cl_log (snd (process_opposed_cl st piece roi_in roi_out))
  = done ++ map (fun m => ReleaseMemObject m (cl_acquired done m)) cl_owned /\
  cl_held (snd (process_opposed_cl st piece roi_in roi_out)) = [] /\
  fst (process_opposed_cl st piece roi_in roi_out)
  = match find failing (cl_planned st piece roi_in roi_out) with
    | None => CL_SUCCESS
    | Some c => cl_call_status c
    end /\
  cl_chroma (snd (process_opposed_cl st piece roi_in roi_out))
  = (if negb (feqf (_color_magic piece) (pget (d_chroma_correction st) 3) c1e_6)
        && acquires dev_xtrans && acquires dev_clips && cl_estimation_succeeds
        && (is_full (pipe_type piece) && dt_image_altered (image_id piece))
     then publish piece cl_chrominance_read st else st).
Proof.
intros done.
assert (Ni : cl_acquired (cl_planned st piece roi_in roi_out) dev_in = false)
  by (unfold cl_planned; cbv zeta;
      destruct (negb (feqf (_color_magic piece) (pget (d_chroma_correction st) 3)
                           c1e_6)); reflexivity).
assert (No : cl_acquired (cl_planned st piece roi_in roi_out) dev_out = false)
  by (unfold cl_planned; cbv zeta;
      destruct (negb (feqf (_color_magic piece) (pget (d_chroma_correction st) 3)
                           c1e_6)); reflexivity).
apply cl_until_failure_acquired in Ni, No. fold done in Ni, No.
revert Ni No. subst done.
unfold process_opposed_cl, cl_planned. cbv zeta.
set (clips := mkpixel _ _ _ one).
set (clipdark := mkpixel _ _ _ zero).
set (mm := negb _).
set (s0 := Build_cl_machine _ _ _ _ _).
rewrite cl_exit. cbn [fst snd].
match goal with
| |- context [cl_return ?F] => set (flow := F)
end.
pose proof (cl_skeleton
              (cl_setup_calls piece clips)
              (cl_estimation_calls piece roi_in clipdark
                 (ROUNDUPDWD (roi_width roi_in)) (ROUNDUPDHT (roi_height roi_in))
                 (cl_mwidth roi_in) (cl_mheight roi_in) (cl_msize roi_in))
              (fun p => CopyHostToDeviceConstant dev_chrominance (HostPixel p))
              (cl_opposed_call piece roi_in roi_out
                 (ROUNDUPDWD (roi_width roi_in)) (ROUNDUPDHT (roi_height roi_in)))
              mm
              (for_each 0 3
                 (fun c chrom =>
                    pset chrom c (fdiv (accu_read c) (fmaxf one (accu_read (c + 4))))))
              (fun p cs => if is_full (pipe_type piece)
                              && dt_image_altered (image_id piece)
                           then publish piece p cs else cs)
              s0 eq_refl eq_refl (fun _ => eq_refl) eq_refl) as S.
assert (I0 : cl_after [] (Next s0)).
{ unfold cl_after, s0. cbn [forallb cl_state cl_log cl_held cl_err cl_until_failure
                            existsb cl_acquired cl_return find].
  repeat split. intros _. left. reflexivity. }
specialize (S I0). cbv zeta in S.
cbn [cl_chrominance cl_chroma s0] in S.
rewrite estimated_chrominance, estimation_succeeds_calls in S.
destruct S as [A C].
assert (A' : cl_after
               (cl_setup_calls piece clips
                ++ (if mm
                    then cl_estimation_calls piece roi_in clipdark
                           (ROUNDUPDWD (roi_width roi_in))
                           (ROUNDUPDHT (roi_height roi_in))
                           (cl_mwidth roi_in) (cl_mheight roi_in) (cl_msize roi_in)
                    else [])
                ++ [CopyHostToDeviceConstant dev_chrominance
                      (HostPixel (if mm then cl_chrominance_read
                                  else stored_chrominance st));
                    cl_opposed_call piece roi_in roi_out
                      (ROUNDUPDWD (roi_width roi_in))
                      (ROUNDUPDHT (roi_height roi_in))]) flow)
  by exact A.
assert (C' : cl_chroma (cl_state flow)
             = (if mm && acquires dev_xtrans && acquires dev_clips
                   && cl_estimation_succeeds
                then if is_full (pipe_type piece) && dt_image_altered (image_id piece)
                     then publish piece cl_chrominance_read st else st
                else st))
  by exact C.
clear A C. clearbody flow.
destruct A' as (_ & El & Eh & Er & _).
intros Ni No.
split.
{ rewrite release_all_log, El. f_equal. apply map_ext. intros m. rewrite Eh. reflexivity. }
split.
{ apply release_all_held; rewrite Eh; assumption. }
split; [exact Er|].
rewrite release_all_keeps, C'.
destruct (mm && acquires dev_xtrans && acquires dev_clips && cl_estimation_succeeds);
  reflexivity.
Qed.

Lemma cl_planned_not_release (st : chroma_state) (piece : dt_dev_pixelpipe_iop_t)
      (roi_in roi_out : dt_iop_roi_t) :
  forallb not_release (cl_planned st piece roi_in roi_out) = true.
Proof.
unfold cl_planned. cbv zeta.
destruct (negb (feqf (_color_magic piece) (pget (d_chroma_correction st) 3) c1e_6));
  reflexivity.
Qed.

Lemma find_failing_log (a : list cl_call) (f : cl_mem -> bool) (l : list cl_mem) :
  find failing (cl_until_failure a ++ map (fun m => ReleaseMemObject m (f m)) l)
  = find failing a.
Proof.
destruct (releases_ok f l) as (R1 & _).
rewrite find_app_first, find_failing_until, R1.
destruct (find failing a); reflexivity.
Qed.

End OpenCLExit.

(** What [process_opposed_cl] returns. It returns [CL_SUCCESS] exactly when
    none of its calls to the device failed. Otherwise it returns the status
    of the launch or of the transfer that failed, or the default error code
    when a copy or an allocation returned no buffer; this is never
    [CL_SUCCESS], also when launches had succeeded before the failure. And
    after a call that failed it makes no further call but the releases. *)
Theorem opencl_return_code `{Externals} `{Device}
        (st : chroma_state) (piece : dt_dev_pixelpipe_iop_t)
        (roi_in roi_out : dt_iop_roi_t) :
  DT_OPENCL_DEFAULT_ERROR <> CL_SUCCESS ->
  match find (fun c => negb (cl_call_ok c))
             (cl_log (snd (process_opposed_cl st piece roi_in roi_out))) with
  | None => fst (process_opposed_cl st piece roi_in roi_out) = CL_SUCCESS
  | Some c =>
      fst (process_opposed_cl st piece roi_in roi_out) = cl_call_status c /\
      fst (process_opposed_cl st piece roi_in roi_out) <> CL_SUCCESS
  end /\
  (forall pre c post,
      cl_log (snd (process_opposed_cl st piece roi_in roi_out)) = pre ++ c :: post ->
      cl_call_ok c = false ->
      forallb cl_is_release post = true).
Proof.
intros Hd.
destruct (process_opposed_cl_summary st piece roi_in roi_out) as (L & _ & R & _).
rewrite L, R. split.
- rewrite find_failing_log.
  destruct (find (fun c => negb (cl_call_ok c)) (cl_planned st piece roi_in roi_out))
    as [c|] eqn:F; [|reflexivity].
  split; [reflexivity|].
  apply find_some in F. destruct F as [_ F]. apply negb_true_iff in F.
  apply cl_failed_status; assumption.
- apply cl_stops_at_failure_spec. apply until_failure_stops.
Qed.

Lemma opencl_return_code_witness :
  @DT_OPENCL_DEFAULT_ERROR (bench_device dev_chrominance None) <> CL_SUCCESS /\
  fst (@process_opposed_cl (bench true) (bench_device dev_chrominance None)
         bench_state (bench_piece DT_DEV_PIXELPIPE_FULL)
         (roi_at 0 0 9 9) (roi_at 0 0 9 9)) = -999.
Proof.
assert (A : @DT_OPENCL_DEFAULT_ERROR (bench_device dev_chrominance None) <> CL_SUCCESS)
  by discriminate.
split; [exact A|].
destruct (@opencl_return_code (bench true) (bench_device dev_chrominance None)
            bench_state (bench_piece DT_DEV_PIXELPIPE_FULL)
            (roi_at 0 0 9 9) (roi_at 0 0 9 9) A) as [M _].
match type of M with
| context [find ?f ?l] =>
    assert (F : find f l
                = Some (CopyHostToDeviceConstant dev_chrominance
                          (HostPixel (mkpixel half half half zero))))
      by (vm_compute; reflexivity);
    rewrite F in M
end.
destruct M as [E _]. rewrite E. reflexivity.
Defined.

(** On every path, whether it succeeds or fails at any call,
    [process_opposed_cl] ends with the same seven releases, one for each of
    its buffers and in the same order, after all its other calls; the handle
    released is a buffer exactly when the buffer had been acquired; and the
    function holds no buffer when it returns. *)
Theorem opencl_releases_every_buffer `{Externals} `{Device}
        (st : chroma_state) (piece : dt_dev_pixelpipe_iop_t)
        (roi_in roi_out : dt_iop_roi_t) :
  let log := cl_log (snd (process_opposed_cl st piece roi_in roi_out)) in
  cl_held (snd (process_opposed_cl st piece roi_in roi_out)) = [] /\
  exists calls,
    forallb (fun c => negb (cl_is_release c)) calls = true /\
    log = calls ++ map (fun m => ReleaseMemObject m (cl_acquired calls m)) cl_owned.
Proof.
cbv zeta.
destruct (process_opposed_cl_summary st piece roi_in roi_out) as (L & Hh & _ & _).
split; [exact Hh|].
exists (cl_until_failure (cl_planned st piece roi_in roi_out)).
split; [|exact L].
apply cl_until_failure_forallb. apply cl_planned_not_release.
Qed.

(** When [process_opposed_cl] writes the chrominance state. It does so
    exactly when the stored tag differs from the tag of the piece, the two
    first copies and every call of the estimation block succeed, the frame
    is the full pipeline and the image is flagged as edited; the state then
    receives the triple computed from the floats read back and the new tag.
    Neither the copy of the chrominance to the device nor the launch of the
    reconstruction kernel, which come after, has a say: the state is
    written also by a call that then fails. *)
Theorem opencl_state_written `{Externals} `{Device}
        (st : chroma_state) (piece : dt_dev_pixelpipe_iop_t)
        (roi_in roi_out : dt_iop_roi_t) :
  let written :=
    negb (feqf (_color_magic piece) (pget (d_chroma_correction st) 3) c1e_6)
    && acquires dev_xtrans && acquires dev_clips && cl_estimation_succeeds
    && (is_full (pipe_type piece) && dt_image_altered (image_id piece)) in
  cl_chroma (snd (process_opposed_cl st piece roi_in roi_out))
  = (if written then publish piece cl_chrominance_read st else st) /\
  (written = true ->
   cl_chroma (snd (process_opposed_cl st piece roi_in roi_out)) <> st) /\
  (written = true -> DT_OPENCL_DEFAULT_ERROR <> CL_SUCCESS ->
   acquires dev_chrominance = false
   \/ kernel_status kernel_highlights_opposed <> CL_SUCCESS ->
   fst (process_opposed_cl st piece roi_in roi_out) <> CL_SUCCESS).
Proof.
cbv zeta.
destruct (process_opposed_cl_summary st piece roi_in roi_out) as (_ & _ & R & E).
split; [exact E|]. split.
- intros Hw. rewrite E, Hw. apply publish_changes.
- intros _ Hd Hfail. rewrite R.
  pose proof (find_failing (cl_planned st piece roi_in roi_out)) as F.
  destruct (find (fun c => negb (cl_call_ok c)) (cl_planned st piece roi_in roi_out))
    as [c|].
  + apply cl_failed_status; [exact Hd|apply F].
  + exfalso. unfold cl_planned in F. cbv zeta in F.
    rewrite !forallb_app in F.
    apply andb_true_iff in F. destruct F as [_ F].
    apply andb_true_iff in F. destruct F as [_ F].
    cbn [forallb cl_call_ok cl_opposed_call] in F.
    apply andb_true_iff in F. destruct F as [Fc F].
    apply andb_true_iff in F. destruct F as [Fo _].
    destruct Hfail as [C|C]; [congruence|].
    apply C. apply Z.eqb_eq. exact Fo.
Qed.

(** When the stored tag equals the tag of the piece, [process_opposed_cl]
    makes none of the calls of the estimation block (no mask or accumulator
    buffer, no mask, dilation or accumulation kernel, no transfer), leaves
    the chrominance state as it is, and the chrominance it copies to the
    device is the stored triple with zero in the fourth place. *)
Theorem opencl_reuses_stored_correction `{Externals} `{Device}
        (st : chroma_state) (piece : dt_dev_pixelpipe_iop_t)
        (roi_in roi_out : dt_iop_roi_t) :
  feqf (_color_magic piece) (pget (d_chroma_correction st) 3) c1e_6 = true ->
  cl_chroma (snd (process_opposed_cl st piece roi_in roi_out)) = st /\
  forallb (fun c => negb (cl_is_estimation c))
          (cl_log (snd (process_opposed_cl st piece roi_in roi_out))) = true /\
  (forall data,
      In (CopyHostToDeviceConstant dev_chrominance data)
         (cl_log (snd (process_opposed_cl st piece roi_in roi_out))) ->
      data = HostPixel (mkpixel (pget (d_chroma_correction st) 0)
                                (pget (d_chroma_correction st) 1)
                                (pget (d_chroma_correction st) 2) zero)).
Proof.
intros Ht.
destruct (process_opposed_cl_summary st piece roi_in roi_out) as (L & _ & _ & C).
rewrite Ht in C. cbn [negb andb] in C.
split; [exact C|].
rewrite L.
set (planned := cl_planned st piece roi_in roi_out).
assert (Pl : forall c, In c planned ->
                       cl_is_estimation c = false /\
                       forall data,
                         c = CopyHostToDeviceConstant dev_chrominance data ->
                         data = HostPixel (mkpixel (pget (d_chroma_correction st) 0)
                                                   (pget (d_chroma_correction st) 1)
                                                   (pget (d_chroma_correction st) 2)
                                                   zero)).
{ unfold planned, cl_planned, cl_setup_calls, cl_opposed_call. cbv zeta. rewrite Ht.
  cbn [negb app In].
  intros c Hc.
  repeat (destruct Hc as [Hc|Hc]; [subst c; split; [reflexivity|];
                                   intros data E; try discriminate E|]);
    try contradiction.
  injection E as <-. reflexivity. }
split.
- rewrite forallb_app. apply andb_true_iff. split; [|reflexivity].
  apply forallb_forall. intros c Hc. apply cl_until_failure_in in Hc.
  destruct (Pl c Hc) as [Pe _]. rewrite Pe. reflexivity.
- intros data Hi. apply in_app_or in Hi. destruct Hi as [Hi|Hi].
  + apply cl_until_failure_in in Hi. destruct (Pl _ Hi) as [_ Pd].
    apply (Pd data eq_refl).
  + cbn [map cl_owned In] in Hi.
    repeat (destruct Hi as [Hi|Hi]; [discriminate Hi|]). contradiction.
Qed.

Lemma opencl_reuses_stored_correction_witness :
  @feqf (bench true) (@_color_magic (bench true) (bench_piece DT_DEV_PIXELPIPE_FULL))
        (pget (d_chroma_correction tagged_state) 3) c1e_6 = true /\
  cl_chroma (snd (@process_opposed_cl (bench true) (bench_device dev_in None)
                    tagged_state (bench_piece DT_DEV_PIXELPIPE_FULL)
                    (roi_at 0 0 9 9) (roi_at 0 0 9 9))) = tagged_state.
Proof.
assert (A : @feqf (bench true)
              (@_color_magic (bench true) (bench_piece DT_DEV_PIXELPIPE_FULL))
              (pget (d_chroma_correction tagged_state) 3) c1e_6 = true)
  by (vm_compute; reflexivity).
split; [exact A|].
apply (@opencl_reuses_stored_correction (bench true) (bench_device dev_in None)
         tagged_state (bench_piece DT_DEV_PIXELPIPE_FULL)
         (roi_at 0 0 9 9) (roi_at 0 0 9 9) A).
Defined.

Lemma opencl_releases_every_buffer_witness :
  cl_held (snd (@process_opposed_cl (bench true)
                  (bench_device dev_in (Some kernel_highlights_chroma))
                  bench_state (bench_piece DT_DEV_PIXELPIPE_FULL)
                  (roi_at 0 0 9 9) (roi_at 0 0 9 9))) = [].
Proof.
apply (@opencl_releases_every_buffer (bench true)
         (bench_device dev_in (Some kernel_highlights_chroma))
         bench_state (bench_piece DT_DEV_PIXELPIPE_FULL)
         (roi_at 0 0 9 9) (roi_at 0 0 9 9)).
Defined.

Lemma opencl_state_written_witness :
  cl_chroma (snd (@process_opposed_cl (bench true)
                    (bench_device dev_in (Some kernel_highlights_opposed))
                    bench_state (bench_piece DT_DEV_PIXELPIPE_FULL)
                    (roi_at 0 0 9 9) (roi_at 0 0 9 9))) <> bench_state /\
  fst (@process_opposed_cl (bench true)
         (bench_device dev_in (Some kernel_highlights_opposed))
         bench_state (bench_piece DT_DEV_PIXELPIPE_FULL)
         (roi_at 0 0 9 9) (roi_at 0 0 9 9)) <> CL_SUCCESS.
Proof.
destruct (@opencl_state_written (bench true)
            (bench_device dev_in (Some kernel_highlights_opposed))
            bench_state (bench_piece DT_DEV_PIXELPIPE_FULL)
            (roi_at 0 0 9 9) (roi_at 0 0 9 9)) as (_ & W & F).
assert (Hw : negb (@feqf (bench true)
                     (@_color_magic (bench true) (bench_piece DT_DEV_PIXELPIPE_FULL))
                     (pget (d_chroma_correction bench_state) 3) c1e_6)
             && @acquires (bench_device dev_in (Some kernel_highlights_opposed)) dev_xtrans
             && @acquires (bench_device dev_in (Some kernel_highlights_opposed)) dev_clips
             && @cl_estimation_succeeds
                  (bench_device dev_in (Some kernel_highlights_opposed))
             && (is_full (pipe_type (bench_piece DT_DEV_PIXELPIPE_FULL))
                 && @dt_image_altered (bench true)
                      (image_id (bench_piece DT_DEV_PIXELPIPE_FULL))) = true)
  by (vm_compute; reflexivity).
split; [exact (W Hw)|].
apply (F Hw); [discriminate|right; discriminate].
Defined.

(** The coarse grid of the OpenCL path is the one of the processor path as
    long as a mask plane has fewer than 2^31 cells (the OpenCL path holds
    its size in an [int]). The two masks it allocates on the device then
    have three planes of that size each, and the dilation kernel is launched
    over the whole grid of [mwidth] x [mheight] cells, with no subtraction
    on the host. *)
Theorem opencl_grid_matches_cpu `{Externals} `{Device}
        (st : chroma_state) (piece : dt_dev_pixelpipe_iop_t)
        (roi_in roi_out : dt_iop_roi_t) :
  frame_nonempty roi_in -> msize_of roi_in < 2 ^ 31 ->
  cl_mwidth roi_in = mwidth_of roi_in /\
  cl_mheight roi_in = mheight_of roi_in /\
  cl_msize roi_in = msize_of roi_in /\
  (forall m bytes,
      In (AllocDeviceBuffer m bytes)
         (cl_log (snd (process_opposed_cl st piece roi_in roi_out))) ->
      (m = dev_accu /\ bytes = 32)
      \/ ((m = dev_inmask \/ m = dev_outmask) /\ bytes = 3 * msize_of roi_in)) /\
  (forall sizex sizey args,
      In (EnqueueKernel2D kernel_highlights_dilatemask sizex sizey args)
         (cl_log (snd (process_opposed_cl st piece roi_in roi_out))) ->
      sizex = mwidth_of roi_in /\ sizey = mheight_of roi_in /\
      args = [ArgMem dev_inmask; ArgMem dev_outmask; ArgInt (mwidth_of roi_in);
              ArgInt (mheight_of roi_in); ArgInt (msize_of roi_in)]).
Proof.
intros Hne Hfit.
pose proof (mwidth_of_eq roi_in Hne) as Ew.
pose proof (mheight_of_eq roi_in Hne) as Eh.
pose proof (mwidth_of_range roi_in Hne) as Rw.
pose proof (mheight_of_range roi_in Hne) as Rh.
pose proof (msize_of_bounds roi_in Hne) as Rs.
assert (Cw : cl_mwidth roi_in = mwidth_of roi_in).
{ unfold cl_mwidth. rewrite Ew. destruct Hne. apply Z.quot_div_nonneg; lia. }
assert (Ch : cl_mheight roi_in = mheight_of roi_in).
{ unfold cl_mheight. rewrite Eh. destruct Hne. apply Z.quot_div_nonneg; lia. }
assert (Cs : cl_msize roi_in = msize_of roi_in).
{ unfold cl_msize. rewrite Cw, Ch.
  rewrite (to_size_t_small (mwidth_of roi_in + 1)) by lia.
  fold (msize_of roi_in).
  unfold to_int32.
  rewrite Z.mod_small by nia. lia. }
split; [exact Cw|]. split; [exact Ch|]. split; [exact Cs|].
assert (Sw : to_size_t (mwidth_of roi_in) = mwidth_of roi_in)
  by (apply to_size_t_small; lia).
assert (Sh : to_size_t (mheight_of roi_in) = mheight_of roi_in)
  by (apply to_size_t_small; lia).
assert (Sb : to_size_t (1 * 3 * msize_of roi_in) = 3 * msize_of roi_in)
  by (rewrite to_size_t_small by nia; lia).
assert (Pl : forall c,
           In c (cl_log (snd (process_opposed_cl st piece roi_in roi_out))) ->
           match c with
           | AllocDeviceBuffer m bytes =>
               (m = dev_accu /\ bytes = 32)
               \/ ((m = dev_inmask \/ m = dev_outmask) /\ bytes = 3 * msize_of roi_in)
           | EnqueueKernel2D kernel_highlights_dilatemask sizex sizey args =>
               sizex = mwidth_of roi_in /\ sizey = mheight_of roi_in /\
               args = [ArgMem dev_inmask; ArgMem dev_outmask; ArgInt (mwidth_of roi_in);
                       ArgInt (mheight_of roi_in); ArgInt (msize_of roi_in)]
           | _ => True
           end).
{ destruct (process_opposed_cl_summary st piece roi_in roi_out) as (L & _).
  rewrite L. intros c Hi. apply in_app_or in Hi. destruct Hi as [Hi|Hi].
  - apply cl_until_failure_in in Hi. revert Hi.
    unfold cl_planned, cl_setup_calls, cl_estimation_calls, cl_opposed_call.
    cbv zeta. rewrite Cw, Ch, Cs.
    destruct (negb (feqf (_color_magic piece) (pget (d_chroma_correction st) 3)
                         c1e_6));
      cbn [app In];
      intros Hi;
      repeat (destruct Hi as [Hi|Hi]; [subst c; rewrite ?Sb, ?Sw, ?Sh; auto|]);
      contradiction.
  - cbn [map cl_owned In] in Hi.
    repeat (destruct Hi as [Hi|Hi]; [subst c; exact I|]). contradiction. }
split.
- intros m bytes Hi. apply (Pl _ Hi).
- intros sizex sizey args Hi. apply (Pl _ Hi).
Qed.

Lemma opencl_grid_matches_cpu_witness :
  frame_nonempty (roi_at 0 0 9 9) /\ msize_of (roi_at 0 0 9 9) < 2 ^ 31 /\
  cl_msize (roi_at 0 0 9 9) = msize_of (roi_at 0 0 9 9).
Proof.
assert (A : frame_nonempty (roi_at 0 0 9 9)) by (unfold frame_nonempty; cbn; lia).
assert (B : msize_of (roi_at 0 0 9 9) < 2 ^ 31) by (vm_compute; reflexivity).
split; [exact A|]. split; [exact B|].
apply (@opencl_grid_matches_cpu (bench true) (bench_device dev_in None) bench_state
         (bench_piece DT_DEV_PIXELPIPE_FULL) (roi_at 0 0 9 9) (roi_at 0 0 9 9) A B).
Defined.

(** * Properties of the pixel-aspect scaler *)

Lemma to_int_range (f : float) : - 2 ^ 31 <= to_int f < 2 ^ 31.
Proof.
unfold to_int, INT_MIN. destruct f as [s|s| |s m e]; try lia.
match goal with
| |- context [if ?b then _ else _] => destruct b eqn:E
end; [|lia].
apply andb_true_iff in E. destruct E as [E1 E2].
apply Z.leb_le in E1. apply Z.ltb_lt in E2. lia.
Qed.

(** The sanity check of [modify_roi_out] holds whatever the input region
    and the pixel aspect ratio are (negative dimensions, a ratio that is
    zero, negative, infinite or NaN): the region it returns has an origin
    that is not negative and at least one pixel in each direction, its
    fields fit their [int] type, and its scale is the one of the input
    region. *)
Theorem modify_roi_out_is_sane
        (d : ScalePixels.dt_iop_scalepixels_data_t) (roi_in : dt_iop_roi_t) :
  0 <= roi_x (ScalePixels.modify_roi_out d roi_in) < 2 ^ 31 /\
  0 <= roi_y (ScalePixels.modify_roi_out d roi_in) < 2 ^ 31 /\
  1 <= roi_width (ScalePixels.modify_roi_out d roi_in) < 2 ^ 31 /\
  1 <= roi_height (ScalePixels.modify_roi_out d roi_in) < 2 ^ 31 /\
  roi_scale (ScalePixels.modify_roi_out d roi_in) = roi_scale roi_in.
Proof.
unfold ScalePixels.modify_roi_out.
cbn [roi_x roi_y roi_width roi_height roi_scale].
repeat match goal with
       | |- context [to_int ?f <? ?k] =>
           pose proof (to_int_range f); destruct (Z.ltb_spec (to_int f) k)
       end.
all: repeat split; lia.
Qed.

Lemma fle_zero_fgt (r : float) :
  is_nan r = false -> fle r zero = negb (fgt r zero).
Proof.
destruct r as [s|s| |s m e]; intros Hn; try discriminate Hn;
  destruct s; reflexivity.
Qed.

(** [commit_params] after [reload_defaults]. When the module has an
    image, the piece keeps its [enabled] flag exactly when
    [reload_defaults] has set [default_enabled], that is when the pixel
    aspect ratio of the image is a number, positive and different from 1;
    the enable button is hidden exactly when it has not. Without an image
    the parameters are reset to the ratio 1, [default_enabled] is left as
    it was and the piece is disabled. In both cases the two scales of the
    piece are 1 after the commit, whatever parameters the caller passes
    (the function reads the parameters of the module), and [init_pipe]
    commits the same. *)
Theorem commit_params_follows_defaults
        (self : ScalePixels.dt_iop_module_t)
        (params_arg : ScalePixels.dt_iop_scalepixels_params_t) (enabled : bool) :
  let self' := ScalePixels.reload_defaults self in
  let committed := ScalePixels.commit_params self' params_arg enabled in
  ScalePixels.x_scale (fst committed) = one /\
  ScalePixels.y_scale (fst committed) = one /\
  ScalePixels.init_pipe self' enabled = committed /\
  match ScalePixels.dev_image_pixel_aspect_ratio self with
  | Some ratio =>
      ScalePixels.pixel_aspect_ratio (fst committed) = ratio /\
      snd committed = enabled && ScalePixels.default_enabled self' /\
      ScalePixels.hide_enable_button self' = negb (ScalePixels.default_enabled self') /\
      (ScalePixels.default_enabled self' = true
       <-> is_nan ratio = false /\ flt zero ratio = true /\ ScalePixels.feq ratio one = false)
  | None =>
      ScalePixels.pixel_aspect_ratio (fst committed) = one /\
      snd committed = false /\
      ScalePixels.default_enabled self' = ScalePixels.default_enabled self /\
      ScalePixels.hide_enable_button self' = ScalePixels.hide_enable_button self
  end.
Proof.
cbv zeta.
unfold ScalePixels.init_pipe, ScalePixels.commit_params, ScalePixels.reload_defaults.
destruct (ScalePixels.dev_image_pixel_aspect_ratio self) as [ratio|];
  cbn [fst snd ScalePixels.x_scale ScalePixels.y_scale ScalePixels.pixel_aspect_ratio
       ScalePixels.params ScalePixels.default_params ScalePixels.default_enabled
       ScalePixels.hide_enable_button ScalePixels.params_pixel_aspect_ratio];
  (split; [reflexivity|]); (split; [reflexivity|]); (split; [reflexivity|]).
- split; [reflexivity|]. split; [|split; [reflexivity|]].
  + destruct (is_nan ratio) eqn:Hn; cbn [orb negb andb].
    * rewrite andb_false_r. reflexivity.
    * rewrite (fle_zero_fgt ratio Hn).
      destruct (fgt ratio zero), (ScalePixels.feq ratio one), enabled; reflexivity.
  + unfold fgt, flt.
    destruct (is_nan ratio), (SFltb zero ratio), (ScalePixels.feq ratio one);
      cbn [negb andb]; split; intros C; try discriminate C; try reflexivity;
      try (destruct C as (C1 & C2 & C3); discriminate); auto.
- repeat split; reflexivity.
Qed.

Section Points.

Variables (f g : float -> float).

(** The loop over the points applies [f] to the first and [g] to the second
    coordinate of every point and touches nothing else. *)
Lemma for_each_point_spec (points : buffer) (points_count : Z) :
  0 <= points_count < 2 ^ 63 ->
  let result :=
    ScalePixels.for_each_point points_count
      (fun i points =>
         let points := buf_set points i (f (points i)) in
         buf_set points (i + 1) (g (points (i + 1))))
      points in
  (forall k, 0 <= k < points_count ->
             result (2 * k) = f (points (2 * k)) /\
             result (2 * k + 1) = g (points (2 * k + 1))) /\
  (forall i, ~ 0 <= i < 2 * points_count -> result i = points i).
Proof.
intros Hc. cbv zeta. unfold ScalePixels.for_each_point.
rewrite to_size_t_small by lia.
replace ((points_count * 2 + 1) / 2) with points_count
  by (apply Z.div_unique with (r := 1); lia).
apply (for_each_inv
         (fun n t =>
            (forall k, 0 <= k < n ->
                       t (2 * k) = f (points (2 * k)) /\
                       t (2 * k + 1) = g (points (2 * k + 1))) /\
            (forall i, ~ 0 <= i < 2 * n -> t i = points i))); [lia| |].
- split; [intros k Hk; lia|reflexivity].
- intros j t Hj [Hdone Hrest]. cbv zeta. split.
  + intros k Hk. unfold buf_set.
    destruct (Z.eq_dec k j) as [->|Hne].
    * rewrite Z.eqb_refl.
      destruct (Z.eqb_spec (2 * j) (2 * j + 1)) as [C|_]; [lia|].
      rewrite Z.eqb_refl.
      destruct (Z.eqb_spec (2 * j + 1) (2 * j)) as [C|_]; [lia|].
      rewrite !Hrest by lia. auto.
    * destruct (Z.eqb_spec (2 * k) (2 * j + 1)) as [C|_]; [lia|].
      destruct (Z.eqb_spec (2 * k) (2 * j)) as [C|_]; [lia|].
      destruct (Z.eqb_spec (2 * k + 1) (2 * j + 1)) as [C|_]; [lia|].
      destruct (Z.eqb_spec (2 * k + 1) (2 * j)) as [C|_]; [lia|].
      apply Hdone. lia.
  + intros i Hi. unfold buf_set.
    destruct (Z.eqb_spec i (2 * j + 1)) as [C|_]; [lia|].
    destruct (Z.eqb_spec i (2 * j)) as [C|_]; [lia|].
    apply Hrest. lia.
Qed.

End Points.

(** [distort_transform] and [distort_backtransform] work point by point:
    the first divides and the second multiplies the first coordinate of
    each of the [points_count] points by [x_scale] and the second by
    [y_scale]; neither touches a float beyond the points, and both return
    1. *)
Theorem distort_transforms_pointwise
        (d : ScalePixels.dt_iop_scalepixels_data_t) (points : buffer)
        (points_count : Z) :
  0 <= points_count < 2 ^ 63 ->
  let forth := ScalePixels.distort_transform d points points_count in
  let back := ScalePixels.distort_backtransform d points points_count in
  snd forth = 1 /\ snd back = 1 /\
  (forall k, 0 <= k < points_count ->
     fst forth (2 * k) = fdiv (points (2 * k)) (ScalePixels.x_scale d) /\
     fst forth (2 * k + 1) = fdiv (points (2 * k + 1)) (ScalePixels.y_scale d) /\
     fst back (2 * k) = fmul (points (2 * k)) (ScalePixels.x_scale d) /\
     fst back (2 * k + 1) = fmul (points (2 * k + 1)) (ScalePixels.y_scale d)) /\
  (forall i, ~ 0 <= i < 2 * points_count ->
     fst forth i = points i /\ fst back i = points i).
Proof.
intros Hc. cbv zeta.
unfold ScalePixels.distort_transform, ScalePixels.distort_backtransform.
cbn [fst snd].
destruct (for_each_point_spec (fun v => fdiv v (ScalePixels.x_scale d))
            (fun v => fdiv v (ScalePixels.y_scale d)) points points_count Hc)
  as [F1 F2].
destruct (for_each_point_spec (fun v => fmul v (ScalePixels.x_scale d))
            (fun v => fmul v (ScalePixels.y_scale d)) points points_count Hc)
  as [B1 B2].
cbv zeta in F1, F2, B1, B2.
split; [reflexivity|]. split; [reflexivity|]. split.
- intros k Hk. destruct (F1 k Hk) as [Fa Fb]. destruct (B1 k Hk) as [Ba Bb].
  auto.
- intros i Hi. split; [apply F2|apply B2]; exact Hi.
Qed.

Lemma distort_transforms_pointwise_witness :
  0 <= 2 < 2 ^ 63 /\
  fst (ScalePixels.distort_transform
         {| ScalePixels.pixel_aspect_ratio := two;
            ScalePixels.x_scale := two;
            ScalePixels.y_scale := one |} sraw_bright 2) (2 * 1)
  = fdiv (sraw_bright (2 * 1)) two.
Proof.
split; [lia|].
destruct (distort_transforms_pointwise
            {| ScalePixels.pixel_aspect_ratio := two;
               ScalePixels.x_scale := two;
               ScalePixels.y_scale := one |} sraw_bright 2 ltac:(lia))
  as (_ & _ & M & _).
destruct (M 1 ltac:(lia)) as (E & _). exact E.
Defined.

Lemma flt_asym (a b : float) : flt a b = true -> flt b a = false.
Proof. intros Hl. apply fge_not_flt. apply flt_fge. exact Hl. Qed.

Lemma flt_irrefl (a : float) : flt a a = false.
Proof.
destruct (flt a a) eqn:E; [|reflexivity].
rewrite (flt_asym a a E) in E. discriminate E.
Qed.

Lemma MIN_not_above (a b : float) : flt b (ScalePixels.MIN a b) = false.
Proof.
unfold ScalePixels.MIN. destruct (flt a b) eqn:E.
- apply flt_asym. exact E.
- apply flt_irrefl.
Qed.

(** [process] writes the four floats of every pixel of the output region
    and nothing else. The pixel [(i, j)] receives what the interpolation
    kernel returns for the sample position [(min(i * x_scale, width),
    min(j * y_scale, height))] of the input: a position that never exceeds
    the width and the height of the input region, whatever the scales are
    (it is the width or the height itself when the product is NaN). *)
Theorem process_samples_within_input `{ScalePixels.Interpolation}
        (d : ScalePixels.dt_iop_scalepixels_data_t) (colors : Z)
        (ivoid ovoid : buffer) (roi_in roi_out : dt_iop_roi_t) :
  roi_ok roi_out ->
  (forall i j,
      flt (of_Z (roi_width roi_in)) (ScalePixels.sample_x d roi_in i) = false /\
      flt (of_Z (roi_height roi_in)) (ScalePixels.sample_y d roi_in j) = false) /\
  (forall i j c,
      0 <= j < roi_height roi_out -> 0 <= i < roi_width roi_out -> 0 <= c < 4 ->
      ScalePixels.process d colors ivoid ovoid roi_in roi_out
                          ((j * roi_width roi_out + i) * 4 + c)
      = pget (ScalePixels.dt_interpolation_compute_pixel4c
                ivoid (ScalePixels.sample_x d roi_in i) (ScalePixels.sample_y d roi_in j)
                (roi_width roi_in) (roi_height roi_in) (colors * roi_width roi_in)) c) /\
  (forall k,
      ~ 0 <= k < 4 * (roi_width roi_out * roi_height roi_out) ->
      ScalePixels.process d colors ivoid ovoid roi_in roi_out k = ovoid k).
Proof.
intros (Hw & Hh & _).
split; [intros i j; split; apply MIN_not_above|].
set (w := roi_width roi_out) in *.
set (v := fun k =>
            pget (ScalePixels.dt_interpolation_compute_pixel4c
                    ivoid (ScalePixels.sample_x d roi_in ((k / 4) mod w))
                    (ScalePixels.sample_y d roi_in (k / 4 / w))
                    (roi_width roi_in) (roi_height roi_in)
                    (colors * roi_width roi_in)) (k mod 4)).
assert (F : fills (fun o => ScalePixels.process d colors ivoid o roi_in roi_out)
                  (fun k => 0 <= k < 4 * (w * roi_height roi_out) /\ k mod 4 < 4) v).
{ unfold ScalePixels.process. fold w.
  apply (fills_iff _ (fun k => exists j, 0 <= j < roi_height roi_out /\
                                exists i, 0 <= i < w /\
                                exists c, 0 <= c < 4 /\ k = (j * w + i) * 4 + c)).
  { intros k. apply channel_index; lia. }
  apply fills_loop. intros j Hj. apply fills_loop. intros i Hi.
  apply fills_loop. intros c Hc.
  rewrite to_size_t_small by nia.
  replace (4 * j * w + 4 * i + c) with ((j * w + i) * 4 + c) by lia.
  apply fills_set. unfold v.
  rewrite (index_div (j * w + i) c 4) by lia.
  rewrite (index_mod (j * w + i) c 4) by lia.
  rewrite index_div, index_mod by lia. reflexivity. }
split.
- intros i j c Hj Hi Hc.
  rewrite (fills_hit _ _ _ F).
  + unfold v.
    rewrite (index_div (j * w + i) c 4) by lia.
    rewrite (index_mod (j * w + i) c 4) by lia.
    rewrite index_div, index_mod by lia. reflexivity.
  + rewrite (index_mod (j * w + i) c 4) by lia. nia.
- intros k Hk. apply (fills_miss _ _ _ F). intros [Hin _]. apply Hk. exact Hin.
Qed.

Lemma process_samples_within_input_witness :
  roi_ok (roi_at 0 0 4 2) /\
  @ScalePixels.process bench_interpolation bench_scaler 4 sraw_bright blank
                       (roi_at 0 0 2 2) (roi_at 0 0 4 2) ((1 * 4 + 3) * 4 + 0)
  = ScalePixels.sample_x bench_scaler (roi_at 0 0 2 2) 3.
Proof.
assert (A : roi_ok (roi_at 0 0 4 2)) by (unfold roi_ok; cbn; lia).
split; [exact A|].
destruct (@process_samples_within_input bench_interpolation bench_scaler 4
            sraw_bright blank (roi_at 0 0 2 2) (roi_at 0 0 4 2) A) as (_ & M & _).
pose proof (M 3 1 0 ltac:(cbn; lia) ltac:(cbn; lia) ltac:(lia)) as E.
change (roi_width (roi_at 0 0 4 2)) with 4 in E.
rewrite E. reflexivity.
Defined.
